(** * Verification of the package anonymizer

    The program under study is the script [tools/scripts/anonymize-package.js]
    (a Node/Bun script).  This development embeds, function by function, the
    parts of the script that deal with module specifiers:

    - the path resolver inlined in [extractImports], [findUsedFiles] and
      [updateExportPaths];
    - the reference extractor [extractImports];
    - the dependency graph builder [findUsedFiles];
    - the directory rename planner [anonymizeDirectories] with
      [generateFolderName];
    - the reference rewriter [updateExportPaths] and its driver
      [updateAllFilePaths];
    - the argument checks at the start of [main];

    and, in the module [Anonymizer], the steps that work on the files:

    - the generated names [generateAnonymizedName], [generateTestFileName]
      and [generateTestName];
    - the finders [findTestFiles] and [findSourceFiles];
    - the texts of [anonymizeTestFile] and [anonymizeSourceFile];
    - [deleteFile], [isDirectoryEmpty] and [removeEmptyDirectories];
    - the loops and local functions of [main]: the loop over the test
      files, [deleteTestDirectories], the deletion loop, the creation of
      [vitest.config.ts] and [cleanupEmptyDirs].

    The functions that read and write JSON ([updatePackageJson],
    [updateProjectJson], [getImportPath]) and [updateTsConfigBase] are not
    embedded.

    JavaScript strings are [string]s (every character a code unit below 256),
    the file system is a finite tree of directories and files, Node's [path]
    module is modelled for POSIX, and the three regular expressions of the
    script are run by a small backtracking matcher. *)

From Stdlib Require Import Bool Arith Lia List ZArith.
From Stdlib Require Import Ascii String DecimalString.
Import ListNotations.

Open Scope list_scope.
Open Scope string_scope.

(* ===================================================================== *)
(** * JavaScript string primitives *)
(* ===================================================================== *)

Module JsString.

(** [s.startsWith(p)] *)
Definition startsWith (s p : string) : bool := String.prefix p s.

(** [s.endsWith(p)]: some suffix of [s] equals [p]. *)
Fixpoint endsWith (s p : string) : bool :=
  if String.eqb s p then true
  else match s with
       | EmptyString => false
       | String _ s' => endsWith s' p
       end.

(** [s.replace(/p$/, '')] for a literal [p]: drop [p] when it ends [s]. *)
Fixpoint removeSuffix (p s : string) : string :=
  if String.eqb s p then EmptyString
  else match s with
       | EmptyString => EmptyString
       | String c s' => String c (removeSuffix p s')
       end.

(** [s.slice(n)] *)
Fixpoint drop (n : nat) (s : string) : string :=
  match n, s with
  | O, _ => s
  | S _, EmptyString => EmptyString
  | S k, String _ s' => drop k s'
  end.

(** [s.slice(0, n)] *)
Fixpoint take (n : nat) (s : string) : string :=
  match n, s with
  | O, _ => EmptyString
  | S _, EmptyString => EmptyString
  | S k, String c s' => String c (take k s')
  end.

(** [s.split(sep)] for a one-character separator. *)
Fixpoint split (sep : ascii) (s : string) : list string :=
  match s with
  | EmptyString => [EmptyString]
  | String c s' =>
      if Ascii.eqb c sep then EmptyString :: split sep s'
      else match split sep s' with
           | h :: t => String c h :: t
           | [] => [String c EmptyString]
           end
  end.

(** [parts.join(sep)] *)
Fixpoint join (sep : string) (l : list string) : string :=
  match l with
  | [] => EmptyString
  | [x] => x
  | x :: l' => x ++ sep ++ join sep l'
  end.

(** Position of the first occurrence of [p] in [s], as the pair of the
    text before it and the text after it. *)
Fixpoint cut (p s : string) : option (string * string) :=
  if String.prefix p s then Some (EmptyString, drop (String.length p) s)
  else match s with
       | EmptyString => None
       | String c s' =>
           match cut p s' with
           | Some (b, a) => Some (String c b, a)
           | None => None
           end
       end.

(** The replacement text of [String.prototype.replace] with a string
    pattern: [$$] is a dollar sign, [$&] the matched text, [$`] the text
    before the match and [$'] the text after it; any other character,
    also a dollar sign followed by something else, stands for itself. *)
Fixpoint substitution (matched before after repl : string) : string :=
  match repl with
  | EmptyString => EmptyString
  | String c r =>
      if Ascii.eqb c "$" then
        match r with
        | String d r' =>
            if Ascii.eqb d "$" then String "$" (substitution matched before after r')
            else if Ascii.eqb d "&" then matched ++ substitution matched before after r'
            else if Ascii.eqb d "`" then before ++ substitution matched before after r'
            else if Ascii.eqb d "'" then after ++ substitution matched before after r'
            else String c (substitution matched before after r)
        | EmptyString => String c EmptyString
        end
      else String c (substitution matched before after r)
  end.

(** [s.replace(pattern, replacement)] with both arguments strings: only
    the first occurrence of [pattern] is replaced. *)
Definition replaceFirst (s pattern repl : string) : string :=
  match cut pattern s with
  | Some (b, a) => b ++ substitution pattern b a repl ++ a
  | None => s
  end.

End JsString.

(* ===================================================================== *)
(** * Node's [path] module, POSIX flavour *)
(* ===================================================================== *)

Module Path.
Import JsString.

Definition sep : ascii := "/"%char.

Definition isAbsolute (p : string) : bool :=
  match p with
  | String c _ => Ascii.eqb c sep
  | EmptyString => false
  end.

Definition hasTrailingSep (p : string) : bool := endsWith p "/".

(** [normalizeString] of Node, on the list of segments and with the
    segments kept so far in reverse order: empty segments and [.] are
    dropped, [..] removes the segment before it; above the start of a
    relative path [..] is kept, above the root it is dropped. *)
Fixpoint normalizeSegs (allowAboveRoot : bool) (acc : list string)
         (segs : list string) : list string :=
  match segs with
  | [] => rev acc
  | s :: rest =>
      if String.eqb s "" then normalizeSegs allowAboveRoot acc rest
      else if String.eqb s "." then normalizeSegs allowAboveRoot acc rest
      else if String.eqb s ".." then
        match acc with
        | top :: acc' =>
            if String.eqb top ".."
            then normalizeSegs allowAboveRoot
                   (if allowAboveRoot then ".." :: acc else acc) rest
            else normalizeSegs allowAboveRoot acc' rest
        | [] =>
            normalizeSegs allowAboveRoot
              (if allowAboveRoot then [".."] else []) rest
        end
      else normalizeSegs allowAboveRoot (s :: acc) rest
  end.

Definition normalizeString (p : string) (allowAboveRoot : bool) : string :=
  join "/" (normalizeSegs allowAboveRoot [] (split sep p)).

(** [path.normalize] *)
Definition normalize (p : string) : string :=
  match p with
  | EmptyString => "."
  | _ =>
      let abs := isAbsolute p in
      let trailing := hasTrailingSep p in
      let q := normalizeString p (negb abs) in
      match q with
      | EmptyString => if abs then "/" else if trailing then "./" else "."
      | _ =>
          let q' := if trailing then q ++ "/" else q in
          if abs then "/" ++ q' else q'
      end
  end.

(** [path.join] *)
Definition joinPaths (args : list string) : string :=
  match filter (fun a => negb (String.eqb a "")) args with
  | [] => "."
  | l => normalize (join "/" l)
  end.

(** The arguments of [path.resolve] that count: scanning from the right,
    everything up to and including the first absolute one; the working
    directory is put in front when no argument is absolute. *)
Fixpoint resolveArgs (args : list string) : bool * list string :=
  match args with
  | [] => (false, [])
  | a :: rest =>
      let '(abs, used) := resolveArgs rest in
      if abs then (true, used)
      else if String.eqb a "" then (false, used)
      else (isAbsolute a, a :: used)
  end.

(** The segments of [path.resolve(...args)].  [cwd] is what
    [process.cwd()] returns, an absolute path. *)
Definition resolveSegs (cwd : string) (args : list string) : list string :=
  let '(abs, used) := resolveArgs args in
  let used' := if abs then used else cwd :: used in
  normalizeSegs false [] (flat_map (split sep) used').

(** [path.resolve]: always an absolute path, without a trailing separator. *)
Definition resolve (cwd : string) (args : list string) : string :=
  "/" ++ join "/" (resolveSegs cwd args).

(** Longest common prefix removed from both lists. *)
Fixpoint dropCommon (a b : list string) : list string * list string :=
  match a, b with
  | x :: a', y :: b' =>
      if String.eqb x y then dropCommon a' b' else (a, b)
  | _, _ => (a, b)
  end.

(** [path.relative]: both paths are resolved first; the result climbs
    out of what is left of [from] and descends into what is left of [to].
    Node scans the two resolved strings character by character up to the
    last common separator, which is this comparison of segments. *)
Definition relative (cwd from to : string) : string :=
  let f := resolveSegs cwd [from] in
  let t := resolveSegs cwd [to] in
  let '(f', t') := dropCommon f t in
  join "/" (map (fun _ => "..") f' ++ t')%list.

Fixpoint hasNonSep (s : string) : bool :=
  match s with
  | EmptyString => false
  | String c s' => negb (Ascii.eqb c sep) || hasNonSep s'
  end.

(** Index, in [s], of the last separator that has a character other than
    a separator somewhere after it. *)
Fixpoint lastSep (s : string) : option nat :=
  match s with
  | EmptyString => None
  | String c s' =>
      match lastSep s' with
      | Some i => Some (S i)
      | None => if Ascii.eqb c sep && hasNonSep s' then Some O else None
      end
  end.

(** [path.dirname] *)
Definition dirname (p : string) : string :=
  match p with
  | EmptyString => "."
  | String c rest =>
      let hasRoot := Ascii.eqb c sep in
      match lastSep rest with
      | None => if hasRoot then "/" else "."
      | Some i =>
          if hasRoot && Nat.eqb i 0 then "//"
          else String c (take i rest)
      end
  end.

End Path.

(* ===================================================================== *)
(** * The file system *)
(* ===================================================================== *)

(** A file system is a tree: a file holds its text, a directory holds its
  entries in the order [readdir] lists them.  There are no symbolic
  links, so a path names the node its segments lead to.  Every call
  returns [None] where Node throws. *)

Module Fs.

#[warnings="-register-all"] Inductive node : Type :=
| File (content : string)
| Dir (entries : list (string * node)).

Record t : Type := mk { cwd : string; root : node }.

Definition isDir (n : node) : bool :=
  match n with Dir _ => true | File _ => false end.

Fixpoint assoc (name : string) (es : list (string * node)) : option node :=
  match es with
  | [] => None
  | (k, v) :: es' => if String.eqb k name then Some v else assoc name es'
  end.

Fixpoint setEntry (name : string) (v : node) (es : list (string * node))
  : list (string * node) :=
  match es with
  | [] => [(name, v)]
  | (k, w) :: es' =>
      if String.eqb k name then (k, v) :: es'
      else (k, w) :: setEntry name v es'
  end.

Fixpoint removeEntry (name : string) (es : list (string * node))
  : list (string * node) :=
  match es with
  | [] => []
  | (k, w) :: es' =>
      if String.eqb k name then es' else (k, w) :: removeEntry name es'
  end.

Fixpoint lookup (n : node) (segs : list string) : option node :=
  match segs with
  | [] => Some n
  | s :: rest =>
      match n with
      | Dir es =>
          match assoc s es with
          | Some c => lookup c rest
          | None => None
          end
      | File _ => None
      end
  end.

(** Replace (or create) the node at [segs] by [v]; the directories on the
    way must exist. *)
Fixpoint place (segs : list string) (v : node) (n : node) : option node :=
  match segs with
  | [] => Some v
  | s :: rest =>
      match n with
      | Dir es =>
          match rest with
          | [] => Some (Dir (setEntry s v es))
          | _ =>
              match assoc s es with
              | Some c =>
                  match place rest v c with
                  | Some c' => Some (Dir (setEntry s c' es))
                  | None => None
                  end
              | None => None
              end
          end
      | File _ => None
      end
  end.

(** Remove the node at [segs]. *)
Fixpoint unlink (segs : list string) (n : node) : option node :=
  match segs with
  | [] => None
  | s :: rest =>
      match n with
      | Dir es =>
          match assoc s es with
          | Some c =>
              match rest with
              | [] => Some (Dir (removeEntry s es))
              | _ =>
                  match unlink rest c with
                  | Some c' => Some (Dir (setEntry s c' es))
                  | None => None
                  end
              end
          | None => None
          end
      | File _ => None
      end
  end.

Definition segsOf (fs : t) (p : string) : list string :=
  Path.resolveSegs (cwd fs) [p].

Definition stat (fs : t) (p : string) : option node :=
  lookup (root fs) (segsOf fs p).

(** [fs.existsSync] *)
Definition existsSync (fs : t) (p : string) : bool :=
  match stat fs p with Some _ => true | None => false end.

(** [fs.readFileSync(p, 'utf8')] *)
Definition readFileSync (fs : t) (p : string) : option string :=
  match stat fs p with
  | Some (File c) => Some c
  | _ => None
  end.

(** [fs.writeFileSync(p, text, 'utf8')] *)
Definition writeFileSync (fs : t) (p : string) (text : string) : option t :=
  match stat fs p with
  | Some (Dir _) => None
  | _ =>
      match place (segsOf fs p) (File text) (root fs) with
      | Some r => Some (mk (cwd fs) r)
      | None => None
      end
  end.

(** [fs.readdirSync(p, { withFileTypes: true })]: the name of every
    entry with the answer of its [isDirectory()]. *)
Definition readdirSync (fs : t) (p : string) : option (list (string * bool)) :=
  match stat fs p with
  | Some (Dir es) => Some (map (fun e => (fst e, isDir (snd e))) es)
  | _ => None
  end.

Fixpoint isPrefixSegs (a b : list string) : bool :=
  match a, b with
  | [], _ => true
  | x :: a', y :: b' => String.eqb x y && isPrefixSegs a' b'
  | _ :: _, [] => false
  end.

Definition eqSegs (a b : list string) : bool :=
  isPrefixSegs a b && isPrefixSegs b a.

(** [fs.renameSync(old, new)], after rename(2): the source must exist,
    a directory may only replace an empty directory and a file may only
    replace a file, and a directory cannot be moved below itself. *)
Definition renameSync (fs : t) (old new : string) : option t :=
  let so := segsOf fs old in
  let sn := segsOf fs new in
  match lookup (root fs) so with
  | None => None
  | Some src =>
      if eqSegs so sn then Some fs
      else if isPrefixSegs so sn then None
      else
        let clash :=
          match lookup (root fs) sn, src with
          | None, _ => false
          | Some (Dir []), Dir _ => false
          | Some (File _), File _ => false
          | Some _, _ => true
          end in
        if clash then None
        else
          match unlink so (root fs) with
          | None => None
          | Some r1 =>
              match place sn src r1 with
              | Some r2 => Some (mk (cwd fs) r2)
              | None => None
              end
          end
  end.

End Fs.

(* ===================================================================== *)
(** * The regular expressions of the script *)
(* ===================================================================== *)

(** The three patterns of the script are sequences of literals, single
    character classes, greedy [+], lazy [*?] and one capture group around a
    greedy [+].  [rmatch] is a backtracking matcher for such sequences with
    the priorities of JavaScript: a greedy repetition tries the longest run
    first, a lazy one the shortest. *)

Module Regex.
Import JsString.

Definition dquote : ascii := Eval cbv in ascii_of_nat 34.
Definition squote : ascii := "'"%char.

(** [\s], for code units below 256 *)
Definition isSpace (c : ascii) : bool :=
  let n := nat_of_ascii c in
  (Nat.leb 9 n && Nat.leb n 13) || Nat.eqb n 32 || Nat.eqb n 160.

(** [.]: anything but a line terminator *)
Definition isDot (c : ascii) : bool :=
  let n := nat_of_ascii c in negb (Nat.eqb n 10 || Nat.eqb n 13).

(** [[^{*]] *)
Definition notBraceStar (c : ascii) : bool :=
  negb (Ascii.eqb c "{" || Ascii.eqb c "*").

(** the class of the two quote characters, single and double *)
Definition isQuote (c : ascii) : bool :=
  Ascii.eqb c squote || Ascii.eqb c dquote.

(** the class of everything but the two quote characters *)
Definition notQuote (c : ascii) : bool := negb (isQuote c).

Inductive atom : Type :=
| Lit (l : string)                 (* the characters of [l] *)
| One (p : ascii -> bool)          (* one character of the class *)
| Plus (p : ascii -> bool)         (* class+  *)
| StarLazy (p : ascii -> bool)     (* class*? *)
| Cap (p : ascii -> bool).         (* (class+), the capture group *)

Definition regex : Type := list atom.

(** The result of a match attempt at the start of the text: the captured
    group and the text left after the match. *)
Definition result : Type := option (string * string).

Fixpoint stripPrefix (l s : string) : option string :=
  match l with
  | EmptyString => Some s
  | String a l' =>
      match s with
      | String b s' => if Ascii.eqb a b then stripPrefix l' s' else None
      | EmptyString => None
      end
  end.

Fixpoint plusGreedy (p : ascii -> bool) (k : string -> result) (s : string)
  : result :=
  match s with
  | String c s' =>
      if p c then
        match plusGreedy p k s' with
        | Some r => Some r
        | None => k s'
        end
      else None
  | EmptyString => None
  end.

Fixpoint starLazy (p : ascii -> bool) (k : string -> result) (s : string)
  : result :=
  match k s with
  | Some r => Some r
  | None =>
      match s with
      | String c s' => if p c then starLazy p k s' else None
      | EmptyString => None
      end
  end.

(** The capture group: [acc] holds, in reverse, the characters taken. *)
Fixpoint capGreedy (p : ascii -> bool) (k : string -> string -> result)
         (acc : list ascii) (s : string) : result :=
  match s with
  | String c s' =>
      if p c then
        match capGreedy p k (c :: acc) s' with
        | Some r => Some r
        | None => k (string_of_list_ascii (rev (c :: acc))) s'
        end
      else None
  | EmptyString => None
  end.

Fixpoint rmatch (r : regex) (cap : string) (s : string) {struct r} : result :=
  match r with
  | [] => Some (cap, s)
  | Lit l :: r' =>
      match stripPrefix l s with
      | Some s' => rmatch r' cap s'
      | None => None
      end
  | One p :: r' =>
      match s with
      | String c s' => if p c then rmatch r' cap s' else None
      | EmptyString => None
      end
  | Plus p :: r' => plusGreedy p (rmatch r' cap) s
  | StarLazy p :: r' => starLazy p (rmatch r' cap) s
  | Cap p :: r' => capGreedy p (fun c rest => rmatch r' c rest) [] s
  end.

(** [/import\s+[^{*].*?\s+from\s+Q([^Q]+)Q/g], the direct imports; [Q]
    stands for the class of the two quote characters. *)
Definition importRegex : regex :=
  [Lit "import"; Plus isSpace; One notBraceStar; StarLazy isDot; Plus isSpace;
   Lit "from"; Plus isSpace; One isQuote; Cap notQuote; One isQuote].

(** [/export\s+.*?\s+from\s+Q([^Q]+)Q/g] *)
Definition exportFromRegex : regex :=
  [Lit "export"; Plus isSpace; StarLazy isDot; Plus isSpace;
   Lit "from"; Plus isSpace; One isQuote; Cap notQuote; One isQuote].

(** [/import\s+.*?\s+from\s+Q([^Q]+)Q/g] *)
Definition importFromRegex : regex :=
  [Lit "import"; Plus isSpace; StarLazy isDot; Plus isSpace;
   Lit "from"; Plus isSpace; One isQuote; Cap notQuote; One isQuote].

(** One found match: the matched text and its capture group. *)
Record found : Type := mkFound { matched : string; group1 : string }.

(** The loop [while ((match = re.exec(content)) !== null)] of a global
    pattern: the matches from left to right, each search starting where the
    match before ended.  [skip] counts the characters of the last match
    still to be passed.  (Every pattern here starts with a keyword, so a
    match is never empty.) *)
Fixpoint execLoop (re : regex) (skip : nat) (s : string) : list found :=
  match s with
  | EmptyString => []
  | String c s' =>
      match skip with
      | S k => execLoop re k s'
      | O =>
          match rmatch re EmptyString s with
          | Some (cap, rest) =>
              let n := String.length s' - String.length rest in
              mkFound (String c (take n s')) cap :: execLoop re n s'
          | None => execLoop re O s'
          end
      end
  end.

Definition execAll (re : regex) (s : string) : list found := execLoop re O s.

(** [content.replace(re, callback)] for a global pattern: every match is
    replaced by what the callback returns for it, the text between matches
    is kept.  The callback also says whether it set the flag [modified]. *)
Fixpoint replaceLoop (re : regex) (f : found -> string * bool) (skip : nat)
         (s : string) : string * bool :=
  match s with
  | EmptyString => (EmptyString, false)
  | String c s' =>
      match skip with
      | S k => replaceLoop re f k s'
      | O =>
          match rmatch re EmptyString s with
          | Some (cap, rest) =>
              let n := String.length s' - String.length rest in
              let '(out, fl) := f (mkFound (String c (take n s')) cap) in
              let '(tl, fl') := replaceLoop re f n s' in
              (out ++ tl, fl || fl')
          | None =>
              let '(tl, fl') := replaceLoop re f O s' in
              (String c tl, fl')
          end
      end
  end.

Definition replaceAll (re : regex) (f : found -> string * bool) (s : string)
  : string * bool := replaceLoop re f O s.

End Regex.

(* ===================================================================== *)
(** * The script *)
(* ===================================================================== *)

(** How a run of a function of the script ends: with its value, with an
    exception of a file-system call, or (in this model only) without
    having finished within the steps it was given. *)
Inductive outcome (A : Type) : Type :=
| Done (a : A)
| Threw
| OutOfFuel.
Arguments Done {A} a.
Arguments Threw {A}.
Arguments OutOfFuel {A}.

Module Script.
Import JsString Regex.

(** ** The path resolver

    The same lines stand in [extractImports] (twice), [findUsedFiles] and
    [updateExportPaths] (twice): a specifier ending in [.ts] is taken as it
    is; otherwise [.ts] is appended, and when no such file exists the
    specifier is taken as a directory with an [index.ts]. *)
Definition resolveImportPath (fs : Fs.t) (dir importPath : string) : string :=
  if endsWith importPath ".ts" then
    Path.resolve (Fs.cwd fs) [dir; importPath]
  else
    let resolvedPath := Path.resolve (Fs.cwd fs) [dir; importPath ++ ".ts"] in
    if Fs.existsSync fs resolvedPath then resolvedPath
    else Path.resolve (Fs.cwd fs) [dir; importPath; "index.ts"].

(** "Only include if it's within the package": the test on the resolved
    path, which yields the path that is pushed. *)
Definition withinPackage (fs : Fs.t) (packageRoot resolvedPath : string)
  : option string :=
  let normalizedResolved := Path.normalize resolvedPath in
  let normalizedRoot := Path.normalize packageRoot in
  if startsWith normalizedResolved normalizedRoot
     && Fs.existsSync fs normalizedResolved
  then Some normalizedResolved else None.

(** [importPath.startsWith('.') || importPath.startsWith('/')] *)
Definition isRelative (importPath : string) : bool :=
  startsWith importPath "." || startsWith importPath "/".

(** The test of [extractImports]: "Skip external packages (starting with @
    or not relative)". *)
Definition isExternal (importPath : string) : bool :=
  startsWith importPath "@"
  || (negb (startsWith importPath ".") && negb (startsWith importPath "/")).

(** The body of one round of a [while (... exec ...)] loop of
    [extractImports]: nothing for an external specifier, else the resolved
    path when it passes the test. *)
Definition resolveMatch (fs : Fs.t) (filePath packageRoot : string)
           (m : found) : list string :=
  let importPath := group1 m in
  if isExternal importPath then []
  else
    let dir := Path.dirname filePath in
    match withinPackage fs packageRoot (resolveImportPath fs dir importPath) with
    | Some p => [p]
    | None => []
    end.

Record imports : Type :=
  mkImports { directImports : list string; reExports : list string }.

(** ** [extractImports] *)
Definition extractImports (fs : Fs.t) (filePath packageRoot : string)
  : option imports :=
  if negb (Fs.existsSync fs filePath) then Some (mkImports [] [])
  else
    match Fs.readFileSync fs filePath with
    | None => None
    | Some content =>
        Some (mkImports
                (flat_map (resolveMatch fs filePath packageRoot)
                   (execAll importRegex content))
                (flat_map (resolveMatch fs filePath packageRoot)
                   (execAll exportFromRegex content)))
    end.

(** ** JavaScript's [Set] of strings: the members in insertion order *)
Definition setHas (s : list string) (x : string) : bool :=
  existsb (String.eqb x) s.

Definition setAdd (s : list string) (x : string) : list string :=
  if setHas s x then s else (s ++ [x])%list.

(** The first inner loop of [findUsedFiles], for one match. *)
Definition directMatch (fs : Fs.t) (currentFile packageRoot : string)
           (m : found) : list string :=
  let importPath := group1 m in
  if isRelative importPath then
    let dir := Path.dirname currentFile in
    match withinPackage fs packageRoot (resolveImportPath fs dir importPath) with
    | Some p => [p]
    | None => []
    end
  else [].

(** The state of the traversal. *)
Record traversal : Type :=
  mkTraversal { usedFiles : list string;
                directlyImportedFiles : list string;
                toProcess : list string }.

(** [for (const importPath of directImports) { ... }] *)
Fixpoint trackDirect (used : list string) (ds : list string)
         (direct queue : list string) : list string * list string :=
  match ds with
  | [] => (direct, queue)
  | importPath :: ds' =>
      let normalizedImport := Path.normalize importPath in
      trackDirect used ds' (setAdd direct normalizedImport)
        (if setHas used normalizedImport then queue
         else (queue ++ [normalizedImport])%list)
  end.

(** [for (const importPath of reExports) { ... }] *)
Fixpoint trackReExports (used : list string) (rs : list string)
         (queue : list string) : list string :=
  match rs with
  | [] => queue
  | importPath :: rs' =>
      let normalizedImport := Path.normalize importPath in
      trackReExports used rs'
        (if setHas used normalizedImport then queue
         else (queue ++ [normalizedImport])%list)
  end.

(** One round of [while (toProcess.length > 0)] on a file not seen yet. *)
Definition visit (fs : Fs.t) (packageRoot currentFile : string)
           (used direct queue : list string) : option traversal :=
  let used' := setAdd used currentFile in
  match Fs.readFileSync fs currentFile with
  | None => None
  | Some content =>
      let direct1 :=
        fold_left setAdd
          (flat_map (directMatch fs currentFile packageRoot)
             (execAll importRegex content)) direct in
      match extractImports fs currentFile packageRoot with
      | None => None
      | Some ex =>
          let '(direct2, queue1) :=
            trackDirect used' (directImports ex) direct1 queue in
          Some (mkTraversal used' direct2
                  (trackReExports used' (reExports ex) queue1))
      end
  end.

(** The [while] loop; [fuel] bounds the number of rounds. *)
Fixpoint traverse (fuel : nat) (fs : Fs.t) (packageRoot : string)
         (st : traversal) : outcome traversal :=
  match fuel with
  | O => OutOfFuel
  | S fuel' =>
      match toProcess st with
      | [] => Done st
      | first :: queue =>
          let currentFile := Path.normalize first in
          if setHas (usedFiles st) currentFile then
            traverse fuel' fs packageRoot
              (mkTraversal (usedFiles st) (directlyImportedFiles st) queue)
          else
            match visit fs packageRoot currentFile
                    (usedFiles st) (directlyImportedFiles st) queue with
            | None => Threw
            | Some st' => traverse fuel' fs packageRoot st'
            end
      end
  end.

(** "Files that are used but not directly imported are re-exported only" *)
Definition reExportedOnly (direct : list string) (file : string) : bool :=
  negb (setHas direct file)
  && negb (endsWith file "index.ts")
  && endsWith file ".ts".

Record usage : Type :=
  mkUsage { used : list string; reExportedFiles : list string }.

Definition entryPointOf (packageRoot : string) : string :=
  Path.joinPaths [packageRoot; "src"; "index.ts"].

(** ** [findUsedFiles], together with the set [directlyImportedFiles] it
    keeps while it runs *)
Definition findUsedFilesState (fuel : nat) (fs : Fs.t) (packageRoot : string)
  : outcome traversal :=
  let entryPoint := entryPointOf packageRoot in
  if negb (Fs.existsSync fs entryPoint) then Done (mkTraversal [] [] [])
  else
    let normalizedEntryPoint := Path.normalize entryPoint in
    traverse fuel fs packageRoot (mkTraversal [] [] [normalizedEntryPoint]).

Definition findUsedFiles (fuel : nat) (fs : Fs.t) (packageRoot : string)
  : outcome usage :=
  match findUsedFilesState fuel fs packageRoot with
  | Done st =>
      Done (mkUsage (usedFiles st)
              (fold_left
                 (fun acc file =>
                    if reExportedOnly (directlyImportedFiles st) file
                    then setAdd acc file else acc)
                 (usedFiles st) []))
  | Threw => Threw
  | OutOfFuel => OutOfFuel
  end.

(** ** [generateFolderName]

    [acc << 5] is a 32-bit operation: its operand and its result are
    brought into the range of signed 32-bit integers.  The subtraction and
    the addition around it are operations on doubles, exact on the integers
    met here (below 2^53 for names shorter than two million characters). *)
Definition toInt32 (z : Z) : Z :=
  ((z + 2147483648) mod 4294967296 - 2147483648)%Z.

Definition shiftLeft5 (acc : Z) : Z := toInt32 (toInt32 acc * 32)%Z.

Definition hashStep (acc : Z) (char : ascii) : Z :=
  (shiftLeft5 acc - acc + Z.of_nat (nat_of_ascii char))%Z.

(** [s.split('').reduce((acc, char) => ..., 0)] *)
Definition hashOf (s : string) : Z :=
  fold_left hashStep (list_ascii_of_string s) 0%Z.

Definition digit36 (d : Z) : ascii :=
  if (d <? 10)%Z then ascii_of_nat (48 + Z.to_nat d)
  else ascii_of_nat (87 + Z.to_nat d).

Fixpoint toBase36From (fuel : nat) (z : Z) (acc : string) : string :=
  match fuel with
  | O => acc
  | S fuel' =>
      let acc' := String (digit36 (z mod 36)%Z) acc in
      if (z / 36 =? 0)%Z then acc' else toBase36From fuel' (z / 36)%Z acc'
  end.

(** [n.toString(36)] for an integer [n >= 0] *)
Definition toBase36 (z : Z) : string :=
  toBase36From (S (Z.to_nat (Z.log2 z))) z EmptyString.

(** the decimal digits of a counter, as [originalName + index] appends them *)
Definition decimal (n : nat) : string :=
  NilZero.string_of_uint (Nat.to_uint n).

Definition generateFolderName (originalName : string) (index : nat) : string :=
  let hash := hashOf (originalName ++ decimal index) in
  let absHash := Z.abs hash in
  "dir-" ++ toBase36 absHash.

(** ** The rename plan: a JavaScript [Map], its entries in insertion order *)
Definition dirMap : Type := list (string * string).

(** [dirMap.set(key, value)] *)
Fixpoint mapSet (m : dirMap) (key value : string) : dirMap :=
  match m with
  | [] => [(key, value)]
  | (k, v) :: m' =>
      if String.eqb k key then (k, value) :: m'
      else (k, v) :: mapSet m' key value
  end.

(** "Skip certain directories" *)
Definition skippedDirectory (name : string) : bool :=
  String.eqb name "node_modules" || String.eqb name "dist"
  || String.eqb name ".git" || String.eqb name "test".

(** ** [anonymizeDirectories]

    [renameEntries] is the [for] loop over the entries read at the start;
    [recurse] stands for the recursive call.  The counter [index] is a
    parameter passed by value: the increments of a recursive call are not
    seen by its caller. *)
Fixpoint renameEntries
         (recurse : Fs.t -> string -> dirMap -> nat -> outcome (Fs.t * dirMap))
         (packageRoot : string) (entries : list (string * bool))
         (fs : Fs.t) (m : dirMap) (index : nat) : outcome (Fs.t * dirMap) :=
  match entries with
  | [] => Done (fs, m)
  | (name, isDirectory) :: rest =>
      if negb isDirectory then renameEntries recurse packageRoot rest fs m index
      else if skippedDirectory name
      then renameEntries recurse packageRoot rest fs m index
      else
        let fullPath := Path.joinPaths [packageRoot; name] in
        match recurse fs fullPath m index with
        | Done (fs1, m1) =>
            let newName := generateFolderName name index in
            let newPath := Path.joinPaths [packageRoot; newName] in
            if String.eqb name newName
            then renameEntries recurse packageRoot rest fs1 m1 (S index)
            else
              let m2 := mapSet m1 fullPath newPath in
              match Fs.renameSync fs1 fullPath newPath with
              | Some fs2 =>
                  renameEntries recurse packageRoot rest fs2 m2 (S index)
              | None => Threw
              end
        | Threw => Threw
        | OutOfFuel => OutOfFuel
        end
  end.

(** [fuel] bounds the depth of the recursion. *)
Fixpoint anonymizeDirectories (fuel : nat) (fs : Fs.t) (packageRoot : string)
         (m : dirMap) (index : nat) : outcome (Fs.t * dirMap) :=
  match fuel with
  | O => OutOfFuel
  | S fuel' =>
      match Fs.readdirSync fs packageRoot with
      | None => Threw
      | Some entries =>
          renameEntries (anonymizeDirectories fuel') packageRoot entries
            fs m index
      end
  end.

(** ** [updateExportPaths] *)

(** [s.replace(/\\/g, '/')]: every backslash becomes a slash. *)
Fixpoint backslashesToSlashes (s : string) : string :=
  match s with
  | EmptyString => EmptyString
  | String c s' =>
      String (if Ascii.eqb c (ascii_of_nat 92) then "/"%char else c)
        (backslashesToSlashes s')
  end.

(** "Reconstruct the import path" and "Ensure it starts with ./" *)
Definition reconstructImportPath (importPath newRelativePath : string) : string :=
  let newImportPath :=
    if endsWith importPath ".ts" then newRelativePath
    else if endsWith importPath "/index" || endsWith importPath "/" then
      removeSuffix ".ts" (removeSuffix "/index.ts" newRelativePath)
    else removeSuffix ".ts" newRelativePath in
  if negb (startsWith newImportPath ".") then "./" ++ newImportPath
  else newImportPath.

(** [for (const [oldDir, newDir] of dirMap.entries())]: the first entry
    whose old directory is a prefix of the resolved path decides. *)
Fixpoint rewriteWith (fs : Fs.t) (dir importPath resolvedPath : string)
         (m : dirMap) : option string :=
  match m with
  | [] => None
  | (oldDir, newDir) :: m' =>
      if startsWith resolvedPath oldDir then
        let relativePath := Path.relative (Fs.cwd fs) oldDir resolvedPath in
        let newResolvedPath := Path.joinPaths [newDir; relativePath] in
        let newRelativePath :=
          backslashesToSlashes (Path.relative (Fs.cwd fs) dir newResolvedPath) in
        Some (reconstructImportPath importPath newRelativePath)
      else rewriteWith fs dir importPath resolvedPath m'
  end.

(** The new specifier for a relative specifier of the file [filePath], or
    [None] when no entry of the plan applies. *)
Definition rewriteSpecifier (fs : Fs.t) (filePath : string) (m : dirMap)
           (importPath : string) : option string :=
  let dir := Path.dirname filePath in
  let resolvedPath := resolveImportPath fs dir importPath in
  rewriteWith fs dir importPath resolvedPath m.

(** The callback given to [content.replace], with the value it leaves in
    [modified]. *)
Definition rewriteMatch (fs : Fs.t) (filePath : string) (m : dirMap)
           (mt : found) : string * bool :=
  let importPath := group1 mt in
  if negb (startsWith importPath ".") && negb (startsWith importPath "/")
  then (matched mt, false)
  else
    match rewriteSpecifier fs filePath m importPath with
    | Some newImportPath =>
        (replaceFirst (matched mt) importPath newImportPath, true)
    | None => (matched mt, false)
    end.

(** The text after both passes and the flag [modified]. *)
Definition rewriteContent (fs : Fs.t) (filePath : string) (m : dirMap)
           (content : string) : string * bool :=
  let '(content1, modified1) :=
    replaceAll exportFromRegex (rewriteMatch fs filePath m) content in
  let '(content2, modified2) :=
    replaceAll importFromRegex (rewriteMatch fs filePath m) content1 in
  (content2, modified1 || modified2).

(** What a call did to the file system: [wrote] tells whether
    [fs.writeFileSync] was called. *)
Record effect : Type := mkEffect { after : Fs.t; wrote : bool }.

Definition updateExportPaths (fs : Fs.t) (filePath : string) (m : dirMap)
  : option effect :=
  if negb (Fs.existsSync fs filePath) then Some (mkEffect fs false)
  else
    match Fs.readFileSync fs filePath with
    | None => None
    | Some content =>
        let '(content', modified) := rewriteContent fs filePath m content in
        if modified then
          match Fs.writeFileSync fs filePath content' with
          | Some fs' => Some (mkEffect fs' true)
          | None => None
          end
        else Some (mkEffect fs false)
    end.

(** ** [updateAllFilePaths], the function local to [main] *)
Fixpoint updateEntries (recurse : Fs.t -> string -> outcome Fs.t)
         (m : dirMap) (dir : string) (entries : list (string * bool))
         (fs : Fs.t) : outcome Fs.t :=
  match entries with
  | [] => Done fs
  | (name, isDirectory) :: rest =>
      let fullPath := Path.joinPaths [dir; name] in
      if isDirectory then
        if negb (skippedDirectory name) then
          match recurse fs fullPath with
          | Done fs1 => updateEntries recurse m dir rest fs1
          | Threw => Threw
          | OutOfFuel => OutOfFuel
          end
        else updateEntries recurse m dir rest fs
      else if endsWith name ".ts" then
        match updateExportPaths fs fullPath m with
        | Some e => updateEntries recurse m dir rest (after e)
        | None => Threw
        end
      else updateEntries recurse m dir rest fs
  end.

Fixpoint updateAllFilePaths (fuel : nat) (m : dirMap) (fs : Fs.t)
         (dir : string) : outcome Fs.t :=
  match fuel with
  | O => OutOfFuel
  | S fuel' =>
      match Fs.readdirSync fs dir with
      | None => Threw
      | Some entries =>
          updateEntries (updateAllFilePaths fuel' m) m dir entries fs
      end
  end.

(** The two steps of [main] headed "Anonymize directory names" and
    "Update all file paths after directory renaming". *)
Definition renameAndRewrite (fuel : nat) (fs : Fs.t)
           (absolutePackagePath : string) : outcome (Fs.t * dirMap) :=
  let srcDirPath := Path.joinPaths [absolutePackagePath; "src"] in
  match anonymizeDirectories fuel fs srcDirPath [] 0 with
  | Done (fs1, m) =>
      if Fs.existsSync fs1 srcDirPath then
        match updateAllFilePaths fuel m fs1 srcDirPath with
        | Done fs2 => Done (fs2, m)
        | Threw => Threw
        | OutOfFuel => OutOfFuel
        end
      else Done (fs1, m)
  | Threw => Threw
  | OutOfFuel => OutOfFuel
  end.

End Script.

(** ** The start of [main]: the checks on the argument

    [rest] stands for everything [main] does after the checks, from the
    line [const packageName = ...] on; whatever it is, it is given the file
    system and the absolute package path. *)
Module Main.

Inductive fsCall : Type :=
| ExistsSyncCall (p : string)
| StatSyncCall (p : string)
| LaterCall (description : string).

Record run : Type :=
  mkRun { exitCode : nat;
          stderr : list string;
          fsCalls : list fsCall;
          finalFs : Fs.t }.

Definition usageLines : list string :=
  ["Usage: bun tools/scripts/anonymize-package.js <package-path>";
   "Example: bun tools/scripts/anonymize-package.js packages/calculators/income-tax"].

Section WithRest.
Variable rest : Fs.t -> string -> run.

(** [argv] is [process.argv]; a missing third element reads as
    [undefined], which is as false as the empty string. *)
Definition main (argv : list string) (fs : Fs.t) : run :=
  match nth_error argv 2 with
  | None => mkRun 1 usageLines [] fs
  | Some packagePath =>
      if String.eqb packagePath "" then mkRun 1 usageLines [] fs
      else
        let absolutePackagePath := Path.resolve (Fs.cwd fs) [packagePath] in
        if negb (Fs.existsSync fs absolutePackagePath) then
          mkRun 1
            ["Error: Package path does not exist: " ++ absolutePackagePath]
            [ExistsSyncCall absolutePackagePath] fs
        else
          match Fs.stat fs absolutePackagePath with
          | Some (Fs.Dir _) =>
              let r := rest fs absolutePackagePath in
              mkRun (exitCode r) (stderr r)
                (ExistsSyncCall absolutePackagePath
                 :: StatSyncCall absolutePackagePath :: fsCalls r)
                (finalFs r)
          | _ =>
              mkRun 1
                ["Error: Package path is not a directory: " ++ absolutePackagePath]
                [ExistsSyncCall absolutePackagePath;
                 StatSyncCall absolutePackagePath] fs
          end
  end.

End WithRest.

(** The calls that only read. *)
Definition readsOnly (c : fsCall) : bool :=
  match c with
  | ExistsSyncCall _ | StatSyncCall _ => true
  | LaterCall _ => false
  end.

End Main.


(* ===================================================================== *)
(** * The other steps of the script: names, finders, deletion, cleanup *)
(* ===================================================================== *)

Module Anonymizer.
Import JsString Regex Script.

(** ** The generated names *)

(** [generateAnonymizedName] *)
Definition generateAnonymizedName (originalName : string) : string :=
  let hash := hashOf originalName in
  let absHash := Z.abs hash in
  "package-" ++ toBase36 absHash.

(** [generateTestFileName] *)
Definition generateTestFileName (originalName : string) (index : nat) : string :=
  let hash := hashOf (originalName ++ decimal index) in
  let absHash := Z.abs hash in
  "test-" ++ toBase36 absHash ++ ".test.ts".

(** [generateTestName] *)
Definition generateTestName (index : nat) : string :=
  "test_" ++ toBase36 (Z.of_nat index).

(** [path.basename] with one argument: the last segment that is not
    empty, separators at the end being passed over. *)
Definition basename (p : string) : string :=
  last (filter (fun s => negb (String.eqb s "")) (split Path.sep p)) "".

(** ** [findTestFiles]

    The array [testFiles] is shared by all the calls: a call appends to the
    array it is given, and the array it returns is the same one. *)
Fixpoint testEntries (recurse : string -> list string -> outcome (list string))
         (dir : string) (entries : list (string * bool))
         (testFiles : list string) : outcome (list string) :=
  match entries with
  | [] => Done testFiles
  | (name, isDirectory) :: rest =>
      let fullPath := Path.joinPaths [dir; name] in
      if isDirectory then
        if negb (String.eqb name "node_modules") && negb (String.eqb name "dist")
        then
          match recurse fullPath testFiles with
          | Done testFiles1 => testEntries recurse dir rest testFiles1
          | Threw => Threw
          | OutOfFuel => OutOfFuel
          end
        else testEntries recurse dir rest testFiles
      else if endsWith name ".test.ts"
      then testEntries recurse dir rest (testFiles ++ [fullPath])%list
      else testEntries recurse dir rest testFiles
  end.

Fixpoint findTestFiles (fuel : nat) (fs : Fs.t) (dir : string)
         (testFiles : list string) : outcome (list string) :=
  match fuel with
  | O => OutOfFuel
  | S fuel' =>
      match Fs.readdirSync fs dir with
      | None => Threw
      | Some entries => testEntries (findTestFiles fuel' fs) dir entries testFiles
      end
  end.

(** ** [findSourceFiles] *)

(** The test on the name of a file. *)
Definition sourceName (name : string) : bool :=
  endsWith name ".ts" && negb (endsWith name ".test.ts")
  && negb (endsWith name ".spec.ts")
  && negb (String.eqb name "vitest.config.ts").

Fixpoint sourceEntries (recurse : string -> list string -> outcome (list string))
         (dir : string) (entries : list (string * bool))
         (sourceFiles : list string) : outcome (list string) :=
  match entries with
  | [] => Done sourceFiles
  | (name, isDirectory) :: rest =>
      let fullPath := Path.joinPaths [dir; name] in
      if isDirectory then
        if negb (String.eqb name "node_modules") && negb (String.eqb name "dist")
           && negb (String.eqb name "test")
        then
          match recurse fullPath sourceFiles with
          | Done sourceFiles1 => sourceEntries recurse dir rest sourceFiles1
          | Threw => Threw
          | OutOfFuel => OutOfFuel
          end
        else sourceEntries recurse dir rest sourceFiles
      else if sourceName name
      then sourceEntries recurse dir rest (sourceFiles ++ [fullPath])%list
      else sourceEntries recurse dir rest sourceFiles
  end.

Fixpoint findSourceFiles (fuel : nat) (fs : Fs.t) (dir : string)
         (sourceFiles : list string) : outcome (list string) :=
  match fuel with
  | O => OutOfFuel
  | S fuel' =>
      match Fs.readdirSync fs dir with
      | None => Threw
      | Some entries =>
          sourceEntries (findSourceFiles fuel' fs) dir entries sourceFiles
      end
  end.

(** ** The texts written into the files *)

(** the line feed *)
Definition lf : ascii := Eval cbv in ascii_of_nat 10.
Definition nl : string := String lf EmptyString.

(** [anonymizeTestFile]: the template literal, line by line. *)
Definition testFileContent (testIndex : nat) : string :=
  "import { assert } from 'vitest';" ++ nl
  ++ nl
  ++ "describe('" ++ generateTestName testIndex ++ "', () => {" ++ nl
  ++ "  it('" ++ generateTestName (testIndex + 1000) ++ "', () => {" ++ nl
  ++ "    assert(true);" ++ nl
  ++ "  });" ++ nl
  ++ "});" ++ nl.

Definition anonymizeTestFile (fs : Fs.t) (filePath : string) (testIndex : nat)
  : option Fs.t :=
  Fs.writeFileSync fs filePath (testFileContent testIndex).

(** [s.trimStart()] and [s.trim()]: white space and line terminators are
    taken off, for code units below 256 the characters of [\s]. *)
Fixpoint trimStart (s : string) : string :=
  match s with
  | EmptyString => EmptyString
  | String c s' => if isSpace c then trimStart s' else s
  end.

Fixpoint trimEnd (s : string) : string :=
  match s with
  | EmptyString => EmptyString
  | String c s' =>
      match trimEnd s' with
      | EmptyString => if isSpace c then EmptyString else String c EmptyString
      | t => String c t
      end
  end.

Definition trim (s : string) : string := trimEnd (trimStart s).

(** The test on a line in [anonymizeSourceFile]. *)
Definition exportLine (line : string) : bool :=
  let trimmed := trim line in
  startsWith trimmed "export " || startsWith trimmed "export type "
  || startsWith trimmed "export interface " || startsWith trimmed "export enum ".

(** The text [anonymizeSourceFile] writes for a file with the given text. *)
Definition anonymizedSource (content : string) : string :=
  let lines := split lf content in
  let exportLines := filter exportLine lines in
  if Nat.eqb (List.length exportLines) 0
  then "// Anonymized file" ++ nl ++ "export {};" ++ nl
  else "// Anonymized file - implementation removed" ++ nl
       ++ join nl exportLines ++ nl.

(** [anonymizeSourceFile] *)
Definition anonymizeSourceFile (fs : Fs.t) (filePath : string) : option Fs.t :=
  match Fs.readFileSync fs filePath with
  | None => None
  | Some content => Fs.writeFileSync fs filePath (anonymizedSource content)
  end.

(** ** Deleting files and directories *)

(** [fs.unlinkSync]: the path must name a file. *)
Definition unlinkSync (fs : Fs.t) (p : string) : option Fs.t :=
  match Fs.stat fs p with
  | Some (Fs.File _) =>
      match Fs.unlink (Fs.segsOf fs p) (Fs.root fs) with
      | Some r => Some (Fs.mk (Fs.cwd fs) r)
      | None => None
      end
  | _ => None
  end.

(** [fs.rmdirSync]: the path must name an empty directory. *)
Definition rmdirSync (fs : Fs.t) (p : string) : option Fs.t :=
  match Fs.stat fs p with
  | Some (Fs.Dir []) =>
      match Fs.unlink (Fs.segsOf fs p) (Fs.root fs) with
      | Some r => Some (Fs.mk (Fs.cwd fs) r)
      | None => None
      end
  | _ => None
  end.

(** [deleteFile]: the file system after the call and the value returned;
    an exception of [unlinkSync] is caught. *)
Definition deleteFile (fs : Fs.t) (filePath : string) : Fs.t * bool :=
  match unlinkSync fs filePath with
  | Some fs' => (fs', true)
  | None => (fs, false)
  end.

(** [isDirectoryEmpty]: an exception of [readdirSync] is caught. *)
Definition isDirectoryEmpty (fs : Fs.t) (dirPath : string) : bool :=
  match Fs.readdirSync fs dirPath with
  | Some entries => Nat.eqb (List.length entries) 0
  | None => false
  end.

(** [removeEmptyDirectories]: every exception is caught, so that a call
    returns; its value is the file system it leaves. *)
Fixpoint removeEmptyDirectories (fuel : nat) (fs : Fs.t)
         (dirPath packageRoot : string) : outcome Fs.t :=
  match fuel with
  | O => OutOfFuel
  | S fuel' =>
      if String.eqb dirPath packageRoot then Done fs
      else if isDirectoryEmpty fs dirPath then
        match rmdirSync fs dirPath with
        | None => Done fs
        | Some fs1 =>
            let parentDir := Path.dirname dirPath in
            if negb (String.eqb parentDir dirPath)
               && startsWith parentDir packageRoot
            then removeEmptyDirectories fuel' fs1 parentDir packageRoot
            else Done fs1
        end
      else Done fs
  end.

(** [fs.rmSync(p, { recursive: true, force: true })]: what is at the path
    is removed with all that is below it, and a path at which nothing is
    found is passed over; the root of the file system cannot be removed. *)
Definition rmSync (fs : Fs.t) (p : string) : option Fs.t :=
  match Fs.segsOf fs p with
  | [] => None
  | segs =>
      match Fs.unlink segs (Fs.root fs) with
      | Some r => Some (Fs.mk (Fs.cwd fs) r)
      | None => Some fs
      end
  end.

(** The directories [deleteTestDirectories] does not enter. *)
Definition keptFromTestDeletion (name : string) : bool :=
  String.eqb name "node_modules" || String.eqb name "dist"
  || String.eqb name ".git".

(** [deleteTestDirectories], the function local to [main]: the loop over
    the entries read at the start, and the function. *)
Fixpoint deleteTestEntries (recurse : Fs.t -> string -> outcome Fs.t)
         (dir : string) (entries : list (string * bool)) (fs : Fs.t)
  : outcome Fs.t :=
  match entries with
  | [] => Done fs
  | (name, isDirectory) :: rest =>
      let fullPath := Path.joinPaths [dir; name] in
      if isDirectory then
        if String.eqb name "test" then
          match rmSync fs fullPath with
          | Some fs1 => deleteTestEntries recurse dir rest fs1
          | None => Threw
          end
        else if negb (String.eqb name "node_modules")
                && negb (String.eqb name "dist")
                && negb (String.eqb name ".git")
        then
          match recurse fs fullPath with
          | Done fs1 => deleteTestEntries recurse dir rest fs1
          | Threw => Threw
          | OutOfFuel => OutOfFuel
          end
        else deleteTestEntries recurse dir rest fs
      else deleteTestEntries recurse dir rest fs
  end.

Fixpoint deleteTestDirectories (fuel : nat) (fs : Fs.t) (dir : string)
  : outcome Fs.t :=
  match fuel with
  | O => OutOfFuel
  | S fuel' =>
      match Fs.readdirSync fs dir with
      | None => Threw
      | Some entries =>
          deleteTestEntries (deleteTestDirectories fuel') dir entries fs
      end
  end.

(** [cleanupEmptyDirs], the function local to [main].  Of what the [try]
    block calls only [readdirSync] can throw, and the [catch] block is
    empty: the call then returns with the file system as it is.  The
    climb of [removeEmptyDirectories] is given two steps more than the
    path has characters. *)
Fixpoint cleanupEntries (recurse : Fs.t -> string -> outcome Fs.t)
         (dir : string) (entries : list (string * bool)) (fs : Fs.t)
  : outcome Fs.t :=
  match entries with
  | [] => Done fs
  | (name, isDirectory) :: rest =>
      let fullPath := Path.joinPaths [dir; name] in
      if String.eqb name "node_modules" || String.eqb name "dist"
         || String.eqb name ".git"
      then cleanupEntries recurse dir rest fs
      else if isDirectory then
        match recurse fs fullPath with
        | Done fs1 => cleanupEntries recurse dir rest fs1
        | Threw => Threw
        | OutOfFuel => OutOfFuel
        end
      else cleanupEntries recurse dir rest fs
  end.

Fixpoint cleanupEmptyDirs (fuel : nat) (absolutePackagePath : string)
         (fs : Fs.t) (dir : string) : outcome Fs.t :=
  match fuel with
  | O => OutOfFuel
  | S fuel' =>
      match Fs.readdirSync fs dir with
      | None => Done fs
      | Some entries =>
          match cleanupEntries (cleanupEmptyDirs fuel' absolutePackagePath)
                  dir entries fs with
          | Done fs1 =>
              if negb (String.eqb dir absolutePackagePath)
                 && isDirectoryEmpty fs1 dir
              then removeEmptyDirectories (String.length dir + 2) fs1 dir
                     absolutePackagePath
              else Done fs1
          | Threw => Threw
          | OutOfFuel => OutOfFuel
          end
      end
  end.

(** The loop of [main] headed "Delete all non-test TypeScript files":
    the file system it leaves and the value of [deletedCount].  The climb
    of [removeEmptyDirectories] is given two steps more than the parent
    path has characters, which is enough for it to end. *)
Fixpoint deleteSources (absolutePackagePath : string) (sourceFiles : list string)
         (fs : Fs.t) (deletedCount : nat) : outcome (Fs.t * nat) :=
  match sourceFiles with
  | [] => Done (fs, deletedCount)
  | sourceFile :: rest =>
      if endsWith sourceFile ".test.ts" || endsWith sourceFile ".spec.ts"
      then deleteSources absolutePackagePath rest fs deletedCount
      else if String.eqb (basename sourceFile) "vitest.config.ts"
      then deleteSources absolutePackagePath rest fs deletedCount
      else if negb (Fs.existsSync fs sourceFile)
      then deleteSources absolutePackagePath rest fs deletedCount
      else
        let '(fs1, deleted) := deleteFile fs sourceFile in
        if deleted then
          let parentDir := Path.dirname sourceFile in
          match removeEmptyDirectories (String.length parentDir + 2) fs1
                  parentDir absolutePackagePath with
          | Done fs2 => deleteSources absolutePackagePath rest fs2 (S deletedCount)
          | Threw => Threw
          | OutOfFuel => OutOfFuel
          end
        else deleteSources absolutePackagePath rest fs1 deletedCount
  end.

(** ** The steps of [main] around the files of the tests *)

(** The text of the [vitest.config.ts] that [main] creates. *)
Definition vitestConfigContent (relativePath : string) : string :=
  "import { createVitestConfig } from '" ++ relativePath ++ "';" ++ nl
  ++ nl
  ++ "export default createVitestConfig();" ++ nl.

(** The specifier in it: the way from the package to [vitest.base.ts] in
    the working directory. *)
Definition vitestBaseSpecifier (fs : Fs.t) (absolutePackagePath : string) : string :=
  let workspaceRoot := Fs.cwd fs in
  backslashesToSlashes
    (Path.relative (Fs.cwd fs) absolutePackagePath
       (Path.joinPaths [workspaceRoot; "vitest.base.ts"])).

(** The step of [main] headed "Ensure vitest.config.ts exists". *)
Definition ensureVitestConfig (fs : Fs.t) (absolutePackagePath : string)
  : option Fs.t :=
  let vitestConfigPath := Path.joinPaths [absolutePackagePath; "vitest.config.ts"] in
  if negb (Fs.existsSync fs vitestConfigPath) then
    Fs.writeFileSync fs vitestConfigPath
      (vitestConfigContent (vitestBaseSpecifier fs absolutePackagePath))
  else Some fs.

(** The callback of [testFiles.forEach] in [main]: the text is replaced,
    then the file is renamed within its directory. *)
Definition anonymizeTest (fs : Fs.t) (testFile : string) (index : nat)
  : option Fs.t :=
  match anonymizeTestFile fs testFile index with
  | None => None
  | Some fs1 =>
      let dir := Path.dirname testFile in
      let newTestFileName := generateTestFileName (basename testFile) index in
      let newTestFilePath := Path.joinPaths [dir; newTestFileName] in
      if negb (String.eqb testFile newTestFilePath)
      then Fs.renameSync fs1 testFile newTestFilePath
      else Some fs1
  end.

(** [testFiles.forEach((testFile, index) => ...)] *)
Fixpoint anonymizeTests (testFiles : list string) (index : nat) (fs : Fs.t)
  : option Fs.t :=
  match testFiles with
  | [] => Some fs
  | testFile :: rest =>
      match anonymizeTest fs testFile index with
      | None => None
      | Some fs1 => anonymizeTests rest (S index) fs1
      end
  end.

End Anonymizer.
(* ===================================================================== *)
(** * Notions used to state the properties *)
(* ===================================================================== *)

Module Notions.
Import JsString Regex Script.

(** The last character of a string. *)
Fixpoint lastChar (s : string) : option ascii :=
  match s with
  | EmptyString => None
  | String c s' =>
      match s' with
      | EmptyString => Some c
      | String _ _ => lastChar s'
      end
  end.

(** No entry of the plan has an old directory that is a prefix of the
    path the specifier resolves to. *)
Definition untouched (fs : Fs.t) (filePath : string) (m : dirMap)
           (mt : found) : Prop :=
  isRelative (group1 mt) = true ->
  forall oldDir newDir,
    In (oldDir, newDir) m ->
    startsWith (resolveImportPath fs (Path.dirname filePath) (group1 mt))
      oldDir = false.

(** A string without separator. *)
Fixpoint sepFree (s : string) : bool :=
  match s with
  | EmptyString => true
  | String c s' => negb (Ascii.eqb c Path.sep) && sepFree s'
  end.

(** A segment as it stands in a resolved path: a name, neither empty nor
    [.] nor [..], without separator. *)
Definition plainSeg (s : string) : bool :=
  negb (String.eqb s "") && negb (String.eqb s ".")
  && negb (String.eqb s "..") && sepFree s.

(** The absolute path with the given segments. *)
Definition canon (segs : list string) : string := "/" ++ join "/" segs.

(** The segments of every node of a tree. *)
Fixpoint allSegs (n : Fs.node) : list (list string) :=
  [] ::
  match n with
  | Fs.File _ => []
  | Fs.Dir es =>
      (fix below (es : list (string * Fs.node)) : list (list string) :=
         match es with
         | [] => []
         | (k, c) :: es' => (map (cons k) (allSegs c) ++ below es')%list
         end) es
  end.

(** A path that exists, in the form [path.resolve] returns. *)
Definition listed (fs : Fs.t) (p : string) : Prop :=
  In p (map canon (allSegs (Fs.root fs))) /\ Path.normalize p = p.

(** The paths a traversal of a file system can ever visit: the entry
    point and the existing paths in resolved form. *)
Definition visitable (fs : Fs.t) (packageRoot : string) : list string :=
  Path.normalize (Path.normalize (entryPointOf packageRoot))
  :: map canon (allSegs (Fs.root fs)).

(** What holds at the head of the [while] loop of [findUsedFiles]. *)
Record invariant (fs : Fs.t) (packageRoot : string) (st : traversal) : Prop :=
  mkInvariant {
    inv_nodup : NoDup (usedFiles st);
    inv_used : incl (usedFiles st) (visitable fs packageRoot);
    inv_queue :
      Forall (fun x => In (Path.normalize x) (visitable fs packageRoot))
        (toProcess st)
  }.

(** [p] ends with the segment [seg]. *)
Definition endsSeg (p seg : string) : Prop :=
  p = seg \/ exists before, p = before ++ String Path.sep seg.

(** The entry file as it stands in the set of used files. *)
Definition entryFile (packageRoot : string) : string :=
  Path.normalize (Path.normalize (entryPointOf packageRoot)).

(** The classification as the specification words it: reachable, never
    directly imported, and not the entry file itself. *)
Definition reExportOnlyAsWorded (packageRoot : string) (st : traversal)
           (file : string) : bool :=
  setHas (usedFiles st) file
  && negb (setHas (directlyImportedFiles st) file)
  && negb (String.eqb file (entryFile packageRoot)).

(** [path] lies underneath the directory [dir]: the segments of [dir]
    are the first segments of [path]. *)
Definition underneath (fs : Fs.t) (path dir : string) : bool :=
  Fs.isPrefixSegs (Fs.segsOf fs dir) (Fs.segsOf fs path).

(** Every character of [s] is in the class [p]. *)
Fixpoint allChars (p : ascii -> bool) (s : string) : bool :=
  match s with
  | EmptyString => true
  | String c s' => p c && allChars p s'
  end.

(** A character of a binding: neither white space nor a line end. *)
Definition wordChar (c : ascii) : bool := negb (isSpace c) && isDot c.

(** ** Import statements as they are written

    A run of white space between two words of a statement. *)
Definition isGap (g : string) : bool :=
  match g with
  | EmptyString => false
  | String _ _ => allChars isSpace g
  end.

(** A word: one or more characters, none of them white space or a line
    end, the first one neither a brace nor a star. *)
Definition isWord (w : string) : bool :=
  match w with
  | EmptyString => false
  | String c _ => notBraceStar c && allChars wordChar w
  end.

(** What a line of a source text starts with: one of the four forms of
    an import statement, or anything else.  A default import may have any
    white space between its words; a named and a namespace import are
    taken with one white-space character between [import] and the brace or
    the star, and with any text after it. *)
Inductive statement : Type :=
| DefaultImport (gap1 name gap2 gap3 : string) (quote : ascii)
                (specifier : string)
| NamedImport (gap : ascii) (rest : string)
| NamespaceImport (gap : ascii) (rest : string)
| SideEffectImport (gap : string) (quote : ascii) (specifier : string)
| Other (text : string).

Definition render (st : statement) : string :=
  match st with
  | DefaultImport gap1 name gap2 gap3 quote specifier =>
      "import" ++ gap1 ++ name ++ gap2 ++ "from" ++ gap3
      ++ String quote (specifier ++ String quote "")
  | NamedImport gap rest => "import" ++ String gap (String "{" rest)
  | NamespaceImport gap rest => "import" ++ String gap (String "*" rest)
  | SideEffectImport gap quote specifier =>
      "import" ++ gap ++ String quote (specifier ++ String quote "")
  | Other text => text
  end.

(** A line of a source text: a statement, what follows it on the line
    (a semicolon, say), and the line feed. *)
Record line : Type := mkLine { statementOf : statement; ending : string }.

Definition lineText (l : line) : string :=
  render (statementOf l) ++ ending l ++ String Anonymizer.lf "".

Fixpoint textOf (lines : list line) : string :=
  match lines with
  | [] => EmptyString
  | l :: lines' => lineText l ++ textOf lines'
  end.

(** The keyword [import] with white space after it stands at the start
    of [s]; it stands somewhere in [s]. *)
Definition importWordAt (s : string) : bool :=
  match stripPrefix "import" s with
  | Some (String c _) => isSpace c
  | _ => false
  end.

Fixpoint importWords (s : string) : bool :=
  match s with
  | EmptyString => false
  | String _ s' => importWordAt s || importWords s'
  end.

(** The word [from] stands at the start of [s]. *)
Definition fromAt (s : string) : bool :=
  match stripPrefix "from" s with
  | Some _ => true
  | None => false
  end.

(** The word [from] stands somewhere in [s] right after a white-space
    character. *)
Fixpoint fromWords (s : string) : bool :=
  match s with
  | EmptyString => false
  | String c s' => (isSpace c && fromAt s') || fromWords s'
  end.

(** The word [from] is the first word of [s], after white space or not. *)
Fixpoint fromAhead (s : string) : bool :=
  match s with
  | EmptyString => false
  | String c s' => if isSpace c then fromAhead s' else fromAt s
  end.

(** A line is well written, with the text [after] it, when
    - [import] with white space after it stands nowhere in the line but
      at the start of an import statement;
    - a default import has gaps of white space between its words, a word
      for its name and a quoted specifier without quote characters;
    - a named and a namespace import have a white-space character after
      [import];
    - a side-effect import has a gap and a quote, and the word [from]
      stands neither in its line after white space nor first after it. *)
Definition wellWritten (l : line) (after : string) : bool :=
  match statementOf l with
  | DefaultImport gap1 name gap2 gap3 quote specifier =>
      negb (importWords (drop 1 (lineText l)))
      && isGap gap1 && isWord name && isGap gap2 && isGap gap3
      && isQuote quote
      && negb (String.eqb specifier "") && allChars notQuote specifier
  | NamedImport gap _ =>
      negb (importWords (drop 1 (lineText l))) && isSpace gap
  | NamespaceImport gap _ =>
      negb (importWords (drop 1 (lineText l))) && isSpace gap
  | SideEffectImport gap quote _ =>
      negb (importWords (drop 1 (lineText l)))
      && isGap gap && isQuote quote
      && negb (fromWords (lineText l)) && negb (fromAhead after)
  | Other _ => negb (importWords (lineText l))
  end.

Fixpoint wellWrittenText (lines : list line) : bool :=
  match lines with
  | [] => true
  | l :: lines' => wellWritten l (textOf lines') && wellWrittenText lines'
  end.

(** What the direct-import pattern is to find in a line: the statement
    and its specifier for a default import, nothing for the other forms. *)
Definition directOf (l : line) : list found :=
  match statementOf l with
  | DefaultImport _ _ _ _ _ specifier =>
      [mkFound (render (statementOf l)) specifier]
  | _ => []
  end.

(** The directory tree of a file system: the names, their order and
    what is a directory, without the texts of the files. *)
Fixpoint shape (n : Fs.node) : Fs.node :=
  match n with
  | Fs.File _ => Fs.File EmptyString
  | Fs.Dir es =>
      Fs.Dir
        ((fix each (es : list (string * Fs.node)) : list (string * Fs.node) :=
            match es with
            | [] => []
            | (k, c) :: es' => (k, shape c) :: each es'
            end) es)
  end.

Definition shapeEntries (es : list (string * Fs.node)) : list (string * Fs.node) :=
  map (fun e => (fst e, shape (snd e))) es.

Definition shapeFs (fs : Fs.t) : Fs.t := Fs.mk (Fs.cwd fs) (shape (Fs.root fs)).

(** Two file systems hold an identical directory tree. *)
Definition sameTree (fs1 fs2 : Fs.t) : Prop := shapeFs fs1 = shapeFs fs2.

(** The rename map a run of the planner returns. *)
Definition planOf (r : outcome (Fs.t * dirMap)) : outcome dirMap :=
  match r with
  | Done (_, m) => Done m
  | Threw => Threw
  | OutOfFuel => OutOfFuel
  end.

Definition shapeRun (r : outcome (Fs.t * dirMap)) : outcome (Fs.t * dirMap) :=
  match r with
  | Done (fs, m) => Done (shapeFs fs, m)
  | Threw => Threw
  | OutOfFuel => OutOfFuel
  end.

(** [path] lies properly inside the directory [dir]. *)
Definition properlyInside (fs : Fs.t) (path dir : string) : bool :=
  underneath fs path dir
  && Nat.ltb (List.length (Fs.segsOf fs dir)) (List.length (Fs.segsOf fs path)).

(** The path resolver as the specification words it: the candidates are
    tried in the order (1) the specifier as given, if it names an existing
    file, (2) the specifier with [.ts], (3) the specifier as a directory
    with its [index.ts]; the winner is accepted if it lies within the
    package root and exists. *)
Definition isFile (fs : Fs.t) (p : string) : bool :=
  match Fs.stat fs p with Some (Fs.File _) => true | _ => false end.

Definition resolveAsWorded (fs : Fs.t) (packageRoot dir specifier : string)
  : option string :=
  let asGiven := Path.resolve (Fs.cwd fs) [dir; specifier] in
  let withExtension := Path.resolve (Fs.cwd fs) [dir; specifier ++ ".ts"] in
  let asIndex :=
    Path.resolve (Fs.cwd fs) [dir; specifier ++ "/" ++ "index.ts"] in
  let candidate :=
    if isFile fs asGiven then asGiven
    else if Fs.existsSync fs withExtension then withExtension
    else asIndex in
  if underneath fs candidate packageRoot && Fs.existsSync fs candidate
  then Some candidate else None.

(** Resolving a specifier the way Node and TypeScript do for a relative
    import without extension: the file with [.ts] appended, else the
    [index.ts] of the directory. *)
Definition resolvesTo (fs : Fs.t) (dir specifier target : string) : bool :=
  String.eqb (resolveImportPath fs dir specifier) target
  && Fs.existsSync fs target.

(** The package path given on the command line, if any. *)
Definition packagePathOf (argv : list string) : option string :=
  match nth_error argv 2 with
  | Some p => if String.eqb p "" then None else Some p
  | None => None
  end.

(** The three usage errors: no argument, an argument that names nothing,
    an argument that names a file. *)
Inductive usageError (argv : list string) (fs : Fs.t) : Prop :=
| MissingArgument :
    packagePathOf argv = None -> usageError argv fs
| NoSuchPath (p : string) :
    packagePathOf argv = Some p ->
    Fs.existsSync fs (Path.resolve (Fs.cwd fs) [p]) = false ->
    usageError argv fs
| NotADirectory (p content : string) :
    packagePathOf argv = Some p ->
    Fs.stat fs (Path.resolve (Fs.cwd fs) [p]) = Some (Fs.File content) ->
    usageError argv fs.

End Notions.

(* ===================================================================== *)
(** * Notions used to state further properties *)
(* ===================================================================== *)

Module Reach.
Import JsString Regex Script.

(** [target] is one of the paths [extractImports] finds in [file]. *)
Definition refersTo (fs : Fs.t) (packageRoot file target : string) : Prop :=
  exists ex,
    extractImports fs file packageRoot = Some ex
    /\ In target (directImports ex ++ reExports ex)%list.

(** [file] directly imports [target]. *)
Definition importsDirectly (fs : Fs.t) (packageRoot file target : string)
  : Prop :=
  exists ex,
    extractImports fs file packageRoot = Some ex
    /\ In target (directImports ex).

(** The files reached from the entry file of a package through imports
    and re-exports. *)
Inductive reachable (fs : Fs.t) (packageRoot : string) : string -> Prop :=
| reachEntry : reachable fs packageRoot (Notions.entryFile packageRoot)
| reachStep (file target : string) :
    reachable fs packageRoot file ->
    refersTo fs packageRoot file target ->
    reachable fs packageRoot target.

(** Some element of the queue is [target] once it is taken out. *)
Definition queued (queue : list string) (target : string) : Prop :=
  exists x, In x queue /\ Path.normalize x = target.

(** Everything used or waiting is reachable. *)
Definition sound (fs : Fs.t) (packageRoot : string) (st : traversal) : Prop :=
  (forall f, In f (usedFiles st) -> reachable fs packageRoot f)
  /\ (forall x, In x (toProcess st) ->
                reachable fs packageRoot (Path.normalize x)).

(** The entry file and every target of a used file is used or waiting. *)
Definition closed (fs : Fs.t) (packageRoot : string) (st : traversal) : Prop :=
  (In (Notions.entryFile packageRoot) (usedFiles st)
   \/ queued (toProcess st) (Notions.entryFile packageRoot))
  /\ (forall f t, In f (usedFiles st) -> refersTo fs packageRoot f t ->
                  In t (usedFiles st) \/ queued (toProcess st) t).

(** The set of directly imported files holds the direct imports of the
    used files and nothing else. *)
Definition directOfUsed (fs : Fs.t) (packageRoot : string) (st : traversal)
  : Prop :=
  forall x, In x (directlyImportedFiles st)
            <-> exists f, In f (usedFiles st)
                          /\ importsDirectly fs packageRoot f x.

(** Every used file has been read. *)
Definition wasRead (fs : Fs.t) (st : traversal) : Prop :=
  forall f, In f (usedFiles st) -> exists content, Fs.readFileSync fs f = Some content.

End Reach.

Module Frame.

(** The text of the file at the given segments, if a file is there. *)
Definition textAt (n : Fs.node) (segs : list string) : option string :=
  match Fs.lookup n segs with
  | Some (Fs.File c) => Some c
  | _ => None
  end.

End Frame.

Module Base36.

(** A digit of the base 36: [0-9a-z]. *)
Definition base36Char (c : ascii) : bool :=
  let n := nat_of_ascii c in
  (Nat.leb 48 n && Nat.leb n 57) || (Nat.leb 97 n && Nat.leb n 122).

(** A numeral of the base 36: at least one digit, and digits only. *)
Definition base36Text (s : string) : bool :=
  negb (String.eqb s "") && Notions.allChars base36Char s.

Definition digitValue (c : ascii) : Z :=
  let n := nat_of_ascii c in
  if Nat.leb n 57 then (Z.of_nat n - 48)%Z else (Z.of_nat n - 87)%Z.

(** The number a numeral stands for, read from the left on top of [acc]:
    what [parseInt(s, 36)] returns on digits. *)
Fixpoint valueFrom (acc : Z) (s : string) : Z :=
  match s with
  | EmptyString => acc
  | String c s' => valueFrom (acc * 36 + digitValue c)%Z s'
  end.

Definition parseInt36 (s : string) : Z := valueFrom 0%Z s.

End Base36.

Module Plan.
Import Script.

(** An entry of the rename map that moves a directory within its parent:
    the key is [path.join(parent, name)], the value
    [path.join(parent, generateFolderName(name, j))] for a counter [j] not
    below [index], and [name] is neither skipped nor its own new name. *)
Definition siblingRename (index : nat) (e : string * string) : Prop :=
  exists parent name j,
    index <= j
    /\ fst e = Path.joinPaths [parent; name]
    /\ snd e = Path.joinPaths [parent; generateFolderName name j]
    /\ skippedDirectory name = false
    /\ name <> generateFolderName name j.

(** The keys of a map. *)
Definition keys (m : dirMap) : list string := map fst m.

(** What holds of the map all along a run that began with the map
    [start]: its keys are distinct, and every entry was there at the start
    or renames a directory within its parent. *)
Definition planned (start : dirMap) (index : nat) (m : dirMap) : Prop :=
  NoDup (keys m)
  /\ forall e, In e m -> In e start \/ siblingRename index e.

End Plan.

Module Walk.
Import JsString Script Anonymizer.

(** A directory tree as a file system holds it: every name is a single
    path segment, and the names of one directory are pairwise distinct. *)
Fixpoint wellFormed (n : Fs.node) : bool :=
  match n with
  | Fs.File _ => true
  | Fs.Dir es =>
      (fix entries (es : list (string * Fs.node)) : bool :=
         match es with
         | [] => true
         | (k, c) :: es' =>
             Notions.plainSeg k
             && negb (existsb (String.eqb k) (map fst es'))
             && wellFormed c && entries es'
         end) es
  end.

(** The number of directories nested in one another. *)
Fixpoint height (n : Fs.node) : nat :=
  match n with
  | Fs.File _ => 0
  | Fs.Dir es =>
      S ((fix entries (es : list (string * Fs.node)) : nat :=
            match es with
            | [] => 0
            | (_, c) :: es' => Nat.max (height c) (entries es')
            end) es)
  end.

(** The files below a directory, by their segments relative to it, that
    lie in no directory [skip] refuses and whose name [accept] takes; in
    the order of the listings, a directory before its later siblings. *)
Fixpoint filesIn (skip accept : string -> bool) (n : Fs.node)
  : list (list string) :=
  match n with
  | Fs.File _ => []
  | Fs.Dir es =>
      (fix entries (es : list (string * Fs.node)) : list (list string) :=
         match es with
         | [] => []
         | (k, c) :: es' =>
             (match c with
              | Fs.Dir _ =>
                  if skip k then [] else map (cons k) (filesIn skip accept c)
              | Fs.File _ => if accept k then [[k]] else []
              end ++ entries es')%list
         end) es
  end.

(** The file at [rel] below [n] is one a finder reports: a file, in no
    skipped directory, with an accepted name. *)
Definition reported (skip accept : string -> bool) (n : Fs.node)
           (rel : list string) : Prop :=
  exists dirs name content,
    rel = (dirs ++ [name])%list
    /\ Fs.lookup n rel = Some (Fs.File content)
    /\ Forall (fun d => skip d = false) dirs
    /\ accept name = true.

(** The directories [findTestFiles] does not enter, and the names it takes. *)
Definition skipsOfTests (name : string) : bool :=
  String.eqb name "node_modules" || String.eqb name "dist".

Definition isTestName (name : string) : bool := endsWith name ".test.ts".

(** The directories [findSourceFiles] does not enter. *)
Definition skipsOfSources (name : string) : bool :=
  String.eqb name "node_modules" || String.eqb name "dist"
  || String.eqb name "test".

(** The loop of a finder, with the two tests as parameters. *)
Fixpoint walkEntries (skip accept : string -> bool)
         (recurse : string -> list string -> outcome (list string))
         (dir : string) (entries : list (string * bool))
         (found : list string) : outcome (list string) :=
  match entries with
  | [] => Done found
  | (name, isDirectory) :: rest =>
      let fullPath := Path.joinPaths [dir; name] in
      if isDirectory then
        if negb (skip name)
        then
          match recurse fullPath found with
          | Done found1 => walkEntries skip accept recurse dir rest found1
          | Threw => Threw
          | OutOfFuel => OutOfFuel
          end
        else walkEntries skip accept recurse dir rest found
      else if accept name
      then walkEntries skip accept recurse dir rest (found ++ [fullPath])%list
      else walkEntries skip accept recurse dir rest found
  end.

Fixpoint walk (skip accept : string -> bool) (fuel : nat) (fs : Fs.t)
         (dir : string) (found : list string) : outcome (list string) :=
  match fuel with
  | O => OutOfFuel
  | S fuel' =>
      match Fs.readdirSync fs dir with
      | None => Threw
      | Some entries =>
          walkEntries skip accept (walk skip accept fuel' fs) dir entries found
      end
  end.

End Walk.

Module Text.
Import JsString Anonymizer.

(** The character [c] does not occur in [s]. *)
Fixpoint lacks (c : ascii) (s : string) : bool :=
  match s with
  | EmptyString => true
  | String x s' => negb (Ascii.eqb x c) && lacks c s'
  end.

(** The lines [anonymizeSourceFile] keeps. *)
Definition exportLines (content : string) : list string :=
  filter exportLine (split lf content).

(** The two first lines it writes. *)
Definition stubHeader : string := "// Anonymized file".
Definition keptHeader : string := "// Anonymized file - implementation removed".

End Text.

Module Prune.
Import Anonymizer.

(** Every file of [fs] other than those at the given paths is in [fs']
    with its text. *)
Definition keepsBut (paths : list string) (fs fs' : Fs.t) : Prop :=
  forall q text,
    Fs.readFileSync fs q = Some text ->
    (forall p, In p paths -> Fs.segsOf fs q <> Fs.segsOf fs p) ->
    Fs.readFileSync fs' q = Some text.

(** A file system as it is: a directory at the root, and a well-formed
    tree. *)
Definition sound (fs : Fs.t) : Prop :=
  Walk.wellFormed (Fs.root fs) = true /\ Fs.isDir (Fs.root fs) = true.

(** [fs'] is [fs] with some entries taken out: the working directory is
    the same and, [fs] being sound, [fs'] is sound and what exists in
    [fs'] existed in [fs]. *)
Definition pruned (fs fs' : Fs.t) : Prop :=
  Fs.cwd fs' = Fs.cwd fs
  /\ (sound fs ->
      sound fs'
      /\ forall q, Fs.existsSync fs' q = true -> Fs.existsSync fs q = true).

(** Every file of [fs] is in [fs'] with its text. *)
Definition kept (fs fs' : Fs.t) : Prop :=
  forall q text,
    Fs.readFileSync fs q = Some text -> Fs.readFileSync fs' q = Some text.

(** What is at a path in [fs'] was at that path in [fs], and was no
    lower. *)
Definition lowered (fs fs' : Fs.t) : Prop :=
  forall segs n',
    Fs.lookup (Fs.root fs') segs = Some n' ->
    exists n, Fs.lookup (Fs.root fs) segs = Some n
              /\ Walk.height n' <= Walk.height n.

(** What the removal of empty directories does to a file system. *)
Definition settled (fs fs' : Fs.t) : Prop :=
  kept fs fs' /\ pruned fs fs' /\ (sound fs -> lowered fs fs').

End Prune.

Module Target.
Import JsString Script.

(** The backslash. *)
Definition backslash : ascii := Eval cbv in ascii_of_nat 92.

(** The path the rewriter means a specifier to name after the renames:
    [path.join(newDir, path.relative(oldDir, resolvedPath))]. *)
Definition newResolvedPath (fs : Fs.t) (oldDir newDir resolvedPath : string)
  : string :=
  Path.joinPaths [newDir; Path.relative (Fs.cwd fs) oldDir resolvedPath].

End Target.

Module Tests.
Import Anonymizer.

(** A tree without the directories named [test], those inside
    [node_modules], [dist] and [.git] apart: what [deleteTestDirectories]
    is to leave of it. *)
Fixpoint withoutTests (n : Fs.node) : Fs.node :=
  match n with
  | Fs.File c => Fs.File c
  | Fs.Dir es =>
      Fs.Dir
        ((fix entries (es : list (string * Fs.node)) : list (string * Fs.node) :=
            match es with
            | [] => []
            | (k, c) :: es' =>
                match c with
                | Fs.Dir _ =>
                    if String.eqb k "test" then entries es'
                    else if keptFromTestDeletion k then (k, c) :: entries es'
                    else (k, withoutTests c) :: entries es'
                | Fs.File _ => (k, c) :: entries es'
                end
            end) es)
  end.

(** The entries of the directory [withoutTests] returns. *)
Definition entriesWithoutTests (es : list (string * Fs.node))
  : list (string * Fs.node) :=
  match withoutTests (Fs.Dir es) with
  | Fs.Dir es' => es'
  | Fs.File _ => []
  end.

End Tests.

Module Rename.
Import Anonymizer.

(** Something is at the given segments. *)
Definition existsAt (n : Fs.node) (segs : list string) : bool :=
  match Fs.lookup n segs with Some _ => true | None => false end.

(** The path [main] gives a test file: in its directory, under the
    generated name. *)
Definition newTestFilePath (testFile : string) (index : nat) : string :=
  Path.joinPaths
    [Path.dirname testFile; generateTestFileName (basename testFile) index].

(** The new paths of a list of test files, the first of which has the
    given index. *)
Fixpoint newTestFilePaths (testFiles : list string) (index : nat) : list string :=
  match testFiles with
  | [] => []
  | testFile :: rest =>
      newTestFilePath testFile index :: newTestFilePaths rest (S index)
  end.

(** The texts written into them. *)
Fixpoint testFileContents (testFiles : list string) (index : nat) : list string :=
  match testFiles with
  | [] => []
  | _ :: rest => testFileContent index :: testFileContents rest (S index)
  end.

(** A test file as its directory and its name; its segments, and the
    segments of its new path. *)
Definition oldSegs (item : list string * string) : list string :=
  (fst item ++ [snd item])%list.

Definition newSegs (item : list string * string) (index : nat) : list string :=
  (fst item ++ [generateTestFileName (snd item) index])%list.

Fixpoint newSegsList (items : list (list string * string)) (index : nat)
  : list (list string) :=
  match items with
  | [] => []
  | item :: rest => newSegs item index :: newSegsList rest (S index)
  end.

(** The entries of a directory once the file [a] in it holds [text] and
    goes by the name [b]. *)
Definition movedEntries (a b text : string) (es : list (string * Fs.node))
  : list (string * Fs.node) :=
  let written := Fs.setEntry a (Fs.File text) es in
  if String.eqb a b then written
  else Fs.setEntry b (Fs.File text) (Fs.removeEntry a written).

End Rename.

Module Pipeline.

(** No file of [fs'] is new: each was in [fs] with the same text. *)
Definition fromFiles (fs fs' : Fs.t) : Prop :=
  forall q text,
    Fs.readFileSync fs' q = Some text -> Fs.readFileSync fs q = Some text.

(** What the deletions do to a file system. *)
Definition thinned (fs fs' : Fs.t) : Prop :=
  Prune.pruned fs fs' /\ (Prune.sound fs -> fromFiles fs fs').

End Pipeline.

(* ===================================================================== *)
(** * The concrete packages the examples run on *)
(* ===================================================================== *)

Module Scenario.
Import Fs Script.

Definition atRoot (tree : node) : Fs.t := Fs.mk "/" tree.

(** The package of the specification's first example before the renames:
    [src/index.ts] imports [./a/util], which re-exports [./b/helper]. *)
Definition beforeRename : Fs.t :=
  atRoot
    (Dir [("p", Dir [("src", Dir
       [("index.ts", File "import { util } from './a/util';");
        ("a", Dir [("util.ts", File "export * from './b/helper';");
                   ("b", Dir [("helper.ts", File "export const helper = 1;")])])])])]).

(** The same package once [src/a] is [src/x7k] and [src/a/b] is
    [src/x7k/m2p]. *)
Definition afterRename : Fs.t :=
  atRoot
    (Dir [("p", Dir [("src", Dir
       [("index.ts", File "import { util } from './a/util';");
        ("x7k", Dir [("util.ts", File "export * from './b/helper';");
                     ("m2p", Dir [("helper.ts", File "export const helper = 1;")])])])])]).

(** The rename plan as the specification words it. *)
Definition planAsWorded : dirMap :=
  [("/p/src/a", "/p/src/x7k"); ("/p/src/a/b", "/p/src/x7k/m2p")].

(** The rename plan as [anonymizeDirectories] builds it: the inner
    directory first, renamed inside its parent of that moment. *)
Definition planAsBuilt : dirMap :=
  [("/p/src/a/b", "/p/src/a/m2p"); ("/p/src/a", "/p/src/x7k")].

(** What [beforeRename] is after the two steps of [main]. *)
Definition afterMain : Fs.t :=
  atRoot
    (Dir [("p", Dir [("src", Dir
       [("index.ts", File "import { util } from './dir-2cv/util/index';");
        ("dir-2cv", Dir [("util.ts", File "export * from './b/helper';");
                         ("dir-2dq", Dir [("helper.ts", File "export const helper = 1;")])])])])]).

(** A file that re-exports a directory through its [index.ts]. *)
Definition withShared (name : string) : Fs.t :=
  atRoot
    (Dir [("p", Dir [("src", Dir
       [("a", Dir [("util.ts", File "export * from '../shared';")]);
        (name, Dir [("index.ts", File "export const s = 1;")])])])]).

Definition planShared : dirMap := [("/p/src/shared", "/p/src/q9z")].

(** A file [abc.ts] beside a renamed directory [a]. *)
Definition besideRenamed (specifier : string) : Fs.t :=
  atRoot
    (Dir [("p", Dir [("src", Dir
       [("index.ts", File ("export * from '" ++ specifier ++ "';"));
        ("abc.ts", File "export const s = 1;");
        ("dir-1", Dir [])])])]).

Definition planBeside : dirMap := [("/p/src/a", "/p/src/dir-1")].

(** A barrel file [src/a/index.ts] that is only re-exported. *)
Definition withBarrel : Fs.t :=
  atRoot
    (Dir [("p", Dir [("src", Dir
       [("index.ts", File "export * from './a';");
        ("a", Dir [("index.ts", File "export * from './util';");
                   ("util.ts", File "export const u = 1;")])])])]).

(** Two files that import each other. *)
Definition withCycle : Fs.t :=
  atRoot
    (Dir [("p", Dir [("src", Dir
       [("index.ts", File "import a from './a';");
        ("a.ts", File "import b from './b';");
        ("b.ts", File "import a from './a'; import i from './index';")])])]).

(** A data file imported under its full name, and a second package whose
    name starts like the first one's. *)
Definition withData : Fs.t :=
  atRoot
    (Dir [("p", Dir [("src", Dir
       [("index.ts", File "import data from './data.json';");
        ("data.json", File "{}")])]);
          ("p2", Dir [("x.ts", File "export {};")])]).

(** One statement per import form. *)
Definition withForms (statement : string) : Fs.t :=
  atRoot
    (Dir [("p", Dir [("src", Dir
       [("index.ts", File statement);
        ("a", Dir [("util.ts", File "export const u = 1;")])])])]).

(** The head of a source file: two default imports (the second with a
    line feed, tabs and double quotes for its white space and quotes), a
    named import on one line and one over three lines, a namespace import
    and a side-effect import, all of the same file, with a comment, an
    empty line and a line of code between and after them. *)
Definition importLines : list Notions.line :=
  [ Notions.mkLine (Notions.Other "// the imports of this file") "";
    Notions.mkLine
      (Notions.DefaultImport " " "util" " " " " "'" "./a/util") ";";
    Notions.mkLine (Notions.NamedImport " " " util } from './a/util'") ";";
    Notions.mkLine
      (Notions.DefaultImport (String Anonymizer.lf "  ") "$u_2"
                             (String (ascii_of_nat 9) "")
                             (String (ascii_of_nat 9) " ") Regex.dquote
                             "./a/util.ts") "";
    Notions.mkLine
      (Notions.NamedImport " " (String Anonymizer.lf
                                  ("  util," ++ String Anonymizer.lf
                                     "} from './a/util'"))) ";";
    Notions.mkLine (Notions.NamespaceImport " " " as u from './a/util'") ";";
    Notions.mkLine (Notions.SideEffectImport " " "'" "./a/util")
                   "; // loaded first";
    Notions.mkLine (Notions.Other "") "";
    Notions.mkLine (Notions.Other "export const important = util;") "" ].

(** A line with a side-effect import of a package in front of an import
    of a file of the package. *)
Definition mixedText : string :=
  "import 'pkg/./a/util'; import u from './a/util';".

(** The plan that renames [src/a] alone. *)
Definition planOfA : dirMap := [("/p/src/a", "/p/src/x7k")].

(** A file that loads a polyfill and then imports from the index of its
    own directory, on one line. *)
Definition polyfillText : string :=
  "import 'zone.js'; import { x } from '.';".

Definition withPolyfill (text : string) : Fs.t :=
  atRoot
    (Dir [("p", Dir [("src", Dir
       [("a", Dir [("index.ts", File "export const x = 1;");
                   ("main.ts", File text)])])])]).

(** The package of the first example with other texts in its files. *)
Definition beforeRenameOtherTexts : Fs.t :=
  atRoot
    (Dir [("p", Dir [("src", Dir
       [("index.ts", File "export {};");
        ("a", Dir [("util.ts", File "// Anonymized file");
                   ("b", Dir [("helper.ts", File "")])])])])]).

(** Both after the planner has renamed their directories. *)
Definition afterPlanner : Fs.t :=
  atRoot
    (Dir [("p", Dir [("src", Dir
       [("index.ts", File "import { util } from './a/util';");
        ("dir-2cv", Dir [("util.ts", File "export * from './b/helper';");
                         ("dir-2dq", Dir [("helper.ts", File "export const helper = 1;")])])])])]).

Definition afterPlannerOtherTexts : Fs.t :=
  atRoot
    (Dir [("p", Dir [("src", Dir
       [("index.ts", File "export {};");
        ("dir-2cv", Dir [("util.ts", File "// Anonymized file");
                         ("dir-2dq", Dir [("helper.ts", File "")])])])])]).

(** A package with test files, a cucumber directory and installed
    modules. *)
Definition withTests : Fs.t :=
  atRoot
    (Dir [("p", Dir
       [("package.json", File "{}");
        ("vitest.config.ts", File "export default {};");
        ("node_modules", Dir [("x", Dir [("x.test.ts", File "");
                                         ("x.ts", File "")])]);
        ("test", Dir [("steps.ts", File "export const steps = 1;")]);
        ("src", Dir
           [("index.ts", File "export * from './calc';");
            ("calc.ts", File "export const calc = 1;");
            ("calc.test.ts", File "it('adds', () => {});");
            ("calc.spec.ts", File "it('adds', () => {});");
            ("util", Dir [("helper.ts", File "export const helper = 1;");
                          ("helper.test.ts", File "it('helps', () => {});")])])])]).

(** The same package once the directories named [test] are deleted. *)
Definition withoutTestDirs : Fs.t :=
  atRoot
    (Dir [("p", Dir
       [("package.json", File "{}");
        ("vitest.config.ts", File "export default {};");
        ("node_modules", Dir [("x", Dir [("x.test.ts", File "");
                                         ("x.ts", File "")])]);
        ("src", Dir
           [("index.ts", File "export * from './calc';");
            ("calc.ts", File "export const calc = 1;");
            ("calc.test.ts", File "it('adds', () => {});");
            ("calc.spec.ts", File "it('adds', () => {});");
            ("util", Dir [("helper.ts", File "export const helper = 1;");
                          ("helper.test.ts", File "it('helps', () => {});")])])])]).

(** A source file with code between its exports. *)
Definition sourceText : string :=
  "import { b } from './b';" ++ Anonymizer.nl
  ++ "export const a = 1;" ++ Anonymizer.nl
  ++ "function hidden() { return b; }" ++ Anonymizer.nl
  ++ "  export type T = number;" ++ Anonymizer.nl
  ++ "exports.x = 2;" ++ Anonymizer.nl.

Definition withSourceText : Fs.t :=
  atRoot
    (Dir [("p", Dir [("src", Dir
       [("index.ts", File sourceText);
        ("b.ts", File "export const b = 1;")])])]).

(** A package whose only file lies three directories deep, beside an
    empty directory. *)
Definition withEmptyDirs : Fs.t :=
  atRoot
    (Dir [("p", Dir
       [("package.json", File "{}");
        ("src", Dir [("a", Dir [("b", Dir [])])])])]).

Definition withoutEmptyDirs : Fs.t :=
  atRoot (Dir [("p", Dir [("package.json", File "{}")])]).

End Scenario.

(* ===================================================================== *)
(** * Sanity checks of the model on small inputs *)
(* ===================================================================== *)

Module PathExamples.
Import Path.

Example resolve_plain :
  resolve "/ws" ["/p/src"; "./a/util.ts"] = "/p/src/a/util.ts".
Proof. reflexivity. Qed.

Example resolve_up :
  resolve "/ws" ["/p/src/a"; "../shared"; "index.ts"] = "/p/src/shared/index.ts".
Proof. reflexivity. Qed.

Example resolve_cwd : resolve "/ws" ["packages/x"] = "/ws/packages/x".
Proof. reflexivity. Qed.

Example resolve_abs_spec : resolve "/ws" ["/p/src"; "/q/r.ts"] = "/q/r.ts".
Proof. reflexivity. Qed.

Example relative_down :
  relative "/ws" "/p/src" "/p/src/x7k/util.ts" = "x7k/util.ts".
Proof. reflexivity. Qed.

Example relative_up :
  relative "/ws" "/p/src/a" "/p/src/q9z/index.ts" = "../q9z/index.ts".
Proof. reflexivity. Qed.

Example relative_same : relative "/ws" "/p/src" "/p/src" = "".
Proof. reflexivity. Qed.

Example join_up : joinPaths ["/p/src/x7k"; "../abc.ts"] = "/p/src/abc.ts".
Proof. reflexivity. Qed.

Example join_trailing : joinPaths ["/p"; "src/"] = "/p/src/".
Proof. reflexivity. Qed.

Example dirname_file : dirname "/p/src/index.ts" = "/p/src".
Proof. reflexivity. Qed.

Example dirname_top : dirname "/index.ts" = "/".
Proof. reflexivity. Qed.

Example dirname_bare : dirname "index.ts" = ".".
Proof. reflexivity. Qed.

Example dirname_trailing : dirname "/p/src/" = "/p".
Proof. reflexivity. Qed.

Example replaceFirst_once :
  JsString.replaceFirst "from './a' and './a'" "./a" "./b" = "from './b' and './a'".
Proof. reflexivity. Qed.

End PathExamples.

Module FsExamples.
Import Fs.

Example exists_file : existsSync Scenario.beforeRename "/p/src/a/util.ts" = true.
Proof. reflexivity. Qed.

Example exists_dir : existsSync Scenario.beforeRename "/p/src/a" = true.
Proof. reflexivity. Qed.

Example exists_not :
  existsSync Scenario.beforeRename "/p/src/a/util/index.ts" = false.
Proof. reflexivity. Qed.

Example read_dir_throws : readFileSync Scenario.beforeRename "/p/src/a" = None.
Proof. reflexivity. Qed.

Example readdir_src :
  readdirSync Scenario.beforeRename "/p/src"
  = Some [("index.ts", false); ("a", true)].
Proof. reflexivity. Qed.

Example rename_dir :
  option_map (fun fs => (existsSync fs "/p/src/a/util.ts",
                         existsSync fs "/p/src/x7k/util.ts"))
    (renameSync Scenario.beforeRename "/p/src/a" "/p/src/x7k")
  = Some (false, true).
Proof. reflexivity. Qed.

Example rename_onto_file :
  renameSync Scenario.beforeRename "/p/src/a" "/p/src/index.ts" = None.
Proof. reflexivity. Qed.

Example rename_both_gives_afterRename :
  match renameSync Scenario.beforeRename "/p/src/a/b" "/p/src/a/m2p" with
  | Some fs => renameSync fs "/p/src/a" "/p/src/x7k"
  | None => None
  end = Some Scenario.afterRename.
Proof. reflexivity. Qed.

Example write_file :
  option_map (fun fs => readFileSync fs "/p/src/index.ts")
    (writeFileSync Scenario.beforeRename "/p/src/index.ts" "export {};")
  = Some (Some "export {};").
Proof. reflexivity. Qed.

End FsExamples.

Module RegexExamples.
Import Regex.

Example default_import_matches :
  execAll importRegex "import foo from './a/util';" =
  [mkFound "import foo from './a/util'" "./a/util"].
Proof. reflexivity. Qed.

Example named_import_not_direct :
  execAll importRegex "import { foo } from './a/util';" = [].
Proof. reflexivity. Qed.

Example namespace_import_not_direct :
  execAll importRegex "import * as ns from './a/util';" = [].
Proof. reflexivity. Qed.

Example side_effect_import_not_direct :
  execAll importRegex "import './a/util';" = [].
Proof. reflexivity. Qed.

Example type_import_matches :
  execAll importRegex "import type { T } from './types';" =
  [mkFound "import type { T } from './types'" "./types"].
Proof. reflexivity. Qed.

Example export_star_matches :
  execAll exportFromRegex "export * from './b/helper';" =
  [mkFound "export * from './b/helper'" "./b/helper"].
Proof. reflexivity. Qed.

Example two_lines :
  execAll importFromRegex
    ("import { a } from './a';" ++ String (ascii_of_nat 10) "import b from 'vitest';") =
  [mkFound "import { a } from './a'" "./a"; mkFound "import b from 'vitest'" "vitest"].
Proof. reflexivity. Qed.

Example replace_keeps_rest :
  replaceAll exportFromRegex (fun m => ("<" ++ group1 m ++ ">", true))
    "// x  export * from './b';  tail" = ("// x  <./b>;  tail", true).
Proof. reflexivity. Qed.

End RegexExamples.

(* ===================================================================== *)
(** * Facts about strings *)
(* ===================================================================== *)

Module StringFacts.
Import JsString Notions.

Lemma append_nil_r (s : string) : s ++ "" = s.
Proof. induction s as [|c s IH]; simpl; [reflexivity | now rewrite IH]. Qed.

Lemma append_assoc (a b c : string) : (a ++ b) ++ c = a ++ (b ++ c).
Proof. induction a as [|x a IH]; simpl; [reflexivity | now rewrite IH]. Qed.

Lemma length_append (a b : string) :
  String.length (a ++ b) = String.length a + String.length b.
Proof. induction a as [|x a IH]; simpl; [reflexivity | now rewrite IH]. Qed.

Lemma drop_empty (n : nat) : drop n "" = "".
Proof. now destruct n. Qed.

Lemma take_drop (n : nat) (s : string) : take n s ++ drop n s = s.
Proof.
  revert n; induction s as [|c s IH]; intros [|n]; simpl; try reflexivity.
  now rewrite IH.
Qed.

Lemma prefix_refl (s : string) : String.prefix s s = true.
Proof. induction s as [|c s IH]; simpl; [reflexivity |]. now destruct (ascii_dec c c). Qed.

Lemma prefix_append (a b : string) : String.prefix a (a ++ b) = true.
Proof.
  induction a as [|c a IH]; simpl; [now destruct b |].
  now destruct (ascii_dec c c).
Qed.

Lemma prefix_inv (p s : string) :
  String.prefix p s = true -> exists t, s = p ++ t.
Proof.
  revert s; induction p as [|c p IH]; intros s H.
  - now exists s.
  - destruct s as [|d s]; simpl in H; [discriminate |].
    destruct (ascii_dec c d) as [->|]; [| discriminate].
    destruct (IH _ H) as [t ->]. now exists t.
Qed.

Lemma startsWith_append (a b : string) : startsWith (a ++ b) a = true.
Proof. apply prefix_append. Qed.

Lemma endsWith_eq (s p : string) :
  endsWith s p =
  if String.eqb s p then true
  else match s with EmptyString => false | String _ s' => endsWith s' p end.
Proof. destruct s; reflexivity. Qed.

Lemma removeSuffix_eq (p s : string) :
  removeSuffix p s =
  if String.eqb s p then EmptyString
  else match s with
       | EmptyString => EmptyString
       | String c s' => String c (removeSuffix p s')
       end.
Proof. destruct s; reflexivity. Qed.

Lemma endsWith_refl (p : string) : endsWith p p = true.
Proof. rewrite endsWith_eq. now rewrite String.eqb_refl. Qed.

Lemma endsWith_append (a p : string) : endsWith (a ++ p) p = true.
Proof.
  induction a as [|c a IH].
  - apply endsWith_refl.
  - change (String c a ++ p) with (String c (a ++ p)).
    rewrite endsWith_eq.
    destruct (String.eqb (String c (a ++ p)) p); [reflexivity | exact IH].
Qed.

Lemma endsWith_inv (s p : string) :
  endsWith s p = true -> exists a, s = a ++ p.
Proof.
  induction s as [|c s IH]; rewrite endsWith_eq.
  - destruct (String.eqb_spec "" p) as [<-|_]; [now exists "" | discriminate].
  - destruct (String.eqb_spec (String c s) p) as [<-|_].
    + now exists "".
    + intros H. destruct (IH H) as [a ->]. now exists (String c a).
Qed.

Lemma lastChar_append (a : string) (c : ascii) (b : string) :
  lastChar (a ++ String c b) = lastChar (String c b).
Proof.
  induction a as [|x a IH]; [reflexivity |].
  change (String x a ++ String c b) with (String x (a ++ String c b)).
  destruct a; simpl in *; exact IH.
Qed.

Lemma endsWith_lastChar (s : string) (c : ascii) (p : string) :
  endsWith s (String c p) = true -> lastChar s = lastChar (String c p).
Proof.
  intros H. destruct (endsWith_inv _ _ H) as [a ->]. apply lastChar_append.
Qed.

Lemma removeSuffix_append (a p : string) : removeSuffix p (a ++ p) = a.
Proof.
  induction a as [|c a IH].
  - rewrite removeSuffix_eq. simpl. now rewrite String.eqb_refl.
  - change (String c a ++ p) with (String c (a ++ p)).
    rewrite removeSuffix_eq.
    destruct (String.eqb_spec (String c (a ++ p)) p) as [E|_].
    + exfalso. apply (f_equal String.length) in E. simpl in E.
      rewrite length_append in E. lia.
    + now rewrite IH.
Qed.

Lemma removeSuffix_none (p s : string) :
  endsWith s p = false -> removeSuffix p s = s.
Proof.
  induction s as [|c s IH]; rewrite endsWith_eq, removeSuffix_eq.
  - now destruct (String.eqb "" p).
  - destruct (String.eqb (String c s) p); [discriminate |].
    intros H. now rewrite IH.
Qed.

End StringFacts.

(* ===================================================================== *)
(** * Facts about paths *)
(* ===================================================================== *)

Module PathFacts.
Import JsString Path Notions StringFacts.

Lemma split_cons (c : ascii) (s : string) :
  exists h t, split c s = h :: t.
Proof.
  induction s as [|x s [h [t IH]]]; simpl; [now eexists _, _ |].
  destruct (Ascii.eqb x c); [now eexists _, _ |].
  rewrite IH. now eexists _, _.
Qed.

Lemma split_app_sep (c : ascii) (a b : string) :
  split c (a ++ String c b) = (split c a ++ split c b)%list.
Proof.
  induction a as [|x a IH]; simpl.
  - now rewrite Ascii.eqb_refl.
  - destruct (Ascii.eqb x c); [now rewrite IH |].
    rewrite IH. destruct (split_cons c a) as [h [t ->]]. reflexivity.
Qed.

Lemma split_sepFree (s : string) : sepFree s = true -> split sep s = [s].
Proof.
  induction s as [|x s IH]; simpl; [reflexivity |].
  intros H. apply andb_prop in H as [Hx Hs].
  apply negb_true_iff in Hx. rewrite Hx, (IH Hs). reflexivity.
Qed.

Lemma split_all_sepFree (s : string) :
  Forall (fun x => sepFree x = true) (split sep s).
Proof.
  induction s as [|x s IH]; simpl; [now constructor |].
  destruct (Ascii.eqb x sep) eqn:E; [now constructor |].
  destruct (split sep s) as [|h t]; [constructor; [simpl; now rewrite E | constructor] |].
  inversion IH; subst. constructor; [simpl; now rewrite E | assumption].
Qed.

Lemma join_cons2 (x y : string) (l : list string) :
  join "/" (x :: y :: l) = x ++ String sep (join "/" (y :: l)).
Proof. reflexivity. Qed.

Lemma split_join (l : list string) :
  l <> [] -> Forall (fun x => sepFree x = true) l -> split sep (join "/" l) = l.
Proof.
  induction l as [|x l IH]; intros Hne H; [congruence |].
  inversion H as [|? ? Hx Hl]; subst.
  destruct l as [|y l]; [now apply split_sepFree |].
  rewrite join_cons2, split_app_sep, (split_sepFree x Hx).
  simpl app. f_equal. apply IH; [discriminate | assumption].
Qed.

Lemma plainSeg_sepFree (s : string) : plainSeg s = true -> sepFree s = true.
Proof. unfold plainSeg. intros H. now apply andb_prop in H as [_ H]. Qed.

Lemma plain_all_sepFree (l : list string) :
  Forall (fun x => plainSeg x = true) l -> Forall (fun x => sepFree x = true) l.
Proof. apply Forall_impl, plainSeg_sepFree. Qed.

Lemma plainSeg_inv (s : string) :
  plainSeg s = true ->
  String.eqb s "" = false /\ String.eqb s "." = false
  /\ String.eqb s ".." = false /\ sepFree s = true.
Proof.
  unfold plainSeg. intros H.
  apply andb_prop in H as [H H4]. apply andb_prop in H as [H H3].
  apply andb_prop in H as [H1 H2].
  now rewrite negb_true_iff in H1, H2, H3.
Qed.

Lemma normalizeSegs_app (b : bool) (l1 l2 acc : list string) :
  normalizeSegs b acc (l1 ++ l2)
  = normalizeSegs b (rev (normalizeSegs b acc l1)) l2.
Proof.
  revert acc; induction l1 as [|s l1 IH]; intros acc; simpl.
  - now rewrite rev_involutive.
  - destruct (String.eqb s ""); [apply IH |].
    destruct (String.eqb s "."); [apply IH |].
    destruct (String.eqb s ".."); [| apply IH].
    destruct acc as [|top acc']; [apply IH |].
    destruct (String.eqb top ".."); apply IH.
Qed.

Lemma normalizeSegs_plain (b : bool) (l acc : list string) :
  Forall (fun x => plainSeg x = true) l ->
  normalizeSegs b acc l = (rev acc ++ l)%list.
Proof.
  revert acc; induction l as [|s l IH]; intros acc H; simpl.
  - now rewrite app_nil_r.
  - inversion H as [|? ? Hs Hl]; subst.
    destruct (plainSeg_inv s Hs) as (-> & -> & -> & _).
    rewrite (IH _ Hl). simpl. now rewrite <- app_assoc.
Qed.

Lemma normalizeSegs_out_plain (l acc : list string) :
  Forall (fun x => plainSeg x = true) acc ->
  Forall (fun x => sepFree x = true) l ->
  Forall (fun x => plainSeg x = true) (normalizeSegs false acc l).
Proof.
  revert acc; induction l as [|s l IH]; intros acc Hacc Hl; simpl.
  - now apply Forall_rev.
  - inversion Hl as [|? ? Hs Hl']; subst.
    destruct (String.eqb s "") eqn:E1; [now apply IH |].
    destruct (String.eqb s ".") eqn:E2; [now apply IH |].
    destruct (String.eqb s "..") eqn:E3.
    + destruct acc as [|top acc']; [now apply IH |].
      inversion Hacc; subst.
      destruct (String.eqb top ".."); now apply IH.
    + apply IH; [| assumption]. constructor; [| assumption].
      unfold plainSeg. now rewrite E1, E2, E3, Hs.
Qed.

Lemma flat_map_split_sepFree (l : list string) :
  Forall (fun x => sepFree x = true) (flat_map (split sep) l).
Proof.
  induction l as [|x l IH]; simpl; [constructor |].
  apply Forall_app. split; [apply split_all_sepFree | exact IH].
Qed.

Lemma resolveSegs_plain (cwd : string) (args : list string) :
  Forall (fun x => plainSeg x = true) (resolveSegs cwd args).
Proof.
  unfold resolveSegs. destruct (resolveArgs args) as [abs used'].
  apply normalizeSegs_out_plain; [constructor | apply flat_map_split_sepFree].
Qed.

Lemma resolve_canon (cwd : string) (args : list string) :
  resolve cwd args = canon (resolveSegs cwd args).
Proof. reflexivity. Qed.

Lemma split_canon (l : list string) :
  Forall (fun x => plainSeg x = true) l ->
  normalizeSegs false [] (split sep (canon l)) = l.
Proof.
  intros H. unfold canon. simpl.
  change (if Ascii.eqb sep sep then _ else _) with ("" :: split sep (join "/" l)).
  destruct l as [|x l]; [reflexivity |].
  rewrite split_join by (try discriminate; now apply plain_all_sepFree).
  simpl (normalizeSegs false [] ("" :: _)).
  now rewrite normalizeSegs_plain.
Qed.

Lemma resolveSegs_canon (cwd : string) (l : list string) :
  Forall (fun x => plainSeg x = true) l -> resolveSegs cwd [canon l] = l.
Proof.
  intros H. unfold resolveSegs. simpl. rewrite app_nil_r. now apply split_canon.
Qed.

Lemma lastChar_join (x : string) (l : list string) :
  lastChar (join "/" (l ++ [x])) = lastChar x \/ x = "".
Proof.
  destruct x as [|c x]; [now right | left].
  induction l as [|y l IH]; [reflexivity |].
  destruct l as [|z l].
  - simpl app. rewrite join_cons2. simpl join.
    now rewrite lastChar_append.
  - change ((y :: z :: l) ++ [String c x])%list with (y :: (z :: l) ++ [String c x])%list.
    simpl app in *. rewrite join_cons2.
    rewrite lastChar_append.
    remember (join "/" (z :: (l ++ [String c x])%list)) as r.
    destruct r as [|d r]; [| exact IH].
    exfalso. clear - Heqr. destruct l; simpl in Heqr; destruct z; discriminate.
Qed.

Lemma lastChar_sepFree (s : string) (c : ascii) :
  sepFree s = true -> lastChar s = Some c -> c <> sep.
Proof.
  induction s as [|x s IH]; [discriminate |].
  simpl sepFree. intros H. apply andb_prop in H as [Hx Hs].
  destruct s as [|y s].
  - simpl. intros [= <-]. apply negb_true_iff in Hx. now apply Ascii.eqb_neq.
  - intros Hl. apply IH; assumption.
Qed.

Lemma lastChar_cons (c : ascii) (s : string) :
  s <> "" -> lastChar (String c s) = lastChar s.
Proof. destruct s; [congruence | reflexivity]. Qed.

Lemma lastChar_none (s : string) : lastChar s = None -> s = "".
Proof.
  induction s as [|c s IH]; [reflexivity |].
  destruct s as [|d s]; [discriminate |].
  intros H. specialize (IH H). discriminate.
Qed.

Lemma join_not_trailing (l : list string) :
  l <> [] -> Forall (fun x => plainSeg x = true) l ->
  endsWith (String sep (join "/" l)) "/" = false.
Proof.
  intros Hne H.
  destruct (endsWith (String sep (join "/" l)) "/") eqn:E; [| reflexivity].
  exfalso. apply endsWith_lastChar in E.
  destruct (exists_last Hne) as [l' [x ->]].
  apply Forall_app in H as [_ Hx]. inversion Hx as [|? ? Hp _]; subst.
  destruct (plainSeg_inv x Hp) as (Hx1 & _ & _ & Hfree).
  apply String.eqb_neq in Hx1.
  destruct (lastChar_join x l') as [Hl | ->]; [| congruence].
  assert (Hx2 : lastChar x <> None)
    by (intros Hn; now apply lastChar_none in Hn).
  assert (Hj : join "/" (l' ++ [x]) <> "").
  { intros Hj. rewrite Hj in Hl. simpl in Hl. congruence. }
  rewrite (lastChar_cons _ _ Hj), Hl in E. simpl in E.
  now apply (lastChar_sepFree x sep Hfree E).
Qed.

Lemma join_nonempty (x : string) (l : list string) :
  x <> "" -> join "/" (x :: l) <> "".
Proof. destruct x; [congruence |]. destruct l; discriminate. Qed.

Lemma normalize_canon (l : list string) :
  Forall (fun x => plainSeg x = true) l -> normalize (canon l) = canon l.
Proof.
  intros H. unfold normalize.
  change (canon l) with (String sep (join "/" l)) at 1.
  cbv beta iota.
  change (isAbsolute (String sep (join "/" l))) with true.
  unfold normalizeString. simpl negb.
  change (String sep (join "/" l)) with (canon l).
  rewrite (split_canon l H).
  destruct l as [|x l]; [reflexivity |].
  inversion H as [|? ? Hx _]; subst.
  destruct (plainSeg_inv x Hx) as (Hx1 & _).
  apply String.eqb_neq in Hx1.
  pose proof (join_nonempty x l Hx1) as Hne.
  destruct (join "/" (x :: l)) as [|d r] eqn:Ej; [congruence |].
  unfold hasTrailingSep, canon.
  change ("/" ++ join "/" (x :: l)) with (String sep (join "/" (x :: l))).
  rewrite join_not_trailing by (try discriminate; assumption).
  now rewrite Ej.
Qed.

Lemma normalize_resolve (cwd : string) (args : list string) :
  normalize (resolve cwd args) = resolve cwd args.
Proof. rewrite resolve_canon. apply normalize_canon, resolveSegs_plain. Qed.

Lemma segsOf_resolve (fs : Fs.t) (args : list string) :
  Fs.segsOf fs (resolve (Fs.cwd fs) args) = resolveSegs (Fs.cwd fs) args.
Proof.
  unfold Fs.segsOf. rewrite resolve_canon.
  apply resolveSegs_canon, resolveSegs_plain.
Qed.

Lemma lookup_allSegs (segs : list string) :
  forall (n x : Fs.node), Fs.lookup n segs = Some x -> In segs (allSegs n).
Proof.
  induction segs as [|s rest IH]; intros n x H.
  - destruct n; now left.
  - destruct n as [c|es]; [discriminate |]. simpl in H. right.
    induction es as [|[k c] es IHes]; [discriminate |].
    simpl in H. apply in_or_app.
    destruct (String.eqb_spec k s) as [->|_].
    + left. apply in_map. now apply (IH c x).
    + right. now apply IHes.
Qed.

(** Every path of the form [path.resolve] returns that exists is one of
    finitely many. *)
Lemma exists_resolve_listed (fs : Fs.t) (args : list string) :
  Fs.existsSync fs (resolve (Fs.cwd fs) args) = true ->
  In (resolve (Fs.cwd fs) args) (map canon (allSegs (Fs.root fs))).
Proof.
  unfold Fs.existsSync, Fs.stat. rewrite segsOf_resolve.
  destruct (Fs.lookup _ _) as [x|] eqn:E; [| discriminate].
  intros _. rewrite resolve_canon. apply in_map.
  now apply lookup_allSegs with (x := x).
Qed.

Lemma join_snoc (l : list string) (x : string) :
  join "/" (l ++ [x]) =
  match l with [] => x | _ :: _ => join "/" l ++ String sep x end.
Proof.
  induction l as [|y l IH]; [reflexivity |].
  destruct l as [|z l]; [reflexivity |].
  change ((y :: z :: l) ++ [x])%list with (y :: z :: (l ++ [x]))%list.
  rewrite join_cons2. change (z :: (l ++ [x]))%list with ((z :: l) ++ [x])%list.
  rewrite IH, join_cons2. simpl. now rewrite append_assoc.
Qed.

Lemma normalizeSegs_snoc (b : bool) (l : list string) (x : string) :
  plainSeg x = true ->
  normalizeSegs b [] (l ++ [x]) = (normalizeSegs b [] l ++ [x])%list.
Proof.
  intros H. rewrite normalizeSegs_app, normalizeSegs_plain by (now constructor).
  now rewrite rev_involutive.
Qed.

Lemma endsSeg_split (p seg : string) :
  plainSeg seg = true -> endsSeg p seg ->
  exists l, split sep p = (l ++ [seg])%list.
Proof.
  intros H [-> | [before ->]].
  - exists []. apply split_sepFree. now apply plainSeg_sepFree.
  - exists (split sep before).
    rewrite split_app_sep, (split_sepFree seg) by (now apply plainSeg_sepFree).
    reflexivity.
Qed.

Lemma endsSeg_lastChar (p seg : string) :
  seg <> "" -> endsSeg p seg -> lastChar p = lastChar seg.
Proof.
  intros Hne [-> | [before ->]]; [reflexivity |].
  rewrite lastChar_append. now apply lastChar_cons.
Qed.

Lemma endsSeg_not_trailing (p seg : string) :
  plainSeg seg = true -> endsSeg p seg -> endsWith p "/" = false.
Proof.
  intros H He. destruct (plainSeg_inv seg H) as (H1 & _ & _ & Hfree).
  apply String.eqb_neq in H1.
  destruct (endsWith p "/") eqn:E; [| reflexivity]. exfalso.
  apply endsWith_lastChar in E. rewrite (endsSeg_lastChar p seg H1 He) in E.
  simpl in E. now apply (lastChar_sepFree seg sep Hfree E).
Qed.

Lemma endsSeg_nonempty (p seg : string) : seg <> "" -> endsSeg p seg -> p <> "".
Proof.
  intros Hne [-> | [before ->]]; [assumption |]. now destruct before.
Qed.

(** [path.normalize] keeps the last segment of a path when it is a name. *)
Lemma normalize_endsSeg (p seg : string) :
  plainSeg seg = true -> endsSeg p seg -> endsSeg (normalize p) seg.
Proof.
  intros H He. destruct (plainSeg_inv seg H) as (H1 & _).
  apply String.eqb_neq in H1.
  pose proof (endsSeg_nonempty p seg H1 He) as Hp.
  destruct (endsSeg_split p seg H He) as [l Hl].
  unfold normalize. destruct p as [|c p]; [congruence |].
  unfold hasTrailingSep. rewrite (endsSeg_not_trailing _ seg H He).
  unfold normalizeString. rewrite Hl, (normalizeSegs_snoc _ l seg H), join_snoc.
  set (n := normalizeSegs (negb (isAbsolute (String c p))) [] l).
  destruct n as [|y n].
  - destruct seg as [|d seg]; [congruence |].
    destruct (isAbsolute (String c p)); [right; now exists "" | now left].
  - remember (join "/" (y :: n) ++ String sep seg) as q.
    assert (Hq : q <> "") by (subst q; destruct (join "/" (y :: n)); discriminate).
    destruct q as [|d q]; [congruence |].
    destruct (isAbsolute (String c p)).
    + right. exists ("/" ++ join "/" (y :: n)). rewrite Heqq. reflexivity.
    + right. exists (join "/" (y :: n)). now rewrite Heqq.
Qed.

Lemma endsSeg_endsWith (p seg : string) : endsSeg p seg -> endsWith p seg = true.
Proof.
  intros [-> | [before ->]]; [apply endsWith_refl |].
  change (before ++ String sep seg) with (before ++ ("/" ++ seg)).
  rewrite <- append_assoc. apply endsWith_append.
Qed.

Lemma joinPaths_endsSeg (args : list string) (seg : string) :
  plainSeg seg = true -> endsSeg (joinPaths (args ++ [seg])) seg.
Proof.
  intros H. destruct (plainSeg_inv seg H) as (H1 & _).
  unfold joinPaths. rewrite filter_app. simpl. rewrite H1. simpl.
  set (l := filter (fun a => negb (String.eqb a "")) args).
  destruct (l ++ [seg])%list as [|x r] eqn:E; [now destruct l |].
  change (endsSeg (normalize (join "/" (x :: r))) seg).
  rewrite <- E. apply normalize_endsSeg; [assumption |].
  rewrite join_snoc. destruct l; [now left | right; now eexists].
Qed.

Lemma entryPoint_index (packageRoot : string) :
  endsWith (entryFile packageRoot) "index.ts" = true.
Proof.
  apply endsSeg_endsWith. unfold entryFile.
  do 2 (apply normalize_endsSeg; [reflexivity |]).
  apply (joinPaths_endsSeg [packageRoot; "src"] "index.ts"). reflexivity.
Qed.

Lemma join_app (l1 l2 : list string) :
  l1 <> [] -> l2 <> [] ->
  join "/" (l1 ++ l2) = join "/" l1 ++ String sep (join "/" l2).
Proof.
  intros H1 H2. induction l1 as [|x l1 IH]; [congruence |].
  destruct l1 as [|y l1].
  - destruct l2; [congruence | reflexivity].
  - change ((x :: y :: l1) ++ l2)%list with (x :: y :: (l1 ++ l2))%list.
    rewrite join_cons2. change (y :: (l1 ++ l2))%list with ((y :: l1) ++ l2)%list.
    rewrite IH by discriminate. rewrite join_cons2.
    simpl. now rewrite append_assoc.
Qed.

Lemma isPrefixSegs_inv (a b : list string) :
  Fs.isPrefixSegs a b = true -> exists t, b = (a ++ t)%list.
Proof.
  revert b; induction a as [|x a IH]; intros b H; [now exists b |].
  destruct b as [|y b]; [discriminate |]. simpl in H.
  apply andb_prop in H as [Hxy Hab]. apply String.eqb_eq in Hxy. subst y.
  destruct (IH _ Hab) as [t ->]. now exists t.
Qed.

Lemma plain_join_nonempty (x : string) (l : list string) :
  plainSeg x = true -> join "/" (x :: l) <> "".
Proof.
  intros H. destruct (plainSeg_inv x H) as (H1 & _).
  apply String.eqb_neq in H1. now apply join_nonempty.
Qed.

(** [path.normalize] of an absolute path, in terms of its segments. *)
Lemma normalize_absolute (cwd p : string) :
  isAbsolute p = true ->
  normalize p =
  match resolveSegs cwd [p] with
  | [] => "/"
  | ns => canon ns ++ (if hasTrailingSep p then "/" else "")
  end.
Proof.
  intros Habs. unfold normalize, resolveSegs. simpl resolveArgs.
  destruct p as [|c p]; [discriminate |].
  rewrite Habs. cbn [String.eqb negb flat_map]. rewrite app_nil_r.
  unfold normalizeString.
  pose proof (normalizeSegs_out_plain (split sep (String c p)) []
                (Forall_nil _) (split_all_sepFree _)) as Hplain.
  destruct (normalizeSegs false [] (split sep (String c p))) as [|y n];
    [reflexivity |].
  inversion Hplain as [|? ? Hy _]; subst.
  pose proof (plain_join_nonempty y n Hy) as Hne.
  unfold canon. destruct (join "/" (y :: n)) as [|d r]; [congruence |].
  destruct (hasTrailingSep (String c p)); simpl; [reflexivity |].
  now rewrite append_nil_r.
Qed.

(** A resolved path properly inside an absolute package root starts with
    the normalized root. *)
Lemma inside_startsWith (fs : Fs.t) (packageRoot : string) (args : list string) :
  isAbsolute packageRoot = true ->
  properlyInside fs (resolve (Fs.cwd fs) args) packageRoot = true ->
  startsWith (resolve (Fs.cwd fs) args) (normalize packageRoot) = true.
Proof.
  intros Habs Hin. unfold properlyInside, underneath in Hin.
  apply andb_prop in Hin as [Hpre Hlen]. apply Nat.ltb_lt in Hlen.
  rewrite segsOf_resolve in Hpre, Hlen.
  destruct (isPrefixSegs_inv _ _ Hpre) as [t Ht].
  rewrite (normalize_absolute (Fs.cwd fs) packageRoot Habs).
  rewrite resolve_canon, Ht. unfold Fs.segsOf in *.
  assert (Hplain : Forall (fun x => plainSeg x = true)
                     (resolveSegs (Fs.cwd fs) [packageRoot]))
    by apply resolveSegs_plain.
  destruct (resolveSegs (Fs.cwd fs) [packageRoot]) as [|y n] eqn:E.
  - unfold canon, startsWith. now destruct (join "/" ([] ++ t)).
  - assert (Hne : t <> []).
    { intros ->. rewrite Ht, app_nil_r in Hlen. lia. }
    unfold canon, startsWith. rewrite join_app by (assumption || discriminate).
    destruct (hasTrailingSep packageRoot).
    + change ("/" ++ join "/" (y :: n) ++ String sep (join "/" t))
        with ("/" ++ (join "/" (y :: n) ++ ("/" ++ join "/" t))).
      rewrite <- !append_assoc. apply prefix_append.
    + rewrite append_nil_r. rewrite <- append_assoc. apply prefix_append.
Qed.

End PathFacts.

(* ===================================================================== *)
(** * The reference rewriter *)
(* ===================================================================== *)

Module RewriterFacts.
Import JsString Regex Script Notions StringFacts.

(** A callback that returns every match as it is leaves the text as it is
    and the flag down. *)
Lemma replaceLoop_id (re : regex) (f : found -> string * bool) :
  forall (s : string) (skip : nat),
    (forall mt, In mt (execLoop re skip s) -> f mt = (matched mt, false)) ->
    replaceLoop re f skip s = (drop skip s, false).
Proof.
  induction s as [|c s IH]; intros skip H.
  - now rewrite drop_empty.
  - destruct skip as [|k]; simpl in *.
    + destruct (rmatch re "" (String c s)) as [[cap rest]|].
      * rewrite (H _ (or_introl eq_refl)). simpl.
        rewrite (IH _ (fun mt Hin => H mt (or_intror Hin))).
        simpl. now rewrite take_drop.
      * rewrite (IH _ H). reflexivity.
    + apply IH, H.
Qed.

Lemma replaceAll_id (re : regex) (f : found -> string * bool) (s : string) :
  (forall mt, In mt (execAll re s) -> f mt = (matched mt, false)) ->
  replaceAll re f s = (s, false).
Proof. intros H. unfold replaceAll. now rewrite (replaceLoop_id re f s 0 H). Qed.

Lemma rewriteMatch_external (fs : Fs.t) (filePath : string) (m : dirMap)
      (mt : found) :
  isRelative (group1 mt) = false ->
  rewriteMatch fs filePath m mt = (matched mt, false).
Proof.
  unfold isRelative, rewriteMatch. intros H.
  apply orb_false_elim in H as [-> ->]. reflexivity.
Qed.

Lemma rewriteWith_none (fs : Fs.t) (dir importPath resolvedPath : string)
      (m : dirMap) :
  (forall oldDir newDir, In (oldDir, newDir) m ->
                         startsWith resolvedPath oldDir = false) ->
  rewriteWith fs dir importPath resolvedPath m = None.
Proof.
  induction m as [|[o n] m IH]; intros H; simpl; [reflexivity |].
  rewrite (H o n (or_introl eq_refl)).
  apply IH. intros o' n' Hin. apply (H o' n'). now right.
Qed.

Lemma rewriteMatch_untouched (fs : Fs.t) (filePath : string) (m : dirMap)
      (mt : found) :
  untouched fs filePath m mt ->
  rewriteMatch fs filePath m mt = (matched mt, false).
Proof.
  intros H. destruct (isRelative (group1 mt)) eqn:E.
  - unfold rewriteMatch, rewriteSpecifier.
    rewrite rewriteWith_none by (apply H; exact E).
    now destruct (negb _ && negb _).
  - now apply rewriteMatch_external.
Qed.

Lemma rewriteContent_id (fs : Fs.t) (filePath : string) (m : dirMap)
      (content : string) :
  (forall mt,
      In mt (execAll exportFromRegex content ++ execAll importFromRegex content)%list ->
      rewriteMatch fs filePath m mt = (matched mt, false)) ->
  rewriteContent fs filePath m content = (content, false).
Proof.
  intros H. unfold rewriteContent.
  rewrite replaceAll_id by (intros mt Hin; apply H, in_or_app; now left).
  rewrite replaceAll_id by (intros mt Hin; apply H, in_or_app; now right).
  reflexivity.
Qed.

(** When no old directory of the plan is a prefix (as a string) of a path
    a specifier of the file resolves to, nothing is written. *)
Lemma updateExportPaths_prefix_free (fs : Fs.t) (filePath : string)
      (m : dirMap) (content : string) :
  Fs.readFileSync fs filePath = Some content ->
  (forall mt,
      In mt (execAll exportFromRegex content ++ execAll importFromRegex content)%list ->
      untouched fs filePath m mt) ->
  updateExportPaths fs filePath m = Some (mkEffect fs false).
Proof.
  intros Hread H. unfold updateExportPaths. rewrite Hread.
  rewrite rewriteContent_id
    by (intros mt Hin; apply rewriteMatch_untouched, H, Hin).
  now destruct (negb (Fs.existsSync fs filePath)).
Qed.

(** Where every match of the two patterns captures a specifier that
    starts with neither a dot nor a slash, the text comes out of both
    passes as it went in and the flag [modified] stays down, whatever the
    rename plan, the file and the file system. *)
Lemma external_matches_are_kept (fs : Fs.t) (filePath : string)
      (m : dirMap) (content : string) :
  (forall mt,
      In mt (execAll exportFromRegex content
             ++ execAll importFromRegex content)%list ->
      isRelative (group1 mt) = false) ->
  rewriteContent fs filePath m content = (content, false).
Proof.
  intros H. apply rewriteContent_id.
  intros mt Hin. apply rewriteMatch_external, H, Hin.
Qed.

(** C8 -- External-specifier invariance, at a line that holds a
    side-effect import of a package and, after it, an import of a file of
    the package.  The import pattern finds one match, which starts at the
    first statement and captures the relative specifier of the second;
    the replacement of the captured characters inside the match then
    falls on their first occurrence, which lies in the specifier of the
    package.  So [pkg/./a/util] becomes [pkg/./x7k/util] and the relative
    specifier stays as it was; the two steps of [main] on the same tree
    turn it into [pkg/./dir-2cv/util/index]; and [zone.js] in front of an
    import from [.] becomes [zone../x7k/indexjs]. *)
Theorem external_specifier_is_rewritten :
  execAll importFromRegex Scenario.mixedText
  = [mkFound "import 'pkg/./a/util'; import u from './a/util'" "./a/util"]
  /\ isRelative "pkg/./a/util" = false
  /\ updateExportPaths (Scenario.withForms Scenario.mixedText)
       "/p/src/index.ts" Scenario.planOfA
     = Some (mkEffect
               (Scenario.withForms
                  "import 'pkg/./x7k/util'; import u from './a/util';")
               true)
  /\ (exists fs',
         renameAndRewrite 4 (Scenario.withForms Scenario.mixedText) "/p"
         = Done (fs', [("/p/src/a", "/p/src/dir-2cv")])
         /\ Fs.readFileSync fs' "/p/src/index.ts"
            = Some "import 'pkg/./dir-2cv/util/index'; import u from './a/util';")
  /\ isRelative "zone.js" = false
  /\ updateExportPaths (Scenario.withPolyfill Scenario.polyfillText)
       "/p/src/a/main.ts" Scenario.planOfA
     = Some (mkEffect
               (Scenario.withPolyfill
                  "import 'zone../x7k/indexjs'; import { x } from '.';")
               true).
Proof.
  split; [reflexivity |].
  split; [reflexivity |].
  split; [vm_compute; reflexivity |].
  split; [| split; [reflexivity | vm_compute; reflexivity]].
  eexists. split; vm_compute; reflexivity.
Qed.

(** The example of the specification, run where [main] runs the rewriter:
    as long as nothing is renamed yet, and with the plan as the planner
    builds it, the two specifiers come out as the specification says. *)
Lemma example_before_rename :
  rewriteSpecifier Scenario.beforeRename "/p/src/index.ts"
    Scenario.planAsBuilt "./a/util" = Some "./x7k/util"
  /\ rewriteSpecifier Scenario.beforeRename "/p/src/a/util.ts"
       Scenario.planAsBuilt "./b/helper" = Some "./m2p/helper".
Proof. split; reflexivity. Qed.

(** C1 -- Rewrite correctness, at the example of the specification.
    [main] renames the directories first and rewrites afterwards.  On the
    renamed tree the import of [src/index.ts] becomes [./x7k/util/index],
    which names no file, and the export of the moved [util.ts] is not
    rewritten at all, with the plan worded as in the specification and with
    the plan as the planner builds it; and the two steps of [main] run on
    the original tree leave both files with specifiers that resolve to
    nothing. *)
Theorem rewrite_after_rename_breaks_references :
  rewriteSpecifier Scenario.afterRename "/p/src/index.ts"
    Scenario.planAsWorded "./a/util" = Some "./x7k/util/index"
  /\ rewriteSpecifier Scenario.afterRename "/p/src/x7k/util.ts"
       Scenario.planAsWorded "./b/helper" = None
  /\ rewriteSpecifier Scenario.afterRename "/p/src/index.ts"
       Scenario.planAsBuilt "./a/util" = Some "./x7k/util/index"
  /\ rewriteSpecifier Scenario.afterRename "/p/src/x7k/util.ts"
       Scenario.planAsBuilt "./b/helper" = None
  /\ resolvesTo Scenario.afterRename "/p/src" "./x7k/util" "/p/src/x7k/util.ts" = true
  /\ Fs.existsSync Scenario.afterRename
       (resolveImportPath Scenario.afterRename "/p/src" "./x7k/util/index") = false
  /\ Fs.existsSync Scenario.afterRename
       (resolveImportPath Scenario.afterRename "/p/src/x7k" "./b/helper") = false
  /\ renameAndRewrite 4 Scenario.beforeRename "/p"
     = Done (Scenario.afterMain,
             [("/p/src/a/b", "/p/src/a/dir-2dq"); ("/p/src/a", "/p/src/dir-2cv")])
  /\ Fs.existsSync Scenario.afterMain
       (resolveImportPath Scenario.afterMain "/p/src" "./dir-2cv/util/index") = false
  /\ Fs.existsSync Scenario.afterMain
       (resolveImportPath Scenario.afterMain "/p/src/dir-2cv" "./b/helper") = false.
Proof. repeat split; vm_compute; reflexivity. Qed.

(** C10 -- No write without a renamed ancestor, at a file beside a
    renamed directory.  [./abc] resolves to [/p/src/abc.ts], which is not
    underneath the old directory [/p/src/a] of the plan; the path starts
    with the same characters, the rewriter takes that for an ancestor and
    writes the file: with the same text for [./abc], with another text
    for [.//abc]. *)
Theorem write_without_renamed_ancestor :
  resolveImportPath (Scenario.besideRenamed "./abc") "/p/src" "./abc"
  = "/p/src/abc.ts"
  /\ Notions.underneath (Scenario.besideRenamed "./abc")
       "/p/src/abc.ts" "/p/src/a" = false
  /\ updateExportPaths (Scenario.besideRenamed "./abc") "/p/src/index.ts"
       Scenario.planBeside
     = Some (mkEffect (Scenario.besideRenamed "./abc") true)
  /\ Notions.underneath (Scenario.besideRenamed ".//abc")
       (resolveImportPath (Scenario.besideRenamed ".//abc") "/p/src" ".//abc")
       "/p/src/a" = false
  /\ updateExportPaths (Scenario.besideRenamed ".//abc") "/p/src/index.ts"
       Scenario.planBeside
     = Some (mkEffect (Scenario.besideRenamed "./abc") true).
Proof. repeat split; vm_compute; reflexivity. Qed.

End RewriterFacts.

(* ===================================================================== *)
(** * The checks at the start of [main] *)
(* ===================================================================== *)

Module MainFacts.
Import Main Notions.

Lemma packagePathOf_none (rest : Fs.t -> string -> run) (argv : list string)
      (fs : Fs.t) :
  packagePathOf argv = None -> main rest argv fs = mkRun 1 usageLines [] fs.
Proof.
  unfold packagePathOf, main. destruct (nth_error argv 2) as [p|]; [| reflexivity].
  now destruct (String.eqb p "").
Qed.

Lemma packagePathOf_some (rest : Fs.t -> string -> run) (argv : list string)
      (fs : Fs.t) (p : string) :
  packagePathOf argv = Some p ->
  nth_error argv 2 = Some p /\ String.eqb p "" = false.
Proof.
  unfold packagePathOf. destruct (nth_error argv 2) as [q|]; [| discriminate].
  destruct (String.eqb q "") eqn:E; [discriminate |].
  intros [= <-]. now split.
Qed.

(** C9 -- Fatal usage errors are pre-mutation.  Whatever the rest of
    [main] does: when the argument is missing, names nothing or names a
    file, the run ends with exit code 1 and a message on the error stream,
    the file system is the one it started with, the only calls made to it
    are [existsSync] and [statSync], and for a missing argument no call is
    made at all. *)
Theorem usage_errors_stop_before_mutation
        (rest : Fs.t -> string -> run) (argv : list string) (fs : Fs.t) :
  usageError argv fs ->
  exitCode (main rest argv fs) = 1
  /\ stderr (main rest argv fs) <> []
  /\ finalFs (main rest argv fs) = fs
  /\ forallb readsOnly (fsCalls (main rest argv fs)) = true
  /\ (packagePathOf argv = None -> fsCalls (main rest argv fs) = []).
Proof.
  intros [Hnone | p Hsome Hex | p content Hsome Hstat].
  - rewrite (packagePathOf_none rest argv fs Hnone). simpl.
    repeat split. discriminate.
  - destruct (packagePathOf_some rest argv fs p Hsome) as [Hnth Hne].
    unfold main. rewrite Hnth, Hne, Hex. simpl.
    repeat split; [discriminate | congruence].
  - destruct (packagePathOf_some rest argv fs p Hsome) as [Hnth Hne].
    unfold main. rewrite Hnth, Hne.
    unfold Fs.existsSync. rewrite Hstat. simpl.
    repeat split; [discriminate | congruence].
Qed.

Lemma usage_errors_stop_before_mutation_witness :
  let rest := fun (fs : Fs.t) (_ : string) =>
                mkRun 0 [] [LaterCall "renameSync"] (Fs.mk (Fs.cwd fs) (Fs.Dir [])) in
  let argv := ["bun"; "anonymize-package.js"; "p/src/index.ts"] in
  let fs := Scenario.beforeRename in
  exitCode (main rest argv fs) = 1
  /\ stderr (main rest argv fs) <> []
  /\ finalFs (main rest argv fs) = fs
  /\ forallb readsOnly (fsCalls (main rest argv fs)) = true
  /\ (packagePathOf argv = None -> fsCalls (main rest argv fs) = []).
Proof.
  intros rest argv fs.
  apply (usage_errors_stop_before_mutation rest argv fs).
  apply (NotADirectory argv fs "p/src/index.ts" "import { util } from './a/util';");
    reflexivity.
Defined.

(** The three cases on the example package, and a run that passes the
    checks and hands over to the rest of [main]. *)
Example main_cases :
  let rest := fun (fs : Fs.t) (_ : string) =>
                mkRun 0 [] [LaterCall "renameSync"] (Fs.mk (Fs.cwd fs) (Fs.Dir [])) in
  main rest ["bun"; "anonymize-package.js"] Scenario.beforeRename
  = mkRun 1 usageLines [] Scenario.beforeRename
  /\ main rest ["bun"; "anonymize-package.js"; "q"] Scenario.beforeRename
     = mkRun 1 ["Error: Package path does not exist: /q"]
         [ExistsSyncCall "/q"] Scenario.beforeRename
  /\ main rest ["bun"; "anonymize-package.js"; "p/src/index.ts"] Scenario.beforeRename
     = mkRun 1 ["Error: Package path is not a directory: /p/src/index.ts"]
         [ExistsSyncCall "/p/src/index.ts"; StatSyncCall "/p/src/index.ts"]
         Scenario.beforeRename
  /\ exitCode (main rest ["bun"; "anonymize-package.js"; "p"] Scenario.beforeRename) = 0.
Proof. repeat split; reflexivity. Qed.

End MainFacts.

(* ===================================================================== *)
(** * The dependency graph builder *)
(* ===================================================================== *)

Module GraphFacts.
Import JsString Regex Script Notions StringFacts PathFacts.

Lemma setHas_In (s : list string) (x : string) :
  setHas s x = true <-> In x s.
Proof.
  unfold setHas. rewrite existsb_exists. split.
  - intros [y [Hin Heq]]. apply String.eqb_eq in Heq. now subst.
  - intros Hin. exists x. split; [assumption | apply String.eqb_refl].
Qed.

Lemma setHas_false (s : list string) (x : string) :
  setHas s x = false <-> ~ In x s.
Proof.
  rewrite <- setHas_In. destruct (setHas s x); split; congruence.
Qed.

Lemma setAdd_In (s : list string) (x y : string) :
  In y (setAdd s x) <-> In y s \/ y = x.
Proof.
  unfold setAdd. destruct (setHas s x) eqn:E.
  - apply setHas_In in E. split; [now left | intros [H | ->]; assumption].
  - rewrite in_app_iff. simpl. intuition congruence.
Qed.

Lemma setAdd_NoDup (s : list string) (x : string) :
  NoDup s -> NoDup (setAdd s x).
Proof.
  intros H. unfold setAdd. destruct (setHas s x) eqn:E; [assumption |].
  apply setHas_false in E.
  apply NoDup_rev in H. rewrite <- (rev_involutive (s ++ [x])).
  apply NoDup_rev. rewrite rev_app_distr. simpl. constructor; [| assumption].
  now rewrite <- in_rev.
Qed.

(** ** What is put into the queue *)

Lemma resolveImportPath_resolve (fs : Fs.t) (dir importPath : string) :
  exists args, resolveImportPath fs dir importPath = Path.resolve (Fs.cwd fs) args.
Proof.
  unfold resolveImportPath.
  destruct (endsWith importPath ".ts"); [now eexists |].
  destruct (Fs.existsSync fs _); now eexists.
Qed.

(** A path that passes the test of the resolver exists and is in the form
    [path.resolve] and [path.normalize] leave alone. *)
Lemma withinPackage_listed (fs : Fs.t) (packageRoot dir importPath p : string) :
  withinPackage fs packageRoot (resolveImportPath fs dir importPath) = Some p ->
  In p (map canon (allSegs (Fs.root fs))) /\ Path.normalize p = p
  /\ Fs.existsSync fs p = true.
Proof.
  destruct (resolveImportPath_resolve fs dir importPath) as [args ->].
  unfold withinPackage. rewrite normalize_resolve.
  destruct (startsWith _ _); [| discriminate]. simpl.
  destruct (Fs.existsSync fs _) eqn:E; [| discriminate].
  intros [= <-]. repeat split.
  - now apply exists_resolve_listed.
  - apply normalize_resolve.
  - exact E.
Qed.

Lemma resolveMatch_listed (fs : Fs.t) (filePath packageRoot : string)
      (ms : list found) :
  Forall (listed fs) (flat_map (resolveMatch fs filePath packageRoot) ms).
Proof.
  induction ms as [|m ms IH]; simpl; [constructor |].
  apply Forall_app. split; [| exact IH].
  unfold resolveMatch. destruct (isExternal _); [constructor |].
  destruct (withinPackage _ _ _) as [p|] eqn:E; [| constructor].
  constructor; [| constructor].
  destruct (withinPackage_listed _ _ _ _ _ E) as (H1 & H2 & _). now split.
Qed.

Lemma extractImports_listed (fs : Fs.t) (filePath packageRoot : string)
      (ex : imports) :
  extractImports fs filePath packageRoot = Some ex ->
  Forall (listed fs) (directImports ex) /\ Forall (listed fs) (reExports ex).
Proof.
  unfold extractImports. destruct (negb _).
  - intros [= <-]. split; constructor.
  - destruct (Fs.readFileSync fs filePath) as [content|]; [| discriminate].
    intros [= <-]. split; apply resolveMatch_listed.
Qed.

Lemma trackDirect_queue (usedNow : list string) (ds direct queue : list string)
      (P : string -> Prop) :
  Forall P queue -> Forall (fun p => P (Path.normalize p)) ds ->
  Forall P (snd (trackDirect usedNow ds direct queue)).
Proof.
  revert direct queue; induction ds as [|d ds IH]; intros direct queue Hq Hd;
    simpl; [assumption |].
  inversion Hd as [|? ? Hd1 Hd2]; subst. apply IH; [| assumption].
  destruct (setHas usedNow _); [assumption |].
  apply Forall_app. split; [assumption | now constructor].
Qed.

Lemma trackReExports_queue (usedNow : list string) (rs queue : list string)
      (P : string -> Prop) :
  Forall P queue -> Forall (fun p => P (Path.normalize p)) rs ->
  Forall P (trackReExports usedNow rs queue).
Proof.
  revert queue; induction rs as [|r rs IH]; intros queue Hq Hr;
    simpl; [assumption |].
  inversion Hr as [|? ? Hr1 Hr2]; subst. apply IH; [| assumption].
  destruct (setHas usedNow _); [assumption |].
  apply Forall_app. split; [assumption | now constructor].
Qed.

Section Traversal.
Variable fs : Fs.t.
Variable packageRoot : string.

Lemma listed_visitable (p : string) :
  listed fs p -> In (Path.normalize (Path.normalize p)) (visitable fs packageRoot).
Proof. intros [H1 H2]. rewrite H2, H2. now right. Qed.

Lemma visit_usedFiles (currentFile : string) (usedNow direct queue : list string)
      (st' : traversal) :
  visit fs packageRoot currentFile usedNow direct queue = Some st' ->
  usedFiles st' = setAdd usedNow currentFile.
Proof.
  unfold visit. destruct (Fs.readFileSync fs currentFile); [| discriminate].
  destruct (extractImports fs currentFile packageRoot); [| discriminate].
  destruct (trackDirect _ _ _ _). now intros [= <-].
Qed.

Lemma visit_invariant (first : string) (usedNow direct queue : list string)
      (st' : traversal) :
  invariant fs packageRoot (mkTraversal usedNow direct (first :: queue)) ->
  visit fs packageRoot (Path.normalize first) usedNow direct queue = Some st' ->
  invariant fs packageRoot st'.
Proof.
  intros [Hnd Hused Hq] Hv. cbn [usedFiles toProcess directlyImportedFiles] in *.
  inversion Hq as [|? ? Hfirst Hqueue]; subst.
  pose proof (visit_usedFiles _ _ _ _ _ Hv) as Hu.
  unfold visit in Hv.
  destruct (Fs.readFileSync fs _); [| discriminate].
  destruct (extractImports fs _ packageRoot) as [ex|] eqn:Eex; [| discriminate].
  destruct (extractImports_listed _ _ _ _ Eex) as [Hd Hr].
  destruct (trackDirect _ _ _ _) as [direct2 queue1] eqn:Etd.
  injection Hv as <-. cbn [usedFiles toProcess directlyImportedFiles] in *. constructor; cbn [usedFiles toProcess directlyImportedFiles].
  - now apply setAdd_NoDup.
  - intros x Hx. apply setAdd_In in Hx as [Hx | ->]; [now apply Hused | assumption].
  - apply trackReExports_queue.
    + change queue1 with (snd (direct2, queue1)). rewrite <- Etd.
      apply trackDirect_queue; [assumption |].
      eapply Forall_impl; [| exact Hd]. apply listed_visitable.
    + eapply Forall_impl; [| exact Hr]. apply listed_visitable.
Qed.

(** A file not seen before makes the set of used files longer, and that
    set is never longer than [visitable]. *)
Lemma fresh_file_room (first : string) (usedNow direct queue : list string) :
  invariant fs packageRoot (mkTraversal usedNow direct (first :: queue)) ->
  setHas usedNow (Path.normalize first) = false ->
  S (List.length usedNow) <= List.length (visitable fs packageRoot).
Proof.
  intros [Hnd Hused Hq] Hfresh. cbn [usedFiles toProcess directlyImportedFiles] in *.
  inversion Hq as [|? ? Hfirst _]; subst.
  apply setHas_false in Hfresh.
  change (S (List.length usedNow)) with (List.length (Path.normalize first :: usedNow)).
  apply NoDup_incl_length; [now constructor |].
  intros x [<- | Hx]; [assumption | now apply Hused].
Qed.

(** Enough fuel: from any state the invariant holds of, the loop ends
    after finitely many rounds, and more fuel changes nothing. *)
Lemma traverse_ends (k : nat) :
  forall queue usedNow direct,
    invariant fs packageRoot (mkTraversal usedNow direct queue) ->
    List.length (visitable fs packageRoot) - List.length usedNow <= k ->
    exists fuel,
      traverse fuel fs packageRoot (mkTraversal usedNow direct queue) <> OutOfFuel
      /\ forall fuel', fuel <= fuel' ->
           traverse fuel' fs packageRoot (mkTraversal usedNow direct queue)
           = traverse fuel fs packageRoot (mkTraversal usedNow direct queue).
Proof.
  induction k as [|k IHk].
  - induction queue as [|first queue IHq]; intros usedNow direct Hinv Hk.
    + exists 1. split; [discriminate |]. intros [|f] Hf; [lia | reflexivity].
    + destruct (setHas usedNow (Path.normalize first)) eqn:E.
      * destruct (IHq usedNow direct) as [fuel [Hne Hmono]]; [| assumption |].
        { destruct Hinv as [H1 H2 H3]. constructor; cbn [usedFiles toProcess directlyImportedFiles] in *; try assumption.
          now inversion H3. }
        exists (S fuel). simpl. rewrite E. split; [assumption |].
        intros [|f] Hf; [lia |]. simpl. rewrite E. apply Hmono. lia.
      * pose proof (fresh_file_room _ _ _ _ Hinv E). lia.
  - induction queue as [|first queue IHq]; intros usedNow direct Hinv Hk.
    + exists 1. split; [discriminate |]. intros [|f] Hf; [lia | reflexivity].
    + destruct (setHas usedNow (Path.normalize first)) eqn:E.
      * destruct (IHq usedNow direct) as [fuel [Hne Hmono]]; [| assumption |].
        { destruct Hinv as [H1 H2 H3]. constructor; cbn [usedFiles toProcess directlyImportedFiles] in *; try assumption.
          now inversion H3. }
        exists (S fuel). simpl. rewrite E. split; [assumption |].
        intros [|f] Hf; [lia |]. simpl. rewrite E. apply Hmono. lia.
      * destruct (visit fs packageRoot (Path.normalize first) usedNow direct queue)
          as [st'|] eqn:Ev.
        -- pose proof (visit_invariant _ _ _ _ _ Hinv Ev) as Hinv'.
           pose proof (visit_usedFiles _ _ _ _ _ Ev) as Hu.
           pose proof (fresh_file_room _ _ _ _ Hinv E) as Hroom.
           destruct st' as [used' direct' queue']. simpl in Hu.
           unfold setAdd in Hu. rewrite E in Hu.
           destruct (IHk queue' used' direct') as [fuel [Hne Hmono]];
             [assumption | |].
           { subst used'. rewrite length_app. cbn [List.length]. lia. }
           exists (S fuel). simpl. rewrite E, Ev. split; [assumption |].
           intros [|f] Hf; [lia |]. simpl. rewrite E, Ev. apply Hmono. lia.
        -- exists 1. simpl. rewrite E, Ev. split; [discriminate |].
           intros [|f] Hf; [lia |]. simpl. now rewrite E, Ev.
Qed.

Lemma initial_invariant :
  invariant fs packageRoot (mkTraversal [] [] [Path.normalize (entryPointOf packageRoot)]).
Proof.
  constructor; cbn [usedFiles toProcess directlyImportedFiles].
  - constructor.
  - intros x [].
  - constructor; [now left | constructor].
Qed.

Lemma traverse_invariant (fuel : nat) :
  forall st st', invariant fs packageRoot st ->
                 traverse fuel fs packageRoot st = Done st' -> invariant fs packageRoot st'.
Proof.
  induction fuel as [|fuel IH]; intros st st' Hinv H; [discriminate |].
  destruct st as [usedNow direct queue]. simpl in H.
  destruct queue as [|first queue]; [now injection H as <- |].
  destruct (setHas usedNow (Path.normalize first)) eqn:E.
  - apply (IH _ _) in H; [assumption |].
    destruct Hinv as [H1 H2 H3]. constructor; cbn [usedFiles toProcess directlyImportedFiles] in *; try assumption.
    now inversion H3.
  - destruct (visit _ _ _ _ _ _) as [st1|] eqn:Ev; [| discriminate].
    apply (IH _ _ (visit_invariant _ _ _ _ _ Hinv Ev) H).
Qed.

End Traversal.

(** C6 -- Traversal termination.  For every file system and package root
    there is a number of rounds after which the breadth-first traversal of
    [findUsedFiles] has ended (with its result or with the exception of a
    file-system call), however the files refer to each other; more rounds
    give the same outcome; and no file is recorded twice in the set of
    visited files. *)
Theorem traversal_terminates (fs : Fs.t) (packageRoot : string) :
  (exists fuel,
      findUsedFiles fuel fs packageRoot <> OutOfFuel
      /\ forall fuel', fuel <= fuel' ->
           findUsedFiles fuel' fs packageRoot = findUsedFiles fuel fs packageRoot)
  /\ (forall fuel u, findUsedFiles fuel fs packageRoot = Done u -> NoDup (used u)).
Proof.
  split.
  - unfold findUsedFiles, findUsedFilesState.
    destruct (negb (Fs.existsSync fs (entryPointOf packageRoot))).
    + exists 0. split; [discriminate | reflexivity].
    + destruct (traverse_ends fs packageRoot _ _ _ _
                  (initial_invariant fs packageRoot) (le_n _))
        as [fuel [Hne Hmono]].
      exists fuel. split.
      * destruct (traverse fuel fs packageRoot _); congruence.
      * intros fuel' Hle. now rewrite (Hmono fuel' Hle).
  - intros fuel u. unfold findUsedFiles, findUsedFilesState.
    destruct (negb (Fs.existsSync fs (entryPointOf packageRoot))).
    + intros [= <-]. constructor.
    + destruct (traverse fuel fs packageRoot _) as [st| |] eqn:E; try discriminate.
      intros [= <-]. simpl.
      apply (traverse_invariant fs packageRoot fuel _ _
               (initial_invariant fs packageRoot) E).
Qed.

(** ** The files that are only re-exported *)

Lemma collect_In (P : string -> bool) (l acc : list string) (file : string) :
  In file (fold_left (fun acc f => if P f then setAdd acc f else acc) l acc)
  <-> In file acc \/ (In file l /\ P file = true).
Proof.
  revert acc; induction l as [|x l IH]; intros acc; simpl.
  - intuition.
  - rewrite IH. destruct (P x) eqn:E.
    + rewrite setAdd_In. intuition (subst; auto).
    + intuition (subst; auto; congruence).
Qed.

Lemma reExportedOnly_true (direct : list string) (file : string) :
  reExportedOnly direct file = true
  <-> ~ In file direct /\ endsWith file "index.ts" = false
      /\ endsWith file ".ts" = true.
Proof.
  unfold reExportedOnly. rewrite !andb_true_iff, !negb_true_iff, setHas_false.
  tauto.
Qed.

(** C3, as worded, fails on a barrel file: [src/a/index.ts] is reached
    through a re-export only, is not the entry file, and is not in the set
    [reExportedFiles]. *)
Lemma barrel_file_is_left_out :
  let st := mkTraversal
              ["/p/src/index.ts"; "/p/src/a/index.ts"; "/p/src/a/util.ts"] [] [] in
  let u := mkUsage
             ["/p/src/index.ts"; "/p/src/a/index.ts"; "/p/src/a/util.ts"]
             ["/p/src/a/util.ts"] in
  findUsedFilesState 4 Scenario.withBarrel "/p" = Done st
  /\ findUsedFiles 4 Scenario.withBarrel "/p" = Done u
  /\ reExportOnlyAsWorded "/p" st "/p/src/a/index.ts" = true
  /\ ~ In "/p/src/a/index.ts" (reExportedFiles u).
Proof.
  intros st u. subst st u.
  split; [vm_compute; reflexivity |]. split; [vm_compute; reflexivity |].
  split; [vm_compute; reflexivity |]. apply setHas_false. vm_compute; reflexivity.
Qed.

(** C3 (amended) -- Re-export-only classification.  When [findUsedFiles]
    returns, [reExportedFiles] holds exactly the used files that are not in
    the set of directly imported files and whose path ends in [.ts] but not
    in [index.ts]; so it is a subset of the used files, and the entry file
    is not in it. *)
Theorem reExportedFiles_characterised (fuel : nat) (fs : Fs.t)
        (packageRoot : string) (u : usage) :
  findUsedFiles fuel fs packageRoot = Done u ->
  exists st,
    findUsedFilesState fuel fs packageRoot = Done st
    /\ used u = usedFiles st
    /\ (forall file,
           In file (reExportedFiles u)
           <-> In file (usedFiles st)
               /\ ~ In file (directlyImportedFiles st)
               /\ endsWith file "index.ts" = false
               /\ endsWith file ".ts" = true)
    /\ incl (reExportedFiles u) (used u)
    /\ ~ In (entryFile packageRoot) (reExportedFiles u).
Proof.
  unfold findUsedFiles.
  destruct (findUsedFilesState fuel fs packageRoot) as [st| |]; try discriminate.
  intros [= <-]. exists st. cbn [used reExportedFiles].
  assert (H : forall file,
             In file (fold_left
                        (fun acc f =>
                           if reExportedOnly (directlyImportedFiles st) f
                           then setAdd acc f else acc) (usedFiles st) [])
             <-> In file (usedFiles st)
                 /\ ~ In file (directlyImportedFiles st)
                 /\ endsWith file "index.ts" = false
                 /\ endsWith file ".ts" = true).
  { intros file.
    rewrite (collect_In (reExportedOnly (directlyImportedFiles st))).
    rewrite reExportedOnly_true. simpl. tauto. }
  split; [reflexivity |]. split; [reflexivity |]. split; [exact H |]. split.
  - intros x Hin. now apply H in Hin.
  - intros Hin. apply H in Hin as (_ & _ & Hidx & _).
    rewrite entryPoint_index in Hidx. discriminate.
Qed.

Lemma reExportedFiles_characterised_witness :
  exists st,
    findUsedFilesState 4 Scenario.withBarrel "/p" = Done st
    /\ ["/p/src/index.ts"; "/p/src/a/index.ts"; "/p/src/a/util.ts"] = usedFiles st
    /\ (forall file,
           In file ["/p/src/a/util.ts"]
           <-> In file (usedFiles st)
               /\ ~ In file (directlyImportedFiles st)
               /\ endsWith file "index.ts" = false
               /\ endsWith file ".ts" = true)
    /\ incl ["/p/src/a/util.ts"]
         ["/p/src/index.ts"; "/p/src/a/index.ts"; "/p/src/a/util.ts"]
    /\ ~ In (entryFile "/p") ["/p/src/a/util.ts"].
Proof.
  apply (reExportedFiles_characterised 4 Scenario.withBarrel "/p"
           (mkUsage ["/p/src/index.ts"; "/p/src/a/index.ts"; "/p/src/a/util.ts"]
                    ["/p/src/a/util.ts"])).
  vm_compute; reflexivity.
Defined.

(** Two files that import each other, and the entry point again. *)
Example cycle_is_traversed :
  findUsedFiles 6 Scenario.withCycle "/p"
  = Done (mkUsage ["/p/src/index.ts"; "/p/src/a.ts"; "/p/src/b.ts"] []).
Proof. vm_compute; reflexivity. Qed.

End GraphFacts.

(* ===================================================================== *)
(** * The path resolver *)
(* ===================================================================== *)

Module ResolverFacts.
Import JsString Regex Script Notions StringFacts PathFacts.

(** C5, as worded, fails on a specifier that names an existing file
    without the extension [.ts]: candidate (1) is never tried. *)
Lemma existing_file_as_given_is_not_resolved :
  resolveAsWorded Scenario.withData "/p" "/p/src" "./data.json"
  = Some "/p/src/data.json"
  /\ withinPackage Scenario.withData "/p"
       (resolveImportPath Scenario.withData "/p/src" "./data.json") = None.
Proof. split; reflexivity. Qed.

(** C5 (amended) -- Path resolver contract.  A specifier that ends in
    [.ts] has one candidate, the specifier as given, whether that file
    exists or not; any other specifier has the candidate with [.ts]
    appended when that exists, else the [index.ts] of the directory it
    names.  A candidate that is accepted is returned as it is and exists;
    and a candidate that exists properly inside an absolute package root
    is accepted. *)
Theorem resolver_contract (fs : Fs.t) (packageRoot dir importPath : string) :
  let cwd := Fs.cwd fs in
  let candidate := resolveImportPath fs dir importPath in
  (endsWith importPath ".ts" = true ->
   candidate = Path.resolve cwd [dir; importPath])
  /\ (endsWith importPath ".ts" = false ->
      Fs.existsSync fs (Path.resolve cwd [dir; importPath ++ ".ts"]) = true ->
      candidate = Path.resolve cwd [dir; importPath ++ ".ts"])
  /\ (endsWith importPath ".ts" = false ->
      Fs.existsSync fs (Path.resolve cwd [dir; importPath ++ ".ts"]) = false ->
      candidate = Path.resolve cwd [dir; importPath; "index.ts"])
  /\ (forall p, withinPackage fs packageRoot candidate = Some p ->
                p = candidate /\ Fs.existsSync fs p = true)
  /\ (Path.isAbsolute packageRoot = true ->
      properlyInside fs candidate packageRoot = true ->
      Fs.existsSync fs candidate = true ->
      withinPackage fs packageRoot candidate = Some candidate).
Proof.
  intros cwd candidate. subst cwd candidate.
  split; [| split; [| split; [| split]]].
  - intros H. unfold resolveImportPath. now rewrite H.
  - intros H He. unfold resolveImportPath. now rewrite H, He.
  - intros H He. unfold resolveImportPath. now rewrite H, He.
  - intros p. destruct (GraphFacts.resolveImportPath_resolve fs dir importPath)
      as [args ->].
    unfold withinPackage. rewrite normalize_resolve.
    destruct (startsWith _ _ && Fs.existsSync fs _) eqn:E; [| discriminate].
    intros [= <-]. apply andb_prop in E as [_ E]. now split.
  - destruct (GraphFacts.resolveImportPath_resolve fs dir importPath)
      as [args ->].
    intros Habs Hin Hex. unfold withinPackage.
    rewrite normalize_resolve, Hex, (inside_startsWith fs _ _ Habs Hin).
    reflexivity.
Qed.

Lemma resolver_contract_witness :
  resolveImportPath (Scenario.withShared "shared") "/p/src/a" "../shared"
  = "/p/src/shared/index.ts"
  /\ withinPackage (Scenario.withShared "shared") "/p" "/p/src/shared/index.ts"
     = Some "/p/src/shared/index.ts".
Proof.
  destruct (resolver_contract (Scenario.withShared "shared") "/p" "/p/src/a"
              "../shared") as (_ & _ & H3 & _ & H5).
  split; [apply H3; reflexivity | apply H5; reflexivity].
Defined.

(** The three cases on files, and the test on the package root at work. *)
Example resolver_cases :
  withinPackage Scenario.beforeRename "/p"
    (resolveImportPath Scenario.beforeRename "/p/src" "./a/util")
  = Some "/p/src/a/util.ts"
  /\ withinPackage Scenario.beforeRename "/p"
       (resolveImportPath Scenario.beforeRename "/p/src" "./a/util.ts")
     = Some "/p/src/a/util.ts"
  /\ withinPackage (Scenario.withShared "shared") "/p"
       (resolveImportPath (Scenario.withShared "shared") "/p/src/a" "../shared")
     = Some "/p/src/shared/index.ts"
  /\ withinPackage Scenario.beforeRename "/p"
       (resolveImportPath Scenario.beforeRename "/p/src" "./missing") = None
  /\ withinPackage Scenario.withData "/p/src"
       (resolveImportPath Scenario.withData "/p/src" "../../p2/x") = None.
Proof. repeat split; reflexivity. Qed.

End ResolverFacts.

(* ===================================================================== *)
(** * The reference extractor *)
(* ===================================================================== *)

Module ExtractorFacts.
Import JsString Regex Script Notions StringFacts.

(** ** The equations of the matcher *)

Lemma rmatch_lit (l : string) (r : regex) (cap s : string) :
  rmatch (Lit l :: r) cap s
  = match stripPrefix l s with
    | Some s' => rmatch r cap s'
    | None => None
    end.
Proof. reflexivity. Qed.

Lemma rmatch_one (p : ascii -> bool) (r : regex) (cap : string) (c : ascii)
      (s : string) :
  rmatch (One p :: r) cap (String c s) = if p c then rmatch r cap s else None.
Proof. reflexivity. Qed.

Lemma rmatch_plus (p : ascii -> bool) (r : regex) (cap s : string) :
  rmatch (Plus p :: r) cap s = plusGreedy p (rmatch r cap) s.
Proof. reflexivity. Qed.

Lemma rmatch_plus_fun (p : ascii -> bool) (r : regex) (cap : string) :
  rmatch (Plus p :: r) cap = plusGreedy p (rmatch r cap).
Proof. reflexivity. Qed.

Lemma rmatch_star (p : ascii -> bool) (r : regex) (cap s : string) :
  rmatch (StarLazy p :: r) cap s = starLazy p (rmatch r cap) s.
Proof. reflexivity. Qed.

Lemma rmatch_cap (p : ascii -> bool) (r : regex) (cap s : string) :
  rmatch (Cap p :: r) cap s
  = capGreedy p (fun c rest => rmatch r c rest) [] s.
Proof. reflexivity. Qed.

Lemma starLazy_step (p : ascii -> bool) (k : string -> result) (c : ascii)
      (s : string) :
  starLazy p k (String c s)
  = match k (String c s) with
    | Some r => Some r
    | None => if p c then starLazy p k s else None
    end.
Proof. reflexivity. Qed.

Lemma starLazy_hit (p : ascii -> bool) (k : string -> result) (s : string)
      (r : string * string) :
  k s = Some r -> starLazy p k s = Some r.
Proof. intros H. destruct s; cbn [starLazy]; now rewrite H. Qed.

Lemma stripPrefix_append (l s : string) : stripPrefix l (l ++ s) = Some s.
Proof.
  induction l as [|c l IH]; [reflexivity |].
  cbn [append stripPrefix]. now rewrite Ascii.eqb_refl.
Qed.

Lemma rmatch_lit_append (l : string) (r : regex) (cap s : string) :
  rmatch (Lit l :: r) cap (l ++ s) = rmatch r cap s.
Proof. now rewrite rmatch_lit, stripPrefix_append. Qed.

Lemma plusGreedy_not_space (k : string -> result) (s : string) :
  match s with
  | EmptyString => True
  | String c _ => isSpace c = false
  end ->
  plusGreedy isSpace k s = None.
Proof. destruct s as [|c s]; simpl; [reflexivity |]. now intros ->. Qed.

(** The greedy repetition takes a whole gap when the rest of the pattern
    matches behind it. *)
Lemma plusGreedy_gap (k : string -> result) (r : string * string)
      (t : string) :
  match t with
  | EmptyString => True
  | String c _ => isSpace c = false
  end ->
  k t = Some r ->
  forall g, isGap g = true -> plusGreedy isSpace k (g ++ t) = Some r.
Proof.
  intros Ht Hk g. destruct g as [|c g]; [discriminate |].
  cbn [isGap]. revert c.
  induction g as [|d g IH]; intros c H; cbn [allChars] in H;
    apply andb_prop in H as [Hc Hg].
  - cbn [append plusGreedy]. rewrite Hc, (plusGreedy_not_space k t Ht).
    exact Hk.
  - change (String c (String d g) ++ t) with (String c (String d g ++ t)).
    cbn [plusGreedy]. rewrite Hc, (IH d Hg). reflexivity.
Qed.

(** The lazy repetition walks over a word: the white space the rest of
    the pattern starts with is not found inside it. *)
Lemma starLazy_word (k : string -> result) (w t : string) :
  allChars wordChar w = true ->
  starLazy isDot (plusGreedy isSpace k) (w ++ t)
  = starLazy isDot (plusGreedy isSpace k) t.
Proof.
  induction w as [|c w IH]; intros H; [reflexivity |].
  simpl in H. apply andb_prop in H as [Hc Hw].
  apply andb_prop in Hc as [Hs Hd]. apply negb_true_iff in Hs.
  change (String c w ++ t) with (String c (w ++ t)).
  cbn [starLazy]. cbn [plusGreedy]. rewrite Hs, Hd. now apply IH.
Qed.

Lemma string_of_rev_cons (c : ascii) (acc : list ascii) :
  string_of_list_ascii (rev (c :: acc))
  = string_of_list_ascii (rev acc) ++ String c "".
Proof.
  simpl rev. induction (rev acc) as [|x l IH]; simpl; [reflexivity |].
  now rewrite IH.
Qed.

(** The capture group takes a whole specifier when a quote follows it. *)
Lemma capGreedy_specifier (k : string -> string -> result) (r : string * string)
      (q : ascii) (rest : string) :
  notQuote q = false ->
  forall (spec : string) (acc : list ascii),
    spec <> "" -> allChars notQuote spec = true ->
    k (string_of_list_ascii (rev acc) ++ spec) (String q rest) = Some r ->
    capGreedy notQuote k acc (spec ++ String q rest) = Some r.
Proof.
  intros Hq. induction spec as [|c spec IH]; intros acc Hne Hall Hk; [congruence |].
  simpl in Hall. apply andb_prop in Hall as [Hc Hs].
  change (String c spec ++ String q rest) with (String c (spec ++ String q rest)).
  cbn [capGreedy]. rewrite Hc.
  destruct spec as [|d spec].
  - simpl append. cbn [capGreedy]. rewrite Hq.
    now rewrite string_of_rev_cons.
  - rewrite (IH (c :: acc)); [reflexivity | discriminate | assumption |].
    rewrite string_of_rev_cons, append_assoc. exact Hk.
Qed.

Lemma isQuote_not_space (q : ascii) : isQuote q = true -> isSpace q = false.
Proof.
  unfold isQuote. intros H.
  apply orb_prop in H as [H | H]; apply Ascii.eqb_eq in H; now subst.
Qed.

Lemma isQuote_notBraceStar (q : ascii) :
  isQuote q = true -> notBraceStar q = true.
Proof.
  unfold isQuote. intros H.
  apply orb_prop in H as [H | H]; apply Ascii.eqb_eq in H; now subst.
Qed.

(** ** A default import is found *)

Lemma rmatch_default (gap1 name gap2 gap3 : string) (quote : ascii)
      (specifier rest : string) :
  isGap gap1 = true -> isWord name = true ->
  isGap gap2 = true -> isGap gap3 = true ->
  isQuote quote = true ->
  specifier <> "" -> allChars notQuote specifier = true ->
  rmatch importRegex ""
    ("import" ++ gap1 ++ name ++ gap2 ++ "from" ++ gap3
     ++ String quote (specifier ++ String quote rest))
  = Some (specifier, rest).
Proof.
  intros H1 Hn H2 H3 Hq Hne Hs.
  destruct name as [|c name]; [discriminate |].
  cbn [isWord allChars] in Hn. apply andb_prop in Hn as [Hc Hw].
  apply andb_prop in Hw as [Hcw Hw].
  assert (Hsp : isSpace c = false).
  { apply andb_prop in Hcw as [Hsp _]. now apply negb_true_iff in Hsp. }
  unfold importRegex. rewrite rmatch_lit_append, rmatch_plus.
  apply plusGreedy_gap; [exact Hsp | | exact H1].
  change (String c name ++ ?x) with (String c (name ++ x)).
  rewrite rmatch_one, Hc, rmatch_star, rmatch_plus_fun.
  rewrite starLazy_word by exact Hw.
  apply starLazy_hit.
  apply plusGreedy_gap; [reflexivity | | exact H2].
  rewrite rmatch_lit_append, rmatch_plus.
  apply plusGreedy_gap; [now apply isQuote_not_space | | exact H3].
  rewrite rmatch_one, Hq, rmatch_cap.
  apply capGreedy_specifier; [unfold notQuote; now rewrite Hq | exact Hne
                              | exact Hs |].
  cbn [rev string_of_list_ascii append]. rewrite rmatch_one, Hq. reflexivity.
Qed.

(** ** The scan of a text *)

Lemma take_length_append (a b : string) : take (String.length a) (a ++ b) = a.
Proof. induction a as [|c a IH]; [now destruct b |]. simpl. now rewrite IH. Qed.

Lemma execLoop_skip (re : regex) (b : string) :
  forall a, execLoop re (String.length a) (a ++ b) = execLoop re 0 b.
Proof.
  induction a as [|c a IH]; [reflexivity |]. exact IH.
Qed.

(** A match at the start of the text is the first entry of the scan,
    which goes on behind it. *)
Lemma execLoop_found (re : regex) (c : ascii) (m after cap : string) :
  rmatch re "" (String c (m ++ after)) = Some (cap, after) ->
  execLoop re 0 (String c m ++ after)
  = mkFound (String c m) cap :: execLoop re 0 after.
Proof.
  intros H. cbn [append execLoop]. rewrite H.
  rewrite length_append, Nat.add_sub, take_length_append, execLoop_skip.
  reflexivity.
Qed.

(** The pattern matches only where [import] and white space stand. *)
Lemma rmatch_needs_import (cap s : string) :
  importWordAt s = false -> rmatch importRegex cap s = None.
Proof.
  unfold importWordAt, importRegex. rewrite rmatch_lit.
  destruct (stripPrefix "import" s) as [[|c t]|]; intros H; try reflexivity.
  rewrite rmatch_plus. cbn [plusGreedy]. now rewrite H.
Qed.

(** Whether [import] stands at a place of a line does not depend on the
    lines after it. *)
Lemma importWordAt_line (u rest : string) :
  importWordAt ((u ++ String Anonymizer.lf "") ++ rest)
  = importWordAt (u ++ String Anonymizer.lf "").
Proof.
  unfold importWordAt.
  do 6 (destruct u as [|? u]; [reflexivity |];
        cbn [append stripPrefix]; destruct (Ascii.eqb _ _); [| reflexivity]).
  destruct u; reflexivity.
Qed.

Lemma importWords_append (a b : string) :
  importWords (a ++ b) = false -> importWords b = false.
Proof.
  induction a as [|c a IH]; [trivial |].
  cbn [append importWords]. intros H.
  apply orb_false_elim in H as [_ H]. now apply IH.
Qed.

(** The scan passes over the part of a line that does not hold [import]. *)
Lemma execLoop_quiet (rest : string) :
  forall u,
    importWords (u ++ String Anonymizer.lf "") = false ->
    execLoop importRegex 0 ((u ++ String Anonymizer.lf "") ++ rest)
    = execLoop importRegex 0 rest.
Proof.
  induction u as [|c u IH]; intros H.
  - cbn [append execLoop]. now rewrite rmatch_needs_import by reflexivity.
  - cbn [append importWords] in H. apply orb_false_elim in H as [Hat Hw].
    change ((String c u ++ String Anonymizer.lf "") ++ rest)
      with (String c ((u ++ String Anonymizer.lf "") ++ rest)).
    cbn [execLoop]. rewrite rmatch_needs_import; [apply IH, Hw |].
    change (String c ((u ++ String Anonymizer.lf "") ++ rest))
      with ((String c u ++ String Anonymizer.lf "") ++ rest).
    now rewrite importWordAt_line.
Qed.

(** A line at whose start the pattern does not match adds nothing. *)
Lemma execLoop_line_none (c : ascii) (u rest : string) :
  rmatch importRegex "" (String c ((u ++ String Anonymizer.lf "") ++ rest))
  = None ->
  importWords (u ++ String Anonymizer.lf "") = false ->
  execLoop importRegex 0 (String c ((u ++ String Anonymizer.lf "") ++ rest))
  = execLoop importRegex 0 rest.
Proof.
  intros Hm Hw. cbn [execLoop]. rewrite Hm. now apply execLoop_quiet.
Qed.

(** A line that starts with [import], character by character. *)
Lemma import_line_shape (b e z : string) :
  (("import" ++ b) ++ e ++ String Anonymizer.lf "") ++ z
  = String "i" ((("mport" ++ b ++ e) ++ String Anonymizer.lf "") ++ z).
Proof.
  repeat first [rewrite append_assoc | progress cbn [append]]. reflexivity.
Qed.

Lemma import_line_drop (b e : string) :
  drop 1 (("import" ++ b) ++ e ++ String Anonymizer.lf "")
  = ("mport" ++ b ++ e) ++ String Anonymizer.lf "".
Proof.
  cbn [append drop].
  repeat first [rewrite append_assoc | progress cbn [append]]. reflexivity.
Qed.

(** ** Named and namespace imports *)

Lemma rmatch_brace_star (cap : string) (w c : ascii) (rest : string) :
  isSpace w = true -> isSpace c = false -> notBraceStar c = false ->
  rmatch importRegex cap ("import" ++ String w (String c rest)) = None.
Proof.
  intros Hw Hc Hb. unfold importRegex.
  rewrite rmatch_lit_append, rmatch_plus.
  cbn [plusGreedy]. rewrite Hw, Hc, rmatch_one, Hb. reflexivity.
Qed.

(** ** Side-effect imports *)

Section NoFrom.
Variables (r : regex) (cap : string).

Lemma fromWords_tail (c : ascii) (s : string) :
  fromWords (String c s) = false -> fromWords s = false.
Proof. cbn [fromWords]. intros H. now apply orb_false_elim in H. Qed.

Lemma fromWords_append (a b : string) :
  fromWords (a ++ b) = false -> fromWords b = false.
Proof.
  induction a as [|c a IH]; [trivial |].
  intros H. apply IH. exact (fromWords_tail c _ H).
Qed.

(** The word [from] of the next line is not reached from this one. *)
Lemma stripPrefix_from_line (u rest : string) :
  fromAt (u ++ String Anonymizer.lf "") = false ->
  stripPrefix "from" (u ++ String Anonymizer.lf rest) = None.
Proof.
  unfold fromAt.
  do 4 (destruct u as [|? u]; [reflexivity |];
        cbn [append stripPrefix]; destruct (Ascii.eqb _ _); [| reflexivity]).
  discriminate.
Qed.

Lemma space_is_not_f (c : ascii) : isSpace c = true -> Ascii.eqb "f" c = false.
Proof.
  intros H. destruct (Ascii.eqb_spec "f" c) as [<- |]; [discriminate | reflexivity].
Qed.

(** When [from] is not the first word of what follows, neither the white
    space in front of it nor the word itself is found there. *)
Lemma no_from_ahead :
  forall rest,
    fromAhead rest = false ->
    plusGreedy isSpace (rmatch (Lit "from" :: r) cap) rest = None
    /\ rmatch (Lit "from" :: r) cap rest = None.
Proof.
  induction rest as [|c rest IH]; intros H; [now split |].
  cbn [fromAhead] in H. cbn [plusGreedy].
  destruct (isSpace c) eqn:Hc.
  - destruct (IH H) as [-> ->]. split; [reflexivity |].
    rewrite rmatch_lit. cbn [stripPrefix]. now rewrite (space_is_not_f c Hc).
  - unfold fromAt in H. split; [reflexivity |].
    rewrite rmatch_lit. now destruct (stripPrefix "from" (String c rest)).
Qed.

Lemma plusGreedy_no_from (rest : string) :
  fromAhead rest = false ->
  forall u,
    fromWords (u ++ String Anonymizer.lf "") = false ->
    plusGreedy isSpace (rmatch (Lit "from" :: r) cap)
      (u ++ String Anonymizer.lf rest) = None.
Proof.
  intros Hrest. induction u as [|c u IH]; intros H.
  - cbn [append plusGreedy]. change (isSpace Anonymizer.lf) with true. cbv iota.
    now destruct (no_from_ahead rest Hrest) as [-> ->].
  - change (String c u ++ ?x) with (String c (u ++ x)) in *.
    cbn [plusGreedy]. destruct (isSpace c) eqn:Hc; [| reflexivity].
    rewrite (IH (fromWords_tail _ _ H)).
    cbn [fromWords] in H. rewrite Hc in H.
    apply orb_false_elim in H as [H _]. cbn [andb] in H.
    now rewrite rmatch_lit, stripPrefix_from_line.
Qed.

Lemma starLazy_no_from (rest : string) :
  fromAhead rest = false ->
  forall u,
    fromWords (u ++ String Anonymizer.lf "") = false ->
    starLazy isDot (plusGreedy isSpace (rmatch (Lit "from" :: r) cap))
      (u ++ String Anonymizer.lf rest) = None.
Proof.
  intros Hrest. induction u as [|c u IH]; intros H.
  - pose proof (plusGreedy_no_from rest Hrest "" H) as E.
    cbn [append] in *. rewrite starLazy_step, E. reflexivity.
  - change (String c u ++ ?x) with (String c (u ++ x)).
    rewrite starLazy_step.
    change (String c (u ++ String Anonymizer.lf rest))
      with (String c u ++ String Anonymizer.lf rest).
    rewrite (plusGreedy_no_from rest Hrest (String c u) H).
    rewrite (IH (fromWords_tail _ _ H)). now destruct (isDot c).
Qed.

(** Behind the white space after [import], the rest of the pattern does
    not match inside a line without the word [from]. *)
Lemma rmatch_no_from (rest : string) :
  fromAhead rest = false ->
  forall s,
    s <> "" ->
    fromWords (s ++ String Anonymizer.lf "") = false ->
    rmatch (One notBraceStar :: StarLazy isDot :: Plus isSpace
              :: Lit "from" :: r) cap (s ++ String Anonymizer.lf rest)
    = None.
Proof.
  intros Hrest [|c s] Hne H; [congruence |].
  change (String c s ++ ?x) with (String c (s ++ x)).
  rewrite rmatch_one. destruct (notBraceStar c); [| reflexivity].
  rewrite rmatch_star, rmatch_plus_fun.
  apply (starLazy_no_from rest Hrest), (fromWords_tail c), H.
Qed.

Lemma plusGreedy_side_effect (rest : string) (q : ascii) (y : string) :
  fromAhead rest = false ->
  isSpace q = false ->
  forall g,
    fromWords ((g ++ String q y) ++ String Anonymizer.lf "") = false ->
    plusGreedy isSpace
      (rmatch (One notBraceStar :: StarLazy isDot :: Plus isSpace
                 :: Lit "from" :: r) cap)
      ((g ++ String q y) ++ String Anonymizer.lf rest) = None.
Proof.
  intros Hrest Hq. induction g as [|w g IH]; intros H.
  - cbn [append plusGreedy]. now rewrite Hq.
  - change ((String w g ++ ?x) ++ ?z) with (String w ((g ++ x) ++ z)) in *.
    cbn [plusGreedy]. destruct (isSpace w); [| reflexivity].
    rewrite (IH (fromWords_tail _ _ H)).
    apply (rmatch_no_from rest Hrest); [| exact (fromWords_tail _ _ H)].
    now destruct g.
Qed.

End NoFrom.

Lemma rmatch_side_effect (gap : string) (quote : ascii)
      (specifier ending rest : string) :
  isQuote quote = true ->
  fromWords
    (("import" ++ gap ++ String quote (specifier ++ String quote ""))
     ++ ending ++ String Anonymizer.lf "") = false ->
  fromAhead rest = false ->
  rmatch importRegex ""
    ((("import" ++ gap ++ String quote (specifier ++ String quote ""))
      ++ ending ++ String Anonymizer.lf "") ++ rest)
  = None.
Proof.
  intros Hq H Hrest.
  assert (E : forall z,
             (("import" ++ gap ++ String quote (specifier ++ String quote ""))
              ++ ending ++ String Anonymizer.lf "") ++ z
             = "import"
               ++ ((gap ++ String quote (specifier ++ String quote ending))
                   ++ String Anonymizer.lf z)).
  { intros z.
    repeat first [rewrite append_assoc | progress cbn [append]]. reflexivity. }
  rewrite E. rewrite <- (append_nil_r (_ ++ _ ++ String Anonymizer.lf "")), E in H.
  unfold importRegex. rewrite rmatch_lit_append, rmatch_plus.
  apply (plusGreedy_side_effect _ _ rest quote _ Hrest
           (isQuote_not_space _ Hq)).
  exact (fromWords_append "import" _ H).
Qed.

(** ** A text of lines *)

Lemma specifier_not_empty (s : string) :
  negb (String.eqb s "") = true -> s <> "".
Proof. intros H ->. discriminate. Qed.

(** Line by line, the direct-import pattern finds the default imports and
    nothing else. *)
Lemma execLoop_line (l : line) (after : string) :
  wellWritten l after = true ->
  execLoop importRegex 0 (lineText l ++ after)
  = (directOf l ++ execLoop importRegex 0 after)%list.
Proof.
  unfold wellWritten, directOf, lineText.
  destruct l as [[gap1 name gap2 gap3 quote specifier | gap rest | gap rest
                 | gap quote specifier | text] ending];
    cbn [statementOf Notions.ending render app]; intros H;
    repeat (apply andb_prop in H as [H ?]);
    apply negb_true_iff in H.
  - assert (Hend : importWords (ending ++ String Anonymizer.lf "") = false).
    { exact (importWords_append
               ("mport" ++ gap1 ++ name ++ gap2 ++ "from" ++ gap3
                ++ String quote (specifier ++ String quote "")) _ H). }
    rewrite append_assoc.
    change ("import" ++ ?x) with (String "i" ("mport" ++ x)).
    rewrite (execLoop_found _ _ _ _ specifier).
    + f_equal. now apply execLoop_quiet.
    + change (String "i" (("mport" ++ ?x) ++ ?z)) with ("import" ++ (x ++ z)).
      repeat first [rewrite append_assoc | progress cbn [append]].
      apply (rmatch_default gap1 name gap2 gap3 quote specifier);
        try assumption.
      now apply specifier_not_empty.
  - rewrite import_line_shape. rewrite import_line_drop in H.
    apply execLoop_line_none; [| exact H].
    rewrite <- import_line_shape.
    repeat first [rewrite append_assoc | progress cbn [append]].
    now apply (rmatch_brace_star "" gap "{").
  - rewrite import_line_shape. rewrite import_line_drop in H.
    apply execLoop_line_none; [| exact H].
    rewrite <- import_line_shape.
    repeat first [rewrite append_assoc | progress cbn [append]].
    now apply (rmatch_brace_star "" gap "*").
  - rewrite import_line_shape. rewrite import_line_drop in H.
    apply execLoop_line_none; [| exact H].
    rewrite <- import_line_shape.
    apply rmatch_side_effect; try assumption; now apply negb_true_iff.
  - rewrite <- append_assoc in *. now apply execLoop_quiet.
Qed.

Lemma execAll_lines (lines : list line) :
  wellWrittenText lines = true ->
  execAll importRegex (textOf lines) = flat_map directOf lines.
Proof.
  unfold execAll. induction lines as [|l lines IH]; intros H; [reflexivity |].
  cbn [wellWrittenText] in H. apply andb_prop in H as [Hl H].
  cbn [textOf flat_map]. rewrite (execLoop_line l _ Hl). now rewrite IH.
Qed.

Lemma readFileSync_exists (fs : Fs.t) (p text : string) :
  Fs.readFileSync fs p = Some text -> Fs.existsSync fs p = true.
Proof.
  unfold Fs.readFileSync, Fs.existsSync.
  now destruct (Fs.stat fs p) as [[|]|].
Qed.




(** With a second white-space character after [import], the pattern takes
    the first for its white space and the second for the character that
    is neither brace nor star: such a named or namespace import is a
    direct import. *)
Lemma two_blanks_make_a_direct_import :
  option_map directImports
    (extractImports (Scenario.withForms "import  { util } from './a/util';")
       "/p/src/index.ts" "/p") = Some ["/p/src/a/util.ts"]
  /\ option_map directImports
       (extractImports (Scenario.withForms "import  * as u from './a/util';")
          "/p/src/index.ts" "/p") = Some ["/p/src/a/util.ts"].
Proof. split; reflexivity. Qed.

End ExtractorFacts.

(* ===================================================================== *)
(** * The directory rename planner *)
(* ===================================================================== *)

Module PlannerFacts.
Import JsString Script Notions StringFacts.

Lemma shape_Dir (es : list (string * Fs.node)) :
  shape (Fs.Dir es) = Fs.Dir (shapeEntries es).
Proof.
  simpl. f_equal. induction es as [|[k c] es IH]; simpl; [reflexivity |].
  now rewrite IH.
Qed.

Lemma assoc_shape (name : string) (es : list (string * Fs.node)) :
  Fs.assoc name (shapeEntries es) = option_map shape (Fs.assoc name es).
Proof.
  induction es as [|[k c] es IH]; simpl; [reflexivity |].
  destruct (String.eqb k name); [reflexivity | exact IH].
Qed.

Lemma setEntry_shape (name : string) (v : Fs.node) (es : list (string * Fs.node)) :
  shapeEntries (Fs.setEntry name v es) = Fs.setEntry name (shape v) (shapeEntries es).
Proof.
  induction es as [|[k c] es IH]; simpl; [reflexivity |].
  destruct (String.eqb k name); simpl; [reflexivity | now rewrite IH].
Qed.

Lemma removeEntry_shape (name : string) (es : list (string * Fs.node)) :
  shapeEntries (Fs.removeEntry name es) = Fs.removeEntry name (shapeEntries es).
Proof.
  induction es as [|[k c] es IH]; simpl; [reflexivity |].
  destruct (String.eqb k name); simpl; [reflexivity | now rewrite IH].
Qed.

Lemma lookup_shape (segs : list string) :
  forall n, Fs.lookup (shape n) segs = option_map shape (Fs.lookup n segs).
Proof.
  induction segs as [|s rest IH]; intros n; [reflexivity |].
  destruct n as [c|es]; [reflexivity |].
  rewrite shape_Dir. cbn [Fs.lookup]. rewrite assoc_shape.
  destruct (Fs.assoc s es) as [c|]; [apply IH | reflexivity].
Qed.

Lemma place_shape (segs : list string) (v : Fs.node) :
  forall n, Fs.place segs (shape v) (shape n) = option_map shape (Fs.place segs v n).
Proof.
  induction segs as [|s rest IH]; intros n; [reflexivity |].
  destruct n as [c|es]; [reflexivity |].
  rewrite shape_Dir. cbn [Fs.place].
  destruct rest as [|s' rest'].
  - cbn [option_map]. now rewrite shape_Dir, setEntry_shape.
  - rewrite assoc_shape. destruct (Fs.assoc s es) as [c|]; [| reflexivity].
    cbn [option_map]. rewrite IH.
    destruct (Fs.place (s' :: rest') v c) as [c'|]; [| reflexivity].
    cbn [option_map]. now rewrite shape_Dir, setEntry_shape.
Qed.

Lemma unlink_shape (segs : list string) :
  forall n, Fs.unlink segs (shape n) = option_map shape (Fs.unlink segs n).
Proof.
  induction segs as [|s rest IH]; intros n; [reflexivity |].
  destruct n as [c|es]; [reflexivity |].
  rewrite shape_Dir. cbn [Fs.unlink]. rewrite assoc_shape.
  destruct (Fs.assoc s es) as [c|]; [| reflexivity]. cbn [option_map].
  destruct rest as [|s' rest'].
  - cbn [option_map]. now rewrite shape_Dir, removeEntry_shape.
  - rewrite IH. destruct (Fs.unlink (s' :: rest') c) as [c'|]; [| reflexivity].
    cbn [option_map]. now rewrite shape_Dir, setEntry_shape.
Qed.

Lemma readdirSync_shape (fs : Fs.t) (p : string) :
  Fs.readdirSync (shapeFs fs) p = Fs.readdirSync fs p.
Proof.
  unfold Fs.readdirSync, Fs.stat, Fs.segsOf, shapeFs. cbn [Fs.cwd Fs.root].
  rewrite lookup_shape.
  destruct (Fs.lookup (Fs.root fs) _) as [[c|es]|]; try reflexivity.
  cbn [option_map]. rewrite shape_Dir. f_equal.
  unfold shapeEntries. rewrite map_map. apply map_ext.
  intros [k [c|es']]; reflexivity.
Qed.

Lemma renameSync_shape (fs : Fs.t) (old new : string) :
  Fs.renameSync (shapeFs fs) old new = option_map shapeFs (Fs.renameSync fs old new).
Proof.
  unfold Fs.renameSync, Fs.segsOf, shapeFs. cbn [Fs.cwd Fs.root].
  rewrite !lookup_shape.
  destruct (Fs.lookup (Fs.root fs) (Path.resolveSegs (Fs.cwd fs) [old]))
    as [src|]; [| reflexivity].
  cbn [option_map].
  destruct (Fs.eqSegs _ _); [reflexivity |].
  destruct (Fs.isPrefixSegs _ _); [reflexivity |].
  assert (Hclash :
            match option_map shape
                    (Fs.lookup (Fs.root fs) (Path.resolveSegs (Fs.cwd fs) [new])),
                  shape src with
            | None, _ => false
            | Some (Fs.Dir []), Fs.Dir _ => false
            | Some (Fs.File _), Fs.File _ => false
            | Some _, _ => true
            end
            = match Fs.lookup (Fs.root fs) (Path.resolveSegs (Fs.cwd fs) [new]),
                    src with
              | None, _ => false
              | Some (Fs.Dir []), Fs.Dir _ => false
              | Some (Fs.File _), Fs.File _ => false
              | Some _, _ => true
              end).
  { destruct (Fs.lookup (Fs.root fs) (Path.resolveSegs (Fs.cwd fs) [new]))
      as [[c|[|[k e] es]]|]; destruct src as [c'|es']; reflexivity. }
  rewrite Hclash.
  destruct (match Fs.lookup (Fs.root fs) (Path.resolveSegs (Fs.cwd fs) [new]), src with
            | None, _ => false
            | Some (Fs.Dir []), Fs.Dir _ => false
            | Some (Fs.File _), Fs.File _ => false
            | Some _, _ => true
            end); [reflexivity |].
  rewrite unlink_shape.
  destruct (Fs.unlink _ (Fs.root fs)) as [r1|]; [| reflexivity].
  cbn [option_map]. rewrite place_shape.
  now destruct (Fs.place _ src r1).
Qed.

Lemma renameEntries_shape
      (recurse recurse' : Fs.t -> string -> dirMap -> nat -> outcome (Fs.t * dirMap))
      (packageRoot : string) :
  (forall fs p m i, recurse' (shapeFs fs) p m i = shapeRun (recurse fs p m i)) ->
  forall entries fs m index,
    renameEntries recurse' packageRoot entries (shapeFs fs) m index
    = shapeRun (renameEntries recurse packageRoot entries fs m index).
Proof.
  intros Hrec. induction entries as [|[name isDirectory] rest IH];
    intros fs m index; [reflexivity |].
  cbn [renameEntries].
  destruct (negb isDirectory); [apply IH |].
  destruct (skippedDirectory name); [apply IH |].
  rewrite Hrec.
  destruct (recurse fs (Path.joinPaths [packageRoot; name]) m index)
    as [[fs1 m1]| |]; try reflexivity.
  cbn [shapeRun].
  destruct (String.eqb name (generateFolderName name index)); [apply IH |].
  rewrite renameSync_shape.
  destruct (Fs.renameSync fs1 _ _) as [fs2|]; [apply IH | reflexivity].
Qed.

(** The planner reads the directory tree only: run on the tree without
    the texts of the files it does the same renames and builds the same
    map. *)
Lemma anonymizeDirectories_shape (fuel : nat) :
  forall fs packageRoot m index,
    anonymizeDirectories fuel (shapeFs fs) packageRoot m index
    = shapeRun (anonymizeDirectories fuel fs packageRoot m index).
Proof.
  induction fuel as [|fuel IH]; intros fs packageRoot m index; [reflexivity |].
  cbn [anonymizeDirectories]. rewrite readdirSync_shape.
  destruct (Fs.readdirSync fs packageRoot) as [entries|]; [| reflexivity].
  now apply renameEntries_shape.
Qed.

Lemma planOf_shapeRun (r : outcome (Fs.t * dirMap)) : planOf (shapeRun r) = planOf r.
Proof. now destruct r as [[fs m]| |]. Qed.

(** More fuel does not change a run that has ended. *)
Lemma renameEntries_more
      (recurse recurse' : Fs.t -> string -> dirMap -> nat -> outcome (Fs.t * dirMap))
      (packageRoot : string) :
  (forall fs p m i r, recurse fs p m i = Done r -> recurse' fs p m i = Done r) ->
  forall entries fs m index r,
    renameEntries recurse packageRoot entries fs m index = Done r ->
    renameEntries recurse' packageRoot entries fs m index = Done r.
Proof.
  intros Hrec. induction entries as [|[name isDirectory] rest IH];
    intros fs m index r; [now intros H |].
  cbn [renameEntries].
  destruct (negb isDirectory); [apply IH |].
  destruct (skippedDirectory name); [apply IH |].
  destruct (recurse fs (Path.joinPaths [packageRoot; name]) m index)
    as [[fs1 m1]| |] eqn:E; try discriminate.
  rewrite (Hrec _ _ _ _ _ E).
  destruct (String.eqb name (generateFolderName name index)); [apply IH |].
  destruct (Fs.renameSync fs1 _ _) as [fs2|]; [apply IH | discriminate].
Qed.

Lemma anonymizeDirectories_more (fuel : nat) :
  forall fuel' fs packageRoot m index r,
    fuel <= fuel' ->
    anonymizeDirectories fuel fs packageRoot m index = Done r ->
    anonymizeDirectories fuel' fs packageRoot m index = Done r.
Proof.
  induction fuel as [|fuel IH]; intros fuel' fs packageRoot m index r Hle;
    [discriminate |].
  destruct fuel' as [|fuel']; [lia |]. cbn [anonymizeDirectories].
  destruct (Fs.readdirSync fs packageRoot) as [entries|]; [| discriminate].
  apply renameEntries_more. intros fs0 p m0 i r0. apply IH. lia.
Qed.

(** C7 -- Planner determinism.  Take two file systems that hold an
    identical directory tree (the same names in the same order, files and
    directories alike; the texts of the files may differ), the same source
    root, the same map to start with and the same counter.  Two runs of
    [anonymizeDirectories] on them end alike, and two runs that return
    have returned identical rename maps (the same keys with the same
    values in the same order) and left identical directory trees. *)
Theorem planner_deterministic (fs1 fs2 : Fs.t) (sourceRoot : string)
        (m : dirMap) (index : nat) :
  sameTree fs1 fs2 ->
  (forall fuel,
      planOf (anonymizeDirectories fuel fs1 sourceRoot m index)
      = planOf (anonymizeDirectories fuel fs2 sourceRoot m index))
  /\ (forall fuel1 fuel2 after1 after2 plan1 plan2,
        anonymizeDirectories fuel1 fs1 sourceRoot m index = Done (after1, plan1) ->
        anonymizeDirectories fuel2 fs2 sourceRoot m index = Done (after2, plan2) ->
        plan1 = plan2 /\ sameTree after1 after2).
Proof.
  unfold sameTree. intros H. split.
  - intros fuel.
    rewrite <- (planOf_shapeRun (anonymizeDirectories fuel fs1 sourceRoot m index)).
    rewrite <- (planOf_shapeRun (anonymizeDirectories fuel fs2 sourceRoot m index)).
    now rewrite <- !anonymizeDirectories_shape, H.
  - intros fuel1 fuel2 after1 after2 plan1 plan2 H1 H2.
    apply (anonymizeDirectories_more fuel1 (Nat.max fuel1 fuel2) _ _ _ _ _
             (Nat.le_max_l fuel1 fuel2)) in H1.
    apply (anonymizeDirectories_more fuel2 (Nat.max fuel1 fuel2) _ _ _ _ _
             (Nat.le_max_r fuel1 fuel2)) in H2.
    pose proof (anonymizeDirectories_shape (Nat.max fuel1 fuel2) fs1 sourceRoot m index)
      as E1.
    pose proof (anonymizeDirectories_shape (Nat.max fuel1 fuel2) fs2 sourceRoot m index)
      as E2.
    rewrite H1 in E1. rewrite H2 in E2. rewrite H, E2 in E1.
    cbn [shapeRun] in E1. split; congruence.
Qed.

Lemma planner_deterministic_witness :
  [("/p/src/a/b", "/p/src/a/dir-2dq"); ("/p/src/a", "/p/src/dir-2cv")]
  = [("/p/src/a/b", "/p/src/a/dir-2dq"); ("/p/src/a", "/p/src/dir-2cv")]
  /\ sameTree Scenario.afterPlanner Scenario.afterPlannerOtherTexts.
Proof.
  refine (proj2 (planner_deterministic Scenario.beforeRename
                   Scenario.beforeRenameOtherTexts "/p/src" [] 0 _)
            3 4 _ _ _ _ _ _); vm_compute; reflexivity.
Defined.

(** The names of the example, and the counter that is not shared between
    the levels: both directories get the index 0. *)
Example planner_example :
  planOf (anonymizeDirectories 3 Scenario.beforeRename "/p/src" [] 0)
  = Done [("/p/src/a/b", "/p/src/a/dir-2dq"); ("/p/src/a", "/p/src/dir-2cv")]
  /\ generateFolderName "a" 0 = "dir-2cv"
  /\ generateFolderName "b" 0 = "dir-2dq"
  /\ hashOf "a0" = 3055%Z.
Proof. repeat split; vm_compute; reflexivity. Qed.

End PlannerFacts.

(* ===================================================================== *)
(** * The form of a rewritten specifier *)
(* ===================================================================== *)

Module FormFacts.
Import JsString Path Script Notions StringFacts PathFacts.

Lemma plainSeg_relative (x : string) :
  plainSeg x = true -> x <> "" /\ isAbsolute x = false.
Proof.
  intros H. destruct (plainSeg_inv x H) as (H1 & _ & _ & Hfree).
  apply String.eqb_neq in H1. split; [assumption |].
  destruct x as [|c x]; [reflexivity |]. simpl in Hfree.
  apply andb_prop in Hfree as [Hc _]. now apply negb_true_iff in Hc.
Qed.

Lemma resolveArgs_snoc (args : list string) (x : string) :
  x <> "" -> isAbsolute x = false ->
  exists abs u, resolveArgs (args ++ [x]) = (abs, (u ++ [x])%list).
Proof.
  intros Hne Habs. apply String.eqb_neq in Hne.
  induction args as [|a args (abs & u & IH)].
  - exists false, []. simpl. now rewrite Hne, Habs.
  - simpl. rewrite IH. destruct abs; [now exists true, u |].
    destruct (String.eqb a ""); [now exists false, u |].
    now exists (isAbsolute a), (a :: u).
Qed.

(** The last argument of [path.resolve], when it is a name, is the last
    segment of the result. *)
Lemma resolveSegs_snoc (cwd : string) (args : list string) (x : string) :
  plainSeg x = true ->
  exists l, resolveSegs cwd (args ++ [x]) = (l ++ [x])%list.
Proof.
  intros H. destruct (plainSeg_relative x H) as [Hne Habs].
  destruct (resolveArgs_snoc args x Hne Habs) as (abs & u & E).
  unfold resolveSegs. rewrite E.
  assert (Hs : split sep x = [x]) by (now apply split_sepFree, plainSeg_sepFree).
  destruct abs.
  - rewrite flat_map_app. simpl. rewrite Hs, app_nil_r.
    rewrite normalizeSegs_snoc by assumption. now eexists.
  - change (cwd :: u ++ [x])%list with ((cwd :: u) ++ [x])%list.
    rewrite flat_map_app. simpl flat_map at 2. rewrite Hs, app_nil_r.
    rewrite normalizeSegs_snoc by assumption. now eexists.
Qed.

Lemma canon_endsSeg (l : list string) (x : string) :
  endsSeg (canon (l ++ [x])) x.
Proof.
  unfold canon. rewrite join_snoc. right. destruct l as [|y l].
  - now exists "".
  - exists ("/" ++ join "/" (y :: l)). reflexivity.
Qed.

Lemma resolveSegs_endsSeg (cwd p seg : string) :
  plainSeg seg = true -> endsSeg p seg ->
  exists l, resolveSegs cwd [p] = (l ++ [seg])%list.
Proof.
  intros H He. destruct (plainSeg_inv seg H) as (H1 & _).
  apply String.eqb_neq in H1.
  pose proof (endsSeg_nonempty p seg H1 He) as Hp.
  apply String.eqb_neq in Hp.
  destruct (endsSeg_split p seg H He) as [l Hl].
  unfold resolveSegs. simpl resolveArgs. rewrite Hp.
  destruct (isAbsolute p).
  - simpl. rewrite app_nil_r, Hl, normalizeSegs_snoc by assumption. now eexists.
  - simpl. rewrite app_nil_r, Hl, app_assoc, normalizeSegs_snoc by assumption.
    now eexists.
Qed.

Lemma dropCommon_snoc (l : list string) (x : string) :
  forall f, ~ In x f ->
            exists f' t0, dropCommon f (l ++ [x]) = (f', (t0 ++ [x])%list).
Proof.
  induction l as [|z l IH]; intros f Hf.
  - destruct f as [|y f]; [now exists [], [] |]. simpl.
    destruct (String.eqb_spec y x) as [->|_]; [exfalso; apply Hf; now left |].
    now exists (y :: f), [].
  - destruct f as [|y f]; [now exists [], (z :: l) |]. simpl.
    destruct (String.eqb y z).
    + apply IH. intros Hin. apply Hf. now right.
    + now exists (y :: f), (z :: l).
Qed.

(** A relative path to a file ends with the name of the file, unless the
    starting directory has a segment of that name. *)
Lemma relative_endsSeg (cwd from to seg : string) :
  plainSeg seg = true -> endsSeg to seg ->
  ~ In seg (resolveSegs cwd [from]) ->
  endsSeg (relative cwd from to) seg.
Proof.
  intros H He Hf. unfold relative.
  destruct (resolveSegs_endsSeg cwd to seg H He) as [l ->].
  destruct (dropCommon_snoc l seg _ Hf) as (f' & t0 & ->).
  rewrite app_assoc, join_snoc.
  destruct (map (fun _ => "..") f' ++ t0)%list; [now left | right; now eexists].
Qed.

Lemma endsSeg_prepend (a p seg : string) :
  endsSeg p seg -> endsSeg (a ++ String sep p) seg.
Proof.
  intros [-> | [before ->]]; right; [now exists a |].
  exists (a ++ String sep before). now rewrite append_assoc.
Qed.

Lemma joinPaths_pair_endsSeg (a p seg : string) :
  plainSeg seg = true -> endsSeg p seg -> endsSeg (joinPaths [a; p]) seg.
Proof.
  intros H He. destruct (plainSeg_inv seg H) as (H1 & _).
  apply String.eqb_neq in H1.
  pose proof (endsSeg_nonempty p seg H1 He) as Hp. apply String.eqb_neq in Hp.
  unfold joinPaths. simpl filter. rewrite Hp.
  destruct (String.eqb a ""); simpl negb; cbv iota.
  - apply normalize_endsSeg; assumption.
  - apply normalize_endsSeg; [assumption |]. now apply endsSeg_prepend.
Qed.

Lemma backslashes_append (a b : string) :
  backslashesToSlashes (a ++ b) = backslashesToSlashes a ++ backslashesToSlashes b.
Proof. induction a as [|c a IH]; simpl; [reflexivity | now rewrite IH]. Qed.

Lemma backslashes_endsSeg (p : string) :
  endsSeg p "index.ts" -> endsSeg (backslashesToSlashes p) "index.ts".
Proof.
  intros [-> | [before ->]]; [now left | right].
  exists (backslashesToSlashes before). now rewrite backslashes_append.
Qed.

Lemma endsWith_index_not_ts (y : string) : endsWith (y ++ "/index") ".ts" = false.
Proof.
  destruct (endsWith (y ++ "/index") ".ts") eqn:E; [| reflexivity].
  apply endsWith_lastChar in E. rewrite lastChar_append in E. discriminate.
Qed.

(** "Reconstruct the import path" on a path to an [index.ts], for a
    specifier written without extension and without a closing [/index] or
    slash: the extension goes, the segment [index] stays. *)
Lemma reconstruct_keeps_index (importPath newRelativePath : string) :
  endsWith importPath ".ts" = false ->
  endsWith importPath "/index" = false ->
  endsWith importPath "/" = false ->
  endsSeg newRelativePath "index.ts" ->
  endsWith (reconstructImportPath importPath newRelativePath) "/index" = true
  /\ endsWith (reconstructImportPath importPath newRelativePath) ".ts" = false.
Proof.
  intros H1 H2 H3 He. unfold reconstructImportPath. rewrite H1, H2, H3.
  cbn [orb]. destruct He as [-> | [before ->]]; [split; reflexivity |].
  change (before ++ String sep "index.ts") with (before ++ ("/index" ++ ".ts")).
  rewrite <- append_assoc, removeSuffix_append.
  destruct (negb (startsWith (before ++ "/index") ".")).
  - change ("./" ++ (before ++ "/index")) with (("./" ++ before) ++ "/index").
    split; [apply endsWith_append | apply endsWith_index_not_ts].
  - split; [apply endsWith_append | apply endsWith_index_not_ts].
Qed.

Lemma rewriteWith_keeps_index (fs : Fs.t) (dir importPath resolvedPath : string)
      (m : dirMap) (newImportPath : string) :
  endsWith importPath ".ts" = false ->
  endsWith importPath "/index" = false ->
  endsWith importPath "/" = false ->
  endsSeg resolvedPath "index.ts" ->
  ~ In "index.ts" (Fs.segsOf fs dir) ->
  (forall oldDir newDir,
      In (oldDir, newDir) m -> ~ In "index.ts" (Fs.segsOf fs oldDir)) ->
  rewriteWith fs dir importPath resolvedPath m = Some newImportPath ->
  endsWith newImportPath "/index" = true /\ endsWith newImportPath ".ts" = false.
Proof.
  intros H1 H2 H3 He Hdir Hm. induction m as [|[o n] m IH]; [discriminate |].
  cbn [rewriteWith]. destruct (startsWith resolvedPath o).
  - intros [= <-]. apply reconstruct_keeps_index; try assumption.
    apply backslashes_endsSeg, relative_endsSeg; [reflexivity | | exact Hdir].
    apply joinPaths_pair_endsSeg; [reflexivity |].
    apply relative_endsSeg; [reflexivity | assumption |].
    apply (Hm o n). now left.
  - apply IH. intros o' n' Hin. apply (Hm o' n'). now right.
Qed.

(** C2, as worded, fails on its own example: [../shared], resolved through
    the index fallback, is rewritten to [../q9z/index], before the rename
    as after it. *)
Lemma directory_specifier_gains_index :
  Fs.existsSync (Scenario.withShared "shared")
    (Path.resolve "/" ["/p/src/a"; "../shared" ++ ".ts"]) = false
  /\ resolveImportPath (Scenario.withShared "shared") "/p/src/a" "../shared"
     = "/p/src/shared/index.ts"
  /\ rewriteSpecifier (Scenario.withShared "shared") "/p/src/a/util.ts"
       Scenario.planShared "../shared" = Some "../q9z/index"
  /\ rewriteSpecifier (Scenario.withShared "q9z") "/p/src/a/util.ts"
       Scenario.planShared "../shared" = Some "../q9z/index"
  /\ Some "../q9z/index" <> Some "../q9z".
Proof. repeat split; try (vm_compute; reflexivity). discriminate. Qed.

(** C2 (amended) -- Extension-form preservation.  Let a specifier carry no
    [.ts] and end neither in [/index] nor in a slash, let it resolve
    through the index fallback, and let no directory in play be itself
    called [index.ts].  If the rewriter rewrites it, the new specifier has
    no [.ts] extension either, but it does end with the segment [/index]:
    the index segment is spelled out, not omitted. *)
Theorem index_fallback_spells_out_index (fs : Fs.t) (filePath : string)
        (m : dirMap) (importPath newImportPath : string) :
  endsWith importPath ".ts" = false ->
  endsWith importPath "/index" = false ->
  endsWith importPath "/" = false ->
  Fs.existsSync fs
    (Path.resolve (Fs.cwd fs) [Path.dirname filePath; importPath ++ ".ts"]) = false ->
  ~ In "index.ts" (Fs.segsOf fs (Path.dirname filePath)) ->
  (forall oldDir newDir,
      In (oldDir, newDir) m -> ~ In "index.ts" (Fs.segsOf fs oldDir)) ->
  rewriteSpecifier fs filePath m importPath = Some newImportPath ->
  endsWith newImportPath "/index" = true /\ endsWith newImportPath ".ts" = false.
Proof.
  intros H1 H2 H3 Hex Hdir Hm. unfold rewriteSpecifier, resolveImportPath.
  rewrite H1, Hex.
  apply rewriteWith_keeps_index; try assumption.
  rewrite resolve_canon.
  destruct (resolveSegs_snoc (Fs.cwd fs) [Path.dirname filePath; importPath]
              "index.ts" eq_refl) as [l Hl].
  change [Path.dirname filePath; importPath; "index.ts"]
    with ([Path.dirname filePath; importPath] ++ ["index.ts"])%list.
  rewrite Hl. apply canon_endsSeg.
Qed.

Lemma index_fallback_spells_out_index_witness :
  endsWith "../q9z/index" "/index" = true /\ endsWith "../q9z/index" ".ts" = false.
Proof.
  apply (index_fallback_spells_out_index (Scenario.withShared "shared")
           "/p/src/a/util.ts" Scenario.planShared "../shared" "../q9z/index");
    try (vm_compute; reflexivity).
  - vm_compute. intros [H | [H | [H | []]]]; discriminate.
  - intros o n [[= <- <-] | []]. vm_compute.
    intros [H | [H | [H | []]]]; discriminate.
Defined.

(** Written with a closing slash or [/index], the directory specifier is
    rewritten to the bare directory; written with [.ts], it keeps it. *)
Example other_forms :
  rewriteSpecifier (Scenario.withShared "shared") "/p/src/a/util.ts"
    Scenario.planShared "../shared/" = Some "../q9z"
  /\ rewriteSpecifier (Scenario.withShared "shared") "/p/src/a/util.ts"
       Scenario.planShared "../shared/index" = Some "../q9z"
  /\ rewriteSpecifier (Scenario.withShared "shared") "/p/src/a/util.ts"
       Scenario.planShared "../shared/index.ts" = Some "../q9z/index.ts".
Proof. repeat split; vm_compute; reflexivity. Qed.

End FormFacts.

(* ===================================================================== *)
(** * What the traversal finds *)
(* ===================================================================== *)

Module ReachFacts.
Import JsString Regex Script Notions Reach StringFacts PathFacts GraphFacts.

(** The loop keeps every property that its two kinds of round keep. *)
Lemma traverse_keeps (fs : Fs.t) (packageRoot : string)
      (P : traversal -> Prop) :
  (forall usedNow direct first queue,
      P (mkTraversal usedNow direct (first :: queue)) ->
      setHas usedNow (Path.normalize first) = true ->
      P (mkTraversal usedNow direct queue)) ->
  (forall usedNow direct first queue st',
      P (mkTraversal usedNow direct (first :: queue)) ->
      setHas usedNow (Path.normalize first) = false ->
      visit fs packageRoot (Path.normalize first) usedNow direct queue = Some st' ->
      P st') ->
  forall fuel st st',
    P st -> traverse fuel fs packageRoot st = Done st' -> P st'.
Proof.
  intros Hskip Hvisit. induction fuel as [|fuel IH]; intros st st' HP H;
    [discriminate |].
  destruct st as [usedNow direct queue]. simpl in H.
  destruct queue as [|first queue]; [now injection H as <- |].
  destruct (setHas usedNow (Path.normalize first)) eqn:E.
  - apply (IH _ _ (Hskip _ _ _ _ HP E) H).
  - destruct (visit _ _ _ _ _ _) as [st1|] eqn:Ev; [| discriminate].
    apply (IH _ _ (Hvisit _ _ _ _ _ HP E Ev) H).
Qed.

Lemma traverse_queue_empty (fs : Fs.t) (packageRoot : string) :
  forall fuel st st',
    traverse fuel fs packageRoot st = Done st' -> toProcess st' = [].
Proof.
  induction fuel as [|fuel IH]; intros st st' H; [discriminate |].
  destruct st as [usedNow direct queue]. simpl in H.
  destruct queue as [|first queue]; [now injection H as <- |].
  destruct (setHas usedNow (Path.normalize first)).
  - apply (IH _ _ H).
  - destruct (visit _ _ _ _ _ _) as [st1|]; [| discriminate]. apply (IH _ _ H).
Qed.

(** ** What a visit does to the three sets *)

Lemma trackDirect_spec (usedNow : list string) :
  forall ds direct queue direct' queue',
    trackDirect usedNow ds direct queue = (direct', queue') ->
    (forall x, In x queue -> In x queue')
    /\ (forall x, In x queue' ->
                  In x queue \/ exists d, In d ds /\ x = Path.normalize d)
    /\ (forall d, In d ds ->
                  In (Path.normalize d) usedNow \/ In (Path.normalize d) queue')
    /\ (forall x, In x direct' <->
                  In x direct \/ exists d, In d ds /\ x = Path.normalize d).
Proof.
  induction ds as [|d ds IH]; intros direct queue direct' queue' H.
  - injection H as <- <-. repeat split; try tauto.
    + intros d [].
    + intros [H | [d [[] _]]]. exact H.
  - simpl in H. apply IH in H as (H1 & H2 & H3 & H4).
    assert (Hq : forall x, In x queue ->
                           In x (if setHas usedNow (Path.normalize d) then queue
                                 else (queue ++ [Path.normalize d])%list)).
    { intros x Hx. destruct (setHas _ _); [assumption |].
      apply in_or_app. now left. }
    repeat split.
    + intros x Hx. apply H1, Hq, Hx.
    + intros x Hx. apply H2 in Hx as [Hx | [d' [Hd' ->]]].
      * destruct (setHas usedNow (Path.normalize d)); [now left |].
        apply in_app_or in Hx as [Hx | [<- | []]]; [now left |].
        right. exists d. split; [now left | reflexivity].
      * right. exists d'. split; [now right | reflexivity].
    + intros d' [<- | Hd'].
      * destruct (setHas usedNow (Path.normalize d)) eqn:E.
        -- left. now apply setHas_In.
        -- right. apply H1, in_or_app. right. now left.
      * now apply H3.
    + intros Hx. apply H4 in Hx as [Hx | [d' [Hd' ->]]].
      * apply setAdd_In in Hx as [Hx | ->]; [now left |].
        right. exists d. split; [now left | reflexivity].
      * right. exists d'. split; [now right | reflexivity].
    + intros [Hx | [d' [[<- | Hd'] ->]]]; apply H4.
      * left. apply setAdd_In. now left.
      * left. apply setAdd_In. now right.
      * right. now exists d'.
Qed.

Lemma trackReExports_spec (usedNow : list string) :
  forall rs queue,
    (forall x, In x queue -> In x (trackReExports usedNow rs queue))
    /\ (forall x, In x (trackReExports usedNow rs queue) ->
                  In x queue \/ exists r, In r rs /\ x = Path.normalize r)
    /\ (forall r, In r rs ->
                  In (Path.normalize r) usedNow
                  \/ In (Path.normalize r) (trackReExports usedNow rs queue)).
Proof.
  induction rs as [|r rs IH]; intros queue.
  - repeat split; try tauto. intros r [].
  - simpl.
    destruct (IH (if setHas usedNow (Path.normalize r) then queue
                  else (queue ++ [Path.normalize r])%list)) as (H1 & H2 & H3).
    assert (Hq : forall x, In x queue ->
                           In x (if setHas usedNow (Path.normalize r) then queue
                                 else (queue ++ [Path.normalize r])%list)).
    { intros x Hx. destruct (setHas _ _); [assumption |].
      apply in_or_app. now left. }
    repeat split.
    + intros x Hx. apply H1, Hq, Hx.
    + intros x Hx. apply H2 in Hx as [Hx | [r' [Hr' ->]]].
      * destruct (setHas usedNow (Path.normalize r)); [now left |].
        apply in_app_or in Hx as [Hx | [<- | []]]; [now left |].
        right. exists r. split; [now left | reflexivity].
      * right. exists r'. split; [now right | reflexivity].
    + intros r' [<- | Hr'].
      * destruct (setHas usedNow (Path.normalize r)) eqn:E.
        -- left. now apply setHas_In.
        -- right. apply H1, in_or_app. right. now left.
      * now apply H3.
Qed.

Lemma fold_setAdd_In (l acc : list string) (x : string) :
  In x (fold_left setAdd l acc) <-> In x acc \/ In x l.
Proof.
  revert acc; induction l as [|y l IH]; intros acc; simpl; [tauto |].
  rewrite IH, setAdd_In. intuition (subst; auto).
Qed.

Lemma startsWith_char (s : string) (a : ascii) :
  startsWith s (String a "") =
  match s with String c _ => Ascii.eqb c a | EmptyString => false end.
Proof.
  unfold startsWith. destruct s as [|c s]; [reflexivity |]. simpl.
  destruct (ascii_dec a c) as [->|Hne].
  - rewrite Ascii.eqb_refl. now destruct s.
  - symmetry. apply Ascii.eqb_neq. congruence.
Qed.

(** The two tests for a relative specifier say the same. *)
Lemma isExternal_isRelative (importPath : string) :
  isExternal importPath = negb (isRelative importPath).
Proof.
  unfold isExternal, isRelative. rewrite !startsWith_char.
  destruct importPath as [|c s]; [reflexivity |].
  destruct (Ascii.eqb_spec c "@") as [->|_]; [reflexivity |].
  simpl. now rewrite negb_orb.
Qed.

Lemma directMatch_resolveMatch (fs : Fs.t) (file packageRoot : string)
      (m : found) :
  directMatch fs file packageRoot m = resolveMatch fs file packageRoot m.
Proof.
  unfold directMatch, resolveMatch. rewrite isExternal_isRelative.
  now destruct (isRelative (group1 m)).
Qed.

Lemma flat_map_directMatch (fs : Fs.t) (file packageRoot : string)
      (ms : list found) :
  flat_map (directMatch fs file packageRoot) ms
  = flat_map (resolveMatch fs file packageRoot) ms.
Proof.
  induction ms as [|m ms IH]; simpl; [reflexivity |].
  now rewrite directMatch_resolveMatch, IH.
Qed.

(** The state after a visit, in terms of what [extractImports] returns
    for the visited file. *)
Lemma visit_spec (fs : Fs.t) (packageRoot currentFile : string)
      (usedNow direct queue : list string) (st' : traversal) :
  visit fs packageRoot currentFile usedNow direct queue = Some st' ->
  exists content ex,
    Fs.readFileSync fs currentFile = Some content
    /\ extractImports fs currentFile packageRoot = Some ex
    /\ usedFiles st' = setAdd usedNow currentFile
    /\ (forall x, In x queue -> In x (toProcess st'))
    /\ (forall x, In x (toProcess st') ->
                  In x queue
                  \/ In x (directImports ex ++ reExports ex)%list)
    /\ (forall t, In t (directImports ex ++ reExports ex)%list ->
                  In t (usedFiles st') \/ In t (toProcess st'))
    /\ (forall x, In x (directlyImportedFiles st') <->
                  In x direct \/ In x (directImports ex)).
Proof.
  unfold visit. intros H.
  destruct (Fs.readFileSync fs currentFile) as [content|] eqn:Er; [| discriminate].
  destruct (extractImports fs currentFile packageRoot) as [ex|] eqn:Eex;
    [| discriminate].
  destruct (extractImports_listed _ _ _ _ Eex) as [Hd Hr].
  assert (Hnd : forall d, In d (directImports ex) -> Path.normalize d = d).
  { intros d Hin. rewrite Forall_forall in Hd. now destruct (Hd d Hin). }
  assert (Hnr : forall r, In r (reExports ex) -> Path.normalize r = r).
  { intros r Hin. rewrite Forall_forall in Hr. now destruct (Hr r Hin). }
  assert (Hdirect : flat_map (directMatch fs currentFile packageRoot)
                      (execAll importRegex content) = directImports ex).
  { rewrite flat_map_directMatch. unfold extractImports in Eex.
    rewrite Er in Eex. destruct (negb (Fs.existsSync fs currentFile)) eqn:Ee.
    - unfold Fs.existsSync, Fs.readFileSync in *.
      destruct (Fs.stat fs currentFile); discriminate.
    - now injection Eex as <-. }
  rewrite Hdirect in H.
  destruct (trackDirect _ _ _ _) as [direct2 queue1] eqn:Etd.
  injection H as <-. cbn [usedFiles toProcess directlyImportedFiles].
  destruct (trackDirect_spec _ _ _ _ _ _ Etd) as (D1 & D2 & D3 & D4).
  destruct (trackReExports_spec (setAdd usedNow currentFile) (reExports ex) queue1)
    as (R1 & R2 & R3).
  exists content, ex. repeat split; try reflexivity.
  - intros x Hx. apply R1, D1, Hx.
  - intros x Hx. apply R2 in Hx as [Hx | [r [Hr' ->]]].
    + apply D2 in Hx as [Hx | [d [Hd' ->]]]; [now left |].
      right. apply in_or_app. left. now rewrite Hnd.
    + right. apply in_or_app. right. now rewrite Hnr.
  - intros t Ht. apply in_app_or in Ht as [Ht | Ht].
    + destruct (D3 t Ht) as [H | H]; rewrite (Hnd t Ht) in H;
        [now left | right; now apply R1].
    + destruct (R3 t Ht) as [H | H]; rewrite (Hnr t Ht) in H; [now left | now right].
  - intros Hx. apply D4 in Hx as [Hx | [d [Hd' ->]]].
    + apply fold_setAdd_In in Hx. tauto.
    + right. now rewrite Hnd.
  - intros [Hx | Hx]; apply D4.
    + left. apply fold_setAdd_In. now left.
    + left. apply fold_setAdd_In. now right.
Qed.

Lemma listed_targets (fs : Fs.t) (packageRoot file : string) (ex : imports) :
  extractImports fs file packageRoot = Some ex ->
  forall t, In t (directImports ex ++ reExports ex)%list -> Path.normalize t = t.
Proof.
  intros Hex t Ht. destruct (extractImports_listed _ _ _ _ Hex) as [Hd Hr].
  rewrite Forall_forall in Hd, Hr.
  apply in_app_or in Ht as [Ht | Ht]; [now destruct (Hd t Ht) | now destruct (Hr t Ht)].
Qed.

Section Invariants.
Variable fs : Fs.t.
Variable packageRoot : string.

Lemma sound_kept (fuel : nat) (st st' : traversal) :
  sound fs packageRoot st -> traverse fuel fs packageRoot st = Done st' ->
  sound fs packageRoot st'.
Proof.
  apply traverse_keeps; unfold sound; cbn [usedFiles toProcess].
  - intros usedNow direct first queue [Hu Hq] _. split; [assumption |].
    intros x Hx. apply Hq. now right.
  - intros usedNow direct first queue st1 [Hu Hq] _ Hv.
    destruct (visit_spec _ _ _ _ _ _ _ Hv)
      as (content & ex & _ & Hex & Hused & _ & Hq2 & _).
    assert (Hcur : reachable fs packageRoot (Path.normalize first))
      by (apply Hq; now left).
    split.
    + intros f Hf. rewrite Hused in Hf.
      apply setAdd_In in Hf as [Hf | ->]; [now apply Hu | assumption].
    + intros x Hx. apply Hq2 in Hx as [Hx | Hx]; [apply Hq; now right |].
      rewrite (listed_targets _ _ _ _ Hex x Hx).
      apply (reachStep fs packageRoot (Path.normalize first) x Hcur).
      now exists ex.
Qed.

Lemma closed_kept (fuel : nat) (st st' : traversal) :
  closed fs packageRoot st -> traverse fuel fs packageRoot st = Done st' ->
  closed fs packageRoot st'.
Proof.
  apply traverse_keeps; unfold closed, queued; cbn [usedFiles toProcess].
  - intros usedNow direct first queue [He Hc] Hin. apply setHas_In in Hin.
    assert (Hless : forall t,
               In t usedNow \/ (exists x, In x (first :: queue) /\ Path.normalize x = t) ->
               In t usedNow \/ (exists x, In x queue /\ Path.normalize x = t)).
    { intros t [H | [x [[<- | Hx] Hn]]]; [now left | left; now subst | right; now exists x]. }
    split; [now apply Hless |]. intros f t Hf Hr. apply Hless, (Hc f t Hf Hr).
  - intros usedNow direct first queue st1 [He Hc] _ Hv.
    destruct (visit_spec _ _ _ _ _ _ _ Hv)
      as (content & ex & _ & Hex & Hused & Hq1 & _ & Hq3 & _).
    assert (Hmore : forall t,
               In t usedNow \/ (exists x, In x (first :: queue) /\ Path.normalize x = t) ->
               In t (usedFiles st1)
               \/ (exists x, In x (toProcess st1) /\ Path.normalize x = t)).
    { rewrite Hused. intros t [H | [x [[<- | Hx] Hn]]].
      - left. apply setAdd_In. now left.
      - left. apply setAdd_In. right. now subst.
      - right. exists x. split; [now apply Hq1 | assumption]. }
    split; [now apply Hmore |]. intros f t Hf Hr. rewrite Hused in Hf.
    apply setAdd_In in Hf as [Hf | ->]; [apply Hmore; now apply (Hc f) |].
    destruct Hr as (ex' & Hex' & Ht). rewrite Hex in Hex'. injection Hex' as <-.
    destruct (Hq3 t Ht) as [H | H]; [now left |].
    right. exists t. split; [assumption | apply (listed_targets _ _ _ _ Hex t Ht)].
Qed.

Lemma directOfUsed_kept (fuel : nat) (st st' : traversal) :
  directOfUsed fs packageRoot st -> traverse fuel fs packageRoot st = Done st' ->
  directOfUsed fs packageRoot st'.
Proof.
  apply traverse_keeps; unfold directOfUsed;
    cbn [usedFiles toProcess directlyImportedFiles].
  - intros usedNow direct first queue H _. exact H.
  - intros usedNow direct first queue st1 H _ Hv.
    destruct (visit_spec _ _ _ _ _ _ _ Hv)
      as (content & ex & _ & Hex & Hused & _ & _ & _ & Hd).
    intros x. rewrite Hd, Hused. split.
    + intros [Hx | Hx].
      * apply H in Hx as (f & Hf & Hi). exists f. split; [| assumption].
        apply setAdd_In. now left.
      * exists (Path.normalize first). split; [apply setAdd_In; now right |].
        now exists ex.
    + intros (f & Hf & Hi). apply setAdd_In in Hf as [Hf | ->].
      * left. apply H. now exists f.
      * right. destruct Hi as (ex' & Hex' & Hx). rewrite Hex in Hex'.
        now injection Hex' as <-.
Qed.

Lemma wasRead_kept (fuel : nat) (st st' : traversal) :
  wasRead fs st -> traverse fuel fs packageRoot st = Done st' -> wasRead fs st'.
Proof.
  apply traverse_keeps; unfold wasRead; cbn [usedFiles].
  - intros usedNow direct first queue H _. exact H.
  - intros usedNow direct first queue st1 H _ Hv.
    destruct (visit_spec _ _ _ _ _ _ _ Hv) as (content & ex & Hr & _ & Hused & _).
    intros f Hf. rewrite Hused in Hf.
    apply setAdd_In in Hf as [Hf | ->]; [now apply H | now exists content].
Qed.

(** The state [findUsedFiles] ends in, when the entry file exists. *)
Lemma final_state (fuel : nat) (st : traversal) :
  Fs.existsSync fs (entryPointOf packageRoot) = true ->
  findUsedFilesState fuel fs packageRoot = Done st ->
  sound fs packageRoot st /\ closed fs packageRoot st
  /\ directOfUsed fs packageRoot st /\ wasRead fs st /\ toProcess st = [].
Proof.
  unfold findUsedFilesState. intros -> H. cbn [negb] in H. cbv iota in H.
  split; [| split; [| split; [| split]]].
  - apply (sound_kept _ _ _) in H; [apply H |]. split; [intros f [] |].
    intros x [<- | []]. apply reachEntry.
  - apply (closed_kept _ _ _) in H; [apply H |]. split; [| intros f t []].
    right. eexists. split; [now left | reflexivity].
  - apply (directOfUsed_kept _ _ _) in H; [apply H |].
    intros x. split; [intros [] | intros (f & [] & _)].
  - apply (wasRead_kept _ _ _) in H; [assumption | intros f []].
  - apply (traverse_queue_empty _ _ _ _ _ H).
Qed.

End Invariants.

Lemma used_iff_reachable (fuel : nat) (fs : Fs.t)
        (packageRoot : string) (u : usage) :
  Fs.existsSync fs (entryPointOf packageRoot) = true ->
  findUsedFiles fuel fs packageRoot = Done u ->
  forall file, In file (used u) <-> reachable fs packageRoot file.
Proof.
  intros Hentry H. unfold findUsedFiles in H.
  destruct (findUsedFilesState fuel fs packageRoot) as [st| |] eqn:E;
    try discriminate.
  injection H as <-. cbn [used].
  destruct (final_state fs packageRoot fuel st Hentry E)
    as ([Hs _] & [He Hc] & _ & _ & Hq).
  rewrite Hq in He, Hc.
  assert (Hno : forall t, ~ queued [] t) by (intros t (x & [] & _)).
  intros file. split; [apply Hs |].
  induction 1 as [|f t _ IH Hr].
  - destruct He as [He | He]; [assumption | now apply Hno in He].
  - destruct (Hc f t IH Hr) as [Ht | Ht]; [assumption | now apply Hno in Ht].
Qed.

(** X1 -- The used files are the reachable files.  When the entry file
    exists and [findUsedFiles] returns, a path is in [usedFiles] exactly
    when it is reached from the entry file through the imports and
    re-exports [extractImports] finds. *)
Theorem used_files_are_the_reachable_files (fuel : nat) (fs : Fs.t)
        (packageRoot : string) (u : usage) :
  Fs.existsSync fs (entryPointOf packageRoot) = true ->
  findUsedFiles fuel fs packageRoot = Done u ->
  forall file, In file (used u) <-> reachable fs packageRoot file.
Proof. exact (used_iff_reachable fuel fs packageRoot u). Qed.

Lemma used_files_are_the_reachable_files_witness :
  In "/p/src/a/util.ts"
     ["/p/src/index.ts"; "/p/src/a/index.ts"; "/p/src/a/util.ts"]
  <-> reachable Scenario.withBarrel "/p" "/p/src/a/util.ts".
Proof.
  apply (used_files_are_the_reachable_files 4 Scenario.withBarrel "/p"
           (mkUsage ["/p/src/index.ts"; "/p/src/a/index.ts"; "/p/src/a/util.ts"]
                    ["/p/src/a/util.ts"])); vm_compute; reflexivity.
Defined.

(** X2 -- Only re-exported means: reached, and directly imported by no
    reached file.  When the entry file exists and [findUsedFiles] returns,
    a path is in [reExportedFiles] exactly when it is reachable from the
    entry file, no reachable file imports it directly, and it ends in [.ts]
    but not in [index.ts]. *)
Theorem reExportedFiles_by_reachability (fuel : nat) (fs : Fs.t)
        (packageRoot : string) (u : usage) :
  Fs.existsSync fs (entryPointOf packageRoot) = true ->
  findUsedFiles fuel fs packageRoot = Done u ->
  forall file,
    In file (reExportedFiles u)
    <-> reachable fs packageRoot file
        /\ (forall importer,
               reachable fs packageRoot importer ->
               ~ importsDirectly fs packageRoot importer file)
        /\ endsWith file "index.ts" = false
        /\ endsWith file ".ts" = true.
Proof.
  intros Hentry H.
  pose proof (used_iff_reachable fuel fs packageRoot u Hentry H) as Hused.
  unfold findUsedFiles in H.
  destruct (findUsedFilesState fuel fs packageRoot) as [st| |] eqn:E;
    try discriminate.
  injection H as <-. cbn [used reExportedFiles] in *.
  destruct (final_state fs packageRoot fuel st Hentry E) as (_ & _ & Hd & _).
  intros file.
  rewrite (collect_In (reExportedOnly (directlyImportedFiles st))).
  rewrite reExportedOnly_true, Hused. split.
  - intros [[] | (Hr & Hnd & H1 & H2)]. repeat split; try assumption.
    intros importer Hi Himp. apply Hnd, Hd. exists importer.
    split; [now apply Hused | assumption].
  - intros (Hr & Hno & H1 & H2). right. repeat split; try assumption.
    intros Hin. apply Hd in Hin as (f & Hf & Hi).
    apply (Hno f); [now apply Hused | assumption].
Qed.

Lemma reExportedFiles_by_reachability_witness :
  In "/p/src/a/util.ts" ["/p/src/a/util.ts"]
  <-> reachable Scenario.withBarrel "/p" "/p/src/a/util.ts"
      /\ (forall importer,
             reachable Scenario.withBarrel "/p" importer ->
             ~ importsDirectly Scenario.withBarrel "/p" importer "/p/src/a/util.ts")
      /\ endsWith "/p/src/a/util.ts" "index.ts" = false
      /\ endsWith "/p/src/a/util.ts" ".ts" = true.
Proof.
  apply (reExportedFiles_by_reachability 4 Scenario.withBarrel "/p"
           (mkUsage ["/p/src/index.ts"; "/p/src/a/index.ts"; "/p/src/a/util.ts"]
                    ["/p/src/a/util.ts"])); vm_compute; reflexivity.
Defined.

Lemma withinPackage_accepts (fs : Fs.t) (packageRoot dir importPath p : string) :
  withinPackage fs packageRoot (resolveImportPath fs dir importPath) = Some p ->
  startsWith p (Path.normalize packageRoot) = true
  /\ Fs.existsSync fs p = true
  /\ Path.normalize p = p.
Proof.
  intros H. destruct (withinPackage_listed _ _ _ _ _ H) as (_ & Hn & He).
  repeat split; try assumption.
  unfold withinPackage in H.
  destruct (startsWith _ _) eqn:E; [| discriminate]. simpl in H.
  destruct (Fs.existsSync fs _); [| discriminate]. now injection H as <-.
Qed.

Lemma resolveMatch_accepts (fs : Fs.t) (filePath packageRoot : string)
      (ms : list found) (p : string) :
  In p (flat_map (resolveMatch fs filePath packageRoot) ms) ->
  startsWith p (Path.normalize packageRoot) = true
  /\ Fs.existsSync fs p = true
  /\ Path.normalize p = p.
Proof.
  induction ms as [|m ms IH]; simpl; [intros [] |].
  intros H. apply in_app_or in H as [H | H]; [| now apply IH].
  unfold resolveMatch in H. destruct (isExternal _); [destruct H |].
  destruct (withinPackage _ _ _) as [q|] eqn:E; [| destruct H].
  destruct H as [<- | []]. apply (withinPackage_accepts _ _ _ _ _ E).
Qed.

Lemma extractImports_accepts (fs : Fs.t) (filePath packageRoot : string)
        (ex : imports) :
  extractImports fs filePath packageRoot = Some ex ->
  (forall p, In p (directImports ex ++ reExports ex)%list ->
             startsWith p (Path.normalize packageRoot) = true
             /\ Fs.existsSync fs p = true
             /\ Path.normalize p = p)
  /\ (Fs.existsSync fs filePath = false ->
      directImports ex = [] /\ reExports ex = []).
Proof.
  unfold extractImports. intros H. split.
  - destruct (negb (Fs.existsSync fs filePath)).
    + injection H as <-. intros p [].
    + destruct (Fs.readFileSync fs filePath) as [content|]; [| discriminate].
      injection H as <-. cbn [directImports reExports]. intros p Hp.
      apply in_app_or in Hp as [Hp | Hp]; now apply resolveMatch_accepts in Hp.
  - intros He. rewrite He in H. cbn [negb] in H. cbv iota in H.
    now injection H as <-.
Qed.

(** X3 -- What [extractImports] returns.  Every path in [directImports]
    and in [reExports] exists on disk, is in the form [path.normalize]
    leaves alone and starts with the normalized package root; and for a
    file that does not exist both lists are empty. *)
Theorem extractImports_results (fs : Fs.t) (filePath packageRoot : string)
        (ex : imports) :
  extractImports fs filePath packageRoot = Some ex ->
  (forall p, In p (directImports ex ++ reExports ex)%list ->
             startsWith p (Path.normalize packageRoot) = true
             /\ Fs.existsSync fs p = true
             /\ Path.normalize p = p)
  /\ (Fs.existsSync fs filePath = false ->
      directImports ex = [] /\ reExports ex = []).
Proof. exact (extractImports_accepts fs filePath packageRoot ex). Qed.

Lemma extractImports_results_witness :
  (forall p, In p (["/p/src/a.ts"; "/p/src/index.ts"] ++ [])%list ->
             startsWith p (Path.normalize "/p") = true
             /\ Fs.existsSync Scenario.withCycle p = true
             /\ Path.normalize p = p)
  /\ (Fs.existsSync Scenario.withCycle "/p/src/b.ts" = false ->
      ["/p/src/a.ts"; "/p/src/index.ts"] = [] /\ @nil string = []).
Proof.
  apply (extractImports_results Scenario.withCycle "/p/src/b.ts" "/p"
           (mkImports ["/p/src/a.ts"; "/p/src/index.ts"] [])).
  vm_compute; reflexivity.
Defined.

Lemma reachable_inside (fs : Fs.t) (packageRoot file : string) :
  reachable fs packageRoot file ->
  file = entryFile packageRoot
  \/ (startsWith file (Path.normalize packageRoot) = true
      /\ Path.normalize file = file).
Proof.
  intros [|f t _ (ex & Hex & Ht)]; [now left | right].
  destruct (extractImports_accepts _ _ _ _ Hex) as [H _].
  destruct (H t Ht) as (H1 & _ & H3). now split.
Qed.

(** X4 -- The traversal reads what it uses.  When [findUsedFiles]
    returns, every path in [usedFiles] names a regular file whose text was
    read, and every one of them but the entry file starts, as a string of
    characters, with the normalized package root. *)
Theorem used_files_were_read (fuel : nat) (fs : Fs.t) (packageRoot : string)
        (u : usage) :
  findUsedFiles fuel fs packageRoot = Done u ->
  forall file,
    In file (used u) ->
    (exists content, Fs.readFileSync fs file = Some content)
    /\ (file = entryFile packageRoot
        \/ startsWith file (Path.normalize packageRoot) = true).
Proof.
  intros H file Hin.
  destruct (Fs.existsSync fs (entryPointOf packageRoot)) eqn:Hentry.
  - pose proof (proj1 (used_iff_reachable fuel fs packageRoot u
                         Hentry H file) Hin) as Hreach.
    unfold findUsedFiles in H.
    destruct (findUsedFilesState fuel fs packageRoot) as [st| |] eqn:E;
      try discriminate.
    injection H as <-. cbn [used] in Hin.
    destruct (final_state fs packageRoot fuel st Hentry E) as (_ & _ & _ & Hr & _).
    split; [now apply Hr |].
    destruct (reachable_inside _ _ _ Hreach) as [-> | [Hs _]]; [now left | now right].
  - unfold findUsedFiles, findUsedFilesState in H. rewrite Hentry in H.
    cbn [negb] in H. cbv iota in H. injection H as <-. destruct Hin.
Qed.

Lemma used_files_were_read_witness :
  (exists content, Fs.readFileSync Scenario.withCycle "/p/src/b.ts" = Some content)
  /\ ("/p/src/b.ts" = entryFile "/p"
      \/ startsWith "/p/src/b.ts" (Path.normalize "/p") = true).
Proof.
  apply (used_files_were_read 6 Scenario.withCycle "/p"
           (mkUsage ["/p/src/index.ts"; "/p/src/a.ts"; "/p/src/b.ts"] [])).
  - vm_compute; reflexivity.
  - right. right. now left.
Defined.

End ReachFacts.

(* ===================================================================== *)
(** * What the rewriter leaves alone *)
(* ===================================================================== *)

Module FrameFacts.
Import JsString Regex Script Notions Frame StringFacts PlannerFacts.

Lemma assoc_setEntry_same (s : string) (v : Fs.node) (es : list (string * Fs.node)) :
  Fs.assoc s (Fs.setEntry s v es) = Some v.
Proof.
  induction es as [|[k c] es IH]; simpl; [now rewrite String.eqb_refl |].
  destruct (String.eqb k s) eqn:E; simpl; rewrite E; [reflexivity | exact IH].
Qed.

Lemma assoc_setEntry_other (s s' : string) (v : Fs.node)
      (es : list (string * Fs.node)) :
  s' <> s -> Fs.assoc s' (Fs.setEntry s v es) = Fs.assoc s' es.
Proof.
  intros Hne. induction es as [|[k c] es IH]; simpl.
  - destruct (String.eqb_spec s s'); [congruence | reflexivity].
  - destruct (String.eqb_spec k s) as [->|Hk]; simpl.
    + destruct (String.eqb_spec s s'); [congruence | reflexivity].
    + now rewrite IH.
Qed.

Lemma setEntry_same_shape (s : string) (c c' : Fs.node)
      (es : list (string * Fs.node)) :
  Fs.assoc s es = Some c -> shape c' = shape c ->
  shapeEntries (Fs.setEntry s c' es) = shapeEntries es.
Proof.
  intros Ha Hs. induction es as [|[k d] es IH]; [discriminate |].
  simpl in *. destruct (String.eqb k s).
  - injection Ha as ->. simpl. now rewrite Hs.
  - simpl. now rewrite IH.
Qed.

(** Writing a text where a file is keeps the tree as it is. *)
Lemma place_file_shape (text : string) (segs : list string) :
  forall n n' old,
    Fs.lookup n segs = Some (Fs.File old) ->
    Fs.place segs (Fs.File text) n = Some n' ->
    shape n' = shape n.
Proof.
  induction segs as [|s rest IH]; intros n n' old Hl Hp.
  - simpl in *. injection Hl as ->. now injection Hp as <-.
  - destruct n as [c|es]; [discriminate |]. cbn [Fs.lookup Fs.place] in *.
    destruct (Fs.assoc s es) as [c|] eqn:Ea; [| discriminate].
    destruct rest as [|s' rest'].
    + simpl in Hl. injection Hl as ->. injection Hp as <-.
      rewrite !shape_Dir. f_equal. now apply setEntry_same_shape with (c := Fs.File old).
    + destruct (Fs.place (s' :: rest') (Fs.File text) c) as [c'|] eqn:Ep;
        [| discriminate].
      injection Hp as <-. rewrite !shape_Dir. f_equal.
      apply setEntry_same_shape with (c := c); [assumption |].
      now apply (IH c c' old).
Qed.

(** ... and changes the text of no other file. *)
Lemma place_file_frame (text : string) (segs : list string) :
  forall n n' old q,
    Fs.lookup n segs = Some (Fs.File old) ->
    Fs.place segs (Fs.File text) n = Some n' ->
    q <> segs ->
    textAt n' q = textAt n q.
Proof.
  unfold textAt.
  induction segs as [|s rest IH]; intros n n' old q Hl Hp Hq.
  - simpl in *. injection Hl as ->. injection Hp as <-.
    destruct q as [|s' r']; [congruence | reflexivity].
  - destruct n as [c|es]; [discriminate |]. cbn [Fs.lookup Fs.place] in *.
    destruct (Fs.assoc s es) as [c|] eqn:Ea; [| discriminate].
    destruct q as [|s' r'].
    + destruct rest; [now injection Hp as <- |].
      destruct (Fs.place _ _ c); [now injection Hp as <- | discriminate].
    + assert (Hn' : exists c', n' = Fs.Dir (Fs.setEntry s c' es)
                               /\ (forall r, r <> rest ->
                                     match Fs.lookup c' r with
                                     | Some (Fs.File t) => Some t
                                     | _ => None
                                     end
                                     = match Fs.lookup c r with
                                       | Some (Fs.File t) => Some t
                                       | _ => None
                                       end)).
      { destruct rest as [|s2 rest2].
        - injection Hp as <-. exists (Fs.File text). split; [reflexivity |].
          simpl in Hl. injection Hl as ->.
          intros [|x r] Hr; [congruence | reflexivity].
        - destruct (Fs.place (s2 :: rest2) (Fs.File text) c) as [c'|] eqn:Ep;
            [| discriminate].
          injection Hp as <-. exists c'. split; [reflexivity |].
          intros r Hr. now apply (IH c c' old r). }
      destruct Hn' as (c' & -> & Hsub). cbn [Fs.lookup].
      destruct (String.eqb_spec s' s) as [->|Hne].
      * rewrite assoc_setEntry_same, Ea. apply Hsub. congruence.
      * now rewrite assoc_setEntry_other.
Qed.

Lemma place_lookup (v : Fs.node) (segs : list string) :
  forall n n', Fs.place segs v n = Some n' -> Fs.lookup n' segs = Some v.
Proof.
  induction segs as [|s rest IH]; intros n n' H.
  - now injection H as <-.
  - destruct n as [c|es]; [discriminate |]. cbn [Fs.place] in H.
    destruct rest as [|s2 rest2].
    + injection H as <-. cbn [Fs.lookup]. now rewrite assoc_setEntry_same.
    + destruct (Fs.assoc s es) as [c|]; [| discriminate].
      destruct (Fs.place (s2 :: rest2) v c) as [c'|] eqn:Ep; [| discriminate].
      injection H as <-. cbn [Fs.lookup]. rewrite assoc_setEntry_same.
      now apply (IH c c').
Qed.

(** What was written can be read. *)
Lemma writeFileSync_reads (fs fs' : Fs.t) (p text : string) :
  Fs.writeFileSync fs p text = Some fs' ->
  Fs.cwd fs' = Fs.cwd fs /\ Fs.readFileSync fs' p = Some text.
Proof.
  unfold Fs.writeFileSync, Fs.readFileSync, Fs.stat.
  destruct (Fs.lookup (Fs.root fs) (Fs.segsOf fs p)) as [[c|es]|];
    try discriminate;
    (destruct (Fs.place (Fs.segsOf fs p) (Fs.File text) (Fs.root fs)) as [r|] eqn:Ep;
     [| discriminate]);
    intros [= <-]; (split; [reflexivity |]);
    unfold Fs.segsOf in *; cbn [Fs.cwd Fs.root];
    now rewrite (place_lookup _ _ _ _ Ep).
Qed.

(** Writing over a file succeeds, and the text is there afterwards. *)
Lemma place_over_file (text : string) (segs : list string) :
  forall n old,
    Fs.lookup n segs = Some (Fs.File old) ->
    exists n',
      Fs.place segs (Fs.File text) n = Some n'
      /\ Fs.lookup n' segs = Some (Fs.File text).
Proof.
  induction segs as [|s rest IH]; intros n old Hl.
  - exists (Fs.File text). now split.
  - destruct n as [c|es]; [discriminate |]. cbn [Fs.lookup Fs.place] in *.
    destruct (Fs.assoc s es) as [c|] eqn:Ea; [| discriminate].
    destruct rest as [|s' rest'].
    + exists (Fs.Dir (Fs.setEntry s (Fs.File text) es)). split; [reflexivity |].
      cbn [Fs.lookup]. now rewrite assoc_setEntry_same.
    + destruct (IH c old Hl) as (c' & Hp & Hl').
      rewrite Hp. exists (Fs.Dir (Fs.setEntry s c' es)). split; [reflexivity |].
      cbn [Fs.lookup]. now rewrite assoc_setEntry_same.
Qed.

Lemma writeFileSync_succeeds (fs : Fs.t) (p old text : string) :
  Fs.readFileSync fs p = Some old ->
  exists fs',
    Fs.writeFileSync fs p text = Some fs'
    /\ Fs.readFileSync fs' p = Some text.
Proof.
  unfold Fs.readFileSync, Fs.writeFileSync, Fs.stat. intros Hr.
  destruct (Fs.lookup (Fs.root fs) (Fs.segsOf fs p)) as [[c|es]|] eqn:El;
    try discriminate.
  destruct (place_over_file text _ _ _ El) as (r & Hp & Hl).
  rewrite Hp. exists (Fs.mk (Fs.cwd fs) r). split; [reflexivity |].
  unfold Fs.segsOf in *. cbn [Fs.cwd Fs.root]. now rewrite Hl.
Qed.

Lemma writeFileSync_over_file (fs fs' : Fs.t) (p old text : string) :
  Fs.readFileSync fs p = Some old ->
  Fs.writeFileSync fs p text = Some fs' ->
  sameTree fs fs'
  /\ (forall q, Fs.segsOf fs q <> Fs.segsOf fs p ->
                Fs.readFileSync fs' q = Fs.readFileSync fs q).
Proof.
  unfold Fs.readFileSync, Fs.writeFileSync, Fs.stat. intros Hr Hw.
  destruct (Fs.lookup (Fs.root fs) (Fs.segsOf fs p)) as [[c|es]|] eqn:El;
    try discriminate.
  destruct (Fs.place (Fs.segsOf fs p) (Fs.File text) (Fs.root fs)) as [r|] eqn:Ep;
    [| discriminate].
  injection Hw as <-. split.
  - unfold sameTree, shapeFs. cbn [Fs.cwd Fs.root]. f_equal. symmetry.
    apply (place_file_shape _ _ _ _ _ El Ep).
  - intros q Hq. unfold Fs.segsOf in *. cbn [Fs.cwd Fs.root].
    apply (place_file_frame _ _ _ _ _ _ El Ep Hq).
Qed.

Lemma updateExportPaths_frame (fs : Fs.t) (filePath : string) (m : dirMap)
      (e : effect) :
  updateExportPaths fs filePath m = Some e ->
  sameTree fs (after e)
  /\ (forall q, Fs.segsOf fs q <> Fs.segsOf fs filePath ->
                Fs.readFileSync (after e) q = Fs.readFileSync fs q)
  /\ (wrote e = false -> after e = fs).
Proof.
  unfold updateExportPaths. intros H.
  destruct (negb (Fs.existsSync fs filePath));
    [injection H as <-; now repeat split |].
  destruct (Fs.readFileSync fs filePath) as [content|] eqn:Er; [| discriminate].
  destruct (rewriteContent fs filePath m content) as [content' modified].
  destruct modified; [| injection H as <-; now repeat split].
  destruct (Fs.writeFileSync fs filePath content') as [fs'|] eqn:Ew; [| discriminate].
  injection H as <-. cbn [after wrote].
  destruct (writeFileSync_over_file _ _ _ _ _ Er Ew) as [H1 H2].
  repeat split; [assumption | assumption | discriminate].
Qed.

(** X5 -- The rewriter touches one file.  A call of [updateExportPaths]
    that returns leaves the directory tree as it was (no file or directory
    is created, removed or renamed) and the text of every file other than
    the one it was given; and when it did not write, the file system is
    the very same. *)
Theorem updateExportPaths_touches_one_file (fs : Fs.t) (filePath : string)
        (m : dirMap) (e : effect) :
  updateExportPaths fs filePath m = Some e ->
  sameTree fs (after e)
  /\ (forall q, Fs.segsOf fs q <> Fs.segsOf fs filePath ->
                Fs.readFileSync (after e) q = Fs.readFileSync fs q)
  /\ (wrote e = false -> after e = fs).
Proof. exact (updateExportPaths_frame fs filePath m e). Qed.

Lemma updateExportPaths_touches_one_file_witness :
  exists e,
    updateExportPaths Scenario.beforeRename "/p/src/index.ts" Scenario.planAsBuilt
    = Some e
    /\ wrote e = true
    /\ sameTree Scenario.beforeRename (after e)
    /\ (forall q, Fs.segsOf Scenario.beforeRename q
                  <> Fs.segsOf Scenario.beforeRename "/p/src/index.ts" ->
                  Fs.readFileSync (after e) q
                  = Fs.readFileSync Scenario.beforeRename q).
Proof.
  destruct (updateExportPaths Scenario.beforeRename "/p/src/index.ts"
              Scenario.planAsBuilt) as [e|] eqn:E; [| vm_compute in E; discriminate].
  exists e. split; [reflexivity |].
  split; [vm_compute in E; injection E as <-; reflexivity |].
  destruct (updateExportPaths_touches_one_file _ _ _ _ E) as (H1 & H2 & _).
  now split.
Defined.

Lemma sameTree_trans (a b c : Fs.t) : sameTree a b -> sameTree b c -> sameTree a c.
Proof. unfold sameTree. congruence. Qed.

Lemma updateEntries_tree (recurse : Fs.t -> string -> outcome Fs.t) (m : dirMap)
      (dir : string) :
  (forall fs p fs', recurse fs p = Done fs' -> sameTree fs fs') ->
  forall entries fs fs',
    updateEntries recurse m dir entries fs = Done fs' -> sameTree fs fs'.
Proof.
  intros Hrec. induction entries as [|[name isDirectory] rest IH]; intros fs fs' H.
  - injection H as <-. reflexivity.
  - cbn [updateEntries] in H. destruct isDirectory.
    + destruct (negb (skippedDirectory name)); [| now apply IH].
      destruct (recurse fs _) as [fs1| |] eqn:E; try discriminate.
      apply (sameTree_trans _ fs1); [now apply (Hrec _ _ _ E) | now apply IH].
    + destruct (endsWith name ".ts"); [| now apply IH].
      destruct (updateExportPaths fs _ m) as [e|] eqn:E; [| discriminate].
      apply (sameTree_trans _ (after e)); [| now apply IH].
      now destruct (updateExportPaths_frame _ _ _ _ E).
Qed.

Lemma updateAllFilePaths_tree (fuel : nat) (m : dirMap) :
  forall fs dir fs',
    updateAllFilePaths fuel m fs dir = Done fs' -> sameTree fs fs'.
Proof.
  induction fuel as [|fuel IH]; intros fs dir fs' H; [discriminate |].
  cbn [updateAllFilePaths] in H.
  destruct (Fs.readdirSync fs dir) as [entries|]; [| discriminate].
  apply (updateEntries_tree _ _ _ (IH) _ _ _ H).
Qed.

Lemma sameTree_stat (fs fs' : Fs.t) (p : string) :
  sameTree fs fs' ->
  Fs.existsSync fs' p = Fs.existsSync fs p
  /\ Fs.readdirSync fs' p = Fs.readdirSync fs p.
Proof.
  intros H. split.
  - assert (E : forall g, Fs.existsSync (shapeFs g) p = Fs.existsSync g p).
    { intros g. unfold Fs.existsSync, Fs.stat, Fs.segsOf, shapeFs.
      cbn [Fs.cwd Fs.root]. rewrite lookup_shape.
      now destruct (Fs.lookup (Fs.root g) _). }
    rewrite <- (E fs'), <- (E fs). unfold sameTree in H. now rewrite H.
  - rewrite <- (readdirSync_shape fs'), <- (readdirSync_shape fs).
    unfold sameTree in H. now rewrite H.
Qed.

(** X6 -- The rewriting pass keeps the tree.  When [updateAllFilePaths]
    returns, the directory tree is the one it started with: every path
    exists after it exactly when it existed before, and every directory
    lists the same entries in the same order.  Only texts of files can
    differ. *)
Theorem updateAllFilePaths_keeps_tree (fuel : nat) (m : dirMap) (fs : Fs.t)
        (dir : string) (fs' : Fs.t) :
  updateAllFilePaths fuel m fs dir = Done fs' ->
  sameTree fs fs'
  /\ (forall p, Fs.existsSync fs' p = Fs.existsSync fs p)
  /\ (forall p, Fs.readdirSync fs' p = Fs.readdirSync fs p).
Proof.
  intros H. pose proof (updateAllFilePaths_tree fuel m fs dir fs' H) as Ht.
  split; [assumption |]. split; intros p; now destruct (sameTree_stat fs fs' p Ht).
Qed.

Lemma updateAllFilePaths_keeps_tree_witness :
  exists fs',
    updateAllFilePaths 4 Scenario.planAsBuilt Scenario.beforeRename "/p/src"
    = Done fs'
    /\ Fs.readFileSync fs' "/p/src/a/util.ts" = Some "export * from './m2p/helper';"
    /\ sameTree Scenario.beforeRename fs'
    /\ (forall p, Fs.existsSync fs' p = Fs.existsSync Scenario.beforeRename p)
    /\ (forall p, Fs.readdirSync fs' p = Fs.readdirSync Scenario.beforeRename p).
Proof.
  destruct (updateAllFilePaths 4 Scenario.planAsBuilt Scenario.beforeRename "/p/src")
    as [fs'| |] eqn:E; try (vm_compute in E; discriminate).
  exists fs'. split; [reflexivity |].
  split; [vm_compute in E; injection E as <-; reflexivity |].
  apply (updateAllFilePaths_keeps_tree _ _ _ _ _ E).
Defined.

(** X7 -- No write without a matching prefix.  If a file can be read and,
    for every relative specifier the two patterns find in it, no old
    directory of the plan is a prefix of the path the specifier resolves
    to, then [updateExportPaths] does not call [writeFileSync] and the
    file system is the same after the call. *)
Theorem no_write_without_matching_prefix (fs : Fs.t) (filePath : string)
        (m : dirMap) (content : string) :
  Fs.readFileSync fs filePath = Some content ->
  (forall mt,
      In mt (execAll exportFromRegex content ++ execAll importFromRegex content)%list ->
      untouched fs filePath m mt) ->
  updateExportPaths fs filePath m = Some (mkEffect fs false).
Proof.
  intros Hread H. unfold updateExportPaths. rewrite Hread.
  rewrite RewriterFacts.rewriteContent_id
    by (intros mt Hin; apply RewriterFacts.rewriteMatch_untouched, H, Hin).
  now destruct (negb (Fs.existsSync fs filePath)).
Qed.

Lemma no_write_without_matching_prefix_witness :
  updateExportPaths Scenario.afterRename "/p/src/x7k/util.ts" Scenario.planAsWorded
  = Some (mkEffect Scenario.afterRename false).
Proof.
  apply (no_write_without_matching_prefix Scenario.afterRename
           "/p/src/x7k/util.ts" Scenario.planAsWorded "export * from './b/helper';").
  - reflexivity.
  - vm_compute. intros mt [<- | []] _ o n [[= <- <-] | [[= <- <-] | []]];
      reflexivity.
Defined.

End FrameFacts.

(* ===================================================================== *)
(** * The generated names *)
(* ===================================================================== *)

Module NameFacts.
Import JsString Regex Script Anonymizer Notions Base36 StringFacts PathFacts.

Lemma small_cases (P : Z -> Prop) (d : Z) :
  (0 <= d < 36)%Z ->
  (forall k, (k < 36)%nat -> P (Z.of_nat k)) -> P d.
Proof.
  intros Hd H. rewrite <- (Z2Nat.id d) by lia. apply H. lia.
Qed.

Lemma digit36_base36 (d : Z) : (0 <= d < 36)%Z -> base36Char (digit36 d) = true.
Proof.
  intros Hd. apply (small_cases (fun d => base36Char (digit36 d) = true) d Hd).
  intros k Hk. do 36 (destruct k as [|k]; [reflexivity |]). lia.
Qed.

Lemma digit36_value (d : Z) : (0 <= d < 36)%Z -> digitValue (digit36 d) = d.
Proof.
  intros Hd. apply (small_cases (fun d => digitValue (digit36 d) = d) d Hd).
  intros k Hk. do 36 (destruct k as [|k]; [reflexivity |]). lia.
Qed.

Lemma toBase36From_chars (fuel : nat) :
  forall z acc,
    (0 <= z)%Z -> allChars base36Char acc = true ->
    allChars base36Char (toBase36From fuel z acc) = true.
Proof.
  induction fuel as [|fuel IH]; intros z acc Hz Hacc; [exact Hacc |].
  cbn [toBase36From].
  assert (Hd : allChars base36Char (String (digit36 (z mod 36)) acc) = true).
  { cbn [allChars]. rewrite digit36_base36, Hacc; [reflexivity |].
    apply Z.mod_pos_bound. lia. }
  destruct (z / 36 =? 0)%Z; [exact Hd |].
  apply IH; [| exact Hd]. apply Z.div_pos; lia.
Qed.

Lemma toBase36From_nonempty (fuel : nat) :
  forall z acc, acc <> "" -> toBase36From fuel z acc <> "".
Proof.
  induction fuel as [|fuel IH]; intros z acc Hacc; [exact Hacc |].
  cbn [toBase36From]. destruct (z / 36 =? 0)%Z; [discriminate |].
  apply IH. discriminate.
Qed.

Lemma toBase36_text (z : Z) : (0 <= z)%Z -> base36Text (toBase36 z) = true.
Proof.
  intros Hz. unfold base36Text, toBase36.
  rewrite toBase36From_chars by (assumption || reflexivity).
  rewrite andb_true_r. apply negb_true_iff, String.eqb_neq.
  cbn [toBase36From]. destruct (z / 36 =? 0)%Z; [discriminate |].
  apply toBase36From_nonempty. discriminate.
Qed.

Lemma toBase36From_value (fuel : nat) :
  forall z acc,
    (0 <= z < 36 ^ Z.of_nat fuel)%Z ->
    parseInt36 (toBase36From fuel z acc) = valueFrom z acc.
Proof.
  unfold parseInt36.
  induction fuel as [|fuel IH]; intros z acc Hz.
  - cbn [toBase36From]. f_equal. simpl in Hz. lia.
  - cbn [toBase36From].
    pose proof (Z.mod_pos_bound z 36 ltac:(lia)) as Hm.
    pose proof (Z.div_mod z 36 ltac:(lia)) as Hdm.
    destruct (z / 36 =? 0)%Z eqn:E.
    + apply Z.eqb_eq in E. cbn [valueFrom]. rewrite digit36_value by assumption.
      f_equal. lia.
    + rewrite IH.
      * cbn [valueFrom]. rewrite digit36_value by assumption. f_equal. lia.
      * split; [apply Z.div_pos; lia |].
        apply Z.div_lt_upper_bound; [lia |].
        rewrite Nat2Z.inj_succ, Z.pow_succ_r in Hz by lia. lia.
Qed.

Lemma pow2_le_pow36 (k : nat) : (2 ^ Z.of_nat k <= 36 ^ Z.of_nat k)%Z.
Proof. apply Z.pow_le_mono_l. lia. Qed.

(** The numeral [toString(36)] gives stands for the number itself. *)
Lemma parseInt36_toBase36 (z : Z) : (0 <= z)%Z -> parseInt36 (toBase36 z) = z.
Proof.
  intros Hz. unfold toBase36.
  rewrite toBase36From_value; [reflexivity |]. split; [assumption |].
  destruct (Z.eq_dec z 0) as [-> | Hne]; [reflexivity |].
  pose proof (Z.log2_spec z ltac:(lia)) as [_ Hlt].
  pose proof (Z.log2_nonneg z) as Hl.
  pose proof (pow2_le_pow36 (S (Z.to_nat (Z.log2 z)))) as Hp.
  rewrite Nat2Z.inj_succ, Z2Nat.id in Hp by assumption.
  rewrite Nat2Z.inj_succ, Z2Nat.id by assumption. lia.
Qed.

Lemma toBase36_inj (a b : Z) :
  (0 <= a)%Z -> (0 <= b)%Z -> toBase36 a = toBase36 b -> a = b.
Proof.
  intros Ha Hb H.
  rewrite <- (parseInt36_toBase36 a Ha), <- (parseInt36_toBase36 b Hb).
  now rewrite H.
Qed.

Lemma base36Char_not_sep (c : ascii) : base36Char c = true -> Ascii.eqb c Path.sep = false.
Proof.
  intros H. destruct (Ascii.eqb_spec c Path.sep) as [-> |]; [discriminate | reflexivity].
Qed.

Lemma base36_sepFree (s : string) : allChars base36Char s = true -> sepFree s = true.
Proof.
  induction s as [|c s IH]; [reflexivity |]. cbn [allChars sepFree].
  intros H. apply andb_true_iff in H as [Hc Hs].
  now rewrite (base36Char_not_sep c Hc), IH.
Qed.

Lemma sepFree_append (a b : string) :
  sepFree a = true -> sepFree b = true -> sepFree (a ++ b) = true.
Proof.
  induction a as [|c a IH]; [now intros |]. cbn [append sepFree].
  intros H Hb. apply andb_true_iff in H as [Hc Ha]. now rewrite Hc, IH.
Qed.

Lemma toBase36_sepFree (z : Z) : (0 <= z)%Z -> sepFree (toBase36 z) = true.
Proof.
  intros Hz. apply base36_sepFree.
  pose proof (toBase36_text z Hz) as H. unfold base36Text in H.
  now apply andb_true_iff in H as [_ H].
Qed.

Lemma generateTestFileName_plain (originalName : string) (index : nat) :
  plainSeg (generateTestFileName originalName index) = true.
Proof.
  unfold generateTestFileName, plainSeg. cbv zeta.
  cbn [append String.eqb Ascii.eqb Bool.eqb negb andb sepFree].
  apply sepFree_append; [| reflexivity].
  apply toBase36_sepFree, Z.abs_nonneg.
Qed.

(** X8 -- Generated folder names.  Whatever the directory name and the
    counter, [generateFolderName] returns [dir-] followed by a numeral of
    the base 36 (one digit at least, digits [0-9a-z] only).  Such a name is
    a single path segment and is none of the names the passes over the
    tree skip, so that a renamed directory stays in its parent and is
    visited by the passes that follow. *)
Theorem generateFolderName_is_visited_segment (originalName : string) (index : nat) :
  (exists numeral,
      generateFolderName originalName index = "dir-" ++ numeral
      /\ base36Text numeral = true)
  /\ plainSeg (generateFolderName originalName index) = true
  /\ skippedDirectory (generateFolderName originalName index) = false.
Proof.
  unfold generateFolderName. cbv zeta.
  set (z := Z.abs (hashOf (originalName ++ decimal index))).
  assert (Hz : (0 <= z)%Z) by apply Z.abs_nonneg.
  split; [exists (toBase36 z); split; [reflexivity | now apply toBase36_text] |].
  split; [| reflexivity].
  unfold plainSeg. cbn [append String.eqb Ascii.eqb Bool.eqb negb andb sepFree].
  now apply toBase36_sepFree.
Qed.

(** X9 -- Generated test-file and package names.  [generateTestFileName]
    returns a single path segment that ends in [.test.ts], which
    [findTestFiles] accepts and [findSourceFiles] refuses;
    [generateAnonymizedName] returns a single path segment that starts with
    [package-]; and [generateTestName] returns [test_] followed by a
    numeral of the base 36, so that the quoted titles in the text of
    [anonymizeTestFile] hold no quote. *)
Theorem generated_file_names_keep_their_kind (originalName : string) (index : nat) :
  plainSeg (generateTestFileName originalName index) = true
  /\ endsWith (generateTestFileName originalName index) ".test.ts" = true
  /\ sourceName (generateTestFileName originalName index) = false
  /\ plainSeg (generateAnonymizedName originalName) = true
  /\ startsWith (generateAnonymizedName originalName) "package-" = true
  /\ (exists numeral,
         generateTestName index = "test_" ++ numeral
         /\ base36Text numeral = true).
Proof.
  assert (He : endsWith (generateTestFileName originalName index) ".test.ts" = true).
  { unfold generateTestFileName. cbv zeta.
    change ("test-" ++ ?a ++ ".test.ts") with ("test-" ++ (a ++ ".test.ts")).
    rewrite <- append_assoc. apply endsWith_append. }
  split; [| split; [exact He | split; [| split; [| split]]]].
  - apply generateTestFileName_plain.
  - unfold sourceName. rewrite He. cbn [negb]. now rewrite andb_false_r.
  - unfold generateAnonymizedName, plainSeg. cbv zeta.
    cbn [append String.eqb Ascii.eqb Bool.eqb negb andb sepFree].
    apply toBase36_sepFree, Z.abs_nonneg.
  - unfold generateAnonymizedName. cbv zeta. apply startsWith_append.
  - exists (toBase36 (Z.of_nat index)). split; [reflexivity |].
    apply toBase36_text. lia.
Qed.

Lemma append_inj_l (p a b : string) : p ++ a = p ++ b -> a = b.
Proof. induction p as [|c p IH]; [now intros | intros [= H]; now apply IH]. Qed.

(** X10 -- When two folder names collide.  Two calls of
    [generateFolderName] return the same name exactly when the hashes of
    the two texts (name followed by the counter in decimal) have the same
    absolute value: the numeral loses nothing of the absolute hash, and
    the sign of the hash is all it drops. *)
Theorem generateFolderName_collides_on_equal_hash
        (name1 : string) (index1 : nat) (name2 : string) (index2 : nat) :
  generateFolderName name1 index1 = generateFolderName name2 index2
  <-> Z.abs (hashOf (name1 ++ decimal index1))
      = Z.abs (hashOf (name2 ++ decimal index2)).
Proof.
  unfold generateFolderName. cbv zeta. split.
  - intros H. apply append_inj_l in H.
    apply toBase36_inj in H; [assumption | apply Z.abs_nonneg | apply Z.abs_nonneg].
  - now intros ->.
Qed.

End NameFacts.

(* ===================================================================== *)
(** * What the planner puts into the map *)
(* ===================================================================== *)

Module PlanFacts.
Import JsString Script Notions Plan StringFacts.

Lemma mapSet_In (m : dirMap) (key value : string) (e : string * string) :
  In e (mapSet m key value) -> In e m \/ e = (key, value).
Proof.
  induction m as [|[k v] m IH]; cbn [mapSet].
  - intros [<- | []]. now right.
  - destruct (String.eqb_spec k key) as [-> | Hne].
    + intros [<- | H]; [now right | left; now right].
    + intros [<- | H]; [left; now left |].
      destruct (IH H) as [H1 | ->]; [left; now right | now right].
Qed.

Lemma mapSet_keys (m : dirMap) (key value : string) :
  keys (mapSet m key value)
  = if existsb (String.eqb key) (keys m) then keys m else (keys m ++ [key])%list.
Proof.
  unfold keys. induction m as [|[k v] m IH]; cbn [mapSet map existsb fst];
    [reflexivity |].
  rewrite (String.eqb_sym key k).
  destruct (String.eqb k key); cbn [orb map fst]; [reflexivity |].
  rewrite IH. now destruct (existsb _ _).
Qed.

Lemma mapSet_NoDup (m : dirMap) (key value : string) :
  NoDup (keys m) -> NoDup (keys (mapSet m key value)).
Proof.
  intros H. rewrite mapSet_keys.
  destruct (existsb (String.eqb key) (keys m)) eqn:E; [assumption |].
  apply NoDup_app; [assumption | repeat constructor; now intros [] |].
  intros k Hk [<- | []].
  assert (existsb (String.eqb key) (keys m) = true); [| congruence].
  apply existsb_exists. exists key. split; [assumption | apply String.eqb_refl].
Qed.

Lemma siblingRename_le (i j : nat) (e : string * string) :
  i <= j -> siblingRename j e -> siblingRename i e.
Proof.
  intros Hle (parent & name & k & Hk & H). exists parent, name, k.
  split; [lia | assumption].
Qed.

Section Entries.
Variable start : dirMap.

Lemma planned_le (i j : nat) (m : dirMap) : i <= j -> planned start j m -> planned start i m.
Proof.
  unfold planned. intros Hle [H1 H2]. split; [assumption |].
  intros e He. destruct (H2 e He) as [H | H]; [now left | right].
  now apply (siblingRename_le i j).
Qed.

Lemma renameEntries_planned
      (recurse : Fs.t -> string -> dirMap -> nat -> outcome (Fs.t * dirMap))
      (packageRoot : string) (base : nat) :
  (forall fs p m i fs' m',
      base <= i -> planned start base m -> recurse fs p m i = Done (fs', m') ->
      planned start base m') ->
  forall entries fs m index fs' m',
    base <= index -> planned start base m ->
    renameEntries recurse packageRoot entries fs m index = Done (fs', m') ->
    planned start base m'.
Proof.
  intros Hrec. induction entries as [|[name isDirectory] rest IH];
    intros fs m index fs' m' Hle Hm H.
  - now injection H as <- <-.
  - cbn [renameEntries] in H.
    destruct (negb isDirectory); [now apply (IH _ _ _ _ _ Hle Hm H) |].
    destruct (skippedDirectory name) eqn:Eskip; [now apply (IH _ _ _ _ _ Hle Hm H) |].
    destruct (recurse fs (Path.joinPaths [packageRoot; name]) m index)
      as [[fs1 m1]| |] eqn:E; try discriminate.
    pose proof (Hrec _ _ _ _ _ _ Hle Hm E) as Hm1.
    destruct (String.eqb_spec name (generateFolderName name index)) as [Heq | Hne].
    + apply (IH _ _ _ _ _ (Nat.le_trans _ _ _ Hle (Nat.le_succ_diag_r index)) Hm1 H).
    + destruct (Fs.renameSync fs1 _ _) as [fs2|]; [| discriminate].
      apply (IH _ _ _ _ _ (Nat.le_trans _ _ _ Hle (Nat.le_succ_diag_r index)))
        in H; [assumption |].
      destruct Hm1 as [Hk Hin]. split; [now apply mapSet_NoDup |].
      intros e He. destruct (mapSet_In _ _ _ _ He) as [H1 | ->]; [now apply Hin |].
      right. exists packageRoot, name, index. now repeat split.
Qed.

Lemma anonymizeDirectories_planned (fuel : nat) (base : nat) :
  forall fs packageRoot m index fs' m',
    base <= index -> planned start base m ->
    anonymizeDirectories fuel fs packageRoot m index = Done (fs', m') ->
    planned start base m'.
Proof.
  induction fuel as [|fuel IH]; intros fs packageRoot m index fs' m' Hle Hm H;
    [discriminate |].
  cbn [anonymizeDirectories] in H.
  destruct (Fs.readdirSync fs packageRoot) as [entries|]; [| discriminate].
  apply (renameEntries_planned _ packageRoot base (IH) entries fs m index fs' m'
           Hle Hm H).
Qed.

End Entries.

(** X11 -- What the rename map holds.  When [anonymizeDirectories]
    returns, the keys of the map are pairwise distinct (as they were at the
    start), and every entry either was in the map it was given or renames
    a directory within its parent: its key is [path.join(parent, name)]
    and its value [path.join(parent, generateFolderName(name, j))], for a
    [name] that is not skipped and differs from its new name, and a
    counter [j] not below the one the call was given. *)
Theorem plan_entries_rename_within_parent (fuel : nat) (fs : Fs.t)
        (packageRoot : string) (m : dirMap) (index : nat)
        (fs' : Fs.t) (m' : dirMap) :
  NoDup (keys m) ->
  anonymizeDirectories fuel fs packageRoot m index = Done (fs', m') ->
  NoDup (keys m')
  /\ forall e, In e m' -> In e m \/ siblingRename index e.
Proof.
  intros Hk H.
  apply (anonymizeDirectories_planned m fuel index fs packageRoot m index fs' m'
           (Nat.le_refl _)); [| exact H].
  split; [exact Hk | intros e He; now left].
Qed.

Lemma plan_entries_rename_within_parent_witness :
  NoDup (keys [("/p/src/a/b", "/p/src/a/dir-2dq"); ("/p/src/a", "/p/src/dir-2cv")])
  /\ forall e,
       In e [("/p/src/a/b", "/p/src/a/dir-2dq"); ("/p/src/a", "/p/src/dir-2cv")] ->
       In e [] \/ siblingRename 0 e.
Proof.
  apply (plan_entries_rename_within_parent 4 Scenario.beforeRename "/p/src" [] 0
           Scenario.afterPlanner).
  - constructor.
  - vm_compute; reflexivity.
Defined.

End PlanFacts.

(* ===================================================================== *)
(** * What the two finders report *)
(* ===================================================================== *)

Module FinderFacts.
Import JsString Path Script Anonymizer Notions Walk StringFacts PathFacts.

(** ** The finders are two instances of one walk *)

Lemma testEntries_walk
      (recurse recurse' : string -> list string -> outcome (list string))
      (dir : string) :
  (forall p found, recurse p found = recurse' p found) ->
  forall entries found,
    testEntries recurse dir entries found
    = walkEntries skipsOfTests isTestName recurse' dir entries found.
Proof.
  intros Hrec. induction entries as [|[name isDirectory] rest IH]; intros found;
    [reflexivity |].
  cbn [testEntries walkEntries]. unfold skipsOfTests, isTestName.
  rewrite negb_orb, Hrec.
  destruct isDirectory.
  - destruct (_ && _); [| apply IH].
    destruct (recurse' _ _); [apply IH | reflexivity | reflexivity].
  - destruct (endsWith name ".test.ts"); apply IH.
Qed.

Lemma findTestFiles_walk (fs : Fs.t) (fuel : nat) :
  forall dir found,
    findTestFiles fuel fs dir found = walk skipsOfTests isTestName fuel fs dir found.
Proof.
  induction fuel as [|fuel IH]; intros dir found; [reflexivity |].
  cbn [findTestFiles walk].
  destruct (Fs.readdirSync fs dir); [| reflexivity].
  now apply testEntries_walk.
Qed.

Lemma sourceEntries_walk
      (recurse recurse' : string -> list string -> outcome (list string))
      (dir : string) :
  (forall p found, recurse p found = recurse' p found) ->
  forall entries found,
    sourceEntries recurse dir entries found
    = walkEntries skipsOfSources sourceName recurse' dir entries found.
Proof.
  intros Hrec. induction entries as [|[name isDirectory] rest IH]; intros found;
    [reflexivity |].
  cbn [sourceEntries walkEntries]. unfold skipsOfSources.
  rewrite !negb_orb, Hrec.
  destruct isDirectory.
  - destruct (_ && _); [| apply IH].
    destruct (recurse' _ _); [apply IH | reflexivity | reflexivity].
  - destruct (sourceName name); apply IH.
Qed.

Lemma findSourceFiles_walk (fs : Fs.t) (fuel : nat) :
  forall dir found,
    findSourceFiles fuel fs dir found
    = walk skipsOfSources sourceName fuel fs dir found.
Proof.
  induction fuel as [|fuel IH]; intros dir found; [reflexivity |].
  cbn [findSourceFiles walk].
  destruct (Fs.readdirSync fs dir); [| reflexivity].
  now apply sourceEntries_walk.
Qed.

(** ** Paths of the form [path.resolve] returns, one segment further *)

Lemma joinPaths_canon (segs : list string) (name : string) :
  Forall (fun x => plainSeg x = true) segs -> plainSeg name = true ->
  joinPaths [canon segs; name] = canon (segs ++ [name]).
Proof.
  intros Hsegs Hname. destruct (plainSeg_inv name Hname) as (Hne & _ & _ & Hfree).
  unfold joinPaths. cbn [filter]. rewrite Hne.
  change (String.eqb (canon segs) "") with false. cbn [negb].
  change (join "/" [canon segs; name]) with (canon segs ++ String sep name).
  assert (Habs : isAbsolute (canon segs ++ String sep name) = true) by reflexivity.
  rewrite (normalize_absolute "/" _ Habs).
  assert (Hr : resolveSegs "/" [canon segs ++ String sep name] = (segs ++ [name])%list).
  { unfold resolveSegs. cbn [resolveArgs]. rewrite Habs.
    change (String.eqb (canon segs ++ String sep name) "") with false.
    cbn [flat_map]. rewrite app_nil_r.
    rewrite split_app_sep, (split_sepFree name Hfree).
    rewrite normalizeSegs_snoc by assumption. now rewrite split_canon. }
  rewrite Hr.
  assert (Ht : hasTrailingSep (canon segs ++ String sep name) = false).
  { apply (endsSeg_not_trailing _ name Hname). right. now exists (canon segs). }
  rewrite Ht. destruct (segs ++ [name])%list as [|x r] eqn:E;
    [destruct segs; discriminate |].
  apply append_nil_r.
Qed.

Lemma lookup_app (a b : list string) :
  forall n,
    Fs.lookup n (a ++ b)
    = match Fs.lookup n a with Some c => Fs.lookup c b | None => None end.
Proof.
  induction a as [|s a IH]; intros n; [reflexivity |].
  cbn [app Fs.lookup]. destruct n as [c|es]; [reflexivity |].
  destruct (Fs.assoc s es); [apply IH | reflexivity].
Qed.

Lemma readdirSync_canon (fs : Fs.t) (segs : list string) :
  Forall (fun x => plainSeg x = true) segs ->
  Fs.readdirSync fs (canon segs)
  = match Fs.lookup (Fs.root fs) segs with
    | Some (Fs.Dir es) => Some (map (fun e => (fst e, Fs.isDir (snd e))) es)
    | _ => None
    end.
Proof.
  intros H. unfold Fs.readdirSync, Fs.stat, Fs.segsOf.
  now rewrite resolveSegs_canon.
Qed.

(** ** Trees *)

Lemma wellFormed_cons (k : string) (c : Fs.node) (es : list (string * Fs.node)) :
  wellFormed (Fs.Dir ((k, c) :: es))
  = plainSeg k && negb (existsb (String.eqb k) (map fst es))
    && wellFormed c && wellFormed (Fs.Dir es).
Proof. reflexivity. Qed.

Lemma wellFormed_inv (k : string) (c : Fs.node) (es : list (string * Fs.node)) :
  wellFormed (Fs.Dir ((k, c) :: es)) = true ->
  plainSeg k = true /\ existsb (String.eqb k) (map fst es) = false
  /\ wellFormed c = true /\ wellFormed (Fs.Dir es) = true.
Proof.
  rewrite wellFormed_cons. intros H.
  apply andb_prop in H as [H H4]. apply andb_prop in H as [H H3].
  apply andb_prop in H as [H1 H2]. apply negb_true_iff in H2. now repeat split.
Qed.

Lemma height_cons (k : string) (c : Fs.node) (es : list (string * Fs.node)) :
  height (Fs.Dir ((k, c) :: es))
  = S (Nat.max (height c) (Nat.pred (height (Fs.Dir es)))).
Proof. reflexivity. Qed.

Lemma filesIn_cons (skip accept : string -> bool) (k : string) (c : Fs.node)
      (es : list (string * Fs.node)) :
  filesIn skip accept (Fs.Dir ((k, c) :: es))
  = (match c with
     | Fs.Dir _ => if skip k then [] else map (cons k) (filesIn skip accept c)
     | Fs.File _ => if accept k then [[k]] else []
     end ++ filesIn skip accept (Fs.Dir es))%list.
Proof. reflexivity. Qed.

Lemma wellFormed_entry (es : list (string * Fs.node)) (k : string) (c : Fs.node) :
  wellFormed (Fs.Dir es) = true -> In (k, c) es ->
  Fs.assoc k es = Some c /\ plainSeg k = true /\ wellFormed c = true
  /\ height c < height (Fs.Dir es).
Proof.
  induction es as [|[k0 c0] es IH]; intros Hwf Hin; [destruct Hin |].
  destruct (wellFormed_inv _ _ _ Hwf) as (Hk0 & Hfresh & Hc0 & Hes).
  rewrite height_cons. destruct Hin as [[= -> ->] | Hin].
  - cbn [Fs.assoc]. rewrite String.eqb_refl. repeat split; try assumption. lia.
  - destruct (IH Hes Hin) as (Ha & Hk & Hc & Hh). cbn [Fs.assoc].
    destruct (String.eqb_spec k0 k) as [-> | Hne].
    + exfalso. assert (existsb (String.eqb k) (map fst es) = true); [| congruence].
      apply existsb_exists. exists k. split; [| apply String.eqb_refl].
      change k with (fst (k, c)). now apply in_map.
    + repeat split; try assumption. lia.
Qed.

(** ** The walk reports the files of the tree *)

Section Exact.
Variables skip accept : string -> bool.
Variable fs : Fs.t.

Lemma walkEntries_exact (fuel : nat) (segs : list string) :
  Forall (fun x => plainSeg x = true) segs ->
  (forall segs' es found,
      Forall (fun x => plainSeg x = true) segs' ->
      Fs.lookup (Fs.root fs) segs' = Some (Fs.Dir es) ->
      wellFormed (Fs.Dir es) = true -> height (Fs.Dir es) <= fuel ->
      walk skip accept fuel fs (canon segs') found
      = Done (found ++ map (fun rel => canon (segs' ++ rel))
                         (filesIn skip accept (Fs.Dir es)))%list) ->
  forall es found,
    (forall k c, In (k, c) es ->
                 Fs.lookup (Fs.root fs) (segs ++ [k]) = Some c
                 /\ plainSeg k = true /\ wellFormed c = true
                 /\ height c <= fuel) ->
    walkEntries skip accept (walk skip accept fuel fs) (canon segs)
      (map (fun e => (fst e, Fs.isDir (snd e))) es) found
    = Done (found ++ map (fun rel => canon (segs ++ rel))
                       (filesIn skip accept (Fs.Dir es)))%list.
Proof.
  intros Hsegs IHfuel. induction es as [|[k c] es IH]; intros found Hes.
  - cbn. now rewrite app_nil_r.
  - destruct (Hes k c (or_introl eq_refl)) as (Hl & Hk & Hwf & Hh).
    assert (Hrest : forall k' c', In (k', c') es ->
                      Fs.lookup (Fs.root fs) (segs ++ [k']) = Some c'
                      /\ plainSeg k' = true /\ wellFormed c' = true
                      /\ height c' <= fuel)
      by (intros k' c' Hin; apply Hes; now right).
    cbn [map walkEntries fst snd]. rewrite filesIn_cons, map_app, app_assoc.
    rewrite (joinPaths_canon segs k Hsegs Hk).
    destruct c as [text|esc]; cbn [Fs.isDir].
    + destruct (accept k); rewrite (IH _ Hrest); [reflexivity |].
      cbn [map]. now rewrite app_nil_r.
    + destruct (skip k); cbn [negb].
      * rewrite (IH _ Hrest). cbn [map]. now rewrite app_nil_r.
      * rewrite (IHfuel (segs ++ [k])%list esc found); try assumption.
        -- rewrite (IH _ Hrest). do 2 f_equal. f_equal.
           rewrite map_map. apply map_ext. intros rel.
           now rewrite <- app_assoc.
        -- apply Forall_app. split; [assumption | now constructor].
Qed.

Lemma walk_exact (fuel : nat) :
  forall segs es found,
    Forall (fun x => plainSeg x = true) segs ->
    Fs.lookup (Fs.root fs) segs = Some (Fs.Dir es) ->
    wellFormed (Fs.Dir es) = true -> height (Fs.Dir es) <= fuel ->
    walk skip accept fuel fs (canon segs) found
    = Done (found ++ map (fun rel => canon (segs ++ rel))
                       (filesIn skip accept (Fs.Dir es)))%list.
Proof.
  induction fuel as [|fuel IH]; intros segs es found Hsegs Hl Hwf Hh.
  - destruct es as [|[k c] es]; cbn in Hh; lia.
  - cbn [walk]. rewrite (readdirSync_canon fs segs Hsegs), Hl.
    apply (walkEntries_exact fuel segs Hsegs IH).
    intros k c Hin. destruct (wellFormed_entry es k c Hwf Hin) as (Ha & Hk & Hc & Hlt).
    repeat split; try assumption; [| lia].
    rewrite lookup_app, Hl. cbn [Fs.lookup]. now rewrite Ha.
Qed.

Lemma walkEntries_more
      (recurse recurse' : string -> list string -> outcome (list string))
      (dir : string) :
  (forall p found l, recurse p found = Done l -> recurse' p found = Done l) ->
  forall entries found l,
    walkEntries skip accept recurse dir entries found = Done l ->
    walkEntries skip accept recurse' dir entries found = Done l.
Proof.
  intros Hrec. induction entries as [|[name isDirectory] rest IH]; intros found l;
    [now intros H |].
  cbn [walkEntries]. destruct isDirectory.
  - destruct (negb (skip name)); [| apply IH].
    destruct (recurse _ found) as [found1| |] eqn:E; try discriminate.
    rewrite (Hrec _ _ _ E). apply IH.
  - destruct (accept name); apply IH.
Qed.

Lemma walk_more (fuel : nat) :
  forall fuel' dir found l,
    fuel <= fuel' ->
    walk skip accept fuel fs dir found = Done l ->
    walk skip accept fuel' fs dir found = Done l.
Proof.
  induction fuel as [|fuel IH]; intros fuel' dir found l Hle; [discriminate |].
  destruct fuel' as [|fuel']; [lia |]. cbn [walk].
  destruct (Fs.readdirSync fs dir); [| discriminate].
  apply walkEntries_more. intros p f1 l1. apply IH. lia.
Qed.

End Exact.

(** ** The files of the tree, one by one *)

Lemma assoc_In (k : string) (c : Fs.node) (es : list (string * Fs.node)) :
  Fs.assoc k es = Some c -> In (k, c) es.
Proof.
  induction es as [|[k0 c0] es IH]; [discriminate |]. cbn [Fs.assoc].
  destruct (String.eqb_spec k0 k) as [-> | _]; [intros [= ->]; now left |].
  intros H. right. now apply IH.
Qed.

Section Reported.
Variables skip accept : string -> bool.

Lemma filesIn_In_cons (k : string) (rel : list string)
      (es : list (string * Fs.node)) :
  In (k :: rel) (filesIn skip accept (Fs.Dir es))
  <-> exists c,
        In (k, c) es
        /\ match c with
           | Fs.Dir _ => skip k = false /\ In rel (filesIn skip accept c)
           | Fs.File _ => accept k = true /\ rel = []
           end.
Proof.
  induction es as [|[k0 c0] es IH].
  - split; [intros [] | intros (c & [] & _)].
  - rewrite filesIn_cons, in_app_iff, IH. split.
    + intros [H | (c & Hin & Hc)]; [| exists c; split; [now right | assumption]].
      exists c0. destruct c0 as [text|esc].
      * destruct (accept k0) eqn:E; [| destruct H].
        destruct H as [[= -> <-] | []]. split; [now left | now split].
      * destruct (skip k0) eqn:E; [destruct H |].
        apply in_map_iff in H as (rel' & [= -> ->] & Hrel).
        split; [now left | now split].
    + intros (c & [[= -> ->] | Hin] & Hc); [left | right; now exists c].
      destruct c as [text|esc].
      * destruct Hc as [-> ->]. now left.
      * destruct Hc as [-> Hrel]. now apply in_map.
Qed.

Lemma filesIn_no_nil (n : Fs.node) : ~ In [] (filesIn skip accept n).
Proof.
  destruct n as [text|es]; [intros [] |].
  induction es as [|[k c] es IH]; [intros [] |].
  rewrite filesIn_cons, in_app_iff. intros [H | H]; [| now apply IH].
  destruct c as [text|esc].
  - destruct (accept k); [destruct H as [H | []]; discriminate | destruct H].
  - destruct (skip k); [destruct H |].
    apply in_map_iff in H as (rel & H & _). discriminate.
Qed.

Lemma filesIn_reported (rel : list string) :
  forall n,
    wellFormed n = true ->
    In rel (filesIn skip accept n) <-> reported skip accept n rel.
Proof.
  induction rel as [|k rel IH]; intros n Hwf.
  - split; [intros H; now apply filesIn_no_nil in H |].
    intros (dirs & name & content & H & _). now destruct dirs.
  - destruct n as [text|es].
    + split; [intros [] |]. intros (dirs & name & content & _ & H & _). discriminate.
    + rewrite filesIn_In_cons. split.
      * intros (c & Hin & Hc).
        destruct (wellFormed_entry es k c Hwf Hin) as (Ha & _ & Hwfc & _).
        destruct c as [text|esc].
        -- destruct Hc as [Hacc ->]. exists [], k, text.
           cbn [app Fs.lookup]. rewrite Ha. now repeat split.
        -- destruct Hc as [Hskip Hrel].
           apply (IH _ Hwfc) in Hrel as (dirs & name & content & -> & Hl & Hd & Hn).
           exists (k :: dirs), name, content. cbn [app Fs.lookup]. rewrite Ha.
           repeat split; try assumption. now constructor.
      * intros (dirs & name & content & Hrel & Hl & Hd & Hn).
        cbn [Fs.lookup] in Hl.
        destruct (Fs.assoc k es) as [c|] eqn:Ha; [| discriminate].
        pose proof (assoc_In _ _ _ Ha) as Hin.
        destruct (wellFormed_entry es k c Hwf Hin) as (_ & _ & Hwfc & _).
        exists c. split; [assumption |].
        destruct dirs as [|d dirs]; cbn [app] in Hrel; injection Hrel as <- ->.
        -- cbn [Fs.lookup] in Hl. injection Hl as ->. now split.
        -- inversion Hd as [|? ? Hskip Hd']; subst.
           destruct c as [text|esc].
           ++ destruct dirs; discriminate.
           ++ split; [assumption |]. apply (IH _ Hwfc).
              now exists dirs, name, content.
Qed.

End Reported.

(** ** The end of a path and the end of its last segment *)

Lemma sepFree_with_sep (a b : string) : sepFree (a ++ String sep b) = false.
Proof.
  induction a as [|c a IH]; cbn [append sepFree].
  - now rewrite Ascii.eqb_refl.
  - rewrite IH. apply andb_false_r.
Qed.

Lemma endsWith_after_sep (before name suffix : string) :
  sepFree suffix = true ->
  endsWith (before ++ String sep name) suffix = endsWith name suffix.
Proof.
  intros Hfree. induction before as [|c before IH].
  - cbn [append]. rewrite endsWith_eq.
    destruct (String.eqb_spec (String sep name) suffix) as [<- | _]; [| reflexivity].
    cbn in Hfree. discriminate.
  - change (String c before ++ String sep name)
      with (String c (before ++ String sep name)).
    rewrite endsWith_eq.
    destruct (String.eqb_spec (String c (before ++ String sep name)) suffix)
      as [<- | _]; [| exact IH].
    cbn [sepFree] in Hfree. rewrite sepFree_with_sep in Hfree.
    rewrite andb_false_r in Hfree. discriminate.
Qed.

Lemma canon_snoc (segs : list string) (name : string) :
  exists before, canon (segs ++ [name]) = before ++ String sep name.
Proof.
  unfold canon. rewrite join_snoc. destruct segs as [|x segs].
  - now exists "".
  - exists ("/" ++ join "/" (x :: segs)). now rewrite append_assoc.
Qed.

Lemma endsWith_canon (segs : list string) (name suffix : string) :
  sepFree suffix = true ->
  endsWith (canon (segs ++ [name])) suffix = endsWith name suffix.
Proof.
  intros H. destruct (canon_snoc segs name) as [before ->].
  now apply endsWith_after_sep.
Qed.

Lemma split_canon_plain (l : list string) :
  Forall (fun x => plainSeg x = true) l ->
  filter (fun s => negb (String.eqb s "")) (split sep (canon l)) = l.
Proof.
  intros H. unfold canon. cbn [append split]. 
  change (Ascii.eqb "/" sep) with true. cbv iota.
  assert (Hf : Forall (fun x => negb (String.eqb x "") = true) l).
  { apply (Forall_impl _ (fun x Hx => proj1 (plainSeg_inv x Hx)) ) in H.
    apply (Forall_impl _ (fun x Hx => proj2 (negb_true_iff _) Hx)) in H.
    exact H. }
  destruct l as [|x l].
  - reflexivity.
  - rewrite split_join by (try discriminate; now apply plain_all_sepFree).
    change (filter (fun s => negb (String.eqb s "")) (x :: l) = x :: l).
    apply forallb_filter_id. now apply forallb_forall, Forall_forall.
Qed.

Lemma basename_canon (segs : list string) (name : string) :
  Forall (fun x => plainSeg x = true) segs -> plainSeg name = true ->
  basename (canon (segs ++ [name])) = name.
Proof.
  intros Hs Hn. unfold basename. rewrite split_canon_plain.
  - apply last_last.
  - apply Forall_app. split; [assumption | now constructor].
Qed.

Lemma lookup_plain (rel : list string) :
  forall n c,
    wellFormed n = true -> Fs.lookup n rel = Some c ->
    Forall (fun x => plainSeg x = true) rel.
Proof.
  induction rel as [|k rel IH]; intros n c Hwf Hl; [constructor |].
  destruct n as [text|es]; [discriminate |]. cbn [Fs.lookup] in Hl.
  destruct (Fs.assoc k es) as [c'|] eqn:Ha; [| discriminate].
  destruct (wellFormed_entry es k c' Hwf (assoc_In _ _ _ Ha)) as (_ & Hk & Hc & _).
  constructor; [assumption | now apply (IH c' c)].
Qed.

(** ** From the resolved package path *)

Section FromRoot.
Variables skip accept : string -> bool.
Variable fs : Fs.t.
Variable packagePath : string.
Variable es : list (string * Fs.node).
Hypothesis Hstat :
  Fs.stat fs (resolve (Fs.cwd fs) [packagePath]) = Some (Fs.Dir es).
Hypothesis Hwf : wellFormed (Fs.Dir es) = true.

Lemma root_lookup :
  Fs.lookup (Fs.root fs) (resolveSegs (Fs.cwd fs) [packagePath]) = Some (Fs.Dir es).
Proof. unfold Fs.stat in Hstat. now rewrite segsOf_resolve in Hstat. Qed.

Lemma walk_returns (fuel : nat) :
  height (Fs.Dir es) <= fuel ->
  walk skip accept fuel fs (resolve (Fs.cwd fs) [packagePath]) []
  = Done (map (fun rel => canon (resolveSegs (Fs.cwd fs) [packagePath] ++ rel))
              (filesIn skip accept (Fs.Dir es))).
Proof.
  intros Hh. rewrite resolve_canon.
  apply (walk_exact skip accept fs fuel _ es []);
    [apply resolveSegs_plain | apply root_lookup | exact Hwf | exact Hh].
Qed.

Lemma walk_result (fuel : nat) (l : list string) :
  walk skip accept fuel fs (resolve (Fs.cwd fs) [packagePath]) [] = Done l ->
  l = map (fun rel => canon (resolveSegs (Fs.cwd fs) [packagePath] ++ rel))
          (filesIn skip accept (Fs.Dir es)).
Proof.
  intros H.
  apply (walk_more skip accept fs fuel (Nat.max fuel (height (Fs.Dir es))))
    in H; [| apply Nat.le_max_l].
  rewrite walk_returns in H by apply Nat.le_max_r. now injection H as <-.
Qed.

Lemma walk_reports (fuel : nat) (l : list string) :
  walk skip accept fuel fs (resolve (Fs.cwd fs) [packagePath]) [] = Done l ->
  forall p,
    In p l
    <-> exists rel,
          p = canon (Fs.segsOf fs (resolve (Fs.cwd fs) [packagePath]) ++ rel)
          /\ reported skip accept (Fs.Dir es) rel.
Proof.
  intros H p. rewrite (walk_result fuel l H), in_map_iff, segsOf_resolve. split.
  - intros (rel & <- & Hrel). exists rel. split; [reflexivity |].
    now apply filesIn_reported.
  - intros (rel & -> & Hrel). exists rel. split; [reflexivity |].
    now apply filesIn_reported.
Qed.

(** A reported file is a file, and its path ends as its name does. *)
Lemma reported_path (rel : list string) :
  reported skip accept (Fs.Dir es) rel ->
  exists name,
    accept name = true
    /\ isFile fs (canon (resolveSegs (Fs.cwd fs) [packagePath] ++ rel)) = true
    /\ basename (canon (resolveSegs (Fs.cwd fs) [packagePath] ++ rel)) = name
    /\ forall suffix,
         sepFree suffix = true ->
         endsWith (canon (resolveSegs (Fs.cwd fs) [packagePath] ++ rel)) suffix
         = endsWith name suffix.
Proof.
  intros (dirs & name & content & -> & Hl & _ & Hacc).
  pose proof (lookup_plain _ _ _ Hwf Hl) as Hplain.
  apply Forall_app in Hplain as [Hdirs Hname].
  inversion Hname as [|? ? Hn _]; subst.
  pose proof (resolveSegs_plain (Fs.cwd fs) [packagePath]) as Hroot.
  exists name. split; [exact Hacc |]. split; [| split].
  - unfold isFile, Fs.stat, Fs.segsOf. rewrite resolveSegs_canon.
    + now rewrite lookup_app, root_lookup, Hl.
    + apply Forall_app. split; [assumption |].
      apply Forall_app. split; [assumption | now constructor].
  - rewrite app_assoc. apply basename_canon; [| assumption].
    apply Forall_app. now split.
  - intros suffix Hs. rewrite app_assoc. now apply endsWith_canon.
Qed.

End FromRoot.

(** X12 -- What [findTestFiles] reports.  Let the package path resolve to
    a directory whose tree is well formed (names are single segments,
    distinct within a directory).  Then [findTestFiles] returns once the
    fuel covers the height of the tree, and what it returns holds exactly
    the paths of the files below the package directory whose name ends in
    [.test.ts] and that lie in no directory named [node_modules] or
    [dist]. *)
Theorem findTestFiles_reports_the_test_files (fuel : nat) (fs : Fs.t)
        (packagePath : string) (es : list (string * Fs.node)) :
  Fs.stat fs (resolve (Fs.cwd fs) [packagePath]) = Some (Fs.Dir es) ->
  wellFormed (Fs.Dir es) = true ->
  (height (Fs.Dir es) <= fuel ->
   exists l, findTestFiles fuel fs (resolve (Fs.cwd fs) [packagePath]) [] = Done l)
  /\ (forall l,
         findTestFiles fuel fs (resolve (Fs.cwd fs) [packagePath]) [] = Done l ->
         forall p,
           In p l
           <-> exists rel,
                 p = canon (Fs.segsOf fs (resolve (Fs.cwd fs) [packagePath]) ++ rel)
                 /\ reported skipsOfTests isTestName (Fs.Dir es) rel).
Proof.
  intros Hstat Hwf. split.
  - intros Hh. eexists. rewrite findTestFiles_walk.
    now apply (walk_returns _ _ fs packagePath es).
  - intros l H. rewrite findTestFiles_walk in H.
    now apply (walk_reports _ _ fs packagePath es Hstat Hwf fuel).
Qed.

Lemma findTestFiles_reports_the_test_files_witness :
  (exists l, findTestFiles 4 Scenario.withTests "/p" [] = Done l)
  /\ (In "/p/src/util/helper.test.ts"
         ["/p/src/calc.test.ts"; "/p/src/util/helper.test.ts"]
       <-> exists rel,
             "/p/src/util/helper.test.ts"
             = canon (Fs.segsOf Scenario.withTests "/p" ++ rel)
             /\ exists dirs name content,
                  rel = (dirs ++ [name])%list
                  /\ Fs.lookup (Fs.root Scenario.withTests) ("p" :: rel)
                     = Some (Fs.File content)
                  /\ Forall (fun d => skipsOfTests d = false) dirs
                  /\ isTestName name = true).
Proof.
  destruct (Fs.stat Scenario.withTests (resolve "/" ["p"])) as [[text|es]|] eqn:E;
    try (vm_compute in E; discriminate).
  assert (Hwf : wellFormed (Fs.Dir es) = true)
    by (vm_compute in E; injection E as <-; reflexivity).
  assert (Hh : height (Fs.Dir es) <= 4)
    by (vm_compute in E; injection E as <-; vm_compute; lia).
  destruct (findTestFiles_reports_the_test_files 4 Scenario.withTests "p" es E Hwf)
    as [H1 H2].
  split; [exact (H1 Hh) |].
  specialize (H2 ["/p/src/calc.test.ts"; "/p/src/util/helper.test.ts"] eq_refl
                 "/p/src/util/helper.test.ts").
  vm_compute in E. injection E as <-. exact H2.
Defined.

(** X13 -- What [findSourceFiles] reports.  Let the package path resolve
    to a directory whose tree is well formed.  Then
    [findSourceFiles] returns once the fuel covers the height of the tree,
    and what it returns holds exactly the paths of the files below the
    package directory whose name ends in [.ts] but neither in [.test.ts]
    nor in [.spec.ts] and is not [vitest.config.ts], and that lie in no
    directory named [node_modules], [dist] or [test]. *)
Theorem findSourceFiles_reports_the_source_files (fuel : nat) (fs : Fs.t)
        (packagePath : string) (es : list (string * Fs.node)) :
  Fs.stat fs (resolve (Fs.cwd fs) [packagePath]) = Some (Fs.Dir es) ->
  wellFormed (Fs.Dir es) = true ->
  (height (Fs.Dir es) <= fuel ->
   exists l, findSourceFiles fuel fs (resolve (Fs.cwd fs) [packagePath]) [] = Done l)
  /\ (forall l,
         findSourceFiles fuel fs (resolve (Fs.cwd fs) [packagePath]) [] = Done l ->
         forall p,
           In p l
           <-> exists rel,
                 p = canon (Fs.segsOf fs (resolve (Fs.cwd fs) [packagePath]) ++ rel)
                 /\ reported skipsOfSources sourceName (Fs.Dir es) rel).
Proof.
  intros Hstat Hwf. split.
  - intros Hh. eexists. rewrite findSourceFiles_walk.
    now apply (walk_returns _ _ fs packagePath es).
  - intros l H. rewrite findSourceFiles_walk in H.
    now apply (walk_reports _ _ fs packagePath es Hstat Hwf fuel).
Qed.

Lemma findSourceFiles_reports_the_source_files_witness :
  (exists l, findSourceFiles 4 Scenario.withTests "/p" [] = Done l)
  /\ (In "/p/src/util/helper.ts"
         ["/p/src/index.ts"; "/p/src/calc.ts"; "/p/src/util/helper.ts"]
       <-> exists rel,
             "/p/src/util/helper.ts"
             = canon (Fs.segsOf Scenario.withTests "/p" ++ rel)
             /\ exists dirs name content,
                  rel = (dirs ++ [name])%list
                  /\ Fs.lookup (Fs.root Scenario.withTests) ("p" :: rel)
                     = Some (Fs.File content)
                  /\ Forall (fun d => skipsOfSources d = false) dirs
                  /\ sourceName name = true).
Proof.
  destruct (Fs.stat Scenario.withTests (resolve "/" ["p"])) as [[text|es]|] eqn:E;
    try (vm_compute in E; discriminate).
  assert (Hwf : wellFormed (Fs.Dir es) = true)
    by (vm_compute in E; injection E as <-; reflexivity).
  assert (Hh : height (Fs.Dir es) <= 4)
    by (vm_compute in E; injection E as <-; vm_compute; lia).
  destruct (findSourceFiles_reports_the_source_files 4 Scenario.withTests "p" es E Hwf)
    as [H1 H2].
  split; [exact (H1 Hh) |].
  specialize (H2 ["/p/src/index.ts"; "/p/src/calc.ts"; "/p/src/util/helper.ts"]
                 eq_refl "/p/src/util/helper.ts").
  vm_compute in E. injection E as <-. exact H2.
Defined.

(** X14 -- The finders agree with the checks made on their results.
    Let the package path resolve to a directory whose tree is well
    formed.  Then every path [findSourceFiles] returned is a
    file that ends in [.ts], ends neither in [.test.ts] nor in [.spec.ts]
    and whose [path.basename] is not [vitest.config.ts]: the tests at the
    head of the deletion loop of [main] hold for none of them.  Every
    path [findTestFiles] returned is a file that ends in [.test.ts], and
    none of them is among the source files. *)
Theorem found_files_pass_the_checks_of_main (fuel1 fuel2 : nat) (fs : Fs.t)
        (packagePath : string) (es : list (string * Fs.node))
        (testFiles sourceFiles : list string) :
  Fs.stat fs (resolve (Fs.cwd fs) [packagePath]) = Some (Fs.Dir es) ->
  wellFormed (Fs.Dir es) = true ->
  findTestFiles fuel1 fs (resolve (Fs.cwd fs) [packagePath]) [] = Done testFiles ->
  findSourceFiles fuel2 fs (resolve (Fs.cwd fs) [packagePath]) [] = Done sourceFiles ->
  (forall p,
      In p sourceFiles ->
      isFile fs p = true
      /\ endsWith p ".ts" = true
      /\ (endsWith p ".test.ts" || endsWith p ".spec.ts") = false
      /\ String.eqb (basename p) "vitest.config.ts" = false)
  /\ (forall p,
         In p testFiles ->
         isFile fs p = true /\ endsWith p ".test.ts" = true /\ ~ In p sourceFiles).
Proof.
  intros Hstat Hwf Ht Hs.
  rewrite findTestFiles_walk in Ht. rewrite findSourceFiles_walk in Hs.
  pose proof (walk_reports _ _ fs packagePath es Hstat Hwf fuel1 _ Ht) as Htests.
  pose proof (walk_reports _ _ fs packagePath es Hstat Hwf fuel2 _ Hs) as Hsources.
  assert (Hsrc : forall p,
             In p sourceFiles ->
             isFile fs p = true
             /\ endsWith p ".ts" = true
             /\ (endsWith p ".test.ts" || endsWith p ".spec.ts") = false
             /\ String.eqb (basename p) "vitest.config.ts" = false).
  { intros p Hp. apply Hsources in Hp as (rel & -> & Hrel).
    rewrite segsOf_resolve.
    destruct (reported_path _ _ fs packagePath es Hstat Hwf rel Hrel)
      as (name & Hacc & Hfile & Hbase & Hend).
    unfold sourceName in Hacc.
    apply andb_prop in Hacc as [Hacc H4]. apply andb_prop in Hacc as [Hacc H3].
    apply andb_prop in Hacc as [H1 H2].
    apply negb_true_iff in H2, H3, H4.
    rewrite !Hend by reflexivity. rewrite Hbase, H1, H2, H3, H4. now repeat split. }
  split; [exact Hsrc |].
  intros p Hp. pose proof Hp as Hin.
  apply Htests in Hp as (rel & -> & Hrel). rewrite segsOf_resolve in *.
  destruct (reported_path _ _ fs packagePath es Hstat Hwf rel Hrel)
    as (name & Hacc & Hfile & _ & Hend).
  unfold isTestName in Hacc.
  assert (He : endsWith (canon (resolveSegs (Fs.cwd fs) [packagePath] ++ rel))
                 ".test.ts" = true) by (rewrite Hend by reflexivity; exact Hacc).
  repeat split; try assumption.
  intros Hsrcin. destruct (Hsrc _ Hsrcin) as (_ & _ & Hno & _).
  rewrite He in Hno. discriminate.
Qed.

Lemma found_files_pass_the_checks_of_main_witness :
  (forall p,
      In p ["/p/src/index.ts"; "/p/src/calc.ts"; "/p/src/util/helper.ts"] ->
      isFile Scenario.withTests p = true
      /\ endsWith p ".ts" = true
      /\ (endsWith p ".test.ts" || endsWith p ".spec.ts") = false
      /\ String.eqb (basename p) "vitest.config.ts" = false)
  /\ (forall p,
         In p ["/p/src/calc.test.ts"; "/p/src/util/helper.test.ts"] ->
         isFile Scenario.withTests p = true /\ endsWith p ".test.ts" = true
         /\ ~ In p ["/p/src/index.ts"; "/p/src/calc.ts"; "/p/src/util/helper.ts"]).
Proof.
  destruct (Fs.stat Scenario.withTests (resolve "/" ["p"])) as [[text|es]|] eqn:E;
    try (vm_compute in E; discriminate).
  assert (Hwf : wellFormed (Fs.Dir es) = true)
    by (vm_compute in E; injection E as <-; reflexivity).
  apply (found_files_pass_the_checks_of_main 4 4 Scenario.withTests "p" es _ _ E Hwf);
    reflexivity.
Defined.

(** ** No file is reported twice *)

Lemma filesIn_head (skip accept : string -> bool) (es : list (string * Fs.node))
      (rel : list string) :
  In rel (filesIn skip accept (Fs.Dir es)) ->
  exists k rel', rel = k :: rel' /\ In k (map fst es).
Proof.
  destruct rel as [|k rel']; [intros H; now apply filesIn_no_nil in H |].
  intros H. apply filesIn_In_cons in H as (c & Hin & _).
  exists k, rel'. split; [reflexivity |].
  change k with (fst (k, c)). now apply in_map.
Qed.

Lemma NoDup_map_on (A B : Type) (f : A -> B) (l : list A) :
  (forall x y, In x l -> In y l -> f x = f y -> x = y) ->
  NoDup l -> NoDup (map f l).
Proof.
  induction l as [|x l IH]; intros Hinj Hnd; [constructor |].
  inversion Hnd as [|? ? Hx Hl]; subst. cbn [map]. constructor.
  - intros Hin. apply in_map_iff in Hin as (y & E & Hy).
    assert (y = x) by (apply Hinj; [now right | now left | exact E]).
    now subst y.
  - apply IH; [| assumption]. intros a b Ha Hb. apply Hinj; now right.
Qed.

Lemma filesIn_NoDup (skip accept : string -> bool) (h : nat) :
  forall n, height n <= h -> wellFormed n = true -> NoDup (filesIn skip accept n).
Proof.
  induction h as [|h IH]; intros n Hh Hwf.
  - destruct n as [text|es]; [constructor |].
    destruct es as [|[k c] es]; cbn in Hh; lia.
  - destruct n as [text|es]; [constructor |].
    induction es as [|[k c] es IHes]; [constructor |].
    destruct (wellFormed_inv _ _ _ Hwf) as (_ & Hfresh & Hc & Hes).
    rewrite height_cons in Hh. rewrite filesIn_cons.
    assert (Hrest : NoDup (filesIn skip accept (Fs.Dir es))).
    { apply IHes; [| assumption].
      destruct es as [|e es']; [cbn; lia |].
      assert (1 <= height (Fs.Dir (e :: es')))
        by (destruct e; rewrite height_cons; lia).
      lia. }
    assert (Hfirst : forall rel,
               In rel (filesIn skip accept (Fs.Dir es)) ->
               forall rel', rel <> k :: rel').
    { intros rel Hin rel' ->. apply filesIn_head in Hin as (k' & r & [= <- <-] & Hk).
      assert (existsb (String.eqb k) (map fst es) = true); [| congruence].
      apply existsb_exists. exists k. split; [assumption | apply String.eqb_refl]. }
    apply NoDup_app; [| exact Hrest |].
    + destruct c as [text|esc].
      * destruct (accept k); repeat constructor. now intros [].
      * destruct (skip k); [constructor |].
        apply NoDup_map_on; [now intros x y _ _ [= ->] |].
        apply IH; [lia | assumption].
    + intros rel Hin1 Hin2. destruct c as [text|esc].
      * destruct (accept k); [| destruct Hin1].
        destruct Hin1 as [<- | []]. now apply (Hfirst _ Hin2 []).
      * destruct (skip k); [destruct Hin1 |].
        apply in_map_iff in Hin1 as (rel' & <- & _). now apply (Hfirst _ Hin2 rel').
Qed.

(** X25 -- The list of test files is one the loop of [main] can take.
    Let the package path resolve to a directory whose tree is well
    formed.  Then the paths [findTestFiles] returned are
    pairwise distinct, each is in the form [path.resolve] gives (resolving
    it again changes nothing) and each names a file. *)
Theorem found_test_files_are_distinct_resolved_files (fuel : nat) (fs : Fs.t)
        (packagePath : string) (es : list (string * Fs.node))
        (testFiles : list string) :
  Fs.stat fs (resolve (Fs.cwd fs) [packagePath]) = Some (Fs.Dir es) ->
  wellFormed (Fs.Dir es) = true ->
  findTestFiles fuel fs (resolve (Fs.cwd fs) [packagePath]) [] = Done testFiles ->
  NoDup testFiles
  /\ forall t, In t testFiles ->
               resolve (Fs.cwd fs) [t] = t /\ isFile fs t = true.
Proof.
  intros Hstat Hwf Hfind. rewrite findTestFiles_walk in Hfind.
  pose proof (walk_result _ _ fs packagePath es Hstat Hwf fuel _ Hfind) as ->.
  pose proof (resolveSegs_plain (Fs.cwd fs) [packagePath]) as Hroot.
  assert (Hrel : forall rel, In rel (filesIn skipsOfTests isTestName (Fs.Dir es)) ->
                             Forall (fun x => plainSeg x = true)
                               (resolveSegs (Fs.cwd fs) [packagePath] ++ rel)
                             /\ isFile fs (canon (resolveSegs (Fs.cwd fs) [packagePath]
                                                  ++ rel)) = true).
  { intros rel Hin. apply (filesIn_reported _ _ rel _ Hwf) in Hin.
    destruct (reported_path _ _ fs packagePath es Hstat Hwf rel Hin)
      as (name & _ & Hfile & _).
    destruct Hin as (dirs & nm & content & _ & Hl & _).
    split; [| exact Hfile]. apply Forall_app. split; [exact Hroot |].
    now apply (lookup_plain _ _ _ Hwf Hl). }
  split.
  - apply NoDup_map_on; [| apply (filesIn_NoDup _ _ (height (Fs.Dir es))); auto].
    intros x y Hx Hy E.
    destruct (Hrel x Hx) as [Hpx _]. destruct (Hrel y Hy) as [Hpy _].
    assert (E' : (resolveSegs (Fs.cwd fs) [packagePath] ++ x)%list
                 = (resolveSegs (Fs.cwd fs) [packagePath] ++ y)%list).
    { rewrite <- (resolveSegs_canon "/" _ Hpx), <- (resolveSegs_canon "/" _ Hpy).
      now rewrite E. }
    now apply app_inv_head in E'.
  - intros t Ht. apply in_map_iff in Ht as (rel & <- & Hin).
    destruct (Hrel rel Hin) as [Hp Hf]. split; [| exact Hf].
    now rewrite resolve_canon, resolveSegs_canon.
Qed.

Lemma found_test_files_are_distinct_resolved_files_witness :
  NoDup ["/p/src/calc.test.ts"; "/p/src/util/helper.test.ts"]
  /\ forall t, In t ["/p/src/calc.test.ts"; "/p/src/util/helper.test.ts"] ->
               resolve "/" [t] = t /\ isFile Scenario.withTests t = true.
Proof.
  destruct (Fs.stat Scenario.withTests (resolve "/" ["p"])) as [[text|es]|] eqn:E;
    try (vm_compute in E; discriminate).
  assert (Hwf : wellFormed (Fs.Dir es) = true)
    by (vm_compute in E; injection E as <-; reflexivity).
  apply (found_test_files_are_distinct_resolved_files 4 Scenario.withTests "p" es _
           E Hwf).
  reflexivity.
Defined.

End FinderFacts.

(* ===================================================================== *)
(** * The texts written into source files *)
(* ===================================================================== *)

Module TextFacts.
Import JsString Script Anonymizer Notions Frame Text StringFacts PathFacts FrameFacts.

Lemma split_lacks (c : ascii) (s : string) : lacks c s = true -> split c s = [s].
Proof.
  induction s as [|x s IH]; cbn [lacks split]; [reflexivity |].
  intros H. apply andb_prop in H as [Hx Hs].
  apply negb_true_iff in Hx. now rewrite Hx, (IH Hs).
Qed.

Lemma split_all_lack (c : ascii) (s : string) :
  Forall (fun x => lacks c x = true) (split c s).
Proof.
  induction s as [|x s IH]; cbn [split]; [now constructor |].
  destruct (Ascii.eqb x c) eqn:E; [now constructor |].
  destruct (split c s) as [|h t];
    [constructor; [cbn [lacks]; now rewrite E | constructor] |].
  inversion IH; subst. constructor; [cbn [lacks]; now rewrite E | assumption].
Qed.

Lemma split_join_lines (c : ascii) (l : list string) :
  l <> [] -> Forall (fun x => lacks c x = true) l ->
  split c (join (String c "") l) = l.
Proof.
  induction l as [|x l IH]; intros Hne H; [congruence |].
  inversion H as [|? ? Hx Hl]; subst.
  destruct l as [|y l]; [now apply split_lacks |].
  change (join (String c "") (x :: y :: l))
    with (x ++ String c (join (String c "") (y :: l))).
  rewrite split_app_sep, (split_lacks c x Hx).
  cbn [app]. f_equal. apply IH; [discriminate | assumption].
Qed.

Lemma exportLines_lack (content : string) :
  Forall (fun x => lacks lf x = true) (exportLines content).
Proof.
  unfold exportLines. apply Forall_forall. intros x Hx.
  apply filter_In in Hx as [Hx _].
  pose proof (split_all_lack lf content) as H.
  now apply (proj1 (Forall_forall _ _) H).
Qed.

Lemma exportLines_pass (content : string) :
  forallb exportLine (exportLines content) = true.
Proof.
  apply forallb_forall. intros x Hx. now apply filter_In in Hx as [_ Hx].
Qed.

Lemma anonymizedSource_cases (content : string) :
  anonymizedSource content
  = match exportLines content with
    | [] => stubHeader ++ nl ++ "export {};" ++ nl
    | _ :: _ => keptHeader ++ nl ++ join nl (exportLines content) ++ nl
    end.
Proof.
  unfold anonymizedSource, exportLines.
  now destruct (filter exportLine (split lf content)).
Qed.

(** The lines of the text that is written. *)
Lemma anonymizedSource_lines (content : string) :
  split lf (anonymizedSource content)
  = match exportLines content with
    | [] => [stubHeader; "export {};"; ""]
    | _ :: _ => (keptHeader :: exportLines content ++ [""])%list
    end.
Proof.
  rewrite anonymizedSource_cases.
  destruct (exportLines content) as [|x l] eqn:E; [reflexivity |].
  change (keptHeader ++ nl ++ join nl (x :: l) ++ nl)
    with (keptHeader ++ String lf (join nl (x :: l) ++ String lf "")).
  rewrite split_app_sep, split_app_sep.
  change nl with (String lf "").
  rewrite split_join_lines;
    [reflexivity | discriminate | rewrite <- E; apply exportLines_lack].
Qed.

Lemma filter_app_single (f : string -> bool) (l : list string) (x : string) :
  forallb f l = true -> f x = false -> filter f (l ++ [x])%list = l.
Proof.
  intros Hl Hx. rewrite filter_app. cbn [filter]. rewrite Hx, app_nil_r.
  now apply forallb_filter_id.
Qed.

Lemma exportLines_kept (content : string) (x : string) (l : list string) :
  exportLines content = x :: l ->
  exportLines (anonymizedSource content) = x :: l.
Proof.
  intros E. unfold exportLines at 1. rewrite anonymizedSource_lines, E.
  change (filter exportLine (keptHeader :: (x :: l) ++ [""])%list)
    with (filter exportLine ((x :: l) ++ [""])%list).
  apply filter_app_single; [| reflexivity].
  rewrite <- E. apply exportLines_pass.
Qed.

Lemma anonymizedSource_stable (content : string) :
  exportLines content <> [] ->
  anonymizedSource (anonymizedSource content) = anonymizedSource content.
Proof.
  intros Hne. destruct (exportLines content) as [|x l] eqn:E; [congruence |].
  rewrite (anonymizedSource_cases (anonymizedSource content)).
  rewrite (exportLines_kept content x l E).
  now rewrite (anonymizedSource_cases content), E.
Qed.

(** X15 -- A second run of the stubber.  Writing the anonymized text of a
    text that is itself anonymized changes nothing exactly when the
    original text had a line that is kept (one that, white space taken
    off, starts with [export ] followed by something); for a text without
    such a line the first run writes the stub, whose [export {};] the
    second run keeps under the other heading.  From the second run on the
    text is stable. *)
Theorem anonymizedSource_second_run (content : string) :
  (anonymizedSource (anonymizedSource content) = anonymizedSource content
   <-> exists line, In line (split lf content) /\ exportLine line = true)
  /\ anonymizedSource (anonymizedSource (anonymizedSource content))
     = anonymizedSource (anonymizedSource content).
Proof.
  split.
  - split.
    + intros H. destruct (exportLines content) as [|x l] eqn:E.
      * exfalso. rewrite (anonymizedSource_cases content), E in H.
        vm_compute in H. discriminate.
      * exists x. apply filter_In. unfold exportLines in E. rewrite E. now left.
    + intros (line & Hin & Hline). apply anonymizedSource_stable.
      intros E. assert (Hx : In line (exportLines content))
        by (apply filter_In; now split).
      rewrite E in Hx. destruct Hx.
  - destruct (exportLines content) as [|x l] eqn:E.
    + rewrite (anonymizedSource_cases content), E. vm_compute. reflexivity.
    + rewrite (anonymizedSource_stable content) by (rewrite E; discriminate).
      apply anonymizedSource_stable. rewrite E. discriminate.
Qed.

(** Of the four tests on a line the first decides. *)
Lemma exportLine_first_test (line : string) :
  exportLine line = startsWith (trim line) "export ".
Proof.
  unfold exportLine, startsWith.
  destruct (String.prefix "export " (trim line)) eqn:E; [reflexivity |].
  assert (H : forall p,
             String.prefix "export " p = true ->
             String.prefix p (trim line) = false).
  { intros p Hp. destruct (String.prefix p (trim line)) eqn:E2; [| reflexivity].
    destruct (prefix_inv _ _ E2) as [r Hr]. destruct (prefix_inv _ _ Hp) as [q ->].
    rewrite Hr, append_assoc, prefix_append in E. discriminate. }
  now rewrite !H by reflexivity.
Qed.

Lemma exportLines_first_test (content : string) :
  exportLines content
  = filter (fun line => startsWith (trim line) "export ") (split lf content).
Proof. apply filter_ext. intros line. apply exportLine_first_test. Qed.

(** X16 -- What [anonymizeSourceFile] leaves.  On a file that can be read
    the call succeeds and the file then holds: the heading, the lines of
    the old text that start with [export ] once white space is taken off
    (in their order and as they were; the three further tests of the loop
    add no line), and an empty last line; or the two lines of the stub
    when no line is kept.  The directory tree and the text of every other
    file are as before. *)
Theorem anonymizeSourceFile_keeps_the_export_lines (fs : Fs.t)
        (filePath content : string) :
  Fs.readFileSync fs filePath = Some content ->
  exists fs' text,
    anonymizeSourceFile fs filePath = Some fs'
    /\ Fs.readFileSync fs' filePath = Some text
    /\ split lf text
       = match filter (fun line => startsWith (trim line) "export ")
                      (split lf content) with
         | [] => [stubHeader; "export {};"; ""]
         | kept => (keptHeader :: kept ++ [""])%list
         end
    /\ sameTree fs fs'
    /\ (forall q, Fs.segsOf fs q <> Fs.segsOf fs filePath ->
                  Fs.readFileSync fs' q = Fs.readFileSync fs q).
Proof.
  intros Hr. unfold anonymizeSourceFile. rewrite Hr.
  destruct (writeFileSync_succeeds fs filePath content (anonymizedSource content) Hr)
    as (fs' & Hw & Hr').
  exists fs', (anonymizedSource content). rewrite Hw.
  split; [reflexivity |]. split; [exact Hr' |]. split.
  - rewrite anonymizedSource_lines, exportLines_first_test.
    now destruct (filter _ _).
  - apply (writeFileSync_over_file fs fs' filePath content _ Hr Hw).
Qed.

Lemma anonymizeSourceFile_keeps_the_export_lines_witness :
  exists fs' text,
    anonymizeSourceFile Scenario.withSourceText "/p/src/index.ts" = Some fs'
    /\ Fs.readFileSync fs' "/p/src/index.ts" = Some text
    /\ split lf text
       = [keptHeader; "export const a = 1;"; "  export type T = number;"; ""]
    /\ sameTree Scenario.withSourceText fs'
    /\ (forall q,
           Fs.segsOf Scenario.withSourceText q
           <> Fs.segsOf Scenario.withSourceText "/p/src/index.ts" ->
           Fs.readFileSync fs' q = Fs.readFileSync Scenario.withSourceText q).
Proof.
  destruct (anonymizeSourceFile_keeps_the_export_lines Scenario.withSourceText
              "/p/src/index.ts" Scenario.sourceText eq_refl)
    as (fs' & text & H1 & H2 & H3 & H4 & H5).
  exists fs', text. repeat split; assumption.
Defined.

End TextFacts.

(* ===================================================================== *)
(** * Removing empty directories *)
(* ===================================================================== *)

Module CleanupFacts.
Import JsString Path Script Anonymizer Notions Frame Walk Prune.
Import StringFacts PathFacts FrameFacts FinderFacts.

(** ** [path.dirname] goes up *)

Lemma length_take (i : nat) (s : string) :
  i <= String.length s -> String.length (take i s) = i.
Proof.
  revert s; induction i as [|i IH]; intros s H; [reflexivity |].
  destruct s as [|c s]; cbn in *; [lia |]. rewrite IH; lia.
Qed.

Lemma hasNonSep_length (s : string) : hasNonSep s = true -> 1 <= String.length s.
Proof. destruct s; cbn; [discriminate | lia]. Qed.

Lemma lastSep_lt (s : string) (i : nat) :
  lastSep s = Some i -> i + 2 <= String.length s.
Proof.
  revert i; induction s as [|c s IH]; intros i H; [discriminate |].
  cbn [lastSep] in H. cbn [String.length].
  destruct (lastSep s) as [j|].
  - injection H as <-. specialize (IH j eq_refl). lia.
  - destruct (Ascii.eqb c sep && hasNonSep s) eqn:E; [| discriminate].
    injection H as <-. apply andb_prop in E as [_ E].
    apply hasNonSep_length in E. lia.
Qed.

Lemma dirname_up (p : string) :
  dirname p = p \/ dirname p = "."
  \/ String.length (dirname p) < String.length p.
Proof.
  destruct p as [|c rest]; [right; now left |]. cbn [dirname].
  destruct (lastSep rest) as [i|] eqn:E.
  - pose proof (lastSep_lt rest i E) as Hi. right. right.
    destruct (Ascii.eqb c sep && Nat.eqb i 0); cbn [String.length].
    + lia.
    + rewrite length_take; lia.
  - destruct (Ascii.eqb_spec c sep) as [-> | _]; [| right; now left].
    destruct rest as [|d rest]; [now left |]. right. right. cbn. lia.
Qed.

(** ** Removing an empty directory keeps every file *)

Lemma assoc_removeEntry_other (s s' : string) (es : list (string * Fs.node)) :
  s' <> s -> Fs.assoc s' (Fs.removeEntry s es) = Fs.assoc s' es.
Proof.
  intros Hne. induction es as [|[k c] es IH]; [reflexivity |].
  cbn [Fs.removeEntry Fs.assoc].
  destruct (String.eqb_spec k s) as [-> | Hk].
  - destruct (String.eqb_spec s s'); [congruence | reflexivity].
  - cbn [Fs.assoc]. now rewrite IH.
Qed.

Lemma unlink_empty_keeps (segs : list string) :
  forall n n' q text,
    Fs.lookup n segs = Some (Fs.Dir []) ->
    Fs.unlink segs n = Some n' ->
    textAt n q = Some text -> textAt n' q = Some text.
Proof.
  unfold textAt.
  induction segs as [|s rest IH]; intros n n' q text Hl Hu Hq; [discriminate |].
  destruct n as [c|es]; [discriminate |]. cbn [Fs.lookup Fs.unlink] in Hl, Hu.
  destruct (Fs.assoc s es) as [c|] eqn:Ea; [| discriminate].
  destruct q as [|s' r]; [discriminate |]. cbn [Fs.lookup] in Hq.
  destruct rest as [|s2 rest2].
  - cbn [Fs.lookup] in Hl. injection Hl as ->. injection Hu as <-.
    cbn [Fs.lookup]. destruct (String.eqb_spec s' s) as [-> | Hne].
    + rewrite Ea in Hq. destruct r; discriminate.
    + now rewrite assoc_removeEntry_other.
  - destruct (Fs.unlink (s2 :: rest2) c) as [c'|] eqn:Eu; [| discriminate].
    injection Hu as <-. cbn [Fs.lookup].
    destruct (String.eqb_spec s' s) as [-> | Hne].
    + rewrite assoc_setEntry_same. rewrite Ea in Hq.
      now apply (IH c c' r text Hl Eu).
    + now rewrite assoc_setEntry_other.
Qed.

Lemma rmdirSync_keeps (fs fs' : Fs.t) (p : string) :
  rmdirSync fs p = Some fs' ->
  forall q text,
    Fs.readFileSync fs q = Some text -> Fs.readFileSync fs' q = Some text.
Proof.
  unfold rmdirSync, Fs.stat. intros H q text.
  destruct (Fs.lookup (Fs.root fs) (Fs.segsOf fs p)) as [[c|[|e es]]|] eqn:El;
    try discriminate.
  destruct (Fs.unlink (Fs.segsOf fs p) (Fs.root fs)) as [r|] eqn:Eu;
    [| discriminate].
  injection H as <-. unfold Fs.readFileSync, Fs.stat, Fs.segsOf.
  cbn [Fs.cwd Fs.root].
  apply (unlink_empty_keeps _ _ _ (resolveSegs (Fs.cwd fs) [q]) text El Eu).
Qed.

(** ** Taking entries out of a well-formed tree *)

Lemma assoc_fresh (k : string) (es : list (string * Fs.node)) :
  existsb (String.eqb k) (map fst es) = false -> Fs.assoc k es = None.
Proof.
  induction es as [|[k0 c0] es IH]; [reflexivity |]. cbn [map fst existsb Fs.assoc].
  intros H. apply orb_false_iff in H as [H1 H2].
  rewrite String.eqb_sym, H1. now apply IH.
Qed.

Lemma names_setEntry (s : string) (c c' : Fs.node) (es : list (string * Fs.node)) :
  Fs.assoc s es = Some c -> map fst (Fs.setEntry s c' es) = map fst es.
Proof.
  induction es as [|[k0 c0] es IH]; [discriminate |]. cbn [Fs.assoc Fs.setEntry].
  destruct (String.eqb k0 s); [reflexivity |].
  intros H. cbn [map fst]. now rewrite IH.
Qed.

Lemma setEntry_wf (s : string) (c c' : Fs.node) (es : list (string * Fs.node)) :
  wellFormed (Fs.Dir es) = true -> Fs.assoc s es = Some c ->
  wellFormed c' = true -> wellFormed (Fs.Dir (Fs.setEntry s c' es)) = true.
Proof.
  intros Hwf Ha Hc'. induction es as [|[k0 c0] es IH]; [discriminate |].
  destruct (wellFormed_inv _ _ _ Hwf) as (Hk0 & Hfresh & Hc0 & Hes).
  cbn [Fs.assoc Fs.setEntry] in *. destruct (String.eqb k0 s) eqn:E.
  - rewrite wellFormed_cons, Hk0, Hfresh, Hc', Hes. reflexivity.
  - rewrite wellFormed_cons, Hk0, Hc0, (names_setEntry s c c' es Ha), Hfresh.
    now rewrite (IH Hes Ha).
Qed.

Lemma names_removeEntry (s k : string) (es : list (string * Fs.node)) :
  In k (map fst (Fs.removeEntry s es)) -> In k (map fst es).
Proof.
  induction es as [|[k0 c0] es IH]; [now intros |]. cbn [Fs.removeEntry].
  destruct (String.eqb k0 s); [intros H; now right |].
  cbn [map fst]. intros [<- | H]; [now left | right; now apply IH].
Qed.

Lemma fresh_removeEntry (s k : string) (es : list (string * Fs.node)) :
  existsb (String.eqb k) (map fst es) = false ->
  existsb (String.eqb k) (map fst (Fs.removeEntry s es)) = false.
Proof.
  intros H. destruct (existsb _ (map fst (Fs.removeEntry s es))) eqn:E;
    [| reflexivity].
  apply existsb_exists in E as (x & Hx & Hkx).
  assert (existsb (String.eqb k) (map fst es) = true); [| congruence].
  apply existsb_exists. exists x. split; [| assumption].
  now apply (names_removeEntry s).
Qed.

Lemma removeEntry_wf (s : string) (es : list (string * Fs.node)) :
  wellFormed (Fs.Dir es) = true -> wellFormed (Fs.Dir (Fs.removeEntry s es)) = true.
Proof.
  induction es as [|[k0 c0] es IH]; intros Hwf; [reflexivity |].
  destruct (wellFormed_inv _ _ _ Hwf) as (Hk0 & Hfresh & Hc0 & Hes).
  cbn [Fs.removeEntry]. destruct (String.eqb k0 s); [assumption |].
  rewrite wellFormed_cons, Hk0, Hc0, (fresh_removeEntry s k0 es Hfresh).
  now rewrite (IH Hes).
Qed.

Lemma assoc_removeEntry_same (s : string) (es : list (string * Fs.node)) :
  wellFormed (Fs.Dir es) = true -> Fs.assoc s (Fs.removeEntry s es) = None.
Proof.
  induction es as [|[k0 c0] es IH]; intros Hwf; [reflexivity |].
  destruct (wellFormed_inv _ _ _ Hwf) as (Hk0 & Hfresh & Hc0 & Hes).
  cbn [Fs.removeEntry]. destruct (String.eqb_spec k0 s) as [-> | Hne].
  - now apply assoc_fresh.
  - cbn [Fs.assoc]. destruct (String.eqb_spec k0 s); [congruence | now apply IH].
Qed.

Lemma unlink_returns_dir (segs : list string) (n n' : Fs.node) :
  Fs.unlink segs n = Some n' -> Fs.isDir n' = true.
Proof.
  destruct segs as [|s rest]; [discriminate |]. cbn [Fs.unlink].
  destruct n as [c|es]; [discriminate |].
  destruct (Fs.assoc s es) as [c|]; [| discriminate].
  destruct rest; [now intros [= <-] |].
  destruct (Fs.unlink _ c); [now intros [= <-] | discriminate].
Qed.

Lemma unlink_succeeds (segs : list string) :
  forall n x,
    segs <> [] -> Fs.lookup n segs = Some x -> exists n', Fs.unlink segs n = Some n'.
Proof.
  induction segs as [|s rest IH]; intros n x Hne Hl; [congruence |].
  destruct n as [c|es]; [discriminate |]. cbn [Fs.lookup Fs.unlink] in *.
  destruct (Fs.assoc s es) as [c|]; [| discriminate].
  destruct rest as [|s2 rest2]; [now eexists |].
  destruct (IH c x ltac:(discriminate) Hl) as [c' ->]. now eexists.
Qed.

(** What is taken out is gone, and nothing comes in. *)
Lemma unlink_wf (segs : list string) :
  forall n n',
    wellFormed n = true -> Fs.unlink segs n = Some n' ->
    wellFormed n' = true
    /\ Fs.lookup n' segs = None
    /\ forall q, Fs.lookup n' q <> None -> Fs.lookup n q <> None.
Proof.
  induction segs as [|s rest IH]; intros n n' Hwf Hu; [discriminate |].
  destruct n as [c|es]; [discriminate |]. cbn [Fs.unlink] in Hu.
  destruct (Fs.assoc s es) as [c|] eqn:Ea; [| discriminate].
  destruct (wellFormed_entry es s c Hwf (assoc_In _ _ _ Ea)) as (_ & _ & Hwfc & _).
  destruct rest as [|s2 rest2].
  - injection Hu as <-. split; [now apply removeEntry_wf |]. split.
    + cbn [Fs.lookup]. now rewrite assoc_removeEntry_same.
    + intros [|s' r]; [discriminate |]. cbn [Fs.lookup].
      destruct (String.eqb_spec s' s) as [-> | Hne].
      * now rewrite assoc_removeEntry_same.
      * now rewrite assoc_removeEntry_other.
  - destruct (Fs.unlink (s2 :: rest2) c) as [c'|] eqn:Eu; [| discriminate].
    injection Hu as <-. destruct (IH c c' Hwfc Eu) as (Hwfc' & Hgone & Hsub).
    split; [now apply (setEntry_wf s c) |]. split.
    + cbn [Fs.lookup]. now rewrite assoc_setEntry_same.
    + intros [|s' r]; [discriminate |]. cbn [Fs.lookup].
      destruct (String.eqb_spec s' s) as [-> | Hne].
      * rewrite assoc_setEntry_same, Ea. apply Hsub.
      * now rewrite assoc_setEntry_other.
Qed.

Lemma unlink_file_keeps (segs : list string) :
  forall n n' old q text,
    Fs.lookup n segs = Some (Fs.File old) ->
    Fs.unlink segs n = Some n' ->
    q <> segs ->
    textAt n q = Some text -> textAt n' q = Some text.
Proof.
  unfold textAt.
  induction segs as [|s rest IH]; intros n n' old q text Hl Hu Hne Hq;
    [discriminate |].
  destruct n as [c|es]; [discriminate |]. cbn [Fs.lookup Fs.unlink] in Hl, Hu.
  destruct (Fs.assoc s es) as [c|] eqn:Ea; [| discriminate].
  destruct q as [|s' r]; [discriminate |]. cbn [Fs.lookup] in Hq.
  destruct rest as [|s2 rest2].
  - cbn [Fs.lookup] in Hl. injection Hl as ->. injection Hu as <-.
    cbn [Fs.lookup]. destruct (String.eqb_spec s' s) as [-> | Hs].
    + rewrite Ea in Hq. destruct r; [congruence | discriminate].
    + now rewrite assoc_removeEntry_other.
  - destruct (Fs.unlink (s2 :: rest2) c) as [c'|] eqn:Eu; [| discriminate].
    injection Hu as <-. cbn [Fs.lookup].
    destruct (String.eqb_spec s' s) as [-> | Hs].
    + rewrite assoc_setEntry_same. rewrite Ea in Hq.
      apply (IH c c' old r text Hl Eu); [congruence | exact Hq].
    + now rewrite assoc_setEntry_other.
Qed.

(** ** The relations between the file system before and after *)

Lemma keepsBut_refl (paths : list string) (fs : Fs.t) : keepsBut paths fs fs.
Proof. now intros q text H _. Qed.

Lemma keepsBut_more (paths paths' : list string) (fs fs' : Fs.t) :
  incl paths paths' -> keepsBut paths fs fs' -> keepsBut paths' fs fs'.
Proof.
  intros Hi H q text Hq Hp. apply H; [assumption |].
  intros p Hin. apply Hp, Hi, Hin.
Qed.

Lemma keepsBut_trans (paths : list string) (fs1 fs2 fs3 : Fs.t) :
  Fs.cwd fs2 = Fs.cwd fs1 ->
  keepsBut paths fs1 fs2 -> keepsBut paths fs2 fs3 -> keepsBut paths fs1 fs3.
Proof.
  intros Hc H12 H23 q text Hq Hp. apply H23; [now apply H12 |].
  unfold Fs.segsOf in *. rewrite Hc. exact Hp.
Qed.

Lemma pruned_refl (fs : Fs.t) : pruned fs fs.
Proof. split; [reflexivity | now intros H]. Qed.

Lemma pruned_trans (fs1 fs2 fs3 : Fs.t) :
  pruned fs1 fs2 -> pruned fs2 fs3 -> pruned fs1 fs3.
Proof.
  intros [Hc1 H1] [Hc2 H2]. split; [congruence |].
  intros Hs. destruct (H1 Hs) as [Hs2 Hsub1]. destruct (H2 Hs2) as [Hs3 Hsub2].
  split; [assumption |]. intros q Hq. now apply Hsub1, Hsub2.
Qed.

Lemma unlink_pruned (fs : Fs.t) (p : string) (r : Fs.node) :
  Fs.unlink (Fs.segsOf fs p) (Fs.root fs) = Some r ->
  pruned fs (Fs.mk (Fs.cwd fs) r)
  /\ (sound fs -> Fs.existsSync (Fs.mk (Fs.cwd fs) r) p = false).
Proof.
  intros Hu. split; [split; [reflexivity |] |].
  - intros [Hwf Hd]. destruct (unlink_wf _ _ _ Hwf Hu) as (Hwf' & _ & Hsub).
    split; [split; [exact Hwf' | now apply (unlink_returns_dir _ _ _ Hu)] |].
    intros q. unfold Fs.existsSync, Fs.stat, Fs.segsOf. cbn [Fs.cwd Fs.root].
    specialize (Hsub (resolveSegs (Fs.cwd fs) [q])).
    destruct (Fs.lookup r _); [| discriminate]. intros _.
    destruct (Fs.lookup (Fs.root fs) _); [reflexivity |].
    exfalso. now apply Hsub.
  - intros [Hwf _]. destruct (unlink_wf _ _ _ Hwf Hu) as (_ & Hgone & _).
    unfold Fs.existsSync, Fs.stat, Fs.segsOf in *. cbn [Fs.cwd Fs.root].
    now rewrite Hgone.
Qed.

Lemma rmdirSync_pruned (fs fs' : Fs.t) (p : string) :
  rmdirSync fs p = Some fs' -> pruned fs fs'.
Proof.
  unfold rmdirSync. destruct (Fs.stat fs p) as [[c|[|e es]]|]; try discriminate.
  destruct (Fs.unlink _ _) as [r|] eqn:Eu; [| discriminate].
  intros [= <-]. exact (proj1 (unlink_pruned fs p r Eu)).
Qed.

Lemma deleteFile_effect (fs fs1 : Fs.t) (p : string) (deleted : bool) :
  deleteFile fs p = (fs1, deleted) ->
  keepsBut [p] fs fs1 /\ pruned fs fs1
  /\ (deleted = true -> sound fs -> Fs.existsSync fs1 p = false)
  /\ (isFile fs p = true -> sound fs -> deleted = true).
Proof.
  unfold deleteFile, unlinkSync, isFile.
  destruct (Fs.stat fs p) as [[c|es]|] eqn:Es.
  - destruct (Fs.unlink (Fs.segsOf fs p) (Fs.root fs)) as [r|] eqn:Eu.
    + intros [= <- <-]. destruct (unlink_pruned fs p r Eu) as [Hp Hgone].
      split; [| split; [exact Hp | split; [intros _; exact Hgone | reflexivity]]].
      intros q text Hq Hne. unfold Fs.readFileSync, Fs.stat, Fs.segsOf in *.
      cbn [Fs.cwd Fs.root].
      apply (unlink_file_keeps _ _ _ c (resolveSegs (Fs.cwd fs) [q]) text Es Eu);
        [apply Hne; now left | exact Hq].
    + intros [= <- <-].
      split; [apply keepsBut_refl | split; [apply pruned_refl | split; [discriminate |]]].
      intros _ [_ Hd]. exfalso. unfold Fs.stat in Es.
      destruct (Fs.segsOf fs p) as [|s rest] eqn:Eseg.
      * cbn in Es. injection Es as Es. rewrite Es in Hd. discriminate.
      * destruct (unlink_succeeds (s :: rest) _ _ ltac:(discriminate) Es)
          as [n' Hn'].
        congruence.
  - intros [= <- <-].
    split; [apply keepsBut_refl | split; [apply pruned_refl | split; discriminate]].
  - intros [= <- <-].
    split; [apply keepsBut_refl | split; [apply pruned_refl | split; discriminate]].
Qed.

(** ** [removeEmptyDirectories] *)

Section Climb.
Variable R : Fs.t -> Fs.t -> Prop.
Hypothesis R_refl : forall fs, R fs fs.
Hypothesis R_trans : forall fs1 fs2 fs3, R fs1 fs2 -> R fs2 fs3 -> R fs1 fs3.
Hypothesis R_rmdir : forall fs p fs', rmdirSync fs p = Some fs' -> R fs fs'.

Lemma removeEmptyDirectories_dot (fuel : nat) (fs : Fs.t) (packageRoot : string) :
  1 <= fuel ->
  exists fs', removeEmptyDirectories fuel fs "." packageRoot = Done fs' /\ R fs fs'.
Proof.
  intros Hf. destruct fuel as [|fuel]; [lia |]. cbn [removeEmptyDirectories].
  destruct (String.eqb "." packageRoot); [now exists fs |].
  destruct (isDirectoryEmpty fs "."); [| now exists fs].
  destruct (rmdirSync fs ".") as [fs1|] eqn:E; [| now exists fs].
  change (dirname ".") with ".". rewrite String.eqb_refl. cbn [negb andb].
  exists fs1. split; [reflexivity | now apply (R_rmdir fs ".")].
Qed.

Lemma removeEmptyDirectories_climb (fuel : nat) :
  forall fs dirPath packageRoot,
    String.length dirPath + 2 <= fuel ->
    exists fs',
      removeEmptyDirectories fuel fs dirPath packageRoot = Done fs' /\ R fs fs'.
Proof.
  induction fuel as [|fuel IH]; intros fs dirPath packageRoot Hf; [lia |].
  cbn [removeEmptyDirectories].
  destruct (String.eqb dirPath packageRoot); [now exists fs |].
  destruct (isDirectoryEmpty fs dirPath); [| now exists fs].
  destruct (rmdirSync fs dirPath) as [fs1|] eqn:E; [| now exists fs].
  pose proof (R_rmdir fs dirPath fs1 E) as Hk.
  destruct (negb (String.eqb (dirname dirPath) dirPath)
            && startsWith (dirname dirPath) packageRoot) eqn:Eg;
    [| now exists fs1].
  apply andb_prop in Eg as [Hne _]. apply negb_true_iff, String.eqb_neq in Hne.
  assert (Hrec : exists fs',
             removeEmptyDirectories fuel fs1 (dirname dirPath) packageRoot = Done fs'
             /\ R fs1 fs').
  { destruct (dirname_up dirPath) as [H | [H | H]]; [congruence | |].
    - rewrite H. apply removeEmptyDirectories_dot. lia.
    - apply IH. lia. }
  destruct Hrec as (fs' & Hr & Hk'). exists fs'. split; [exact Hr |].
  now apply (R_trans fs fs1 fs').
Qed.

End Climb.

Lemma removeEmptyDirectories_safe (fuel : nat) (fs : Fs.t)
      (dirPath packageRoot : string) :
  String.length dirPath + 2 <= fuel ->
  exists fs',
    removeEmptyDirectories fuel fs dirPath packageRoot = Done fs'
    /\ (forall q text,
           Fs.readFileSync fs q = Some text -> Fs.readFileSync fs' q = Some text)
    /\ pruned fs fs'.
Proof.
  intros Hf.
  apply (removeEmptyDirectories_climb
           (fun a b => (forall q text,
                           Fs.readFileSync a q = Some text ->
                           Fs.readFileSync b q = Some text)
                       /\ pruned a b)); [| | | exact Hf].
  - intros a. split; [now intros | apply pruned_refl].
  - intros a b c [H1 H2] [H3 H4]. split; [| now apply (pruned_trans a b c)].
    intros q text Hq. now apply H3, H1.
  - intros a p b H. split; [now apply (rmdirSync_keeps a b p) |].
    now apply (rmdirSync_pruned a b p).
Qed.

(** X17 -- [removeEmptyDirectories] is safe.  A call returns (no exception
    leaves it, and the climb through [path.dirname] ends: two steps more
    than the path has characters are enough), and every file that could be
    read before it can be read after it, with the same text: what it
    removes are directories that [readdirSync] found empty. *)
Theorem removeEmptyDirectories_keeps_every_file (fuel : nat) (fs : Fs.t)
        (dirPath packageRoot : string) :
  String.length dirPath + 2 <= fuel ->
  exists fs',
    removeEmptyDirectories fuel fs dirPath packageRoot = Done fs'
    /\ forall q text,
         Fs.readFileSync fs q = Some text -> Fs.readFileSync fs' q = Some text.
Proof.
  intros Hf.
  destruct (removeEmptyDirectories_safe fuel fs dirPath packageRoot Hf)
    as (fs' & H1 & H2 & _).
  now exists fs'.
Qed.

Lemma removeEmptyDirectories_keeps_every_file_witness :
  exists fs',
    removeEmptyDirectories 12 Scenario.withEmptyDirs "/p/src/a/b" "/p" = Done fs'
    /\ fs' = Scenario.withoutEmptyDirs
    /\ forall q text,
         Fs.readFileSync Scenario.withEmptyDirs q = Some text ->
         Fs.readFileSync fs' q = Some text.
Proof.
  destruct (removeEmptyDirectories_keeps_every_file 12 Scenario.withEmptyDirs
              "/p/src/a/b" "/p") as (fs' & H1 & H2); [vm_compute; lia |].
  exists fs'. split; [exact H1 |]. split; [| exact H2].
  vm_compute in H1. now injection H1 as <-.
Defined.

(** ** The deletion loop of [main] *)

Lemma isFile_read (fs : Fs.t) (p : string) :
  isFile fs p = true <-> exists text, Fs.readFileSync fs p = Some text.
Proof.
  unfold isFile, Fs.readFileSync. destruct (Fs.stat fs p) as [[c|es]|]; split;
    try discriminate; try (intros [text H]; discriminate); try reflexivity.
  intros _. now exists c.
Qed.

Lemma isFile_exists (fs : Fs.t) (p : string) :
  isFile fs p = true -> Fs.existsSync fs p = true.
Proof.
  unfold isFile, Fs.existsSync. now destruct (Fs.stat fs p) as [[c|es]|].
Qed.

Lemma pruned_gone (fs fs' : Fs.t) (q : string) :
  sound fs -> pruned fs fs' ->
  Fs.existsSync fs q = false -> Fs.existsSync fs' q = false.
Proof.
  intros Hs [_ H] Hq. destruct (H Hs) as [_ Hsub].
  destruct (Fs.existsSync fs' q) eqn:E; [| reflexivity].
  apply Hsub in E. congruence.
Qed.

Lemma existsSync_same_segs (fs fs' : Fs.t) (p p' : string) :
  Fs.cwd fs' = Fs.cwd fs -> Fs.segsOf fs p' = Fs.segsOf fs p ->
  Fs.existsSync fs' p' = Fs.existsSync fs' p.
Proof.
  unfold Fs.existsSync, Fs.stat, Fs.segsOf. intros -> H. now rewrite H.
Qed.

Lemma isFile_same_segs (fs : Fs.t) (p p' : string) :
  Fs.segsOf fs p' = Fs.segsOf fs p -> isFile fs p' = isFile fs p.
Proof. unfold isFile, Fs.stat. now intros ->. Qed.

Lemma deleteSources_effect (absolutePackagePath : string) :
  forall sourceFiles fs deletedCount,
  exists fs' deletedCount',
    deleteSources absolutePackagePath sourceFiles fs deletedCount
    = Done (fs', deletedCount')
    /\ deletedCount <= deletedCount' <= deletedCount + List.length sourceFiles
    /\ keepsBut sourceFiles fs fs'
    /\ pruned fs fs'
    /\ (sound fs ->
        forall p,
          In p sourceFiles -> isFile fs p = true ->
          (endsWith p ".test.ts" || endsWith p ".spec.ts") = false ->
          String.eqb (basename p) "vitest.config.ts" = false ->
          Fs.existsSync fs' p = false).
Proof.
  induction sourceFiles as [|p rest IH]; intros fs deletedCount.
  - exists fs, deletedCount. split; [reflexivity |]. split; [cbn; lia |].
    split; [apply keepsBut_refl |]. split; [apply pruned_refl |].
    intros _ p [].
  - cbn [deleteSources List.length].
    assert (Hskip :
              (forall p', In p' (p :: rest) -> isFile fs p' = true ->
                          (endsWith p' ".test.ts" || endsWith p' ".spec.ts") = false ->
                          String.eqb (basename p') "vitest.config.ts" = false ->
                          p' = p -> False) ->
              exists fs' deletedCount',
                deleteSources absolutePackagePath rest fs deletedCount
                = Done (fs', deletedCount')
                /\ deletedCount <= deletedCount' <= deletedCount + S (List.length rest)
                /\ keepsBut (p :: rest) fs fs'
                /\ pruned fs fs'
                /\ (sound fs ->
                    forall p',
                      In p' (p :: rest) -> isFile fs p' = true ->
                      (endsWith p' ".test.ts" || endsWith p' ".spec.ts") = false ->
                      String.eqb (basename p') "vitest.config.ts" = false ->
                      Fs.existsSync fs' p' = false)).
    { intros Hno. destruct (IH fs deletedCount) as (fs' & c' & H1 & H2 & H3 & H4 & H5).
      exists fs', c'. split; [exact H1 |]. split; [lia |].
      split; [apply (keepsBut_more rest); [apply incl_tl, incl_refl | exact H3] |].
      split; [exact H4 |].
      intros Hs p' [<- | Hin] Hf Hg1 Hg2.
      - exfalso. apply (Hno p); try assumption; [now left | reflexivity].
      - now apply H5. }
    destruct (endsWith p ".test.ts" || endsWith p ".spec.ts") eqn:Eg1;
      [apply Hskip; intros p' _ _ Hg _ ->; congruence |].
    destruct (String.eqb (basename p) "vitest.config.ts") eqn:Eg2;
      [apply Hskip; intros p' _ _ _ Hg ->; congruence |].
    destruct (Fs.existsSync fs p) eqn:Ee; cbn [negb];
      [| apply Hskip; intros p' _ Hf _ _ ->; apply isFile_exists in Hf; congruence].
    clear Hskip.
    destruct (deleteFile fs p) as [fs1 deleted] eqn:Ed.
    destruct (deleteFile_effect fs fs1 p deleted Ed) as (Hk1 & Hp1 & Hgone & Hdel).
    assert (Hstep : exists fs2 n,
               (if deleted
                then match removeEmptyDirectories (String.length (dirname p) + 2)
                             fs1 (dirname p) absolutePackagePath with
                     | Done fs2 =>
                         deleteSources absolutePackagePath rest fs2 (S deletedCount)
                     | Threw => Threw
                     | OutOfFuel => OutOfFuel
                     end
                else deleteSources absolutePackagePath rest fs1 deletedCount)
               = deleteSources absolutePackagePath rest fs2 n
               /\ deletedCount <= n <= S deletedCount
               /\ (forall q text,
                      Fs.readFileSync fs1 q = Some text ->
                      Fs.readFileSync fs2 q = Some text)
               /\ pruned fs1 fs2).
    { destruct deleted.
      - destruct (removeEmptyDirectories_safe (String.length (dirname p) + 2) fs1
                    (dirname p) absolutePackagePath (Nat.le_refl _))
          as (fs2 & -> & Hk2 & Hp2).
        exists fs2, (S deletedCount). split; [reflexivity |]. split; [lia |].
        split; assumption.
      - exists fs1, deletedCount. split; [reflexivity |]. split; [lia |].
        split; [now intros | apply pruned_refl]. }
    destruct Hstep as (fs2 & n & -> & Hn & Hk2 & Hp2).
    destruct (IH fs2 n) as (fs' & c' & H1 & H2 & H3 & H4 & H5).
    pose proof (pruned_trans _ _ _ Hp1 Hp2) as Hp12.
    assert (Hcwd : Fs.cwd fs2 = Fs.cwd fs) by apply Hp12.
    exists fs', c'. split; [exact H1 |]. split; [lia |].
    split; [| split; [now apply (pruned_trans fs fs2 fs') |]].
    + intros q text Hq Hne. apply H3.
      * apply Hk2, Hk1; [assumption |].
        intros p0 [<- | []]. apply Hne. now left.
      * intros p0 Hin. unfold Fs.segsOf. rewrite Hcwd. apply Hne. now right.
    + intros Hs p' Hin Hf Hg1 Hg2.
      assert (Hs2 : sound fs2) by (now apply Hp12).
      assert (Hhead : isFile fs p = true -> Fs.existsSync fs' p = false).
      { intros Hfp. apply (pruned_gone fs2 fs' p Hs2 H4).
        apply (pruned_gone fs1 fs2 p); [now apply Hp1 | assumption |].
        apply Hgone; [now apply Hdel | assumption]. }
      destruct (list_eq_dec string_dec (Fs.segsOf fs p') (Fs.segsOf fs p)) as [Heq | Hne].
      * rewrite (existsSync_same_segs fs fs' p p');
          [| transitivity (Fs.cwd fs2); [apply H4 | exact Hcwd] | exact Heq].
        apply Hhead. now rewrite <- (isFile_same_segs fs p p' Heq).
      * destruct Hin as [<- | Hin]; [congruence |].
        apply H5; try assumption.
        apply isFile_read. apply isFile_read in Hf as [text Hf].
        exists text. apply Hk2, Hk1; [assumption |].
        now intros p0 [<- | []].
Qed.

(** X18 -- What the deletion loop of [main] deletes.  The loop returns,
    whatever the list and the file system.  Every file that is at none
    of the listed paths keeps its text; the counter grows by at most one
    for each path; and, on a well-formed tree below a root directory,
    every listed path that was a file and passes the two tests on its
    name (neither a test nor a spec file, not [vitest.config.ts]) does not
    exist afterwards, and nothing exists afterwards that did not exist
    before. *)
Theorem deletion_loop_deletes_the_listed_files (absolutePackagePath : string)
        (sourceFiles : list string) (fs : Fs.t) (deletedCount : nat) :
  exists fs' deletedCount',
    deleteSources absolutePackagePath sourceFiles fs deletedCount
    = Done (fs', deletedCount')
    /\ deletedCount <= deletedCount' <= deletedCount + List.length sourceFiles
    /\ (forall q text,
           Fs.readFileSync fs q = Some text ->
           (forall p, In p sourceFiles -> Fs.segsOf fs q <> Fs.segsOf fs p) ->
           Fs.readFileSync fs' q = Some text)
    /\ (wellFormed (Fs.root fs) = true -> Fs.isDir (Fs.root fs) = true ->
        (forall p,
            In p sourceFiles -> isFile fs p = true ->
            (endsWith p ".test.ts" || endsWith p ".spec.ts") = false ->
            String.eqb (basename p) "vitest.config.ts" = false ->
            Fs.existsSync fs' p = false)
        /\ (forall q, Fs.existsSync fs' q = true -> Fs.existsSync fs q = true)).
Proof.
  destruct (deleteSources_effect absolutePackagePath sourceFiles fs deletedCount)
    as (fs' & c' & H1 & H2 & H3 & H4 & H5).
  exists fs', c'. split; [exact H1 |]. split; [exact H2 |]. split; [exact H3 |].
  intros Hwf Hd. split; [apply H5; now split |].
  destruct H4 as [_ H4]. now apply H4.
Qed.

(** ** [cleanupEmptyDirs] *)

Lemma height_Dir_le (es : list (string * Fs.node)) (h : nat) :
  height (Fs.Dir es) <= S h <-> Forall (fun e => height (snd e) <= h) es.
Proof.
  induction es as [|[k c] es IH].
  - split; [constructor | cbn; lia].
  - rewrite height_cons. split.
    + intros H. constructor; [cbn [snd]; lia |]. apply IH.
      destruct es as [|e es']; [cbn; lia |]. 
      assert (height (Fs.Dir (e :: es')) >= 1) by (destruct e; rewrite height_cons; lia).
      lia.
    + intros H. inversion H as [|? ? Hc Hes]; subst. cbn [snd] in Hc.
      apply IH in Hes. lia.
Qed.

Lemma height_Dir_pos (es : list (string * Fs.node)) : 1 <= height (Fs.Dir es).
Proof. destruct es as [|[k c] es]; [cbn; lia | rewrite height_cons; lia]. Qed.

Lemma height_entry (es : list (string * Fs.node)) (k : string) (c : Fs.node) :
  In (k, c) es -> height c < height (Fs.Dir es).
Proof.
  intros Hin.
  assert (H : height (Fs.Dir es) <= S (Nat.pred (height (Fs.Dir es))))
    by (pose proof (height_Dir_pos es); lia).
  apply height_Dir_le in H.
  apply (proj1 (Forall_forall _ _) H) in Hin. cbn [snd] in Hin.
  pose proof (height_Dir_pos es). lia.
Qed.

Lemma In_removeEntry (s : string) (e : string * Fs.node)
      (es : list (string * Fs.node)) :
  In e (Fs.removeEntry s es) -> In e es.
Proof.
  induction es as [|[k c] es IH]; [now intros |]. cbn [Fs.removeEntry].
  destruct (String.eqb k s); [intros H; now right |].
  intros [<- | H]; [now left | right; now apply IH].
Qed.

Lemma In_setEntry (s : string) (v : Fs.node) (e : string * Fs.node)
      (es : list (string * Fs.node)) :
  In e (Fs.setEntry s v es) -> In e es \/ snd e = v.
Proof.
  induction es as [|[k c] es IH]; cbn [Fs.setEntry].
  - intros [<- | []]. now right.
  - destruct (String.eqb k s).
    + intros [<- | H]; [now right | left; now right].
    + intros [<- | H]; [left; now left |].
      destruct (IH H) as [H1 | H1]; [left; now right | now right].
Qed.

Lemma height_removeEntry (s : string) (es : list (string * Fs.node)) :
  height (Fs.Dir (Fs.removeEntry s es)) <= height (Fs.Dir es).
Proof.
  pose proof (height_Dir_pos es) as Hpos.
  replace (height (Fs.Dir es)) with (S (Nat.pred (height (Fs.Dir es)))) by lia.
  apply height_Dir_le, Forall_forall. intros [k c] Hin. cbn [snd].
  apply In_removeEntry in Hin. apply height_entry in Hin. lia.
Qed.

Lemma height_setEntry (s : string) (c c' : Fs.node) (es : list (string * Fs.node)) :
  Fs.assoc s es = Some c -> height c' <= height c ->
  height (Fs.Dir (Fs.setEntry s c' es)) <= height (Fs.Dir es).
Proof.
  intros Ha Hc. pose proof (height_Dir_pos es) as Hpos.
  pose proof (height_entry es s c (assoc_In _ _ _ Ha)) as Hlt.
  replace (height (Fs.Dir es)) with (S (Nat.pred (height (Fs.Dir es)))) by lia.
  apply height_Dir_le, Forall_forall. intros [k x] Hin. cbn [snd].
  destruct (In_setEntry _ _ _ _ Hin) as [H | H].
  - apply height_entry in H. lia.
  - cbn [snd] in H. subst x. lia.
Qed.

Lemma unlink_lower (segs : list string) :
  forall n n',
    wellFormed n = true -> Fs.unlink segs n = Some n' ->
    forall q x',
      Fs.lookup n' q = Some x' ->
      exists x, Fs.lookup n q = Some x /\ height x' <= height x.
Proof.
  induction segs as [|s rest IH]; intros n n' Hwf Hu; [discriminate |].
  destruct n as [c|es]; [discriminate |]. cbn [Fs.unlink] in Hu.
  destruct (Fs.assoc s es) as [c|] eqn:Ea; [| discriminate].
  destruct (wellFormed_entry es s c Hwf (assoc_In _ _ _ Ea)) as (_ & _ & Hwfc & _).
  destruct rest as [|s2 rest2].
  - injection Hu as <-. intros [|s' r] x' Hq.
    + injection Hq as <-. exists (Fs.Dir es). split; [reflexivity |].
      apply height_removeEntry.
    + cbn [Fs.lookup] in *. destruct (String.eqb_spec s' s) as [-> | Hne].
      * rewrite assoc_removeEntry_same in Hq by assumption. discriminate.
      * rewrite assoc_removeEntry_other in Hq by assumption.
        exists x'. split; [exact Hq | lia].
  - destruct (Fs.unlink (s2 :: rest2) c) as [c'|] eqn:Eu; [| discriminate].
    injection Hu as <-. specialize (IH c c' Hwfc Eu).
    intros [|s' r] x' Hq.
    + injection Hq as <-. exists (Fs.Dir es). split; [reflexivity |].
      apply (height_setEntry s c c' es Ea).
      destruct (IH [] c' eq_refl) as (x & Hx & Hle). now injection Hx as <-.
    + cbn [Fs.lookup] in *. destruct (String.eqb_spec s' s) as [-> | Hne].
      * rewrite assoc_setEntry_same in Hq. rewrite Ea. now apply IH.
      * rewrite assoc_setEntry_other in Hq by assumption.
        exists x'. split; [exact Hq | lia].
Qed.

Lemma rmdirSync_settled (fs fs' : Fs.t) (p : string) :
  rmdirSync fs p = Some fs' -> settled fs fs'.
Proof.
  intros H. split; [exact (rmdirSync_keeps fs fs' p H) |].
  split; [exact (rmdirSync_pruned fs fs' p H) |].
  intros [Hwf _]. unfold rmdirSync in H.
  destruct (Fs.stat fs p) as [[c|[|e es]]|]; try discriminate.
  destruct (Fs.unlink _ _) as [r|] eqn:Eu; [| discriminate].
  injection H as <-. intros segs n'. cbn [Fs.root].
  now apply (unlink_lower _ _ _ Hwf Eu).
Qed.

Lemma settled_refl (fs : Fs.t) : settled fs fs.
Proof.
  split; [now intros q text | split; [apply pruned_refl |]].
  intros _ segs n' H. exists n'. split; [exact H | lia].
Qed.

Lemma settled_trans (fs1 fs2 fs3 : Fs.t) :
  settled fs1 fs2 -> settled fs2 fs3 -> settled fs1 fs3.
Proof.
  intros (Hk1 & Hp1 & Hl1) (Hk2 & Hp2 & Hl2).
  split; [intros q text Hq; now apply Hk2, Hk1 |].
  split; [now apply (pruned_trans fs1 fs2 fs3) |].
  intros Hs segs n3 H3.
  assert (Hs2 : sound fs2) by (now apply Hp1).
  destruct (Hl2 Hs2 segs n3 H3) as (n2 & H2 & Hle2).
  destruct (Hl1 Hs segs n2 H2) as (n1 & H1 & Hle1).
  exists n1. split; [exact H1 | lia].
Qed.

Lemma removeEmptyDirectories_settled (fuel : nat) (fs : Fs.t)
      (dirPath packageRoot : string) :
  String.length dirPath + 2 <= fuel ->
  exists fs',
    removeEmptyDirectories fuel fs dirPath packageRoot = Done fs' /\ settled fs fs'.
Proof.
  apply (removeEmptyDirectories_climb settled settled_refl settled_trans
           (fun a p b => rmdirSync_settled a b p)).
Qed.

Lemma lookup_wellFormed (segs : list string) :
  forall n x,
    wellFormed n = true -> Fs.lookup n segs = Some x -> wellFormed x = true.
Proof.
  induction segs as [|s rest IH]; intros n x Hwf H; [now injection H as <- |].
  destruct n as [c|es]; [discriminate |]. cbn [Fs.lookup] in H.
  destruct (Fs.assoc s es) as [c|] eqn:Ea; [| discriminate].
  destruct (wellFormed_entry es s c Hwf (assoc_In _ _ _ Ea)) as (_ & _ & Hc & _).
  now apply (IH c x).
Qed.

Lemma lookup_height (segs : list string) :
  forall n x, Fs.lookup n segs = Some x -> height x <= height n.
Proof.
  induction segs as [|s rest IH]; intros n x H; [injection H as <-; lia |].
  destruct n as [c|es]; [discriminate |]. cbn [Fs.lookup] in H.
  destruct (Fs.assoc s es) as [c|] eqn:Ea; [| discriminate].
  pose proof (height_entry es s c (assoc_In _ _ _ Ea)).
  specialize (IH c x H). lia.
Qed.

Lemma cleanupEntries_settled (fuel : nat) (absolutePackagePath : string)
      (segs : list string) (fs0 : Fs.t) (es0 : list (string * Fs.node)) :
  Forall (fun x => plainSeg x = true) segs ->
  sound fs0 ->
  Fs.lookup (Fs.root fs0) segs = Some (Fs.Dir es0) ->
  height (Fs.Dir es0) <= S fuel ->
  (forall fs segs',
      sound fs -> Forall (fun x => plainSeg x = true) segs' ->
      1 <= fuel ->
      (forall n, Fs.lookup (Fs.root fs) segs' = Some n -> height n <= fuel) ->
      exists fs',
        cleanupEmptyDirs fuel absolutePackagePath fs (canon segs') = Done fs'
        /\ settled fs fs') ->
  forall es fs,
    incl es es0 -> settled fs0 fs ->
    exists fs',
      cleanupEntries (cleanupEmptyDirs fuel absolutePackagePath) (canon segs)
        (map (fun e => (fst e, Fs.isDir (snd e))) es) fs = Done fs'
      /\ settled fs0 fs'.
Proof.
  intros Hsegs Hs0 Hl0 Hh IHfuel.
  assert (Hwf0 : wellFormed (Fs.Dir es0) = true)
    by (apply (lookup_wellFormed segs (Fs.root fs0)); [apply Hs0 | exact Hl0]).
  induction es as [|[k c] es IH]; intros fs Hincl Hset; [now exists fs |].
  assert (Hin : In (k, c) es0) by (apply Hincl; now left).
  assert (Hincl' : incl es es0) by (intros e He; apply Hincl; now right).
  destruct (wellFormed_entry es0 k c Hwf0 Hin) as (Ha & Hk & Hc & Hlt).
  cbn [map fst snd cleanupEntries].
  destruct (String.eqb k "node_modules" || String.eqb k "dist"
            || String.eqb k ".git"); [now apply IH |].
  destruct c as [text|esc]; cbn [Fs.isDir]; [now apply IH |].
  rewrite (joinPaths_canon segs k Hsegs Hk).
  pose proof Hset as (Hk0 & Hp0 & Hlow0).
  assert (Hsfs : sound fs) by (now apply Hp0).
  destruct (IHfuel fs (segs ++ [k])%list Hsfs) as (fs1 & Hrun & Hset1).
  - apply Forall_app. split; [assumption | now constructor].
  - pose proof (height_Dir_pos esc). lia.
  - intros n Hn. destruct (Hlow0 Hs0 _ _ Hn) as (n0 & Hn0 & Hle).
    rewrite lookup_app, Hl0 in Hn0. cbn [Fs.lookup] in Hn0.
    rewrite Ha in Hn0. injection Hn0 as <-. lia.
  - rewrite Hrun. apply IH; [assumption |].
    apply (settled_trans fs0 fs fs1); assumption.
Qed.

Lemma cleanupEmptyDirs_settled (fuel : nat) (absolutePackagePath : string) :
  forall fs segs,
    sound fs -> Forall (fun x => plainSeg x = true) segs ->
    1 <= fuel ->
    (forall n, Fs.lookup (Fs.root fs) segs = Some n -> height n <= fuel) ->
    exists fs',
      cleanupEmptyDirs fuel absolutePackagePath fs (canon segs) = Done fs'
      /\ settled fs fs'.
Proof.
  induction fuel as [|fuel IH]; intros fs segs Hs Hsegs Hf Hh; [lia |].
  cbn [cleanupEmptyDirs]. rewrite (readdirSync_canon fs segs Hsegs).
  destruct (Fs.lookup (Fs.root fs) segs) as [[text|es]|] eqn:El;
    try (exists fs; split; [reflexivity | apply settled_refl]).
  destruct (cleanupEntries_settled fuel absolutePackagePath segs fs es Hsegs Hs El
              (Hh _ eq_refl) IH es fs (incl_refl _) (settled_refl fs))
    as (fs1 & -> & Hset1).
  destruct (negb (String.eqb (canon segs) absolutePackagePath)
            && isDirectoryEmpty fs1 (canon segs)); [| now exists fs1].
  destruct (removeEmptyDirectories_settled (String.length (canon segs) + 2) fs1
              (canon segs) absolutePackagePath (Nat.le_refl _))
    as (fs' & -> & Hset').
  exists fs'. split; [reflexivity |]. now apply (settled_trans fs fs1 fs').
Qed.

(** X23 -- The final cleanup is safe.  On a file system with a well-formed
    tree below a root directory, [cleanupEmptyDirs] called on the resolved
    package path returns as soon as the fuel covers the height of the
    tree: no exception leaves it.  Every file that could be read before
    can be read after it with the same text, and what exists afterwards
    existed before. *)
Theorem cleanupEmptyDirs_keeps_every_file (fuel : nat) (fs : Fs.t)
        (packagePath : string) :
  wellFormed (Fs.root fs) = true -> Fs.isDir (Fs.root fs) = true ->
  height (Fs.root fs) <= fuel ->
  exists fs',
    cleanupEmptyDirs fuel (resolve (Fs.cwd fs) [packagePath]) fs
      (resolve (Fs.cwd fs) [packagePath]) = Done fs'
    /\ (forall q text,
           Fs.readFileSync fs q = Some text -> Fs.readFileSync fs' q = Some text)
    /\ (forall q, Fs.existsSync fs' q = true -> Fs.existsSync fs q = true).
Proof.
  intros Hwf Hd Hh.
  assert (Hs : sound fs) by (now split).
  assert (Hpos : 1 <= fuel).
  { destruct (Fs.root fs) as [c|es]; [discriminate |].
    pose proof (height_Dir_pos es). lia. }
  destruct (cleanupEmptyDirs_settled fuel (resolve (Fs.cwd fs) [packagePath]) fs
              (resolveSegs (Fs.cwd fs) [packagePath]) Hs
              (resolveSegs_plain _ _) Hpos) as (fs' & Hrun & Hk & Hp & _).
  - intros n Hn. pose proof (lookup_height _ _ _ Hn). lia.
  - exists fs'. rewrite resolve_canon at 2. split; [exact Hrun |].
    split; [exact Hk |]. destruct Hp as [_ Hp]. now apply Hp.
Qed.

Lemma cleanupEmptyDirs_keeps_every_file_witness :
  exists fs',
    cleanupEmptyDirs 6 "/p" Scenario.withEmptyDirs "/p" = Done fs'
    /\ fs' = Scenario.withoutEmptyDirs
    /\ (forall q text,
           Fs.readFileSync Scenario.withEmptyDirs q = Some text ->
           Fs.readFileSync fs' q = Some text)
    /\ (forall q, Fs.existsSync fs' q = true ->
                  Fs.existsSync Scenario.withEmptyDirs q = true).
Proof.
  destruct (cleanupEmptyDirs_keeps_every_file 6 Scenario.withEmptyDirs "p")
    as (fs' & H1 & H2 & H3); [reflexivity | reflexivity | vm_compute; lia |].
  exists fs'. split; [exact H1 |]. split; [| now split].
  vm_compute in H1. now injection H1 as <-.
Defined.

End CleanupFacts.

(* ===================================================================== *)
(** * Deleting the directories of the cucumber tests *)
(* ===================================================================== *)

Module TestDirFacts.
Import JsString Path Script Anonymizer Notions Frame Walk Tests.
Import StringFacts PathFacts FrameFacts FinderFacts CleanupFacts.

(** ** Replacing and removing below a directory *)

Lemma setEntry_same (s : string) (v : Fs.node) (es : list (string * Fs.node)) :
  Fs.assoc s es = Some v -> Fs.setEntry s v es = es.
Proof.
  induction es as [|[k c] es IH]; [discriminate |]. cbn [Fs.assoc Fs.setEntry].
  destruct (String.eqb k s); [now intros [= ->] |].
  intros H. now rewrite IH.
Qed.

Lemma setEntry_twice (s : string) (v w : Fs.node) (es : list (string * Fs.node)) :
  Fs.setEntry s v (Fs.setEntry s w es) = Fs.setEntry s v es.
Proof.
  induction es as [|[k c] es IH]; cbn [Fs.setEntry].
  - now rewrite String.eqb_refl.
  - destruct (String.eqb k s) eqn:E; cbn [Fs.setEntry]; rewrite E;
      [reflexivity | now rewrite IH].
Qed.

Lemma place_same (segs : list string) :
  forall n v, Fs.lookup n segs = Some v -> Fs.place segs v n = Some n.
Proof.
  induction segs as [|s rest IH]; intros n v H; [now injection H as -> |].
  destruct n as [c|es]; [discriminate |]. cbn [Fs.lookup Fs.place] in *.
  destruct (Fs.assoc s es) as [c|] eqn:Ea; [| discriminate].
  destruct rest as [|s2 rest2].
  - injection H as ->. now rewrite (setEntry_same s v es Ea).
  - rewrite (IH c v H). now rewrite (setEntry_same s c es Ea).
Qed.

Lemma place_exists (segs : list string) (v : Fs.node) :
  forall n x, Fs.lookup n segs = Some x -> exists r, Fs.place segs v n = Some r.
Proof.
  induction segs as [|s rest IH]; intros n x H; [now eexists |].
  destruct n as [c|es]; [discriminate |]. cbn [Fs.lookup Fs.place] in *.
  destruct (Fs.assoc s es) as [c|] eqn:Ea; [| discriminate].
  destruct rest as [|s2 rest2]; [now eexists |].
  destruct (IH c x H) as [r ->]. now eexists.
Qed.

Lemma place_cons2 (s s2 : string) (rest : list string) (v : Fs.node)
      (es : list (string * Fs.node)) :
  Fs.place (s :: s2 :: rest) v (Fs.Dir es)
  = match Fs.assoc s es with
    | Some c =>
        match Fs.place (s2 :: rest) v c with
        | Some c' => Some (Fs.Dir (Fs.setEntry s c' es))
        | None => None
        end
    | None => None
    end.
Proof. reflexivity. Qed.

Lemma place_twice (segs : list string) (v w : Fs.node) :
  forall n r, Fs.place segs w n = Some r -> Fs.place segs v r = Fs.place segs v n.
Proof.
  induction segs as [|s rest IH]; intros n r H; [reflexivity |].
  destruct n as [c|es]; [discriminate |].
  destruct rest as [|s2 rest2].
  - cbn [Fs.place] in H. injection H as <-. cbn [Fs.place].
    now rewrite setEntry_twice.
  - rewrite place_cons2 in H.
    destruct (Fs.assoc s es) as [c|] eqn:Ea; [| discriminate].
    destruct (Fs.place (s2 :: rest2) w c) as [c'|] eqn:Ep; [| discriminate].
    injection H as <-. rewrite !place_cons2, assoc_setEntry_same, Ea.
    rewrite (IH c c' Ep). destruct (Fs.place (s2 :: rest2) v c); [| reflexivity].
    now rewrite setEntry_twice.
Qed.

(** Putting an entry into a directory is replacing the directory. *)
Lemma place_snoc (segs : list string) (k : string) (v : Fs.node) :
  forall n es,
    Fs.lookup n segs = Some (Fs.Dir es) ->
    Fs.place (segs ++ [k]) v n = Fs.place segs (Fs.Dir (Fs.setEntry k v es)) n.
Proof.
  induction segs as [|s rest IH]; intros n es H.
  - injection H as ->. reflexivity.
  - destruct n as [c|es0]; [discriminate |]. cbn [Fs.lookup] in H.
    destruct (Fs.assoc s es0) as [c0|] eqn:Ea; [| discriminate].
    cbn [app Fs.place]. rewrite Ea.
    destruct rest as [|s2 rest2].
    + cbn [app]. injection H as ->. reflexivity.
    + cbn [app]. change (s2 :: (rest2 ++ [k]))%list with ((s2 :: rest2) ++ [k])%list.
      now rewrite (IH c0 es H).
Qed.

(** Taking an entry out of a directory is replacing the directory. *)
Lemma unlink_snoc (segs : list string) (k : string) :
  forall n es c,
    Fs.lookup n segs = Some (Fs.Dir es) -> Fs.assoc k es = Some c ->
    Fs.unlink (segs ++ [k]) n = Fs.place segs (Fs.Dir (Fs.removeEntry k es)) n.
Proof.
  induction segs as [|s rest IH]; intros n es c H Hk.
  - injection H as ->. cbn [app Fs.unlink Fs.place]. now rewrite Hk.
  - destruct n as [c1|es0]; [discriminate |]. cbn [Fs.lookup] in H.
    destruct (Fs.assoc s es0) as [c0|] eqn:Ea; [| discriminate].
    cbn [app Fs.unlink Fs.place]. rewrite Ea.
    destruct rest as [|s2 rest2].
    + cbn [app]. injection H as ->. cbn [Fs.unlink]. now rewrite Hk.
    + cbn [app]. change (s2 :: (rest2 ++ [k]))%list with ((s2 :: rest2) ++ [k])%list.
      now rewrite (IH c0 es c H Hk).
Qed.

(** ** Lists of entries with distinct names *)

Lemma assoc_middle (k : string) (c : Fs.node) (done todo : list (string * Fs.node)) :
  ~ In k (map fst done) -> Fs.assoc k (done ++ (k, c) :: todo) = Some c.
Proof.
  induction done as [|[k0 c0] done IH]; intros H; cbn [app Fs.assoc].
  - now rewrite String.eqb_refl.
  - destruct (String.eqb_spec k0 k) as [-> | _]; [exfalso; apply H; now left |].
    apply IH. intros Hin. apply H. now right.
Qed.

Lemma removeEntry_middle (k : string) (c : Fs.node)
      (done todo : list (string * Fs.node)) :
  ~ In k (map fst done) ->
  Fs.removeEntry k (done ++ (k, c) :: todo) = (done ++ todo)%list.
Proof.
  induction done as [|[k0 c0] done IH]; intros H; cbn [app Fs.removeEntry].
  - now rewrite String.eqb_refl.
  - destruct (String.eqb_spec k0 k) as [-> | _]; [exfalso; apply H; now left |].
    rewrite IH; [reflexivity |]. intros Hin. apply H. now right.
Qed.

Lemma setEntry_middle (k : string) (c v : Fs.node)
      (done todo : list (string * Fs.node)) :
  ~ In k (map fst done) ->
  Fs.setEntry k v (done ++ (k, c) :: todo) = (done ++ (k, v) :: todo)%list.
Proof.
  induction done as [|[k0 c0] done IH]; intros H; cbn [app Fs.setEntry].
  - now rewrite String.eqb_refl.
  - destruct (String.eqb_spec k0 k) as [-> | _]; [exfalso; apply H; now left |].
    rewrite IH; [reflexivity |]. intros Hin. apply H. now right.
Qed.

Lemma NoDup_middle (k : string) (c : Fs.node) (done todo : list (string * Fs.node)) :
  NoDup (map fst (done ++ (k, c) :: todo)) ->
  ~ In k (map fst done) /\ NoDup (map fst (done ++ todo)).
Proof.
  rewrite !map_app. cbn [map fst]. intros H. split.
  - intros Hin. apply NoDup_remove_2 in H. apply H, in_or_app. now left.
  - now apply NoDup_remove_1 in H.
Qed.

Lemma wellFormed_NoDup (es : list (string * Fs.node)) :
  wellFormed (Fs.Dir es) = true -> NoDup (map fst es).
Proof.
  induction es as [|[k c] es IH]; intros H; [constructor |].
  destruct (wellFormed_inv _ _ _ H) as (_ & Hfresh & _ & Hes).
  cbn [map fst]. constructor; [| now apply IH].
  intros Hin. assert (existsb (String.eqb k) (map fst es) = true); [| congruence].
  apply existsb_exists. exists k. split; [assumption | apply String.eqb_refl].
Qed.

(** ** The loop and the function *)

Lemma entriesWithoutTests_cons (k : string) (c : Fs.node)
      (es : list (string * Fs.node)) :
  entriesWithoutTests ((k, c) :: es)
  = match c with
    | Fs.Dir _ =>
        if String.eqb k "test" then entriesWithoutTests es
        else if keptFromTestDeletion k then (k, c) :: entriesWithoutTests es
        else (k, withoutTests c) :: entriesWithoutTests es
    | Fs.File _ => (k, c) :: entriesWithoutTests es
    end.
Proof.
  unfold entriesWithoutTests. cbn [withoutTests].
  destruct c as [text|esc]; [reflexivity |].
  destruct (String.eqb k "test"); [reflexivity |].
  now destruct (keptFromTestDeletion k).
Qed.

Lemma withoutTests_Dir (es : list (string * Fs.node)) :
  withoutTests (Fs.Dir es) = Fs.Dir (entriesWithoutTests es).
Proof. reflexivity. Qed.

Lemma mk_eta (fs : Fs.t) : Fs.mk (Fs.cwd fs) (Fs.root fs) = fs.
Proof. now destruct fs. Qed.

Lemma deleteTestEntries_exact (fuel : nat) (segs : list string) :
  Forall (fun x => plainSeg x = true) segs ->
  (forall fs segs' es,
      Forall (fun x => plainSeg x = true) segs' ->
      Fs.lookup (Fs.root fs) segs' = Some (Fs.Dir es) ->
      wellFormed (Fs.Dir es) = true -> height (Fs.Dir es) <= fuel ->
      exists r,
        Fs.place segs' (withoutTests (Fs.Dir es)) (Fs.root fs) = Some r
        /\ deleteTestDirectories fuel fs (canon segs') = Done (Fs.mk (Fs.cwd fs) r)) ->
  forall todo done fs,
    Fs.lookup (Fs.root fs) segs = Some (Fs.Dir (done ++ todo)) ->
    NoDup (map fst (done ++ todo)) ->
    Forall (fun e => plainSeg (fst e) = true /\ wellFormed (snd e) = true
                     /\ height (snd e) <= fuel) todo ->
    exists r,
      Fs.place segs (Fs.Dir (done ++ entriesWithoutTests todo)) (Fs.root fs) = Some r
      /\ deleteTestEntries (deleteTestDirectories fuel) (canon segs)
           (map (fun e => (fst e, Fs.isDir (snd e))) todo) fs
         = Done (Fs.mk (Fs.cwd fs) r).
Proof.
  intros Hsegs IHfuel. induction todo as [|[k c] todo IH]; intros done fs Hl Hnd Htodo.
  - exists (Fs.root fs). split; [now apply place_same |].
    cbn. now rewrite mk_eta.
  - inversion Htodo as [|? ? (Hk & Hwf & Hh) Htodo']; subst. cbn [fst snd] in *.
    destruct (NoDup_middle k c done todo Hnd) as [Hfresh Hnd'].
    assert (Hkeep : exists r,
               Fs.place segs (Fs.Dir (done ++ (k, c) :: entriesWithoutTests todo))
                 (Fs.root fs) = Some r
               /\ deleteTestEntries (deleteTestDirectories fuel) (canon segs)
                    (map (fun e => (fst e, Fs.isDir (snd e))) todo) fs
                  = Done (Fs.mk (Fs.cwd fs) r)).
    { destruct (IH (done ++ [(k, c)])%list fs) as (r & Hr & Hrun).
      - now rewrite <- app_assoc.
      - now rewrite <- app_assoc.
      - assumption.
      - exists r. rewrite <- app_assoc in Hr. now split. }
    rewrite entriesWithoutTests_cons. cbn [map fst snd deleteTestEntries].
    rewrite (joinPaths_canon segs k Hsegs Hk).
    destruct c as [text|esc]; cbn [Fs.isDir]; [exact Hkeep |].
    destruct (String.eqb k "test") eqn:Etest.
    + unfold rmSync, Fs.segsOf.
      rewrite resolveSegs_canon
        by (apply Forall_app; split; [assumption | now constructor]).
      destruct (segs ++ [k])%list as [|x l] eqn:Esegs; [now destruct segs |].
      rewrite <- Esegs.
      rewrite (unlink_snoc segs k _ _ _ Hl (assoc_middle k _ done todo Hfresh)).
      rewrite removeEntry_middle by assumption.
      destruct (place_exists segs (Fs.Dir (done ++ todo)) _ _ Hl) as [r1 Hr1].
      rewrite Hr1.
      destruct (IH done (Fs.mk (Fs.cwd fs) r1)) as (r & Hr & Hrun);
        [cbn [Fs.root]; now apply (place_lookup _ _ _ _ Hr1) | assumption
         | assumption |].
      exists r. cbn [Fs.cwd Fs.root] in *. split; [| exact Hrun].
      now rewrite <- (place_twice segs _ _ _ _ Hr1).
    + unfold keptFromTestDeletion. rewrite <- !negb_orb.
      destruct (String.eqb k "node_modules" || String.eqb k "dist"
                || String.eqb k ".git"); cbn [negb]; [exact Hkeep |].
      assert (Hchild : Fs.lookup (Fs.root fs) (segs ++ [k]) = Some (Fs.Dir esc)).
      { rewrite lookup_app, Hl. cbn [Fs.lookup].
        now rewrite (assoc_middle k _ done todo Hfresh). }
      destruct (IHfuel fs (segs ++ [k])%list esc) as (r1 & Hr1 & Hrun1);
        [apply Forall_app; split; [assumption | now constructor]
         | assumption | assumption | assumption |].
      rewrite Hrun1.
      rewrite (place_snoc segs k _ _ _ Hl), setEntry_middle in Hr1 by assumption.
      destruct (IH (done ++ [(k, withoutTests (Fs.Dir esc))])%list
                  (Fs.mk (Fs.cwd fs) r1)) as (r & Hr & Hrun).
      * cbn [Fs.root]. rewrite <- app_assoc. now apply (place_lookup _ _ _ _ Hr1).
      * rewrite <- app_assoc. rewrite !map_app in *. exact Hnd.
      * assumption.
      * exists r. cbn [Fs.cwd Fs.root] in *. split; [| exact Hrun].
        rewrite <- app_assoc in Hr. now rewrite <- (place_twice segs _ _ _ _ Hr1).
Qed.

Lemma deleteTestDirectories_exact (fuel : nat) :
  forall fs segs es,
    Forall (fun x => plainSeg x = true) segs ->
    Fs.lookup (Fs.root fs) segs = Some (Fs.Dir es) ->
    wellFormed (Fs.Dir es) = true -> height (Fs.Dir es) <= fuel ->
    exists r,
      Fs.place segs (withoutTests (Fs.Dir es)) (Fs.root fs) = Some r
      /\ deleteTestDirectories fuel fs (canon segs) = Done (Fs.mk (Fs.cwd fs) r).
Proof.
  induction fuel as [|fuel IH]; intros fs segs es Hsegs Hl Hwf Hh.
  - destruct es as [|[k c] es]; cbn in Hh; lia.
  - cbn [deleteTestDirectories]. rewrite (readdirSync_canon fs segs Hsegs), Hl.
    rewrite withoutTests_Dir.
    apply (deleteTestEntries_exact fuel segs Hsegs IH es [] fs Hl
             (wellFormed_NoDup es Hwf)).
    apply Forall_forall. intros [k c] Hin.
    destruct (wellFormed_entry es k c Hwf Hin) as (_ & Hk & Hc & Hlt).
    cbn [fst snd]. repeat split; try assumption. lia.
Qed.

(** ** What the finder of source files reported is still there *)

Lemma assoc_entriesWithoutTests (k : string) (es : list (string * Fs.node)) :
  k <> "test" ->
  Fs.assoc k (entriesWithoutTests es)
  = match Fs.assoc k es with
    | Some (Fs.Dir esc) =>
        Some (if keptFromTestDeletion k then Fs.Dir esc
              else withoutTests (Fs.Dir esc))
    | other => other
    end.
Proof.
  intros Hk. induction es as [|[k0 c0] es IH]; [reflexivity |].
  rewrite entriesWithoutTests_cons. cbn [Fs.assoc].
  destruct c0 as [text|esc].
  - cbn [Fs.assoc]. destruct (String.eqb k0 k); [reflexivity | exact IH].
  - destruct (String.eqb_spec k0 "test") as [-> | Hne].
    + destruct (String.eqb_spec "test" k) as [E | _]; [congruence | exact IH].
    + destruct (keptFromTestDeletion k0) eqn:Ekept; cbn [Fs.assoc];
        destruct (String.eqb_spec k0 k) as [-> | _]; try exact IH;
        now rewrite Ekept.
Qed.

Lemma lookup_withoutTests (rel : list string) :
  forall n dirs name content,
    rel = (dirs ++ [name])%list ->
    Forall (fun d => skipsOfSources d = false) dirs -> name <> "test" ->
    Fs.lookup n rel = Some (Fs.File content) ->
    Fs.lookup (withoutTests n) rel = Some (Fs.File content).
Proof.
  induction rel as [|k rel IH]; intros n dirs name content Hrel Hd Hn Hl;
    [now destruct dirs |].
  destruct n as [text|es]; [discriminate |].
  rewrite withoutTests_Dir. cbn [Fs.lookup] in *.
  destruct (Fs.assoc k es) as [c|] eqn:Ea; [| discriminate].
  assert (Hk : k <> "test").
  { destruct dirs as [|d dirs]; cbn [app] in Hrel; injection Hrel as -> _;
      [assumption |].
    inversion Hd as [|? ? Hskip _]; subst. unfold skipsOfSources in Hskip.
    intros ->. now rewrite orb_true_r in Hskip. }
  rewrite (assoc_entriesWithoutTests k es Hk), Ea.
  destruct c as [text|esc]; [exact Hl |].
  destruct dirs as [|d dirs]; cbn [app] in Hrel; injection Hrel as -> ->;
    [discriminate |].
  inversion Hd as [|? ? Hskip Hd']; subst.
  destruct (keptFromTestDeletion d); [exact Hl |].
  now apply (IH _ dirs name content).
Qed.

(** X21 -- What [deleteTestDirectories] leaves.  Let the package path
    resolve to a directory whose tree is well formed, and let the fuel
    cover its height.  Then the call returns, and the file system it
    leaves is the one it was given with the tree of the package replaced
    by [withoutTests] of it: every directory named [test] is gone with all
    below it, those inside [node_modules], [dist] and [.git] apart, and
    nothing else has changed. *)
Theorem deleteTestDirectories_leaves_the_tree_without_tests (fuel : nat)
        (fs : Fs.t) (packagePath : string) (es : list (string * Fs.node)) :
  Fs.stat fs (resolve (Fs.cwd fs) [packagePath]) = Some (Fs.Dir es) ->
  wellFormed (Fs.Dir es) = true ->
  height (Fs.Dir es) <= fuel ->
  exists fs',
    deleteTestDirectories fuel fs (resolve (Fs.cwd fs) [packagePath]) = Done fs'
    /\ Fs.cwd fs' = Fs.cwd fs
    /\ Fs.place (Fs.segsOf fs (resolve (Fs.cwd fs) [packagePath]))
         (withoutTests (Fs.Dir es)) (Fs.root fs) = Some (Fs.root fs')
    /\ Fs.stat fs' (resolve (Fs.cwd fs) [packagePath])
       = Some (withoutTests (Fs.Dir es)).
Proof.
  intros Hstat Hwf Hh. pose proof (root_lookup fs packagePath es Hstat) as Hl.
  destruct (deleteTestDirectories_exact fuel fs _ es
              (resolveSegs_plain (Fs.cwd fs) [packagePath]) Hl Hwf Hh)
    as (r & Hr & Hrun).
  exists (Fs.mk (Fs.cwd fs) r). rewrite resolve_canon at 1.
  split; [exact Hrun |]. split; [reflexivity |].
  rewrite segsOf_resolve. split; [exact Hr |].
  unfold Fs.stat, Fs.segsOf. cbn [Fs.cwd Fs.root].
  rewrite resolve_canon, resolveSegs_canon by apply resolveSegs_plain.
  now apply (place_lookup _ _ _ _ Hr).
Qed.

Lemma deleteTestDirectories_leaves_the_tree_without_tests_witness :
  deleteTestDirectories 4 Scenario.withTests "/p" = Done Scenario.withoutTestDirs.
Proof.
  destruct (Fs.stat Scenario.withTests (resolve "/" ["p"])) as [[text|es]|] eqn:E;
    try (vm_compute in E; discriminate).
  assert (Hwf : wellFormed (Fs.Dir es) = true)
    by (vm_compute in E; injection E as <-; reflexivity).
  assert (Hh : height (Fs.Dir es) <= 4)
    by (vm_compute in E; injection E as <-; vm_compute; lia).
  destruct (deleteTestDirectories_leaves_the_tree_without_tests 4
              Scenario.withTests "p" es E Hwf Hh) as (fs' & H1 & H2 & H3 & _).
  change (resolve (Fs.cwd Scenario.withTests) ["p"]) with "/p" in H1.
  rewrite H1. f_equal. destruct fs' as [cwd' root']. cbn [Fs.cwd Fs.root] in *.
  subst cwd'. vm_compute in E. injection E as <-.
  vm_compute in H3. now injection H3 as <-.
Defined.

(** X22 -- The source files outlive the deletion of the test directories.
    Let the package path resolve to a directory whose tree is well formed
    and whose height the fuel covers.  Then every file [findSourceFiles]
    reported on the
    file system as it was can be read, with the same text, once
    [deleteTestDirectories] has returned: the finder enters no directory
    named [test], so that the test of [main] for files already deleted
    finds none. *)
Theorem source_files_outlive_test_directories (fuel1 fuel2 : nat) (fs : Fs.t)
        (packagePath : string) (es : list (string * Fs.node))
        (sourceFiles : list string) :
  Fs.stat fs (resolve (Fs.cwd fs) [packagePath]) = Some (Fs.Dir es) ->
  wellFormed (Fs.Dir es) = true ->
  height (Fs.Dir es) <= fuel2 ->
  findSourceFiles fuel1 fs (resolve (Fs.cwd fs) [packagePath]) [] = Done sourceFiles ->
  exists fs',
    deleteTestDirectories fuel2 fs (resolve (Fs.cwd fs) [packagePath]) = Done fs'
    /\ forall p,
         In p sourceFiles ->
         exists content,
           Fs.readFileSync fs p = Some content
           /\ Fs.readFileSync fs' p = Some content
           /\ Fs.existsSync fs' p = true.
Proof.
  intros Hstat Hwf Hh Hfind. pose proof (root_lookup fs packagePath es Hstat) as Hl.
  pose proof (resolveSegs_plain (Fs.cwd fs) [packagePath]) as Hplain.
  destruct (deleteTestDirectories_exact fuel2 fs _ es Hplain Hl Hwf Hh)
    as (r & Hr & Hrun).
  exists (Fs.mk (Fs.cwd fs) r). rewrite resolve_canon at 1.
  split; [exact Hrun |]. intros p Hp.
  rewrite findSourceFiles_walk in Hfind.
  apply (walk_reports _ _ fs packagePath es Hstat Hwf fuel1 _ Hfind) in Hp
    as (rel & -> & Hrel).
  rewrite segsOf_resolve.
  pose proof Hrel as (dirs & name & content & Hrel' & Hlook & Hdirs & Hname).
  pose proof (lookup_plain _ _ _ Hwf Hlook) as Hrelplain.
  assert (Hall : Forall (fun x => plainSeg x = true)
                   (resolveSegs (Fs.cwd fs) [packagePath] ++ rel))
    by (apply Forall_app; now split).
  assert (Hne : name <> "test") by (intros ->; discriminate).
  exists content.
  unfold Fs.readFileSync, Fs.existsSync, Fs.stat, Fs.segsOf. cbn [Fs.cwd Fs.root].
  rewrite !resolveSegs_canon by assumption.
  rewrite !lookup_app, Hl, (place_lookup _ _ _ _ Hr), Hlook.
  rewrite (lookup_withoutTests rel _ dirs name content Hrel' Hdirs Hne Hlook).
  now repeat split.
Qed.

Lemma source_files_outlive_test_directories_witness :
  exists fs',
    deleteTestDirectories 4 Scenario.withTests "/p" = Done fs'
    /\ forall p,
         In p ["/p/src/index.ts"; "/p/src/calc.ts"; "/p/src/util/helper.ts"] ->
         exists content,
           Fs.readFileSync Scenario.withTests p = Some content
           /\ Fs.readFileSync fs' p = Some content
           /\ Fs.existsSync fs' p = true.
Proof.
  destruct (Fs.stat Scenario.withTests (resolve "/" ["p"])) as [[text|es]|] eqn:E;
    try (vm_compute in E; discriminate).
  assert (Hwf : wellFormed (Fs.Dir es) = true)
    by (vm_compute in E; injection E as <-; reflexivity).
  assert (Hh : height (Fs.Dir es) <= 4)
    by (vm_compute in E; injection E as <-; vm_compute; lia).
  apply (source_files_outlive_test_directories 4 4 Scenario.withTests "p" es _
           E Hwf Hh).
  reflexivity.
Defined.

End TestDirFacts.

(* ===================================================================== *)
(** * Where a rewritten specifier points *)
(* ===================================================================== *)

Module RoundTripFacts.
Import JsString Path Script Anonymizer Notions Text Target.
Import StringFacts PathFacts FrameFacts FinderFacts.

Lemma dropCommon_spec (a : list string) :
  forall b a' b',
    dropCommon a b = (a', b') ->
    exists c, a = (c ++ a')%list /\ b = (c ++ b')%list.
Proof.
  induction a as [|x a IH]; intros b a' b' H.
  - injection H as <- <-. now exists [].
  - destruct b as [|y b]; [injection H as <- <-; now exists [] |].
    cbn [dropCommon] in H. destruct (String.eqb_spec x y) as [-> | _].
    + destruct (IH b a' b' H) as (c & -> & ->). now exists (y :: c).
    + injection H as <- <-. now exists [].
Qed.

Lemma ups_snoc (l : list string) (x : string) :
  map (fun _ : string => "..") (l ++ [x]) = ".." :: map (fun _ : string => "..") l.
Proof. induction l as [|y l IH]; [reflexivity |]. cbn [app map]. now rewrite IH. Qed.

(** As many [..] as there are names take the names off. *)
Lemma normalizeSegs_ups (l : list string) :
  forall acc rest,
    Forall (fun x => plainSeg x = true) l ->
    normalizeSegs false (rev l ++ acc)
      (map (fun _ : string => "..") l ++ rest)
    = normalizeSegs false acc rest.
Proof.
  induction l as [|x l IH] using rev_ind; intros acc rest H; [reflexivity |].
  apply Forall_app in H as [Hl Hx]. inversion Hx as [|? ? Hx' _]; subst.
  destruct (plainSeg_inv x Hx') as (_ & _ & Hdd & _).
  rewrite rev_app_distr, ups_snoc. cbn [rev app normalizeSegs String.eqb Ascii.eqb Bool.eqb].
  rewrite Hdd. now apply IH.
Qed.

Lemma resolveArgs_one (dir : string) :
  resolveArgs [dir]
  = if String.eqb dir "" then (false, []) else (isAbsolute dir, [dir]).
Proof. reflexivity. Qed.

Lemma resolveArgs_two (dir rel : string) :
  isAbsolute rel = false ->
  resolveArgs [dir; rel]
  = (fst (resolveArgs [dir]),
     (snd (resolveArgs [dir]) ++ (if String.eqb rel "" then [] else [rel]))%list).
Proof.
  intros Hrel. cbn [resolveArgs]. rewrite Hrel.
  destruct (String.eqb rel ""), (String.eqb dir ""); reflexivity.
Qed.

(** Resolving one more relative argument goes on from the segments of
    the first. *)
Lemma resolveSegs_two (cwd dir rel : string) :
  isAbsolute rel = false ->
  resolveSegs cwd [dir; rel]
  = normalizeSegs false (rev (resolveSegs cwd [dir])) (split sep rel).
Proof.
  intros Hrel. unfold resolveSegs. rewrite (resolveArgs_two dir rel Hrel).
  destruct (resolveArgs [dir]) as [abs used]. cbn [fst snd].
  assert (E : forall pre,
             normalizeSegs false [] (flat_map (split sep)
               (pre ++ (if String.eqb rel "" then [] else [rel]))%list)
             = normalizeSegs false
                 (rev (normalizeSegs false [] (flat_map (split sep) pre)))
                 (split sep rel)).
  { intros pre. rewrite flat_map_app, normalizeSegs_app.
    destruct (String.eqb_spec rel "") as [-> | _].
    - cbn [flat_map split normalizeSegs String.eqb]. reflexivity.
    - cbn [flat_map]. now rewrite app_nil_r. }
  destruct abs; [apply E | apply (E (cwd :: used))].
Qed.

Lemma join_relative_shape (x : string) (l : list string) :
  x <> "" -> sepFree x = true -> isAbsolute (join "/" (x :: l)) = false.
Proof.
  intros Hne Hfree. destruct x as [|c x]; [congruence |].
  cbn [sepFree] in Hfree. apply andb_prop in Hfree as [Hc _].
  apply negb_true_iff in Hc. destruct l; cbn; exact Hc.
Qed.

Lemma relative_not_absolute (cwd from to : string) :
  isAbsolute (relative cwd from to) = false.
Proof.
  unfold relative.
  destruct (dropCommon (resolveSegs cwd [from]) (resolveSegs cwd [to]))
    as [f' t'] eqn:E.
  destruct (dropCommon_spec _ _ _ _ E) as (c & Hf & Ht).
  pose proof (resolveSegs_plain cwd [to]) as Hp. rewrite Ht in Hp.
  apply Forall_app in Hp as [_ Hp].
  destruct f' as [|x f']; cbn [map app].
  - destruct t' as [|y t']; [reflexivity |].
    inversion Hp as [|? ? Hy _]; subst.
    destruct (plainSeg_inv y Hy) as (Hy1 & _ & _ & Hy4).
    apply join_relative_shape; [now apply String.eqb_neq | assumption].
  - now apply join_relative_shape.
Qed.

(** The round trip of [path.relative] and [path.resolve]. *)
Lemma resolveSegs_relative (cwd from to : string) :
  resolveSegs cwd [from; relative cwd from to] = resolveSegs cwd [to].
Proof.
  rewrite resolveSegs_two by apply relative_not_absolute.
  unfold relative.
  destruct (dropCommon (resolveSegs cwd [from]) (resolveSegs cwd [to]))
    as [f' t'] eqn:E.
  destruct (dropCommon_spec _ _ _ _ E) as (c & Hf & Ht).
  pose proof (resolveSegs_plain cwd [from]) as Hpf. rewrite Hf in Hpf.
  pose proof (resolveSegs_plain cwd [to]) as Hpt. rewrite Ht in Hpt.
  apply Forall_app in Hpf as [Hc Hf']. apply Forall_app in Hpt as [_ Ht'].
  rewrite Hf, Ht, rev_app_distr.
  assert (Hsplit : split sep (join "/" (map (fun _ : string => "..") f' ++ t'))
                   = match (map (fun _ : string => "..") f' ++ t')%list with
                     | [] => [""]
                     | l => l
                     end).
  { destruct (map (fun _ : string => "..") f' ++ t')%list as [|x l] eqn:El;
      [reflexivity |].
    apply split_join; [discriminate |]. rewrite <- El.
    apply Forall_app. split; [| now apply plain_all_sepFree].
    apply Forall_forall. intros y Hy. apply in_map_iff in Hy as (z & <- & _).
    reflexivity. }
  rewrite Hsplit.
  destruct (map (fun _ : string => "..") f' ++ t')%list as [|x l] eqn:El.
  - apply app_eq_nil in El as [El1 El2]. apply map_eq_nil in El1. subst f' t'.
    cbn [rev app normalizeSegs String.eqb]. now rewrite rev_involutive, app_nil_r.
  - rewrite <- El, (normalizeSegs_ups f' (rev c) t' Hf').
    rewrite (normalizeSegs_plain false t' (rev c) Ht'). now rewrite rev_involutive.
Qed.

(** [./] in front of a relative path changes nothing for [path.resolve]. *)
Lemma resolveSegs_dot_slash (cwd dir r : string) :
  isAbsolute r = false ->
  resolveSegs cwd [dir; "./" ++ r] = resolveSegs cwd [dir; r].
Proof.
  intros Hr. rewrite !resolveSegs_two by (assumption || reflexivity).
  change ("./" ++ r) with ("." ++ String sep r).
  rewrite split_app_sep. reflexivity.
Qed.

Lemma backslashesToSlashes_none (s : string) :
  lacks backslash s = true -> backslashesToSlashes s = s.
Proof.
  induction s as [|c s IH]; [reflexivity |]. cbn [lacks backslashesToSlashes].
  intros H. apply andb_prop in H as [Hc Hs]. apply negb_true_iff in Hc.
  change (ascii_of_nat 92) with backslash. now rewrite Hc, (IH Hs).
Qed.

Lemma rewriteWith_entry (fs : Fs.t) (dir importPath resolvedPath : string)
      (m : dirMap) (newImportPath : string) :
  rewriteWith fs dir importPath resolvedPath m = Some newImportPath ->
  exists oldDir newDir,
    In (oldDir, newDir) m
    /\ startsWith resolvedPath oldDir = true
    /\ newImportPath
       = reconstructImportPath importPath
           (backslashesToSlashes
              (relative (Fs.cwd fs) dir
                 (newResolvedPath fs oldDir newDir resolvedPath))).
Proof.
  induction m as [|[oldDir newDir] m IH]; [discriminate |]. cbn [rewriteWith].
  destruct (startsWith resolvedPath oldDir) eqn:E.
  - intros [= <-]. exists oldDir, newDir. repeat split; [now left | exact E].
  - intros H. destruct (IH H) as (o & n & Hin & Hs & Hn).
    exists o, n. repeat split; [now right | exact Hs | exact Hn].
Qed.

Lemma rewritten_ts_resolves (fs : Fs.t) (dir importPath resolvedPath : string)
      (m : dirMap) (newImportPath : string) :
  endsWith importPath ".ts" = true ->
  (forall oldDir newDir,
      In (oldDir, newDir) m ->
      lacks backslash
        (relative (Fs.cwd fs) dir (newResolvedPath fs oldDir newDir resolvedPath))
      = true) ->
  rewriteWith fs dir importPath resolvedPath m = Some newImportPath ->
  exists oldDir newDir,
    In (oldDir, newDir) m
    /\ startsWith resolvedPath oldDir = true
    /\ resolve (Fs.cwd fs) [dir; newImportPath]
       = resolve (Fs.cwd fs) [newResolvedPath fs oldDir newDir resolvedPath].
Proof.
  intros Hts Hback H.
  destruct (rewriteWith_entry _ _ _ _ _ _ H) as (oldDir & newDir & Hin & Hs & ->).
  exists oldDir, newDir. split; [exact Hin |]. split; [exact Hs |].
  rewrite (backslashesToSlashes_none _ (Hback _ _ Hin)).
  unfold reconstructImportPath. rewrite Hts.
  rewrite !resolve_canon. f_equal.
  destruct (negb (startsWith _ ".")).
  - rewrite resolveSegs_dot_slash by apply relative_not_absolute.
    apply resolveSegs_relative.
  - apply resolveSegs_relative.
Qed.

(** ** The new path, in segments *)

Lemma dropCommon_prefix (o rest : list string) :
  dropCommon o (o ++ rest) = ([], rest).
Proof.
  induction o as [|x o IH]; [now destruct rest |].
  cbn [app dropCommon]. now rewrite String.eqb_refl.
Qed.

Lemma relative_below (cwd : string) (o rest : list string) :
  Forall (fun x => plainSeg x = true) o ->
  Forall (fun x => plainSeg x = true) rest ->
  relative cwd (canon o) (canon (o ++ rest)) = join "/" rest.
Proof.
  intros Ho Hrest. unfold relative.
  rewrite !resolveSegs_canon by (try apply Forall_app; auto).
  now rewrite dropCommon_prefix.
Qed.

Lemma join_plain_endsSeg (x : string) (rest : list string) :
  exists seg l, (x :: rest = l ++ [seg])%list /\ endsSeg (join "/" (x :: rest)) seg.
Proof.
  destruct (@exists_last _ (x :: rest) ltac:(discriminate)) as (l & seg & E).
  exists seg, l. split; [exact E |]. rewrite E, join_snoc.
  destruct l; [now left | right; now eexists].
Qed.

Lemma joinPaths_canon_many (n rest : list string) :
  Forall (fun x => plainSeg x = true) n ->
  Forall (fun x => plainSeg x = true) rest ->
  joinPaths [canon n; join "/" rest] = canon (n ++ rest).
Proof.
  intros Hn Hrest. destruct rest as [|x rest].
  - cbn [join]. unfold joinPaths. cbn [filter String.eqb negb].
    change (String.eqb (canon n) "") with false. cbn [negb join].
    rewrite app_nil_r. now apply normalize_canon.
  - pose proof (plain_join_nonempty x rest ltac:(now inversion Hrest)) as Hne.
    unfold joinPaths. cbn [filter].
    change (String.eqb (canon n) "") with false. cbn [negb].
    destruct (String.eqb_spec (join "/" (x :: rest)) "") as [E | _]; [congruence |].
    cbn [negb].
    change (join "/" [canon n; join "/" (x :: rest)])
      with (canon n ++ String sep (join "/" (x :: rest))).
    assert (Habs : isAbsolute (canon n ++ String sep (join "/" (x :: rest))) = true)
      by reflexivity.
    rewrite (normalize_absolute "/" _ Habs).
    assert (Hr : resolveSegs "/" [canon n ++ String sep (join "/" (x :: rest))]
                 = (n ++ x :: rest)%list).
    { unfold resolveSegs. cbn [resolveArgs]. rewrite Habs.
      change (String.eqb (canon n ++ String sep (join "/" (x :: rest))) "")
        with false.
      cbn [flat_map]. rewrite app_nil_r, split_app_sep, normalizeSegs_app.
      rewrite split_canon by assumption.
      rewrite split_join by (try discriminate; now apply plain_all_sepFree).
      now rewrite normalizeSegs_plain, rev_involutive. }
    rewrite Hr.
    destruct (join_plain_endsSeg x rest) as (seg & l & El & Hend).
    assert (Hseg : plainSeg seg = true).
    { rewrite El in Hrest. apply Forall_app in Hrest as [_ Hrest].
      now inversion Hrest. }
    assert (Ht : hasTrailingSep (canon n ++ String sep (join "/" (x :: rest))) = false).
    { apply (endsSeg_not_trailing _ seg Hseg).
      destruct Hend as [-> | [before ->]].
      - right. now exists (canon n).
      - right. exists (canon n ++ String sep before).
        now rewrite append_assoc. }
    rewrite Ht. destruct (n ++ x :: rest)%list eqn:E;
      [destruct n; discriminate |].
    apply append_nil_r.
Qed.

Lemma newResolvedPath_canon (fs : Fs.t) (o n rest : list string) :
  Forall (fun x => plainSeg x = true) o ->
  Forall (fun x => plainSeg x = true) n ->
  Forall (fun x => plainSeg x = true) rest ->
  newResolvedPath fs (canon o) (canon n) (canon (o ++ rest)) = canon (n ++ rest).
Proof.
  intros Ho Hn Hrest. unfold newResolvedPath.
  rewrite relative_below by assumption. now apply joinPaths_canon_many.
Qed.

(** X19 -- Where a rewritten specifier with [.ts] points.  Let a
    specifier end in [.ts], let [updateExportPaths] find an entry of the
    map for it, and let the relative path it computes hold no backslash.
    Then the entry that decided is one whose old directory is a prefix of
    the resolved path, and the specifier that is written, resolved from
    the directory of the file, is the path the code calls
    [newResolvedPath].  When the old directory is a directory above the
    resolved path, segment by segment, that path is the new directory
    followed by the segments that were below the old one. *)
Theorem rewritten_ts_specifier_names_the_new_path (fs : Fs.t)
        (filePath importPath : string) (m : dirMap) (newImportPath : string) :
  endsWith importPath ".ts" = true ->
  (forall oldDir newDir,
      In (oldDir, newDir) m ->
      lacks backslash
        (relative (Fs.cwd fs) (dirname filePath)
           (newResolvedPath fs oldDir newDir
              (resolve (Fs.cwd fs) [dirname filePath; importPath])))
      = true) ->
  rewriteSpecifier fs filePath m importPath = Some newImportPath ->
  exists oldDir newDir,
    In (oldDir, newDir) m
    /\ startsWith (resolve (Fs.cwd fs) [dirname filePath; importPath]) oldDir = true
    /\ resolve (Fs.cwd fs) [dirname filePath; newImportPath]
       = resolve (Fs.cwd fs)
           [newResolvedPath fs oldDir newDir
              (resolve (Fs.cwd fs) [dirname filePath; importPath])]
    /\ forall o n rest,
         Forall (fun x => plainSeg x = true) o ->
         Forall (fun x => plainSeg x = true) n ->
         Forall (fun x => plainSeg x = true) rest ->
         oldDir = canon o -> newDir = canon n ->
         resolve (Fs.cwd fs) [dirname filePath; importPath] = canon (o ++ rest) ->
         resolve (Fs.cwd fs) [dirname filePath; newImportPath] = canon (n ++ rest).
Proof.
  intros Hts Hback H. unfold rewriteSpecifier, resolveImportPath in H.
  rewrite Hts in H.
  destruct (rewritten_ts_resolves fs _ _ _ m newImportPath Hts Hback H)
    as (oldDir & newDir & Hin & Hs & Hres).
  exists oldDir, newDir. split; [exact Hin |]. split; [exact Hs |].
  split; [exact Hres |].
  intros o n rest Ho Hn Hrest -> -> Hr. rewrite Hres, Hr.
  rewrite newResolvedPath_canon by assumption.
  rewrite resolve_canon, resolveSegs_canon; [reflexivity |].
  apply Forall_app. now split.
Qed.

Lemma rewritten_ts_specifier_names_the_new_path_witness :
  rewriteSpecifier Scenario.beforeRename "/p/src/index.ts" Scenario.planAsBuilt
    "./a/util.ts" = Some "./x7k/util.ts"
  /\ exists oldDir newDir,
       In (oldDir, newDir) Scenario.planAsBuilt
       /\ startsWith (resolve "/" [dirname "/p/src/index.ts"; "./a/util.ts"]) oldDir
          = true
       /\ resolve "/" [dirname "/p/src/index.ts"; "./x7k/util.ts"]
          = resolve "/"
              [newResolvedPath Scenario.beforeRename oldDir newDir
                 (resolve "/" [dirname "/p/src/index.ts"; "./a/util.ts"])]
       /\ forall o n rest,
            Forall (fun x => plainSeg x = true) o ->
            Forall (fun x => plainSeg x = true) n ->
            Forall (fun x => plainSeg x = true) rest ->
            oldDir = canon o -> newDir = canon n ->
            resolve "/" [dirname "/p/src/index.ts"; "./a/util.ts"] = canon (o ++ rest) ->
            resolve "/" [dirname "/p/src/index.ts"; "./x7k/util.ts"] = canon (n ++ rest).
Proof.
  split; [reflexivity |].
  apply (rewritten_ts_specifier_names_the_new_path Scenario.beforeRename
           "/p/src/index.ts" "./a/util.ts" Scenario.planAsBuilt "./x7k/util.ts").
  - reflexivity.
  - intros oldDir newDir [[= <- <-] | [[= <- <-] | []]]; reflexivity.
  - reflexivity.
Defined.

(** X20 -- The configuration [main] creates points to the base.  Let the
    working directory be an absolute path in normal form, let the package
    hold no [vitest.config.ts], and let the way from the package to the
    base hold no backslash.  When the step returns, the new file holds the
    text with a specifier that, resolved from the package directory, is
    [vitest.base.ts] in the working directory. *)
Theorem vitest_config_points_to_the_base (fs fs' : Fs.t)
        (absolutePackagePath : string) (workspace : list string) :
  Fs.cwd fs = canon workspace ->
  Forall (fun x => plainSeg x = true) workspace ->
  Fs.existsSync fs (joinPaths [absolutePackagePath; "vitest.config.ts"]) = false ->
  lacks backslash
    (relative (Fs.cwd fs) absolutePackagePath
       (joinPaths [Fs.cwd fs; "vitest.base.ts"])) = true ->
  ensureVitestConfig fs absolutePackagePath = Some fs' ->
  Fs.readFileSync fs' (joinPaths [absolutePackagePath; "vitest.config.ts"])
  = Some (vitestConfigContent (vitestBaseSpecifier fs absolutePackagePath))
  /\ resolve (Fs.cwd fs)
       [absolutePackagePath; vitestBaseSpecifier fs absolutePackagePath]
     = canon (workspace ++ ["vitest.base.ts"]).
Proof.
  intros Hcwd Hplain Hno Hback H. unfold ensureVitestConfig in H.
  rewrite Hno in H. cbn [negb] in H. split.
  - now apply (writeFileSync_reads fs fs').
  - unfold vitestBaseSpecifier. cbv zeta.
    rewrite (backslashesToSlashes_none _ Hback).
    rewrite resolve_canon, resolveSegs_relative.
    rewrite Hcwd, joinPaths_canon by (assumption || reflexivity).
    rewrite resolveSegs_canon; [reflexivity |].
    apply Forall_app. split; [assumption | now constructor].
Qed.

Lemma vitest_config_points_to_the_base_witness :
  exists fs',
    ensureVitestConfig Scenario.withEmptyDirs "/p" = Some fs'
    /\ Fs.readFileSync fs' (joinPaths ["/p"; "vitest.config.ts"])
       = Some (vitestConfigContent "../vitest.base.ts")
    /\ resolve "/" ["/p"; "../vitest.base.ts"] = canon ([] ++ ["vitest.base.ts"]).
Proof.
  destruct (ensureVitestConfig Scenario.withEmptyDirs "/p") as [fs'|] eqn:E;
    [| vm_compute in E; discriminate].
  exists fs'. split; [reflexivity |].
  apply (vitest_config_points_to_the_base Scenario.withEmptyDirs fs' "/p" []);
    (reflexivity || constructor || exact E).
Defined.

End RoundTripFacts.

(* ===================================================================== *)
(** * Anonymizing the test files *)
(* ===================================================================== *)

Module TestLoopFacts.
Import JsString Path Script Anonymizer Notions Frame Walk Prune Rename.
Import StringFacts PathFacts FrameFacts NameFacts FinderFacts CleanupFacts.
Import TestDirFacts.

(** ** Paths in normal form *)

Lemma canon_inj (l1 l2 : list string) :
  Forall (fun x => plainSeg x = true) l1 ->
  Forall (fun x => plainSeg x = true) l2 ->
  canon l1 = canon l2 -> l1 = l2.
Proof.
  intros H1 H2 E.
  rewrite <- (resolveSegs_canon "/" l1 H1), <- (resolveSegs_canon "/" l2 H2).
  now rewrite E.
Qed.

Lemma isPrefixSegs_snoc (d : list string) (a b : string) :
  Fs.isPrefixSegs (d ++ [a]) (d ++ [b]) = String.eqb a b.
Proof.
  induction d as [|x d IH]; cbn [app Fs.isPrefixSegs].
  - apply andb_true_r.
  - now rewrite String.eqb_refl.
Qed.

Lemma lastSep_sepFree (a : string) : sepFree a = true -> lastSep a = None.
Proof.
  induction a as [|c a IH]; [reflexivity |]. cbn [sepFree lastSep].
  intros H. apply andb_prop in H as [Hc Ha]. rewrite (IH Ha).
  apply negb_true_iff in Hc. now rewrite Hc.
Qed.

Lemma hasNonSep_sepFree (a : string) :
  a <> "" -> sepFree a = true -> hasNonSep a = true.
Proof.
  destruct a as [|c a]; [congruence |]. cbn [sepFree hasNonSep].
  intros _ H. apply andb_prop in H as [Hc _]. now rewrite Hc.
Qed.

Lemma lastSep_app (x a : string) :
  a <> "" -> sepFree a = true ->
  lastSep (x ++ String sep a) = Some (String.length x).
Proof.
  intros Hne Hfree. induction x as [|c x IH].
  - cbn [append lastSep String.length]. rewrite (lastSep_sepFree a Hfree).
    now rewrite Ascii.eqb_refl, (hasNonSep_sepFree a Hne Hfree).
  - change (String c x ++ String sep a) with (String c (x ++ String sep a)).
    cbn [lastSep String.length]. now rewrite IH.
Qed.

Lemma take_append (x y : string) : take (String.length x) (x ++ y) = x.
Proof. induction x as [|c x IH]; [now destruct y |]. cbn. now rewrite IH. Qed.

Lemma dirname_canon (d : list string) (a : string) :
  Forall (fun x => plainSeg x = true) d -> plainSeg a = true ->
  dirname (canon (d ++ [a])) = canon d.
Proof.
  intros Hd Ha. destruct (plainSeg_inv a Ha) as (Hne & _ & _ & Hfree).
  apply String.eqb_neq in Hne.
  unfold canon. rewrite join_snoc. destruct d as [|x d].
  - cbn [append dirname]. rewrite (lastSep_sepFree a Hfree).
    now rewrite Ascii.eqb_refl.
  - change ("/" ++ (join "/" (x :: d) ++ String sep a))
      with (String sep (join "/" (x :: d) ++ String sep a)).
    cbn [dirname]. rewrite (lastSep_app _ a Hne Hfree), take_append.
    inversion Hd as [|? ? Hx _]; subst.
    pose proof (plain_join_nonempty x d Hx) as Hj.
    destruct (join "/" (x :: d)) as [|c r] eqn:E; [congruence |].
    cbn [String.length Nat.eqb]. now rewrite andb_false_r.
Qed.

(** ** Replacing a directory *)

Lemma place_isDir (segs : list string) (es' : list (string * Fs.node)) :
  forall n r, Fs.place segs (Fs.Dir es') n = Some r -> Fs.isDir r = true.
Proof.
  destruct segs as [|s rest]; intros n r H; [now injection H as <- |].
  destruct n as [c|es]; [discriminate |]. cbn [Fs.place] in H.
  destruct rest; [now injection H as <- |].
  destruct (Fs.assoc s es); [| discriminate].
  destruct (Fs.place _ _ _); [now injection H as <- | discriminate].
Qed.

Lemma place_wf (segs : list string) (v : Fs.node) :
  forall n x r,
    wellFormed n = true -> Fs.lookup n segs = Some x -> wellFormed v = true ->
    Fs.place segs v n = Some r -> wellFormed r = true.
Proof.
  induction segs as [|s rest IH]; intros n x r Hwf Hl Hv H;
    [now injection H as <- |].
  destruct n as [c|es]; [discriminate |]. cbn [Fs.lookup] in Hl.
  destruct (Fs.assoc s es) as [c|] eqn:Ea; [| discriminate].
  destruct (wellFormed_entry es s c Hwf (assoc_In _ _ _ Ea)) as (_ & _ & Hc & _).
  destruct rest as [|s2 rest2].
  - cbn [Fs.place] in H. injection H as <-. now apply (setEntry_wf s c).
  - rewrite place_cons2, Ea in H.
    destruct (Fs.place (s2 :: rest2) v c) as [c'|] eqn:Ep; [| discriminate].
    injection H as <-. apply (setEntry_wf s c); [assumption | assumption |].
    now apply (IH c x c').
Qed.

(** What is not below the directory is as before. *)
Lemma place_outside (segs : list string) (v : Fs.node) :
  forall n x r q,
    Fs.lookup n segs = Some x -> Fs.isDir x = true -> Fs.isDir v = true ->
    Fs.place segs v n = Some r ->
    Fs.isPrefixSegs segs q = false ->
    textAt r q = textAt n q /\ existsAt r q = existsAt n q.
Proof.
  unfold textAt, existsAt.
  induction segs as [|s rest IH]; intros n x r q Hl Hx Hv H Hq; [discriminate |].
  destruct n as [c|es]; [discriminate |]. cbn [Fs.lookup] in Hl.
  destruct (Fs.assoc s es) as [c|] eqn:Ea; [| discriminate].
  assert (Hr : exists c', r = Fs.Dir (Fs.setEntry s c' es)
                          /\ (rest = [] -> c' = v)
                          /\ (rest <> [] -> Fs.place rest v c = Some c')).
  { destruct rest as [|s2 rest2].
    - cbn [Fs.place] in H. injection H as <-. exists v.
      split; [reflexivity |]. split; [reflexivity | congruence].
    - rewrite place_cons2, Ea in H.
      destruct (Fs.place (s2 :: rest2) v c) as [c'|] eqn:Ep; [| discriminate].
      injection H as <-. exists c'. split; [reflexivity |].
      split; [discriminate | reflexivity]. }
  destruct Hr as (c' & -> & Hnil & Hcons).
  destruct q as [|s' q'].
  - cbn [Fs.lookup]. now split.
  - cbn [Fs.lookup Fs.isPrefixSegs] in *.
    destruct (String.eqb_spec s s') as [<- | Hne].
    + rewrite assoc_setEntry_same, Ea. cbn [andb] in Hq.
      destruct rest as [|s2 rest2]; [discriminate |].
      apply (IH c x c' q' Hl Hx Hv (Hcons ltac:(discriminate)) Hq).
    + rewrite assoc_setEntry_other by congruence. now split.
Qed.

(** ** The entries of the directory of a test file *)

Lemma names_setEntry_new (s : string) (v : Fs.node) (es : list (string * Fs.node)) :
  Fs.assoc s es = None -> map fst (Fs.setEntry s v es) = (map fst es ++ [s])%list.
Proof.
  induction es as [|[k c] es IH]; [reflexivity |]. cbn [Fs.assoc Fs.setEntry].
  destruct (String.eqb k s); [discriminate |].
  intros H. cbn [map fst app]. now rewrite IH.
Qed.

Lemma setEntry_wf_new (s : string) (v : Fs.node) (es : list (string * Fs.node)) :
  wellFormed (Fs.Dir es) = true -> Fs.assoc s es = None ->
  plainSeg s = true -> wellFormed v = true ->
  wellFormed (Fs.Dir (Fs.setEntry s v es)) = true.
Proof.
  intros Hwf Ha Hs Hv. induction es as [|[k c] es IH].
  - cbn [Fs.setEntry]. rewrite wellFormed_cons, Hs, Hv. reflexivity.
  - destruct (wellFormed_inv _ _ _ Hwf) as (Hk & Hfresh & Hc & Hes).
    cbn [Fs.assoc Fs.setEntry] in *.
    destruct (String.eqb k s) eqn:E; [discriminate |].
    rewrite wellFormed_cons, Hk, Hc, (names_setEntry_new s v es Ha), (IH Hes Ha).
    rewrite existsb_app, Hfresh. cbn [existsb]. now rewrite E.
Qed.

Lemma movedEntries_spec (a b text c0 : string) (es : list (string * Fs.node)) :
  wellFormed (Fs.Dir es) = true ->
  Fs.assoc a es = Some (Fs.File c0) ->
  plainSeg b = true ->
  a = b \/ Fs.assoc b es = None ->
  wellFormed (Fs.Dir (movedEntries a b text es)) = true
  /\ Fs.assoc b (movedEntries a b text es) = Some (Fs.File text)
  /\ (a <> b -> Fs.assoc a (movedEntries a b text es) = None)
  /\ (forall k, k <> a -> k <> b ->
                Fs.assoc k (movedEntries a b text es) = Fs.assoc k es).
Proof.
  intros Hwf Ha Hb Hab. unfold movedEntries. cbv zeta.
  assert (Hwf1 : wellFormed (Fs.Dir (Fs.setEntry a (Fs.File text) es)) = true)
    by (now apply (setEntry_wf a (Fs.File c0))).
  destruct (String.eqb_spec a b) as [<- | Hne].
  - split; [exact Hwf1 |]. split; [apply assoc_setEntry_same |].
    split; [congruence |]. intros k Hka _. now apply assoc_setEntry_other.
  - destruct Hab as [Hab | Hab]; [congruence |].
    assert (Hb2 : Fs.assoc b (Fs.removeEntry a (Fs.setEntry a (Fs.File text) es))
                  = None).
    { rewrite assoc_removeEntry_other by congruence.
      now rewrite assoc_setEntry_other by congruence. }
    split; [| split; [apply assoc_setEntry_same | split]].
    + apply setEntry_wf_new; try assumption; [| reflexivity].
      now apply removeEntry_wf.
    + intros _. rewrite assoc_setEntry_other by congruence.
      now apply assoc_removeEntry_same.
    + intros k Hka Hkb. rewrite assoc_setEntry_other by congruence.
      rewrite assoc_removeEntry_other by congruence.
      now apply assoc_setEntry_other.
Qed.

(** ** One test file *)

Lemma lookup_file_parent (d : list string) (a : string) (n : Fs.node) (c0 : string) :
  Fs.lookup n (d ++ [a]) = Some (Fs.File c0) ->
  exists es, Fs.lookup n d = Some (Fs.Dir es) /\ Fs.assoc a es = Some (Fs.File c0).
Proof.
  rewrite lookup_app. destruct (Fs.lookup n d) as [[c|es]|]; try discriminate.
  cbn [Fs.lookup]. destruct (Fs.assoc a es) as [x|] eqn:E; [| discriminate].
  intros [= ->]. now exists es.
Qed.

Lemma anonymizeTest_run (fs : Fs.t) (d : list string) (a c0 : string)
      (index : nat) (es : list (string * Fs.node)) :
  Forall (fun x => plainSeg x = true) d -> plainSeg a = true ->
  Fs.lookup (Fs.root fs) d = Some (Fs.Dir es) ->
  Fs.assoc a es = Some (Fs.File c0) ->
  a = generateTestFileName a index
  \/ Fs.assoc (generateTestFileName a index) es = None ->
  newTestFilePath (canon (d ++ [a])) index
  = canon (d ++ [generateTestFileName a index])
  /\ exists r,
       Fs.place d
         (Fs.Dir (movedEntries a (generateTestFileName a index)
                    (testFileContent index) es)) (Fs.root fs) = Some r
       /\ anonymizeTest fs (canon (d ++ [a])) index = Some (Fs.mk (Fs.cwd fs) r).
Proof.
  intros Hd Ha Hl Hassoc Hnew.
  set (b := generateTestFileName a index) in *.
  set (text := testFileContent index).
  assert (Hb : plainSeg b = true)
    by (apply (generateTestFileName_plain a index)).
  assert (Hda : Forall (fun x => plainSeg x = true) (d ++ [a]))
    by (apply Forall_app; split; [assumption | now constructor]).
  assert (Hdb : Forall (fun x => plainSeg x = true) (d ++ [b]))
    by (apply Forall_app; split; [assumption | now constructor]).
  assert (Hpath : newTestFilePath (canon (d ++ [a])) index = canon (d ++ [b])).
  { unfold newTestFilePath. rewrite dirname_canon, basename_canon by assumption.
    now apply joinPaths_canon. }
  split; [exact Hpath |].
  unfold anonymizeTest, anonymizeTestFile. fold text.
  fold (newTestFilePath (canon (d ++ [a])) index). rewrite Hpath.
  assert (Hso : Fs.lookup (Fs.root fs) (d ++ [a]) = Some (Fs.File c0)).
  { rewrite lookup_app, Hl. cbn [Fs.lookup]. now rewrite Hassoc. }
  destruct (place_exists d (Fs.Dir (Fs.setEntry a (Fs.File text) es)) _ _ Hl)
    as [r1 Hr1].
  assert (Hw : Fs.writeFileSync fs (canon (d ++ [a])) text
               = Some (Fs.mk (Fs.cwd fs) r1)).
  { unfold Fs.writeFileSync, Fs.stat, Fs.segsOf.
    rewrite resolveSegs_canon by assumption. rewrite Hso.
    now rewrite (place_snoc d a _ _ _ Hl), Hr1. }
  rewrite Hw. unfold movedEntries. cbv zeta.
  destruct (String.eqb_spec (canon (d ++ [a])) (canon (d ++ [b]))) as [E | Hne];
    cbn [negb].
  - apply canon_inj in E; try assumption. apply app_inj_tail in E as [_ E].
    rewrite <- E, String.eqb_refl. now exists r1.
  - assert (Hab : a <> b) by (intros E; apply Hne; now rewrite E).
    destruct Hnew as [Hnew | Hnew]; [congruence |].
    destruct (String.eqb_spec a b) as [E | _]; [congruence |].
    pose proof (place_lookup _ _ _ _ Hr1) as Hl1.
    assert (Ha1 : Fs.assoc a (Fs.setEntry a (Fs.File text) es)
                  = Some (Fs.File text)) by apply assoc_setEntry_same.
    destruct (place_exists d
                (Fs.Dir (Fs.removeEntry a (Fs.setEntry a (Fs.File text) es)))
                _ _ Hl1) as [r2 Hr2].
    pose proof (place_lookup _ _ _ _ Hr2) as Hl2.
    destruct (place_exists d
                (Fs.Dir (Fs.setEntry b (Fs.File text)
                           (Fs.removeEntry a (Fs.setEntry a (Fs.File text) es))))
                _ _ Hl2) as [r3 Hr3].
    exists r3. split.
    + rewrite <- (place_twice d _ _ _ _ Hr1), <- (place_twice d _ _ _ _ Hr2).
      exact Hr3.
    + unfold Fs.renameSync, Fs.segsOf. cbn [Fs.cwd Fs.root].
      rewrite !resolveSegs_canon by assumption.
      rewrite (lookup_app d [a]), Hl1. cbn [Fs.lookup]. rewrite Ha1.
      unfold Fs.eqSegs. rewrite !isPrefixSegs_snoc.
      destruct (String.eqb_spec a b) as [E | _]; [congruence |]. cbn [andb].
      rewrite (lookup_app d [b]), Hl1. cbn [Fs.lookup].
      rewrite assoc_setEntry_other, Hnew by congruence.
      rewrite (unlink_snoc d a _ _ _ Hl1 Ha1), Hr2.
      now rewrite (place_snoc d b _ _ _ Hl2), Hr3.
Qed.

Lemma textAt_file (n : Fs.node) (segs : list string) (c : string) :
  textAt n segs = Some c <-> Fs.lookup n segs = Some (Fs.File c).
Proof.
  unfold textAt. destruct (Fs.lookup n segs) as [[x|es]|]; split;
    try discriminate; now intros [= ->].
Qed.

Lemma anonymizeTest_effect (fs : Fs.t) (d : list string) (a c0 : string)
      (index : nat) :
  sound fs ->
  Forall (fun x => plainSeg x = true) d -> plainSeg a = true ->
  textAt (Fs.root fs) (d ++ [a]) = Some c0 ->
  existsAt (Fs.root fs) (d ++ [generateTestFileName a index]) = false ->
  exists fs',
    anonymizeTest fs (canon (d ++ [a])) index = Some fs'
    /\ Fs.cwd fs' = Fs.cwd fs /\ sound fs'
    /\ textAt (Fs.root fs') (d ++ [generateTestFileName a index])
       = Some (testFileContent index)
    /\ existsAt (Fs.root fs') (d ++ [a]) = false
    /\ forall q,
         q <> (d ++ [a])%list -> q <> (d ++ [generateTestFileName a index])%list ->
         textAt (Fs.root fs') q = textAt (Fs.root fs) q
         /\ existsAt (Fs.root fs') q = existsAt (Fs.root fs) q.
Proof.
  intros [Hwf Hdir] Hd Ha Hfile Hnew.
  set (b := generateTestFileName a index) in *.
  apply textAt_file in Hfile.
  destruct (lookup_file_parent d a _ c0 Hfile) as (es & Hl & Hassoc).
  assert (Hb : plainSeg b = true) by apply generateTestFileName_plain.
  assert (Hbnone : Fs.assoc b es = None).
  { unfold existsAt in Hnew. rewrite lookup_app, Hl in Hnew. cbn [Fs.lookup] in Hnew.
    now destruct (Fs.assoc b es). }
  assert (Hab : a <> b) by (intros E; rewrite <- E in Hbnone; congruence).
  destruct (anonymizeTest_run fs d a c0 index es Hd Ha Hl Hassoc (or_intror Hbnone))
    as (_ & r & Hr & Hrun).
  fold b in Hr.
  pose proof (lookup_wellFormed d _ _ Hwf Hl) as Hwfes.
  destruct (movedEntries_spec a b (testFileContent index) c0 es Hwfes Hassoc Hb
              (or_intror Hbnone)) as (Hwf' & Hatb & Hata & Hother).
  pose proof (place_lookup _ _ _ _ Hr) as Hlr.
  exists (Fs.mk (Fs.cwd fs) r). cbn [Fs.cwd Fs.root].
  split; [exact Hrun |]. split; [reflexivity |].
  split; [split; [now apply (place_wf d _ _ _ r Hwf Hl Hwf' Hr)
                 | now apply (place_isDir d _ _ r Hr)] |].
  split; [apply textAt_file; rewrite lookup_app, Hlr; cbn [Fs.lookup];
          now rewrite Hatb |].
  split; [unfold existsAt; rewrite lookup_app, Hlr; cbn [Fs.lookup];
          now rewrite (Hata Hab) |].
  intros q Hqa Hqb.
  destruct (Fs.isPrefixSegs d q) eqn:Ep;
    [| now apply (place_outside d (Fs.Dir _) _ (Fs.Dir es) r q Hl eq_refl eq_refl Hr Ep)].
  destruct (isPrefixSegs_inv _ _ Ep) as [rel ->].
  unfold textAt, existsAt. rewrite !lookup_app, Hl, Hlr.
  destruct rel as [|k rel]; [now split |]. cbn [Fs.lookup].
  destruct (string_dec k a) as [-> | Hka].
  - rewrite (Hata Hab), Hassoc. destruct rel; [congruence | now split].
  - destruct (string_dec k b) as [-> | Hkb].
    + rewrite Hatb, Hbnone. destruct rel; [congruence | now split].
    + now rewrite (Hother k Hka Hkb).
Qed.

(** ** All the test files *)

Lemma existsAt_textAt (n : Fs.node) (q : list string) (c : string) :
  textAt n q = Some c -> existsAt n q = true.
Proof. unfold textAt, existsAt. now destruct (Fs.lookup n q). Qed.

Lemma anonymizeTests_effect (items : list (list string * string)) :
  forall index fs,
    sound fs ->
    Forall (fun item => Forall (fun x => plainSeg x = true) (fst item)
                        /\ plainSeg (snd item) = true
                        /\ exists c0, textAt (Fs.root fs) (oldSegs item) = Some c0)
           items ->
    NoDup (map oldSegs items) ->
    NoDup (newSegsList items index) ->
    Forall (fun s => existsAt (Fs.root fs) s = false) (newSegsList items index) ->
    exists fs',
      anonymizeTests (map (fun item => canon (oldSegs item)) items) index fs
      = Some fs'
      /\ Fs.cwd fs' = Fs.cwd fs /\ sound fs'
      /\ (forall i item,
             nth_error items i = Some item ->
             textAt (Fs.root fs') (newSegs item (index + i))
             = Some (testFileContent (index + i))
             /\ existsAt (Fs.root fs') (oldSegs item) = false)
      /\ (forall q,
             ~ In q (map oldSegs items) -> ~ In q (newSegsList items index) ->
             textAt (Fs.root fs') q = textAt (Fs.root fs) q
             /\ existsAt (Fs.root fs') q = existsAt (Fs.root fs) q).
Proof.
  induction items as [|[d a] rest IH]; intros index fs Hs Hitems Hold Hnew Habsent.
  - exists fs. split; [reflexivity |]. split; [reflexivity |]. split; [exact Hs |].
    split; [intros [|i] item H; discriminate | now intros q _ _].
  - inversion Hitems as [|? ? (Hd & Ha & c0 & Hc0) Hrest]; subst.
    cbn [fst snd] in Hd, Ha. cbn [map newSegsList] in *.
    inversion Hold as [|? ? Hold1 Hold2]; subst.
    inversion Hnew as [|? ? Hnew1 Hnew2]; subst.
    inversion Habsent as [|? ? Habs1 Habs2]; subst.
    change (oldSegs (d, a)) with (d ++ [a])%list in *.
    change (newSegs (d, a) index) with (d ++ [generateTestFileName a index])%list in *.
    destruct (anonymizeTest_effect fs d a c0 index Hs Hd Ha Hc0 Habs1)
      as (fs1 & Hrun1 & Hcwd1 & Hs1 & Htext1 & Hgone1 & Hframe1).
    assert (Hexists : forall item, In item rest ->
                                   existsAt (Fs.root fs) (oldSegs item) = true).
    { intros item Hin. apply (proj1 (Forall_forall _ _) Hrest) in Hin
        as (_ & _ & c & Hc). now apply (existsAt_textAt _ _ c). }
    assert (Habsent' : forall q, In q (newSegsList rest (S index)) ->
                                 existsAt (Fs.root fs) q = false)
      by (apply Forall_forall; exact Habs2).
    assert (Hold_ne : forall item, In item rest ->
                                   oldSegs item <> (d ++ [a])%list
                                   /\ oldSegs item
                                      <> (d ++ [generateTestFileName a index])%list).
    { intros item Hin. split.
      - intros E. apply Hold1. rewrite <- E. now apply in_map.
      - intros E. pose proof (Hexists item Hin) as H. rewrite E in H. congruence. }
    assert (Hnew_ne : forall q, In q (newSegsList rest (S index)) ->
                                q <> (d ++ [a])%list
                                /\ q <> (d ++ [generateTestFileName a index])%list).
    { intros q Hin. split.
      - intros ->. pose proof (Habsent' _ Hin) as H.
        rewrite (existsAt_textAt _ _ c0 Hc0) in H. discriminate.
      - intros ->. now apply Hnew1. }
    destruct (IH (S index) fs1 Hs1) as (fs' & Hrun & Hcwd & Hs' & Hnth & Hframe).
    + apply Forall_forall. intros item Hin.
      pose proof (proj1 (Forall_forall _ _) Hrest item Hin) as (H1 & H2 & c & Hc).
      split; [exact H1 |]. split; [exact H2 |]. exists c.
      destruct (Hold_ne item Hin) as [Hn1 Hn2].
      now rewrite (proj1 (Hframe1 _ Hn1 Hn2)).
    + exact Hold2.
    + exact Hnew2.
    + apply Forall_forall. intros q Hin. destruct (Hnew_ne q Hin) as [Hn1 Hn2].
      rewrite (proj2 (Hframe1 _ Hn1 Hn2)). now apply Habsent'.
    + exists fs'. cbn [anonymizeTests]. rewrite Hrun1.
      split; [exact Hrun |]. split; [congruence |]. split; [exact Hs' |]. split.
      * intros [|i] item Hi; cbn [nth_error] in Hi.
        -- injection Hi as <-. rewrite Nat.add_0_r.
           change (newSegs (d, a) index)
             with (d ++ [generateTestFileName a index])%list.
           change (oldSegs (d, a)) with (d ++ [a])%list.
           assert (Hn : ~ In (d ++ [generateTestFileName a index])%list
                          (map oldSegs rest)).
           { intros Hin. apply in_map_iff in Hin as (item & E & Hin).
             destruct (Hold_ne item Hin) as [_ Hn]. congruence. }
           assert (Ho : ~ In (d ++ [a])%list (newSegsList rest (S index))).
           { intros Hin. destruct (Hnew_ne _ Hin) as [Hn1 _]. congruence. }
           rewrite (proj1 (Hframe _ Hn Hnew1)), (proj2 (Hframe _ Hold1 Ho)).
           now split.
        -- rewrite <- Nat.add_succ_comm. now apply Hnth.
      * intros q Hq1 Hq2.
        assert (Hqa : q <> (d ++ [a])%list) by (intros ->; apply Hq1; now left).
        assert (Hqb : q <> (d ++ [generateTestFileName a index])%list)
          by (intros ->; apply Hq2; now left).
        destruct (Hframe q) as [H1 H2];
          [intros Hin; apply Hq1; now right | intros Hin; apply Hq2; now right |].
        destruct (Hframe1 q Hqa Hqb) as [H3 H4]. split; congruence.
Qed.

(** ** From the paths to the segments *)

Lemma newTestFilePath_canon (d : list string) (a : string) (index : nat) :
  Forall (fun x => plainSeg x = true) d -> plainSeg a = true ->
  newTestFilePath (canon (d ++ [a])) index = canon (newSegs (d, a) index).
Proof.
  intros Hd Ha. unfold newTestFilePath, newSegs. cbn [fst snd].
  rewrite dirname_canon, basename_canon by assumption.
  apply joinPaths_canon; [assumption | apply generateTestFileName_plain].
Qed.

Lemma newSegs_plain (item : list string * string) (index : nat) :
  Forall (fun x => plainSeg x = true) (fst item) ->
  Forall (fun x => plainSeg x = true) (newSegs item index).
Proof.
  intros H. apply Forall_app. split; [assumption |].
  constructor; [apply generateTestFileName_plain | constructor].
Qed.

Lemma newSegsList_plain (items : list (list string * string)) :
  forall index,
    Forall (fun item => Forall (fun x => plainSeg x = true) (fst item)
                        /\ plainSeg (snd item) = true) items ->
    Forall (Forall (fun x => plainSeg x = true)) (newSegsList items index).
Proof.
  induction items as [|item rest IH]; intros index H; [constructor |].
  inversion H as [|? ? [H1 H2] Hrest]; subst. cbn [newSegsList].
  constructor; [now apply newSegs_plain | now apply IH].
Qed.

Lemma newTestFilePaths_canon (items : list (list string * string)) :
  forall index,
    Forall (fun item => Forall (fun x => plainSeg x = true) (fst item)
                        /\ plainSeg (snd item) = true) items ->
    newTestFilePaths (map (fun item => canon (oldSegs item)) items) index
    = map canon (newSegsList items index).
Proof.
  induction items as [|[d a] rest IH]; intros index H; [reflexivity |].
  inversion H as [|? ? [H1 H2] Hrest]; subst. cbn [fst snd] in *.
  cbn [map newTestFilePaths newSegsList]. rewrite (IH _ Hrest).
  f_equal. now apply newTestFilePath_canon.
Qed.

Lemma read_canon (fs : Fs.t) (segs : list string) :
  Forall (fun x => plainSeg x = true) segs ->
  Fs.readFileSync fs (canon segs) = textAt (Fs.root fs) segs
  /\ Fs.existsSync fs (canon segs) = existsAt (Fs.root fs) segs
  /\ Fs.segsOf fs (canon segs) = segs.
Proof.
  intros H. unfold Fs.readFileSync, Fs.existsSync, Fs.stat, Fs.segsOf, textAt, existsAt.
  now rewrite resolveSegs_canon.
Qed.

Lemma items_of (fs : Fs.t) (testFiles : list string) :
  Fs.isDir (Fs.root fs) = true ->
  (forall t, In t testFiles ->
             resolve (Fs.cwd fs) [t] = t /\ isFile fs t = true) ->
  exists items,
    testFiles = map (fun item => canon (oldSegs item)) items
    /\ Forall (fun item => Forall (fun x => plainSeg x = true) (fst item)
                           /\ plainSeg (snd item) = true
                           /\ exists c0,
                               textAt (Fs.root fs) (oldSegs item) = Some c0) items.
Proof.
  intros Hdir. induction testFiles as [|t rest IH]; intros H.
  - now exists [].
  - destruct IH as (items & -> & Hitems); [intros t' Hin; apply H; now right |].
    destruct (H t (or_introl eq_refl)) as [Hcanon Hfile].
    pose proof (resolveSegs_plain (Fs.cwd fs) [t]) as Hplain.
    rewrite resolve_canon in Hcanon.
    apply isFile_read in Hfile as [c0 Hc0].
    unfold Fs.readFileSync, Fs.stat, Fs.segsOf in Hc0.
    destruct (resolveSegs (Fs.cwd fs) [t]) as [|x l] eqn:E.
    + cbn [Fs.lookup] in Hc0. destruct (Fs.root fs); discriminate.
    + destruct (@exists_last _ (x :: l) ltac:(discriminate)) as (d & a & Eda).
      rewrite Eda in *. apply Forall_app in Hplain as [Hd Ha].
      inversion Ha as [|? ? Ha' _]; subst.
      exists ((d, a) :: items). split; [reflexivity |].
      constructor; [| exact Hitems]. cbn [fst snd]. split; [exact Hd |].
      split; [exact Ha' |]. exists c0. exact Hc0.
Qed.

(** X24 -- What the loop over the test files leaves.  Take a well-formed
    tree below a root directory and a list of distinct test files, each a
    file given by its path in normal form; let the new paths (in the
    directory of the file, under the name [generateTestFileName] gives for
    the name of the file and its position) be distinct and name nothing
    that exists.  Then the loop returns; each new path holds the text of
    [anonymizeTestFile] for the position of the file, each old path is
    gone, and every other path is as it was. *)
Theorem test_files_get_their_text_and_name (testFiles : list string)
        (index : nat) (fs : Fs.t) :
  wellFormed (Fs.root fs) = true -> Fs.isDir (Fs.root fs) = true ->
  (forall t, In t testFiles ->
             resolve (Fs.cwd fs) [t] = t /\ isFile fs t = true) ->
  NoDup testFiles ->
  NoDup (newTestFilePaths testFiles index) ->
  (forall p, In p (newTestFilePaths testFiles index) -> Fs.existsSync fs p = false) ->
  exists fs',
    anonymizeTests testFiles index fs = Some fs'
    /\ (forall i t,
           nth_error testFiles i = Some t ->
           Fs.readFileSync fs' (newTestFilePath t (index + i))
           = Some (testFileContent (index + i))
           /\ Fs.existsSync fs' t = false)
    /\ (forall q,
           (forall t, In t testFiles -> Fs.segsOf fs q <> Fs.segsOf fs t) ->
           (forall p, In p (newTestFilePaths testFiles index) ->
                      Fs.segsOf fs q <> Fs.segsOf fs p) ->
           Fs.readFileSync fs' q = Fs.readFileSync fs q
           /\ Fs.existsSync fs' q = Fs.existsSync fs q).
Proof.
  intros Hwf Hdir Hfiles Hnd Hndnew Habsent.
  destruct (items_of fs testFiles Hdir Hfiles) as (items & -> & Hitems).
  assert (Hplain : Forall (fun item => Forall (fun x => plainSeg x = true) (fst item)
                                       /\ plainSeg (snd item) = true) items).
  { apply Forall_forall. intros item Hin.
    apply (proj1 (Forall_forall _ _) Hitems) in Hin as (H1 & H2 & _). now split. }
  assert (Hold_plain : forall item, In item items ->
                                    Forall (fun x => plainSeg x = true) (oldSegs item)).
  { intros item Hin. apply (proj1 (Forall_forall _ _) Hplain) in Hin as [H1 H2].
    apply Forall_app. split; [assumption | now constructor]. }
  pose proof (newSegsList_plain items index Hplain) as Hnew_plain.
  rewrite (newTestFilePaths_canon items index Hplain) in *.
  destruct (anonymizeTests_effect items index fs (conj Hwf Hdir) Hitems)
    as (fs' & Hrun & Hcwd & _ & Hnth & Hframe).
  - rewrite <- map_map in Hnd. now apply NoDup_map_inv in Hnd.
  - now apply NoDup_map_inv in Hndnew.
  - apply Forall_forall. intros s Hs.
    pose proof (proj1 (Forall_forall _ _) Hnew_plain s Hs) as Hsp.
    rewrite <- (proj1 (proj2 (read_canon fs s Hsp))).
    apply Habsent. now apply in_map.
  - exists fs'. split; [exact Hrun |]. split.
    + intros i t Hi. rewrite nth_error_map in Hi.
      destruct (nth_error items i) as [[d a]|] eqn:Ei; [| discriminate].
      cbn [option_map] in Hi. injection Hi as <-.
      pose proof (nth_error_In _ _ Ei) as Hin.
      pose proof (proj1 (Forall_forall _ _) Hplain _ Hin) as [Hd Ha].
      cbn [fst snd] in Hd, Ha.
      destruct (Hnth i (d, a) Ei) as [H1 H2].
      unfold oldSegs at 1. cbn [fst snd].
      rewrite (newTestFilePath_canon d a (index + i) Hd Ha).
      rewrite (proj1 (read_canon fs' _ (newSegs_plain (d, a) (index + i) Hd))).
      rewrite (proj1 (proj2 (read_canon fs' _ (Hold_plain _ Hin)))).
      now split.
    + intros q Hq1 Hq2.
      destruct (Hframe (Fs.segsOf fs q)) as [H1 H2].
      * intros Hin. apply in_map_iff in Hin as (item & E & Hin).
        apply (Hq1 (canon (oldSegs item))).
        -- apply in_map_iff. now exists item.
        -- now rewrite (proj2 (proj2 (read_canon fs _ (Hold_plain _ Hin)))).
      * intros Hin.
        pose proof (proj1 (Forall_forall _ _) Hnew_plain _ Hin) as Hsp.
        apply (Hq2 (canon (Fs.segsOf fs q))); [now apply in_map |].
        now rewrite (proj2 (proj2 (read_canon fs _ Hsp))).
      * unfold Fs.readFileSync, Fs.existsSync, Fs.stat, Fs.segsOf in *.
        rewrite Hcwd. unfold textAt, existsAt in H1, H2. now split.
Qed.

Lemma test_files_get_their_text_and_name_witness :
  exists fs',
    anonymizeTests ["/p/src/calc.test.ts"; "/p/src/util/helper.test.ts"] 0
      Scenario.withTests = Some fs'
    /\ (forall i t,
           nth_error ["/p/src/calc.test.ts"; "/p/src/util/helper.test.ts"] i = Some t ->
           Fs.readFileSync fs' (newTestFilePath t (0 + i))
           = Some (testFileContent (0 + i))
           /\ Fs.existsSync fs' t = false)
    /\ (forall q,
           (forall t,
               In t ["/p/src/calc.test.ts"; "/p/src/util/helper.test.ts"] ->
               Fs.segsOf Scenario.withTests q <> Fs.segsOf Scenario.withTests t) ->
           (forall p,
               In p (newTestFilePaths
                       ["/p/src/calc.test.ts"; "/p/src/util/helper.test.ts"] 0) ->
               Fs.segsOf Scenario.withTests q <> Fs.segsOf Scenario.withTests p) ->
           Fs.readFileSync fs' q = Fs.readFileSync Scenario.withTests q
           /\ Fs.existsSync fs' q = Fs.existsSync Scenario.withTests q).
Proof.
  apply (test_files_get_their_text_and_name
           ["/p/src/calc.test.ts"; "/p/src/util/helper.test.ts"] 0
           Scenario.withTests).
  - reflexivity.
  - reflexivity.
  - intros t [<- | [<- | []]]; split; reflexivity.
  - repeat constructor; cbn [In]; intuition discriminate.
  - vm_compute. repeat constructor; cbn [In]; intuition discriminate.
  - intros p Hp. vm_compute in Hp. destruct Hp as [<- | [<- | []]]; reflexivity.
Defined.

End TestLoopFacts.

(* ===================================================================== *)
(** * The deletion of the implementation, step after step *)
(* ===================================================================== *)

Module PipelineFacts.
Import JsString Path Script Anonymizer Notions Frame Walk Prune Tests Pipeline.
Import StringFacts PathFacts FrameFacts FinderFacts CleanupFacts TestDirFacts.
Import TestLoopFacts.

(** ** Nothing new comes from a removal *)

Lemma unlink_from (segs : list string) :
  forall n n' q text,
    wellFormed n = true -> Fs.unlink segs n = Some n' ->
    textAt n' q = Some text -> textAt n q = Some text.
Proof.
  unfold textAt.
  induction segs as [|s rest IH]; intros n n' q text Hwf Hu Hq; [discriminate |].
  destruct n as [c|es]; [discriminate |]. cbn [Fs.unlink] in Hu.
  destruct (Fs.assoc s es) as [c|] eqn:Ea; [| discriminate].
  destruct (wellFormed_entry es s c Hwf (assoc_In _ _ _ Ea)) as (_ & _ & Hwfc & _).
  destruct rest as [|s2 rest2].
  - injection Hu as <-. destruct q as [|s' r]; [discriminate |].
    cbn [Fs.lookup] in *. destruct (String.eqb_spec s' s) as [-> | Hne].
    + rewrite assoc_removeEntry_same in Hq by assumption. discriminate.
    + now rewrite assoc_removeEntry_other in Hq by assumption.
  - destruct (Fs.unlink (s2 :: rest2) c) as [c'|] eqn:Eu; [| discriminate].
    injection Hu as <-. destruct q as [|s' r]; [discriminate |].
    cbn [Fs.lookup] in *. destruct (String.eqb_spec s' s) as [-> | Hne].
    + rewrite assoc_setEntry_same in Hq. rewrite Ea.
      now apply (IH c c' r text Hwfc Eu).
    + now rewrite assoc_setEntry_other in Hq by assumption.
Qed.

Lemma unlink_thinned (fs : Fs.t) (p : string) (r : Fs.node) :
  Fs.unlink (Fs.segsOf fs p) (Fs.root fs) = Some r ->
  thinned fs (Fs.mk (Fs.cwd fs) r).
Proof.
  intros Hu. split; [exact (proj1 (unlink_pruned fs p r Hu)) |].
  intros [Hwf _] q text. unfold Fs.readFileSync, Fs.stat, Fs.segsOf.
  cbn [Fs.cwd Fs.root].
  apply (unlink_from _ _ _ (resolveSegs (Fs.cwd fs) [q]) text Hwf Hu).
Qed.

Lemma thinned_refl (fs : Fs.t) : thinned fs fs.
Proof. split; [apply pruned_refl | now intros _ q text]. Qed.

Lemma thinned_trans (fs1 fs2 fs3 : Fs.t) :
  thinned fs1 fs2 -> thinned fs2 fs3 -> thinned fs1 fs3.
Proof.
  intros [Hp1 Hf1] [Hp2 Hf2]. split; [now apply (pruned_trans fs1 fs2 fs3) |].
  intros Hs q text Hq. apply (Hf1 Hs). apply Hf2; [now apply Hp1 | exact Hq].
Qed.

Lemma rmdirSync_thinned (fs fs' : Fs.t) (p : string) :
  rmdirSync fs p = Some fs' -> thinned fs fs'.
Proof.
  unfold rmdirSync. destruct (Fs.stat fs p) as [[c|[|e es]]|]; try discriminate.
  destruct (Fs.unlink _ _) as [r|] eqn:Eu; [| discriminate].
  intros [= <-]. now apply (unlink_thinned fs p).
Qed.

Lemma deleteFile_thinned (fs fs1 : Fs.t) (p : string) (deleted : bool) :
  deleteFile fs p = (fs1, deleted) -> thinned fs fs1.
Proof.
  unfold deleteFile, unlinkSync.
  destruct (Fs.stat fs p) as [[c|es]|];
    try (intros [= <- <-]; apply thinned_refl).
  destruct (Fs.unlink _ _) as [r|] eqn:Eu; intros [= <- <-];
    [now apply (unlink_thinned fs p) | apply thinned_refl].
Qed.

Lemma deleteSources_thinned (absolutePackagePath : string) :
  forall sourceFiles fs deletedCount fs' deletedCount',
    deleteSources absolutePackagePath sourceFiles fs deletedCount
    = Done (fs', deletedCount') ->
    thinned fs fs'.
Proof.
  induction sourceFiles as [|p rest IH]; intros fs n fs' n' H.
  - injection H as <- <-. apply thinned_refl.
  - cbn [deleteSources] in H.
    destruct (endsWith p ".test.ts" || endsWith p ".spec.ts");
      [now apply (IH _ _ _ _ H) |].
    destruct (String.eqb (basename p) "vitest.config.ts");
      [now apply (IH _ _ _ _ H) |].
    destruct (negb (Fs.existsSync fs p)); [now apply (IH _ _ _ _ H) |].
    destruct (deleteFile fs p) as [fs1 deleted] eqn:Ed.
    pose proof (deleteFile_thinned _ _ _ _ Ed) as H1.
    destruct deleted.
    + destruct (removeEmptyDirectories_climb thinned thinned_refl thinned_trans
                  (fun a q b => rmdirSync_thinned a b q)
                  (String.length (dirname p) + 2) fs1 (dirname p)
                  absolutePackagePath (Nat.le_refl _)) as (fs2 & Hr & H2).
      rewrite Hr in H. apply (thinned_trans fs fs1 fs'); [assumption |].
      apply (thinned_trans fs1 fs2 fs'); [assumption | now apply (IH _ _ _ _ H)].
    + apply (thinned_trans fs fs1 fs'); [assumption | now apply (IH _ _ _ _ H)].
Qed.

(** ** The tree without its test directories *)

Lemma entriesWithoutTests_names (es : list (string * Fs.node)) (k : string) :
  In k (map fst (entriesWithoutTests es)) -> In k (map fst es).
Proof.
  induction es as [|[k0 c0] es IH]; [now intros |].
  rewrite entriesWithoutTests_cons. cbn [map fst].
  destruct c0 as [text|esc].
  - cbn [map fst]. intros [<- | H]; [now left | right; now apply IH].
  - destruct (String.eqb k0 "test"); [intros H; right; now apply IH |].
    destruct (keptFromTestDeletion k0); cbn [map fst];
      (intros [<- | H]; [now left | right; now apply IH]).
Qed.

Lemma withoutTests_wf (h : nat) :
  forall n, height n <= h -> wellFormed n = true -> wellFormed (withoutTests n) = true.
Proof.
  induction h as [|h IH]; intros n Hh Hwf.
  - destruct n as [text|es]; [reflexivity |]. pose proof (height_Dir_pos es). lia.
  - destruct n as [text|es]; [reflexivity |]. rewrite withoutTests_Dir.
    induction es as [|[k c] es IHes]; [reflexivity |].
    destruct (wellFormed_inv _ _ _ Hwf) as (Hk & Hfresh & Hc & Hes).
    assert (Hrest : wellFormed (Fs.Dir (entriesWithoutTests es)) = true).
    { apply IHes; [| assumption].
      pose proof (height_Dir_pos es). rewrite height_cons in Hh. lia. }
    assert (Hfresh' : existsb (String.eqb k) (map fst (entriesWithoutTests es))
                      = false).
    { destruct (existsb _ (map fst (entriesWithoutTests es))) eqn:E; [| reflexivity].
      apply existsb_exists in E as (x & Hx & Hkx).
      assert (existsb (String.eqb k) (map fst es) = true); [| congruence].
      apply existsb_exists. exists x. split; [| assumption].
      now apply entriesWithoutTests_names. }
    rewrite entriesWithoutTests_cons.
    assert (Hkeep : forall c',
               wellFormed c' = true ->
               wellFormed (Fs.Dir ((k, c') :: entriesWithoutTests es)) = true)
      by (intros c' Hc'; now rewrite wellFormed_cons, Hk, Hfresh', Hc', Hrest).
    destruct c as [text|esc]; [now apply Hkeep |].
    destruct (String.eqb k "test"); [exact Hrest |].
    destruct (keptFromTestDeletion k); [now apply Hkeep |].
    apply Hkeep, IH; [| assumption].
    pose proof (height_entry ((k, Fs.Dir esc) :: es) k (Fs.Dir esc)
                  (or_introl eq_refl)). lia.
Qed.

(** A file of the pruned tree that a finder of source files can reach was
    a file of the tree. *)
Lemma lookup_withoutTests_from (rel : list string) :
  forall n dirs name content,
    rel = (dirs ++ [name])%list ->
    Forall (fun d => skipsOfSources d = false) dirs -> name <> "test" ->
    Fs.lookup (withoutTests n) rel = Some (Fs.File content) ->
    Fs.lookup n rel = Some (Fs.File content).
Proof.
  induction rel as [|k rel IH]; intros n dirs name content Hrel Hd Hn Hl;
    [now destruct dirs |].
  destruct n as [text|es]; [discriminate |].
  rewrite withoutTests_Dir in Hl. cbn [Fs.lookup] in *.
  assert (Hk : k <> "test").
  { destruct dirs as [|d dirs]; cbn [app] in Hrel; injection Hrel as -> _;
      [assumption |].
    inversion Hd as [|? ? Hskip _]; subst. unfold skipsOfSources in Hskip.
    intros ->. now rewrite orb_true_r in Hskip. }
  rewrite (assoc_entriesWithoutTests k es Hk) in Hl.
  destruct (Fs.assoc k es) as [[text|esc]|]; [exact Hl | | discriminate].
  destruct dirs as [|d dirs]; cbn [app] in Hrel; injection Hrel as -> ->.
  - destruct (keptFromTestDeletion name); cbn [Fs.lookup] in Hl; discriminate.
  - inversion Hd as [|? ? Hskip Hd']; subst.
    destruct (keptFromTestDeletion d); [exact Hl |].
    now apply (IH _ dirs name content).
Qed.

(** ** From the finder to the finder *)

Lemma walk_Done_dir (skip accept : string -> bool) (fuel : nat) (fs : Fs.t)
      (dir : string) (found l : list string) :
  walk skip accept fuel fs dir found = Done l ->
  exists es, Fs.stat fs dir = Some (Fs.Dir es).
Proof.
  destruct fuel as [|fuel]; [discriminate |]. cbn [walk]. unfold Fs.readdirSync.
  destruct (Fs.stat fs dir) as [[c|es]|]; try discriminate. intros _. now exists es.
Qed.

Lemma read_exists (fs : Fs.t) (p text : string) :
  Fs.readFileSync fs p = Some text -> Fs.existsSync fs p = true.
Proof.
  unfold Fs.readFileSync, Fs.existsSync. now destruct (Fs.stat fs p) as [[c|es]|].
Qed.

(** X26 -- No source file is left.  Take a file system with a well-formed
    tree below a root directory, a package path that resolves to a
    directory, and the list [findSourceFiles] returns for it.  Then
    [deleteTestDirectories] returns (the fuel covering the height of the
    tree), the deletion loop of [main] run on the list afterwards returns,
    and on the file system they leave [findSourceFiles] reports nothing:
    whenever it returns, its list is empty. *)
Theorem no_source_file_is_left (fuel1 fuel2 : nat) (fs : Fs.t)
        (packagePath : string) (es : list (string * Fs.node))
        (sourceFiles : list string) :
  wellFormed (Fs.root fs) = true -> Fs.isDir (Fs.root fs) = true ->
  Fs.stat fs (resolve (Fs.cwd fs) [packagePath]) = Some (Fs.Dir es) ->
  height (Fs.root fs) <= fuel2 ->
  findSourceFiles fuel1 fs (resolve (Fs.cwd fs) [packagePath]) [] = Done sourceFiles ->
  exists fs1 fs2 deletedCount,
    deleteTestDirectories fuel2 fs (resolve (Fs.cwd fs) [packagePath]) = Done fs1
    /\ deleteSources (resolve (Fs.cwd fs) [packagePath]) sourceFiles fs1 0
       = Done (fs2, deletedCount)
    /\ forall fuel3 l,
         findSourceFiles fuel3 fs2 (resolve (Fs.cwd fs) [packagePath]) [] = Done l ->
         l = [].
Proof.
  intros Hwf0 Hdir0 Hstat Hh Hfind.
  set (segs := resolveSegs (Fs.cwd fs) [packagePath]).
  pose proof (resolveSegs_plain (Fs.cwd fs) [packagePath]) as Hsegs. fold segs in Hsegs.
  pose proof (root_lookup fs packagePath es Hstat) as Hl. fold segs in Hl.
  pose proof (lookup_wellFormed _ _ _ Hwf0 Hl) as Hwf.
  pose proof (lookup_height _ _ _ Hl) as Hhes.
  destruct (deleteTestDirectories_exact fuel2 fs segs es Hsegs Hl Hwf ltac:(lia))
    as (r1 & Hr1 & Hrun1).
  set (fs1 := Fs.mk (Fs.cwd fs) r1) in *.
  assert (Hs1 : sound fs1).
  { split; cbn [fs1 Fs.root].
    - apply (place_wf segs (withoutTests (Fs.Dir es)) _ _ r1 Hwf0 Hl); [| exact Hr1].
      now apply (withoutTests_wf (height (Fs.Dir es))).
    - rewrite withoutTests_Dir in Hr1. now apply (place_isDir segs _ _ r1 Hr1). }
  destruct (deleteSources_effect (resolve (Fs.cwd fs) [packagePath]) sourceFiles fs1 0)
    as (fs2 & n & Hrun2 & _ & _ & Hp2 & Hdel).
  pose proof (deleteSources_thinned _ _ _ _ _ _ Hrun2) as [_ Hfrom].
  specialize (Hfrom Hs1). specialize (Hdel Hs1).
  assert (Hcwd2 : Fs.cwd fs2 = Fs.cwd fs) by apply Hp2.
  assert (Hs2 : sound fs2) by (now apply Hp2).
  exists fs1, fs2, n. rewrite resolve_canon at 1. fold segs.
  split; [exact Hrun1 |]. split; [exact Hrun2 |].
  intros fuel3 l Hfind2.
  rewrite findSourceFiles_walk in Hfind, Hfind2.
  destruct (walk_Done_dir _ _ _ _ _ _ _ Hfind2) as [es2 Hstat2].
  rewrite <- Hcwd2 in Hfind2, Hstat2.
  pose proof (root_lookup fs2 packagePath es2 Hstat2) as Hl2.
  pose proof (lookup_wellFormed _ _ _ (proj1 Hs2) Hl2) as Hwf2.
  pose proof (walk_reports _ _ fs2 packagePath es2 Hstat2 Hwf2 fuel3 l Hfind2) as Hl2iff.
  pose proof (walk_reports _ _ fs packagePath es Hstat Hwf fuel1 _ Hfind) as Hliff.
  destruct l as [|p l']; [reflexivity |]. exfalso.
  destruct (proj1 (Hl2iff p) (or_introl eq_refl)) as (rel & Hp & Hrel).
  rewrite segsOf_resolve, Hcwd2 in Hp. rewrite Hcwd2 in Hl2. fold segs in Hp, Hl2.
  destruct Hrel as (dirs & name & content & Hreleq & Hlook & Hdirs & Hname).
  pose proof (lookup_plain _ _ _ Hwf2 Hlook) as Hrelplain.
  assert (Hall : Forall (fun x => plainSeg x = true) (segs ++ rel))
    by (apply Forall_app; now split).
  assert (Hread2 : Fs.readFileSync fs2 p = Some content).
  { rewrite Hp, (proj1 (read_canon fs2 _ Hall)). apply textAt_file.
    now rewrite lookup_app, Hl2. }
  pose proof (Hfrom _ _ Hread2) as Hread1.
  assert (Hne : name <> "test") by (intros ->; discriminate).
  assert (Hlook0 : Fs.lookup (Fs.Dir es) rel = Some (Fs.File content)).
  { apply (lookup_withoutTests_from rel _ dirs name content Hreleq Hdirs Hne).
    rewrite Hp, (proj1 (read_canon fs1 _ Hall)) in Hread1.
    apply textAt_file in Hread1. cbn [fs1 Fs.root] in Hread1.
    now rewrite lookup_app, (place_lookup _ _ _ _ Hr1) in Hread1. }
  assert (Hreported : reported skipsOfSources sourceName (Fs.Dir es) rel)
    by (now exists dirs, name, content).
  assert (Hin : In p sourceFiles).
  { apply Hliff. exists rel. split; [| exact Hreported].
    now rewrite segsOf_resolve. }
  destruct (reported_path _ _ fs packagePath es Hstat Hwf rel Hreported)
    as (name' & Hacc & _ & Hbase & Hend).
  fold segs in Hbase, Hend. rewrite <- Hp in Hbase, Hend.
  unfold sourceName in Hacc.
  apply andb_prop in Hacc as [Hacc H4]. apply andb_prop in Hacc as [Hacc H3].
  apply andb_prop in Hacc as [_ H2]. apply negb_true_iff in H2, H3, H4.
  assert (Hgone : Fs.existsSync fs2 p = false).
  { apply Hdel; [exact Hin | | |].
    - apply isFile_read. now exists content.
    - now rewrite !Hend, H2, H3 by reflexivity.
    - now rewrite Hbase. }
  rewrite (read_exists _ _ _ Hread2) in Hgone. discriminate.
Qed.

Lemma no_source_file_is_left_witness :
  exists fs1 fs2 deletedCount,
    deleteTestDirectories 5 Scenario.withTests "/p" = Done fs1
    /\ deleteSources "/p" ["/p/src/index.ts"; "/p/src/calc.ts"; "/p/src/util/helper.ts"]
         fs1 0 = Done (fs2, deletedCount)
    /\ forall fuel3 l, findSourceFiles fuel3 fs2 "/p" [] = Done l -> l = [].
Proof.
  destruct (Fs.stat Scenario.withTests (resolve "/" ["p"])) as [[text|es]|] eqn:E;
    try (vm_compute in E; discriminate).
  apply (no_source_file_is_left 4 5 Scenario.withTests "p" es _
           eq_refl eq_refl E); [vm_compute; lia | reflexivity].
Defined.

End PipelineFacts.
